(** * PIGO: the COO loader, converter and binary codec

    A shallow embedding of [pigo.impl.hpp] (the byte cursor [FileReader], the
    memory mapped [File]) and of [coo.impl.hpp] (the two-pass edge list
    parser, the MatrixMarket preamble, the CSR conversion, the binary
    save/load), followed by the properties of the specification that are
    settled against it. *)

From Stdlib Require Import ZArith List Ascii String Lia Bool.
From stdpp Require Import base list strings.
Import ListNotations.

Local Open Scope nat_scope.

(** ** Characters

    A [char] of the mapped file is an [ascii]; the comparisons of the source
    ([*d < '0' || *d > '9'], [*d == '%']) are taken on its code. *)

Definition chr (n : nat) : ascii := ascii_of_nat n.
Definition code (c : ascii) : nat := nat_of_ascii c.

Definition NL : ascii := chr 10.
Definition CR : ascii := chr 13.
Definition TAB : ascii := chr 9.
Definition SP : ascii := chr 32.

Definition is_digit (c : ascii) : bool := (48 <=? code c) && (code c <=? 57).
Definition is_comment (c : ascii) : bool := Ascii.eqb c "%" || Ascii.eqb c "#".
Definition is_space_tab (c : ascii) : bool := Ascii.eqb c SP || Ascii.eqb c TAB.
Definition is_nl (c : ascii) : bool := Ascii.eqb c NL.
Definition is_word_end (c : ascii) : bool :=
  Ascii.eqb c SP || Ascii.eqb c TAB || Ascii.eqb c CR || Ascii.eqb c NL.
Definition is_fp_char (c : ascii) : bool :=
  is_digit c || Ascii.eqb c "e" || Ascii.eqb c "E" || Ascii.eqb c "-"
  || Ascii.eqb c "+" || Ascii.eqb c ".".
Definition is_sign (c : ascii) : bool := Ascii.eqb c "+" || Ascii.eqb c "-".

(** [*d - '0'] for a digit. *)
Definition digit_val (c : ascii) : Z := Z.of_nat (code c) - 48.

Definition bytes_of (s : string) : list ascii := list_ascii_of_string s.

(** ** Integer types

    The template parameters [L], [O] (and an integral [W]) are machine
    integers: a width in bytes and a signedness.  Values are integers of
    [Z]; arithmetic in the type wraps. *)

Record IntType : Type := mkInt { bytes : nat; signed : bool }.

Definition modulus (T : IntType) : Z := 2 ^ (8 * Z.of_nat (bytes T)).

Definition wrap (T : IntType) (z : Z) : Z :=
  if signed T
  then (z + modulus T / 2) mod modulus T - modulus T / 2
  else z mod modulus T.

Definition uint8_t : IntType := mkInt 1 false.
Definition uint32_t : IntType := mkInt 4 false.
Definition uint64_t : IntType := mkInt 8 false.
Definition int32_t : IntType := mkInt 4 true.

(** The product [2*m] of the literal 2, an [int] (of four bytes), and a
    value [m] of the type [T], as the usual arithmetic conversions have
    it: a type narrower than [int] is promoted to [int], in which the
    product of the literal and a value of the type always fits; an
    unsigned type at least as wide as [int] wraps; a signed type at least
    as wide has the product where it fits the type, and an overflow is
    undefined in the source (what is proved of such a product assumes
    that it fits). *)
Definition twice (T : IntType) (m : Z) : Z :=
  if (bytes T <? 4) || signed T then (2 * m)%Z else wrap T (2 * m).

(** ** The byte cursor [FileReader]

    The mapped region is the list of the file's bytes; [d] and [end_] are
    offsets from its base.  Several scanners dereference [d] without
    comparing it to [end] first; a read at or beyond the last byte of the
    mapping yields the zero fill of the mapping's last page. *)

Record FileReader : Type := mkReader { d : nat; end_ : nat }.

(** Modelled from the spec: [good() = pos < end]. *)
Definition good (r : FileReader) : bool := d r <? end_ r.

(** Modelled from the spec: the bytes remaining before [end]. *)
Definition size (r : FileReader) : nat := end_ r - d r.

(** Modelled from the spec: [advance(n)], the cursor moved [n] bytes on
    ([operator+] of the reader). *)
Definition advance (r : FileReader) (n : nat) : FileReader :=
  mkReader (d r + n) (end_ r).

(** Modelled from the spec: [set_end_min(other)] shrinks [end] to the
    position of the other cursor when that is smaller ([smaller_end]). *)
Definition smaller_end (r rhs : FileReader) : FileReader :=
  mkReader (d r) (if d rhs <? end_ r then d rhs else end_ r).

Definition set_d (r : FileReader) (p : nat) : FileReader := mkReader p (end_ r).

Section Scanner.
Variable data : list ascii.

(** [*p] *)
Definition at_ (p : nat) : ascii := nth p data zero.

(** [while (d < end && c( *d)) ++d;] started with [fuel = end - d]. *)
Fixpoint advance_while (c : ascii -> bool) (fuel p : nat) : nat :=
  match fuel with
  | 0 => p
  | S fuel' => if c (at_ p) then advance_while c fuel' (S p) else p
  end.

Definition skip_while (c : ascii -> bool) (r : FileReader) : FileReader :=
  set_d r (advance_while c (end_ r - d r) (d r)).

(** [while (d < end && ( *d++ != '\n')) { }]: the cursor ends one past the
    next newline, or at [end]. *)
Fixpoint past_eol (fuel p : nat) : nat :=
  match fuel with
  | 0 => p
  | S fuel' => if is_nl (at_ p) then S p else past_eol fuel' (S p)
  end.

Fixpoint skip_comments_loop (fuel e p : nat) : nat :=
  match fuel with
  | 0 => p
  | S fuel' =>
      if (p <? e) && is_comment (at_ p)
      then skip_comments_loop fuel' e (past_eol (e - p) p)
      else p
  end.

Definition skip_comments (r : FileReader) : FileReader :=
  set_d r (skip_comments_loop (end_ r - d r) (end_ r) (d r)).

Definition skip_space_tab (r : FileReader) : FileReader :=
  skip_while is_space_tab r.

Fixpoint read_word_loop (fuel p : nat) (res : list ascii) : list ascii * nat :=
  match fuel with
  | 0 => (res, p)
  | S fuel' =>
      if negb (is_word_end (at_ p))
      then read_word_loop fuel' (S p) (res ++ [at_ p])
      else (res, p)
  end.

Definition read_word (r : FileReader) : list ascii * FileReader :=
  let '(w, p) := read_word_loop (end_ r - d r) (d r) [] in (w, set_d r p).

(** The digit loop of [read_int<T>]; [T] is the integer type of the
    result, in which [res*10 + ( *d - '0')] wraps. *)
Fixpoint read_digits (T : IntType) (fuel p : nat) (res : Z) : Z * nat :=
  match fuel with
  | 0 => (res, p)
  | S fuel' =>
      if is_digit (at_ p)
      then read_digits T fuel' (S p) (wrap T (res * 10 + digit_val (at_ p)))
      else (res, p)
  end.

Definition read_int (T : IntType) (r : FileReader) : Z * FileReader :=
  let p := advance_while (fun c => negb (is_digit c)) (end_ r - d r) (d r) in
  let '(res, p') := read_digits T (end_ r - p) p 0%Z in
  (res, set_d r p').

(** Modelled from the spec: [read_signed] takes an optional leading sign
    and negates the unsigned value when it is [-]; [read_sign<T>] is the
    factor, the digits that follow are left to [read_int]. *)
Definition read_sign (r : FileReader) : Z :=
  if Ascii.eqb (at_ (d r)) "-" then (-1)%Z else 1%Z.

Definition move_to_non_int (r : FileReader) : FileReader := skip_while is_digit r.
Definition move_to_non_fp (r : FileReader) : FileReader := skip_while is_fp_char r.
Definition move_to_fp (r : FileReader) : FileReader :=
  skip_while (fun c => negb (is_fp_char c)) r.
Definition move_to_eol (r : FileReader) : FileReader :=
  skip_while (fun c => negb (is_nl c)) r.

(** [if ( *d == '%' || *d == '#') skip_comments();] *)
Definition skip_if_comment (r : FileReader) : FileReader :=
  if is_comment (at_ (d r)) then skip_comments r else r.

(** The loop of [move_to_first_int] (with [stop = is_digit]) and of
    [move_to_next_signed_int] (with [stop] a digit or a sign). *)
Fixpoint seek_loop (stop : ascii -> bool) (fuel : nat) (r : FileReader) : FileReader :=
  match fuel with
  | 0 => r
  | S fuel' =>
      if good r && negb (stop (at_ (d r)))
      then seek_loop stop fuel' (skip_if_comment (set_d r (S (d r))))
      else r
  end.

Definition move_to_first_int (r : FileReader) : FileReader :=
  let r1 := skip_if_comment r in
  seek_loop is_digit (size r1) r1.

Definition move_to_next_int (r : FileReader) : FileReader :=
  move_to_first_int (move_to_non_int r).

Definition move_to_next_signed_int (r : FileReader) : FileReader :=
  let r0 := if is_sign (at_ (d r)) then set_d r (S (d r)) else r in
  let r1 := skip_if_comment (move_to_non_int r0) in
  seek_loop (fun c => is_digit c || is_sign c) (size r1) r1.

(** [at_str]: the comparison is refused unless the string ends strictly
    before [end]. *)
Definition at_str (s : list ascii) (r : FileReader) : bool :=
  if end_ r <=? d r + length s then false
  else bool_decide (map at_ (seq (d r) (length s)) = s).

(** [FileReader::read(std::string)] *)
Definition read_str (s : list ascii) (r : FileReader) : bool * FileReader :=
  let comp := at_str s r in
  (comp, if comp then set_d r (d r + length s) else r).

End Scanner.

(** ** Floating point weights

    [read_fp<T>] computes in the floating point type [T].  Its arithmetic
    is kept abstract: one operation per arithmetic statement of the source.
    The movement of the cursor does not depend on it. *)

Class FloatOps (F : Type) : Type := {
  f_zero : F;                       (* [T res = 0.0] *)
  f_push_digit : F -> Z -> F;       (* [res*10. + (T)( *d-'0')] *)
  f_add_fraction : F -> F -> nat -> F;
                                    (* [res + fraction / std::pow(10., fraction_count)] *)
  f_scale_pow10 : F -> F -> F;      (* [res * std::pow(10., exp)] *)
  f_negate : F -> F                 (* [res * -1] *)
}.

Section ReadFp.
Variable data : list ascii.
Context {F : Type} {ops : FloatOps F}.

(** [while (d < end && digit( *d)) { acc = acc*10. + ...; ++d; ++count; }] *)
Fixpoint fp_digits (fuel p : nat) (acc : F) (count : nat) : F * nat * nat :=
  match fuel with
  | 0 => (acc, count, p)
  | S fuel' =>
      if is_digit (at_ data p)
      then fp_digits fuel' (S p) (f_push_digit acc (digit_val (at_ data p))) (S count)
      else (acc, count, p)
  end.

(** [read_fp<T>]; the recursion reads the exponent.  Each level of the
    recursion has consumed an [e] of the mapping, so [fuel] beyond the
    number of bytes left in the mapping is never used up. *)
Fixpoint read_fp_rec (fuel : nat) (r : FileReader) : F * FileReader :=
  match fuel with
  | 0 => (f_zero, r)
  | S fuel' =>
      let e := end_ r in
      let p0 := advance_while data (fun c => negb (is_fp_char c)) (e - d r) (d r) in
      let '(positive, p1) :=
        if Ascii.eqb (at_ data p0) "-" then (false, S p0)
        else if Ascii.eqb (at_ data p0) "+" then (true, S p0)
        else (true, p0) in
      let '(res, _, p2) := fp_digits (e - p1) p1 f_zero 0 in
      let '(res, p3) :=
        if Ascii.eqb (at_ data p2) "."
        then let '(fraction, fraction_count, p) := fp_digits (e - S p2) (S p2) f_zero 0 in
             (f_add_fraction res fraction fraction_count, p)
        else (res, p2) in
      let '(res, p4) :=
        if Ascii.eqb (at_ data p3) "e" || Ascii.eqb (at_ data p3) "E"
        then let '(exp, r') := read_fp_rec fuel' (set_d r (S p3)) in
             (f_scale_pow10 res exp, d r')
        else (res, p3) in
      (if positive then res else f_negate res, set_d r p4)
  end.

Definition read_fp (r : FileReader) : F * FileReader :=
  read_fp_rec (S (length data - d r)) r.
End ReadFp.

(** ** Reading or skipping a weight

    [read_wgt_i_] is specialised on the arithmetic class of [W] and on
    [counting]; a weight type is given here by the pair of its two
    specialisations. *)

Record WeightReader (W : Type) : Type := mkWeightReader {
  (** [read_wgt_i_<true, ..., true>::op_]: the cursor after the call *)
  wgt_count : list ascii -> FileReader -> FileReader;
  (** [read_wgt_i_<true, ..., false>::op_]: the value stored at
      [coord_pos] and the cursor after the call *)
  wgt_set : list ascii -> FileReader -> W * FileReader
}.
Arguments wgt_count {W}.
Arguments wgt_set {W}.

(** [W] a signed integral type *)
Definition signed_weight (T : IntType) : WeightReader Z :=
  {| wgt_count := fun data r => move_to_next_signed_int data r;
     wgt_set := fun data r =>
       let r1 := move_to_next_signed_int data r in
       let sign := read_sign data r1 in
       let '(v, r2) := read_int data T r1 in
       (wrap T (v * sign), r2) |}.

(** [W] an unsigned integral type *)
Definition unsigned_weight (T : IntType) : WeightReader Z :=
  {| wgt_count := fun data r => move_to_next_int data r;
     wgt_set := fun data r => read_int data T (move_to_next_int data r) |}.

(** [W] a floating point type *)
Definition float_weight {F : Type} {ops : FloatOps F} : WeightReader F :=
  {| wgt_count := fun data r => move_to_non_fp data (move_to_fp data r);
     wgt_set := fun data r =>
       let '(val, r1) := read_fp data (move_to_fp data r) in
       (val, move_to_non_fp data r1) |}.

(** ** The COO object

    [nrows_], [ncols_], [n_], [m_] and the three arrays [x_], [y_], [w_] are
    the members of the class.  [set_value_] does not check its index: every
    call is recorded in [trace] (which is not a member of the class), and a
    store outside the array leaves the array as it is. *)

Inductive store_event : Type :=
| StoreX (i : nat)
| StoreY (i : nat)
| StoreW (i : nat).

Record COO (W : Type) : Type := mkCOO {
  nrows_ : Z;
  ncols_ : Z;
  n_ : Z;
  m_ : Z;
  x_ : list Z;
  y_ : list Z;
  w_ : list W;
  trace : list store_event
}.
Arguments mkCOO {W}.
Arguments nrows_ {W}.
Arguments ncols_ {W}.
Arguments n_ {W}.
Arguments m_ {W}.
Arguments x_ {W}.
Arguments y_ {W}.
Arguments w_ {W}.
Arguments trace {W}.

Section SetValue.
Context {W : Type}.

(** Modelled from the spec: [detail::set_value_(x_, i, v)] (and the same
    for [y_] and [w_]), whose definition is not among the sources: a store
    at index [i] of the array.  The [trace] records the store; a store
    beyond the array, undefined in C++, leaves the array as it is and is
    recorded all the same. *)
Definition set_x (c : COO W) (i : nat) (v : Z) : COO W :=
  mkCOO (nrows_ c) (ncols_ c) (n_ c) (m_ c)
        (<[i := v]> (x_ c)) (y_ c) (w_ c) (trace c ++ [StoreX i]).
Definition set_y (c : COO W) (i : nat) (v : Z) : COO W :=
  mkCOO (nrows_ c) (ncols_ c) (n_ c) (m_ c)
        (x_ c) (<[i := v]> (y_ c)) (w_ c) (trace c ++ [StoreY i]).
Definition set_w (c : COO W) (i : nat) (v : W) : COO W :=
  mkCOO (nrows_ c) (ncols_ c) (n_ c) (m_ c)
        (x_ c) (y_ c) (<[i := v]> (w_ c)) (trace c ++ [StoreW i]).

(** [set_value_(w_, i, get_value_<WS, W>(w_, i-1))] *)
Definition copy_w (c : COO W) (i : nat) : COO W :=
  match w_ c !! (i - 1) with
  | Some w => set_w c i w
  | None => mkCOO (nrows_ c) (ncols_ c) (n_ c) (m_ c)
                  (x_ c) (y_ c) (w_ c) (trace c ++ [StoreW i])
  end.

(** What the allocator leaves in the fresh arrays. *)
Record Junk : Type := mkJunk { jx : nat -> Z; jy : nat -> Z; jw : nat -> W }.

(** [allocate_]: three arrays of [m_] elements ([w_] stays empty without
    [wgt]).  Modelled from the spec: [detail::allocate_mem_], not among the
    sources, hands out arrays that are not initialised ([junk]). *)
Definition allocate_ (wgt : bool) (junk : Junk) (c : COO W) : COO W :=
  let m := Z.to_nat (m_ c) in
  mkCOO (nrows_ c) (ncols_ c) (n_ c) (m_ c)
        (map (jx junk) (seq 0 m)) (map (jy junk) (seq 0 m))
        (if wgt then map (jw junk) (seq 0 m) else []) (trace c).

(** Modelled from the spec: [free()], called by [read_mm_] before it
    throws and not among the sources, releases the three arrays. *)
Definition free (c : COO W) : COO W :=
  mkCOO (nrows_ c) (ncols_ c) (n_ c) (m_ c) [] [] [] (trace c).

Definition set_m (c : COO W) (m : Z) : COO W :=
  mkCOO (nrows_ c) (ncols_ c) (n_ c) m (x_ c) (y_ c) (w_ c) (trace c).
Definition set_n (c : COO W) (n : Z) : COO W :=
  mkCOO (nrows_ c) (ncols_ c) n (m_ c) (x_ c) (y_ c) (w_ c) (trace c).
Definition set_nrows (c : COO W) (v : Z) : COO W :=
  mkCOO v (ncols_ c) (n_ c) (m_ c) (x_ c) (y_ c) (w_ c) (trace c).
Definition set_ncols (c : COO W) (v : Z) : COO W :=
  mkCOO (nrows_ c) v (n_ c) (m_ c) (x_ c) (y_ c) (w_ c) (trace c).

(** An object before its constructor has run. *)
Definition fresh : COO W := mkCOO 0 0 0 0 [] [] [] [].
End SetValue.
Arguments Junk : clear implicits.

(** ** Reading one coordinate entry (the four specialisations of
    [read_coord_entry_i_]) and the two passes of [read_el_] *)

Record PState (W : Type) : Type := mkPState {
  this : COO W;
  coord_pos : nat;
  rd : FileReader;
  max_row : Z;
  max_col : Z
}.
Arguments mkPState {W}.
Arguments this {W}.
Arguments coord_pos {W}.
Arguments rd {W}.
Arguments max_row {W}.
Arguments max_col {W}.

Section Parser.
Variable data : list ascii.
Variables sym ut sl wgt : bool.
Variables L O : IntType.
Context {W : Type}.
Variable wr : WeightReader W.

(** [read_wgt_<wgt, W, WS, true>] *)
Definition read_wgt_count (r : FileReader) : FileReader :=
  if wgt then wgt_count wr data r else r.

(** [read_wgt_<wgt, W, WS, false>] *)
Definition read_wgt_set (c : COO W) (pos : nat) (r : FileReader) : COO W * FileReader :=
  if wgt
  then let '(val, r') := wgt_set wr data r in (set_w c pos val, r')
  else (c, r).

(** Count-only implementation of reading a coord entry.  A call that
    recurses has moved the cursor on, so [fuel = size r + 1] is enough. *)
Fixpoint read_coord_entry_count (fuel pos : nat) (r : FileReader) : nat * FileReader :=
  match fuel with
  | 0 => (pos, r)
  | S fuel' =>
      let '(x, r) := read_int data L r in
      let r := move_to_next_int data r in
      let '(y, r) := read_int data L r in
      let r := read_wgt_count r in
      if negb (good r) then (pos, r)
      else
        let r := move_to_next_int data (move_to_eol data r) in
        if sl && (x =? y)%Z then read_coord_entry_count fuel' pos r
        else if negb sym && ut && (x >? y)%Z then read_coord_entry_count fuel' pos r
        else ((if sym && negb ut && negb (x =? y)%Z then S pos else pos) + 1, r)
  end.

(** Setting implementation of reading a coord entry. *)
Fixpoint read_coord_entry_set (fuel : nat) (s : PState W) : PState W :=
  match fuel with
  | 0 => s
  | S fuel' =>
      let pos := coord_pos s in
      let '(x, r) := read_int data L (rd s) in
      let r := move_to_next_int data r in
      let '(y, r) := read_int data L r in
      let '(c, r) := read_wgt_set (this s) pos r in
      if negb (good r) then mkPState c pos r (max_row s) (max_col s)
      else
        let r := move_to_next_int data (move_to_eol data r) in
        if sl && (x =? y)%Z
        then read_coord_entry_set fuel' (mkPState c pos r (max_row s) (max_col s))
        else if negb sym && ut && (x >? y)%Z
        then read_coord_entry_set fuel' (mkPState c pos r (max_row s) (max_col s))
        else
          let '(x, y) := if sym && ut && (x >? y)%Z then (y, x) else (x, y) in
          let c := set_y (set_x c pos x) pos y in
          let pos := pos + 1 in
          let '(c, pos) :=
            if sym && negb ut && negb (x =? y)%Z
            then
              let c := if wgt then copy_w c pos else c in
              let c := set_x (set_y c pos x) pos y in
              (c, pos + 1)
            else (c, pos) in
          mkPState c pos r
                   (if (x >? max_row s)%Z then x else max_row s)
                   (if (y >? max_col s)%Z then y else max_col s)
  end.

(** Count-only implementation of reading a coord entry without flags *)
Definition read_coord_entry_count_noflags (pos : nat) (r : FileReader) : nat * FileReader :=
  let r := move_to_next_int data r in
  if negb (good r) then (pos, r)
  else
    let r := move_to_next_int data (move_to_eol data r) in
    (pos + 1, r).

(** Setting implementation of reading a coord entry without flags *)
Definition read_coord_entry_set_noflags (s : PState W) : PState W :=
  let pos := coord_pos s in
  let '(x, r) := read_int data L (rd s) in
  let r := move_to_next_int data r in
  let '(y, r) := read_int data L r in
  let '(c, r) := read_wgt_set (this s) pos r in
  if negb (good r) then mkPState c pos r (max_row s) (max_col s)
  else
    let r := move_to_next_int data (move_to_eol data r) in
    let c := set_y (set_x c pos x) pos y in
    mkPState c (pos + 1) r
             (if (x >? max_row s)%Z then x else max_row s)
             (if (y >? max_col s)%Z then y else max_col s).

(** The specialisations without flags are the ones selected when [sym],
    [ut] and [sl] are all false. *)
Definition no_flags : bool := negb sym && negb ut && negb sl.

(** [read_coord_entry_<true>] *)
Definition read_coord_entry_true (pos : nat) (r : FileReader) : nat * FileReader :=
  if no_flags then read_coord_entry_count_noflags pos r
  else read_coord_entry_count (S (size r)) pos r.

(** [read_coord_entry_<false>] *)
Definition read_coord_entry_false (s : PState W) : PState W :=
  if no_flags then read_coord_entry_set_noflags s
  else read_coord_entry_set (S (size (rd s))) s.

(** The byte range of thread [tid] out of [num_threads]: [rs] after
    [rs.smaller_end(re)]. *)
Definition thread_range (num_threads : nat) (r : FileReader) (tid : nat) : FileReader :=
  let size := size r in
  let tid_start_i := (tid * size) / num_threads in
  let tid_end_i := ((tid + 1) * size) / num_threads in
  let rs := advance r tid_start_i in
  let re := advance r tid_end_i in
  let re := move_to_next_int data (move_to_eol data re) in
  let rs := if negb (tid =? 0)
            then move_to_next_int data (move_to_eol data rs)
            else move_to_first_int data rs in
  smaller_end rs re.

(** Pass 1: [while (rs_p1.good()) read_coord_entry_<true>(tid_nls, rs_p1, ...)].
    Every iteration moves the cursor on, so [fuel = size rs] is enough. *)
Fixpoint pass1_loop (fuel tid_nls : nat) (r : FileReader) : nat :=
  match fuel with
  | 0 => tid_nls
  | S fuel' =>
      if good r
      then let '(n, r') := read_coord_entry_true tid_nls r in pass1_loop fuel' n r'
      else tid_nls
  end.

Definition pass1 (rs : FileReader) : nat := pass1_loop (size rs) 0 rs.

(** Pass 2: [while (rs_p2.good()) read_coord_entry_<false>(coord_pos, rs_p2, ...)] *)
Fixpoint pass2_loop (fuel : nat) (s : PState W) : PState W :=
  match fuel with
  | 0 => s
  | S fuel' => if good (rd s) then pass2_loop fuel' (read_coord_entry_false s) else s
  end.

Definition pass2 (s : PState W) : PState W := pass2_loop (size (rd s)) s.

(** The prefix sum over [nl_offsets], done by one thread at the barrier. *)
Fixpoint prefix_sum (sum_nl : nat) (nl_offsets : list nat) : list nat :=
  match nl_offsets with
  | [] => []
  | k :: rest => (sum_nl + k) :: prefix_sum (sum_nl + k) rest
  end.

(** One thread of the second parallel phase, run from the start of its
    range to the end; [max_row] and [max_col] are the [reduction(max)]
    variables.  The threads of the source run at the same time and write
    the shared arrays: [read_el_] below lets them take their turns in the
    order of their ids, [read_el_order] in any order.  Where no two
    threads store to the same index the order makes no difference; with
    [wgt] and a filter ([sl], or [ut] without [sym]) a thread stores the
    weight of a record it drops at the index at which the next thread
    starts, and the order shows in [w_]. *)
Definition pass2_thread (num_threads : nat) (r : FileReader) (nl_offsets : list nat)
    (acc : COO W * Z * Z) (tid : nat) : COO W * Z * Z :=
  let '(c, max_row0, max_col0) := acc in
  let rs := thread_range num_threads r tid in
  let pos := if 0 <? tid then nth (tid - 1) nl_offsets 0 else 0 in
  let s := pass2 (mkPState c pos rs 0%Z 0%Z) in
  (this s, Z.max max_row0 (max_row s), Z.max max_col0 (max_col s)).

(** [read_el_]: the first phase of every thread, the prefix sum and the
    allocation by one thread between the barriers, then the second phase,
    in which the threads take their turns in the order [order] (a list of
    thread ids; the source fixes no order), and the labels' maxima. *)
Definition read_el_order (order : list nat) (num_threads : nat) (junk : Junk W) (c : COO W)
    (r : FileReader) : COO W :=
  let tids := seq 0 num_threads in
  let nl_offsets := prefix_sum 0 (map (fun tid => pass1 (thread_range num_threads r tid)) tids) in
  let c := set_m c (wrap O (Z.of_nat (nth (num_threads - 1) nl_offsets 0))) in
  let c := allocate_ wgt junk c in
  let '(c, max_row, max_col) := fold_left (pass2_thread num_threads r nl_offsets) order (c, 0%Z, 0%Z) in
  let c := set_nrows c (wrap L (max_row + 1)) in
  let c := set_ncols c (wrap L (max_col + 1)) in
  set_n c (if (nrows_ c >? ncols_ c)%Z then nrows_ c else ncols_ c).

(** [read_el_] with the threads of the second phase taking their turns in
    the order of their ids; with one thread, the sequential program. *)
Definition read_el_ (num_threads : nat) (junk : Junk W) (c : COO W) (r : FileReader) : COO W :=
  read_el_order (seq 0 num_threads) num_threads junk c r.
End Parser.

(** ** Exceptions *)

Inductive exn : Type :=
| Error (msg : string)
| NotYetImplemented (msg : string).

(** The result of a function that may throw. *)
Inductive res (A : Type) : Type :=
| Ok (a : A)
| Throw (e : exn).
Arguments Ok {A}.
Arguments Throw {A}.

(** The result of a method of the COO: the members of the object as the
    method returns, or as the exception leaves it. *)
Inductive outcome (W : Type) : Type :=
| Returns (c : COO W)
| Throws (e : exn) (c : COO W).
Arguments Returns {W}.
Arguments Throws {W}.

(** ** The memory mapped [File] *)

Inductive OpenMode : Type := READ | WRITE.

Inductive FileType : Type :=
| EDGE_LIST | MATRIX_MARKET | PIGO_COO_BIN | PIGO_CSR_BIN
| PIGO_DIGRAPH_BIN | PIGO_TENSOR_BIN | GRAPH | AUTO.

Record File : Type := mkFile {
  fn_ : list ascii;      (* the file name *)
  data_ : list ascii;    (* the mapped bytes *)
  size_ : nat;
  fp_ : nat              (* the file position, an offset from [data_] *)
}.

(** [File::seek] *)
Definition seek (f : File) (pos : nat) : res File :=
  if size_ f <=? pos then Throw (Error "seeking beyond end of file")
  else Ok (mkFile (fn_ f) (data_ f) (size_ f) pos).

(** [File::File(fn, mode, max_size)], on a file system where the file [fn]
    holds [content]; the system calls succeed, except [mmap] of a file of
    size 0: the system refuses a mapping of length 0, and the constructor
    throws before it comes to [seek(0)].  In [WRITE] mode the file is
    first set to [max_size] bytes by writing the byte 1 at offset
    [max_size - 1]. *)
Definition File_open (fn content : list ascii) (mode : OpenMode) (max_size : nat) : res File :=
  match mode with
  | WRITE =>
      if max_size =? 0 then Throw (Error "max_size is too low to write")
      else
        let content := repeat zero (max_size - 1) ++ [chr 1] in
        let size := length content in
        if negb (size =? max_size) then Throw (Error "PIGO: Wrong file size of new file")
        else if size =? 0 then Throw (Error "PIGO: MMAP")
        else seek (mkFile fn content size 0) 0
  | READ =>
      if 0 <? max_size then Throw (Error "Max_size is only used for writing")
      else if length content =? 0 then Throw (Error "PIGO: MMAP")
      else seek (mkFile fn content (length content) 0) 0
  end.

(** Modelled from the spec: the scanning cursor of the file, from the file
    position to the end of the mapping. *)
Definition reader (f : File) : FileReader := mkReader (fp_ f) (size_ f).

Definition set_fp (f : File) (p : nat) : File := mkFile (fn_ f) (data_ f) (size_ f) p.

(** [File::read(const std::string&)] *)
Definition File_read_str (f : File) (s : list ascii) : res File :=
  if negb (at_str (data_ f) s (reader f)) then Throw (Error "Cannot read the given string")
  else Ok (set_fp f (fp_ f + length s)).

(** *** Values in memory: little endian, [sizeof(T)] bytes *)

Fixpoint encode_le (n : nat) (v : Z) : list ascii :=
  match n with
  | 0 => []
  | S n' => chr (Z.to_nat (v mod 256)) :: encode_le n' (v / 256)
  end.

Fixpoint decode_le (bs : list ascii) : Z :=
  match bs with
  | [] => 0
  | b :: bs' => Z.of_nat (code b) + 256 * decode_le bs'
  end.

Definition encode (T : IntType) (v : Z) : list ascii := encode_le (bytes T) v.
Definition decode (T : IntType) (bs : list ascii) : Z := wrap T (decode_le bs).

(** [memcpy(buf + pos, src, |src|)]; an element outside the buffer is not
    written. *)
Fixpoint blit {A : Type} (buf : list A) (pos : nat) (src : list A) : list A :=
  match src with
  | [] => buf
  | b :: src' => blit (<[pos := b]> buf) (S pos) src'
  end.

(** The [len] bytes at [pos]. *)
Definition bytes_at (buf : list ascii) (pos len : nat) : list ascii :=
  map (at_ buf) (seq pos len).

(** [pigo::read<T>(fp)] *)
Definition File_read (T : IntType) (f : File) : Z * File :=
  (decode T (bytes_at (data_ f) (fp_ f) (bytes T)), set_fp f (fp_ f + bytes T)).

(** [pigo::write<T>(fp, val)] *)
Definition File_write_bytes (f : File) (bs : list ascii) : File :=
  mkFile (fn_ f) (blit (data_ f) (fp_ f) bs) (size_ f) (fp_ f + length bs).

Definition File_write (T : IntType) (f : File) (val : Z) : File :=
  File_write_bytes f (encode T val).

(** The share of thread [thread_id] in [parallel_write] and
    [parallel_read]: [(start_pos, my_data)]. *)
Definition my_share (num_threads v_size thread_id : nat) : nat * nat :=
  let my_data := v_size / num_threads in
  let my_data := if thread_id =? num_threads - 1
                 then v_size - my_data * (num_threads - 1) else my_data in
  (thread_id * (v_size / num_threads), my_data).

(** [parallel_write(fp, v, v_size)]: every thread copies its share. *)
Definition parallel_write (num_threads : nat) (f : File) (v : list ascii) (v_size : nat) : File :=
  let copy buf thread_id :=
    let '(start_pos, my_data) := my_share num_threads v_size thread_id in
    blit buf (fp_ f + start_pos) (bytes_at v start_pos my_data) in
  mkFile (fn_ f) (fold_left copy (seq 0 num_threads) (data_ f)) (size_ f) (fp_ f + v_size).

(** [parallel_read(fp, v, v_size)]: the new contents of [v] and the file
    with its position moved on. *)
Definition parallel_read (num_threads : nat) (f : File) (v : list ascii) (v_size : nat)
    : list ascii * File :=
  let copy buf thread_id :=
    let '(start_pos, my_data) := my_share num_threads v_size thread_id in
    blit buf start_pos (bytes_at (data_ f) (fp_ f + start_pos) my_data) in
  (fold_left copy (seq 0 num_threads) v, set_fp f (fp_ f + v_size)).

(** [fn_] ends in [ext]. *)
Definition has_extension (fn ext : list ascii) : bool :=
  (length ext <=? length fn) && bool_decide (drop (length fn - length ext) fn = ext).

Section GuessFileType.
(** The magic strings of the four binary formats. *)
Variables coo_file_header csr_file_header digraph_file_header tensor_file_header : list ascii.

(** [File::guess_file_type] *)
Definition guess_file_type (f : File) : res FileType :=
  let r := reader f in
  if at_str (data_ f) coo_file_header r then Ok PIGO_COO_BIN
  else if at_str (data_ f) csr_file_header r then Ok PIGO_CSR_BIN
  else if at_str (data_ f) digraph_file_header r then Ok PIGO_DIGRAPH_BIN
  else if at_str (data_ f) tensor_file_header r then Ok PIGO_TENSOR_BIN
  else if at_str (data_ f) (bytes_of "PIGO") r
  then Throw (Error "Unsupported PIGO binary format, likely version mismatch")
  else if has_extension (fn_ f) (bytes_of ".mtx") then Ok MATRIX_MARKET
  else if has_extension (fn_ f) (bytes_of ".graph") then Ok GRAPH
  else Ok EDGE_LIST.
End GuessFileType.

(** ** The compressed sparse row graph handed to [convert_csr_]

    Of the CSR class only the interface used by the conversion is given:
    [n()], [m()], and the arrays behind [offsets()], [endpoints()] and
    [weights()]. *)

Record CSR (W : Type) : Type := mkCSR {
  csr_n : Z;
  csr_m : Z;
  offsets : list Z;
  endpoints : list Z;
  weights : list W
}.
Arguments mkCSR {W}.
Arguments csr_n {W}.
Arguments csr_m {W}.
Arguments offsets {W}.
Arguments endpoints {W}.
Arguments weights {W}.

(** ** The methods of the COO *)

Section COOMethods.
Variables sym ut sl wgt : bool.
Variables L O : IntType.
Context {W : Type}.
Variable wr : WeightReader W.
(** [sizeof(W)] and the object representation of a weight *)
Variable W_size : nat.
Variable W_bytes : W -> list ascii.
Variable W_of_bytes : list ascii -> W.
(** the number of threads of the parallel regions, and what the allocator
    leaves in fresh arrays *)
Variable num_threads : nat.
Variable junk : Junk W.
Variables coo_file_header csr_file_header digraph_file_header tensor_file_header : list ascii.
(** the constructor of the CSR class, from a file *)
Variable CSR_load : File -> FileType -> res (CSR W).

(** *** [convert_csr_] *)

(** The loop over the endpoints of one vertex:
    [for (auto cur = start; cur < end; ++cur, ++coo_cur)]. *)
Fixpoint convert_row (csr : CSR W) (fuel : nat) (c : COO W) (v : Z)
    (cur end' coo_cur cur_weight : nat) : COO W :=
  match fuel with
  | 0 => c
  | S fuel' =>
      if cur <? end' then
        let new_x := v in
        let new_y := wrap L (nth cur (endpoints csr) 0%Z) in
        let put_w c pos :=
          match weights csr !! cur_weight with
          | Some w => set_w c pos w
          | None => mkCOO (nrows_ c) (ncols_ c) (n_ c) (m_ c)
                          (x_ c) (y_ c) (w_ c) (trace c ++ [StoreW pos])
          end in
        let '(c, coo_cur, new_x, new_y) :=
          if sym && ut then
            if (new_x >? new_y)%Z then (c, coo_cur, new_y, new_x)
            else (c, coo_cur, new_x, new_y)
          else if sym && negb ut then
            let c := set_y (set_x c coo_cur new_y) coo_cur new_x in
            let c := if wgt then put_w c coo_cur else c in
            (c, coo_cur + 1, new_x, new_y)
          else (c, coo_cur, new_x, new_y) in
        let c := set_y (set_x c coo_cur new_x) coo_cur new_y in
        let '(c, cur_weight) :=
          if wgt then (put_w c coo_cur, cur_weight + 1) else (c, cur_weight) in
        convert_row csr fuel' c v (cur + 1) end' (coo_cur + 1) cur_weight
      else c
  end.

(** The body of [for (L v = 0; v < n_; ++v)]. *)
Definition convert_vertex (csr : CSR W) (c : COO W) (v : nat) : COO W :=
  let start := Z.to_nat (nth v (offsets csr) 0%Z) in
  let end' := Z.to_nat (nth (v + 1) (offsets csr) 0%Z) in
  let coo_cur := Z.to_nat (nth v (offsets csr) 0%Z) in
  let coo_cur := if sym && negb ut then coo_cur * 2 else coo_cur in
  convert_row csr (end' - start) c (Z.of_nat v) start end' coo_cur start.

Definition convert_csr_ (c : COO W) (csr : CSR W) : outcome W :=
  let c := set_n c (wrap L (csr_n csr)) in
  let c := set_m c (wrap O (csr_m csr)) in
  let step (c : COO W) :=
    if sl then Throws (NotYetImplemented "Removing self loops from CSR not yet implemented") c
    else
      let c := allocate_ wgt junk c in
      Returns (fold_left (convert_vertex csr) (seq 0 (Z.to_nat (n_ c))) c) in
  if sym && negb ut then step (set_m c (wrap O (m_ c * 2)))
  else if negb sym && ut
  then Throws (NotYetImplemented "Keeping triangle only from CSR not yet implemented") c
  else step c.

(** *** [read_mm_] *)

Definition string_eq (a : list ascii) (b : string) : bool := bool_decide (a = bytes_of b).

(** The header of a MatrixMarket file, up to the start of the entries:
    [(nrows, ncols, nnz)] of the size line and the cursor. *)
Definition read_mm_header (data : list ascii) (r : FileReader)
    : res (Z * Z * Z * FileReader) :=
  let '(ok, r) := read_str data (bytes_of "%%MatrixMarket matrix coordinate") r in
  if negb ok
  then Throw (NotYetImplemented
         "Unable to handle different MatrixMarket formats other than `matrix coordinate`")
  else
    let r := skip_space_tab data r in
    let '(field, r) := read_word data r in
    let r := skip_space_tab data r in
    let '(symmetry, r) := read_word data r in
    if string_eq field "pattern" && wgt
    then Throw (NotYetImplemented "Pattern only MatrixMarket file, but trying to read weights")
    else if string_eq field "complex"
    then Throw (NotYetImplemented "Unable to handle `complex` MatrixMarket files")
    else if negb (string_eq symmetry "symmetric" || string_eq symmetry "general"
                  || string_eq symmetry "skew-symmetric")
    then Throw (NotYetImplemented
           (String.append "MatrixMarket unsupported symmetry type"
              (string_of_list_ascii symmetry)))
    else
      let r := move_to_next_int data r in
      let '(v, r) := read_int data L r in
      let nrows := wrap L (v + 1) in
      let r := move_to_next_int data r in
      let '(v, r) := read_int data L r in
      let ncols := wrap L (v + 1) in
      let r := move_to_next_int data r in
      let '(nnz, r) := read_int data O r in
      let r := move_to_next_int data (move_to_eol data r) in
      Ok (nrows, ncols, nnz, r).

(** The sanity check of the file against its header, after the entries
    have been read.  The product of [nnz > 2*m_] is [twice O m_]: the
    comparison is made after the usual arithmetic conversions. *)
Definition mm_check (nrows ncols nnz : Z) (c : COO W) : outcome W :=
  if negb (nrows >=? nrows_ c)%Z
  then Throws (Error "Too many row labels in file contradicting header") (free c)
  else
    let c := set_nrows c nrows in
    if negb (ncols >=? ncols_ c)%Z
    then Throws (Error "Too many col labels in file contradicting header") (free c)
    else
      let c := set_ncols c ncols in
      let finish (c : COO W) :=
        Returns (set_n c (if (nrows_ c >? ncols_ c)%Z then nrows_ c else ncols_ c)) in
      if sym then
        if (nnz >? twice O (m_ c))%Z
        then Throws (Error "Header wants more non-zeros than found") (free c)
        else finish c
      else if negb sl then
        if (nnz >? m_ c)%Z
        then Throws (Error "Header wants more non-zeros than read") (free c)
        else finish c
      else
        if negb (nnz =? m_ c)%Z && negb sl
        then Throws (Error "Header contradicts number of read non-zeros") (free c)
        else finish c.

Definition read_mm_ (data : list ascii) (c : COO W) (r : FileReader) : outcome W :=
  match read_mm_header data r with
  | Throw e => Throws e c
  | Ok (nrows, ncols, nnz, r) =>
      mm_check nrows ncols nnz (read_el_ data sym ut sl wgt L O wr num_threads junk c r)
  end.

(** *** The binary format: [save] and [read_bin_] *)

(** [get_raw_data_]: the bytes of an array. *)
Definition raw {A : Type} (enc : A -> list ascii) (v : list A) : list ascii :=
  concat (map enc v).

(** The array of [n] elements of [k] bytes held by a buffer. *)
Fixpoint unraw {A : Type} (dec : list ascii -> A) (k n : nat) (buf : list ascii) : list A :=
  match n with
  | 0 => []
  | S n' => dec (take k buf) :: unraw dec k n' (drop k buf)
  end.

(** [detail::weight_size_<wgt, W, O>(m)] *)
Definition weight_size_ (m : Z) : nat := if wgt then W_size * Z.to_nat m else 0.

(** [COO::save(fn)]: the file written. *)
Definition save (c : COO W) (fn : list ascii) : res File :=
  let out_size := length coo_file_header + 2 + (bytes L * 3 + bytes O)
                  + bytes L * Z.to_nat (m_ c) * 2 in
  let w_size := weight_size_ (m_ c) in
  let out_size := out_size + w_size in
  match File_open fn [] WRITE out_size with
  | Throw e => Throw e
  | Ok w =>
      let w := File_write_bytes w coo_file_header in
      let w := File_write uint8_t w (wrap uint8_t (Z.of_nat (bytes L))) in
      let w := File_write uint8_t w (wrap uint8_t (Z.of_nat (bytes O))) in
      let w := File_write L w (nrows_ c) in
      let w := File_write L w (ncols_ c) in
      let w := File_write L w (n_ c) in
      let w := File_write O w (m_ c) in
      let w := parallel_write num_threads w (raw (encode L) (x_ c)) (bytes L * Z.to_nat (m_ c)) in
      let w := parallel_write num_threads w (raw (encode L) (y_ c)) (bytes L * Z.to_nat (m_ c)) in
      Ok (if 0 <? w_size then parallel_write num_threads w (raw W_bytes (w_ c)) w_size else w)
  end.

(** [COO::read_bin_(f)] *)
Definition read_bin_ (c : COO W) (f : File) : outcome W :=
  match File_read_str f coo_file_header with
  | Throw e => Throws e c
  | Ok f =>
      let '(L_size, f) := File_read uint8_t f in
      let '(O_size, f) := File_read uint8_t f in
      if negb (L_size =? Z.of_nat (bytes L))%Z
      then Throws (Error "Invalid COO template parameters to match binary") c
      else if negb (O_size =? Z.of_nat (bytes O))%Z
      then Throws (Error "Invalid COO template parameters to match binary") c
      else
        let '(v, f) := File_read L f in
        let c := set_nrows c v in
        let '(v, f) := File_read L f in
        let c := set_ncols c v in
        let '(v, f) := File_read L f in
        let c := set_n c v in
        let '(v, f) := File_read O f in
        let c := set_m c v in
        let c := allocate_ wgt junk c in
        let m := Z.to_nat (m_ c) in
        let '(vx, f) := parallel_read num_threads f (raw (encode L) (x_ c)) (bytes L * m) in
        let '(vy, f) := parallel_read num_threads f (raw (encode L) (y_ c)) (bytes L * m) in
        let w_size := weight_size_ (m_ c) in
        let vw :=
          if 0 <? w_size
          then unraw W_of_bytes W_size m (fst (parallel_read num_threads f (raw W_bytes (w_ c)) w_size))
          else w_ c in
        Returns (mkCOO (nrows_ c) (ncols_ c) (n_ c) (m_ c)
                       (unraw (decode L) (bytes L) m vx)
                       (unraw (decode L) (bytes L) m vy) vw (trace c))
  end.

(** *** [read_] and the constructors *)

Definition read_ (c : COO W) (f : File) (ft : FileType) : outcome W :=
  let dispatch (ft_used : FileType) :=
    match ft_used with
    | MATRIX_MARKET => read_mm_ (data_ f) c (reader f)
    | EDGE_LIST =>
        Returns (read_el_ (data_ f) sym ut sl wgt L O wr num_threads junk c (reader f))
    | PIGO_COO_BIN => read_bin_ c f
    | PIGO_CSR_BIN | GRAPH =>
        match CSR_load f ft_used with
        | Throw e => Throws e c
        | Ok csr => convert_csr_ c csr
        end
    | _ => Throws (NotYetImplemented "Coming in v0.6") c
    end in
  match ft with
  | AUTO =>
      match guess_file_type coo_file_header csr_file_header digraph_file_header
              tensor_file_header f with
      | Throw e => Throws e c
      | Ok ft_used => dispatch ft_used
      end
  | _ => dispatch ft
  end.

(** [COO(std::string fn, FileType ft)], on a file system where [fn] holds
    [content]. *)
Definition COO_from_file (fn content : list ascii) (ft : FileType) : outcome W :=
  match File_open fn content READ 0 with
  | Throw e => Throws e fresh
  | Ok f => read_ fresh f ft
  end.

(** [COO(CSR&)] *)
Definition COO_from_csr (csr : CSR W) : outcome W := convert_csr_ fresh csr.
End COOMethods.

(** ** Inputs of the statements below *)

(** The text whose lines are the given strings, each ended by a newline. *)
Definition text_of_lines (ls : list string) : list ascii :=
  concat (map (fun l => bytes_of l ++ [NL]) ls).

(** The reader a file of these bytes hands to the parser. *)
Definition whole (data : list ascii) : FileReader := mkReader 0 (length data).

(** [read_el_] of a whole text with the library's default [L = O = uint32_t]. *)
Definition parse_text {W : Type} (sym ut sl wgt : bool) (wr : WeightReader W)
    (num_threads : nat) (junk : Junk W) (data : list ascii) : COO W :=
  read_el_ data sym ut sl wgt uint32_t uint32_t wr num_threads junk fresh (whole data).

(** Two records, the second one not ended by a newline, and the same
    records with the final newline. *)
Definition two_records_open : list ascii := bytes_of "1 2" ++ [NL] ++ bytes_of "3 4".
Definition two_records_closed : list ascii := text_of_lines ["1 2"; "3 4"]%string.

(** The largest element of an array of labels. *)
Definition max_label (v : list Z) : Z := fold_right Z.max 0%Z v.

(** An allocator that hands out zeroed arrays. *)
Definition zero_junk : Junk Z := mkJunk (fun _ => 0%Z) (fun _ => 0%Z) (fun _ => 0%Z).

(** A MatrixMarket pattern file whose header announces five non-zeros and
    whose body holds two entries. *)
Definition mm_five_announced : list ascii :=
  text_of_lines ["%%MatrixMarket matrix coordinate pattern general";
                 "3 3 5"; "1 2"; "2 3"]%string.

(** ** Well formed CSR graphs *)

(** The integer [z] is a value of the type [T]. *)
Definition fits (T : IntType) (z : Z) : Prop := wrap T z = z.

(** [offsets[v]] as an index. *)
Definition off {W : Type} (csr : CSR W) (v : nat) : nat :=
  Z.to_nat (nth v (offsets csr) 0%Z).

(** The sizes of the CSR fit the types [L] and [O] of the COO (twice the
    edge count fits, for the doubling under [sym] and not [ut]), the
    offsets are ascending and stay within the endpoints, the endpoints are
    labels of [L], and every endpoint has a weight when weights are read. *)
Record csr_wf {W : Type} (wgt : bool) (L O : IntType) (csr : CSR W) : Prop := {
  wf_n : (0 <= csr_n csr)%Z /\ fits L (csr_n csr);
  wf_m : (0 <= csr_m csr)%Z /\ fits O (csr_m csr) /\ fits O (csr_m csr * 2);
  wf_ascending : forall v, v < Z.to_nat (csr_n csr) -> off csr v <= off csr (S v);
  wf_last : off csr (Z.to_nat (csr_n csr)) <= Z.to_nat (csr_m csr);
  wf_endpoints : length (endpoints csr) = Z.to_nat (csr_m csr);
  wf_labels : Forall (fits L) (endpoints csr);
  wf_weights : wgt = true -> length (weights csr) = length (endpoints csr)
}.

(** [k] is the position in [endpoints] of an arc from [v] to [u]. *)
Definition arc {W : Type} (csr : CSR W) (v k : nat) (u : Z) : Prop :=
  v < Z.to_nat (csr_n csr) /\ off csr v <= k < off csr (S v)
  /\ endpoints csr !! k = Some u.

(** A triangle with weights: the arcs 0->1, 0->2, 1->2. *)
Definition triangle_csr : CSR Z :=
  mkCSR 3 3 [0; 2; 3; 3]%Z [1; 2; 2]%Z [10; 20; 30]%Z.

(** The stores of one iteration of the endpoint loop under [sym] and not
    [ut]: the mirrored entry at [coo_cur], the natural one at
    [coo_cur + 1], each with the weight at [cur_weight]. *)
Definition put_weight {W : Type} (csr : CSR W) (c : COO W) (cur_weight pos : nat) : COO W :=
  match weights csr !! cur_weight with
  | Some w => set_w c pos w
  | None => mkCOO (nrows_ c) (ncols_ c) (n_ c) (m_ c)
                  (x_ c) (y_ c) (w_ c) (trace c ++ [StoreW pos])
  end.

Definition store_mirrored {W : Type} (wgt : bool) (L : IntType) (csr : CSR W)
    (c : COO W) (v : Z) (cur coo_cur cur_weight : nat) : COO W :=
  let u := wrap L (nth cur (endpoints csr) 0%Z) in
  let c := set_y (set_x c coo_cur u) coo_cur v in
  let c := if wgt then put_weight csr c cur_weight coo_cur else c in
  let c := set_y (set_x c (coo_cur + 1) v) (coo_cur + 1) u in
  if wgt then put_weight csr c cur_weight (coo_cur + 1) else c.

(** What the loop over the arcs of a vertex leaves in the arrays under
    [sym] and not [ut]: the entries [2k] and [2k+1] of arc [k]. *)
Definition mirrored_at {W : Type} (wgt : bool) (L : IntType) (csr : CSR W)
    (c' : COO W) (v : Z) (k : nat) : Prop :=
  x_ c' !! (k * 2) = Some (wrap L (nth k (endpoints csr) 0%Z))
  /\ y_ c' !! (k * 2) = Some v
  /\ x_ c' !! (k * 2 + 1) = Some v
  /\ y_ c' !! (k * 2 + 1) = Some (wrap L (nth k (endpoints csr) 0%Z))
  /\ (wgt = true -> w_ c' !! (k * 2) = weights csr !! k
                    /\ w_ c' !! (k * 2 + 1) = weights csr !! k).

(** The arrays of [c'] are those of [c] outside the entries of the arcs
    [lo, hi). *)
Definition same_outside {W : Type} (c c' : COO W) (lo hi : nat) : Prop :=
  length (x_ c') = length (x_ c) /\ length (y_ c') = length (y_ c)
  /\ length (w_ c') = length (w_ c)
  /\ n_ c' = n_ c /\ m_ c' = m_ c
  /\ forall i, i < lo * 2 \/ hi * 2 <= i ->
       x_ c' !! i = x_ c !! i /\ y_ c' !! i = y_ c !! i /\ w_ c' !! i = w_ c !! i.

(** ** The binary image of a COO *)

(** The bytes that [save] is to write: header, the two widths, the four
    sizes, and the arrays. *)
Definition coo_image {W : Type} (wgt : bool) (L O : IntType) (W_bytes : W -> list ascii)
    (coo_file_header : list ascii) (c : COO W) : list ascii :=
  coo_file_header
  ++ encode uint8_t (wrap uint8_t (Z.of_nat (bytes L)))
  ++ encode uint8_t (wrap uint8_t (Z.of_nat (bytes O)))
  ++ encode L (nrows_ c) ++ encode L (ncols_ c) ++ encode L (n_ c) ++ encode O (m_ c)
  ++ raw (encode L) (x_ c) ++ raw (encode L) (y_ c)
  ++ (if wgt then raw W_bytes (w_ c) else []).

(** A COO as its class keeps it: the sizes are values of [L] and [O], the
    arrays hold [m_] elements, the labels are values of [L]; a weight is
    [sizeof(W)] bytes in memory, and the weights of the object are given
    back by their bytes. *)
Record coo_wf {W : Type} (wgt : bool) (L O : IntType) (W_size : nat)
    (W_bytes : W -> list ascii) (W_of_bytes : list ascii -> W) (c : COO W) : Prop := {
  wf_L_size : bytes L < 256;
  wf_O_size : bytes O < 256;
  wf_W_size : 0 < W_size;
  wf_W_bytes : forall w, length (W_bytes w) = W_size;
  wf_fits : fits L (nrows_ c) /\ fits L (ncols_ c) /\ fits L (n_ c) /\ fits O (m_ c);
  wf_x : length (x_ c) = Z.to_nat (m_ c) /\ Forall (fits L) (x_ c);
  wf_y : length (y_ c) = Z.to_nat (m_ c) /\ Forall (fits L) (y_ c);
  wf_w : wgt = true ->
         length (w_ c) = Z.to_nat (m_ c)
         /\ Forall (fun w => W_of_bytes (W_bytes w) = w) (w_ c)
}.

(** The copy made by one thread of [parallel_write] ([dbase] the file
    position, [sbase = 0]) or of [parallel_read] ([dbase = 0], [sbase] the
    file position). *)
Definition share_copy (num_threads v_size dbase sbase : nat) (src buf : list ascii)
    (thread_id : nat) : list ascii :=
  let '(start_pos, my_data) := my_share num_threads v_size thread_id in
  blit buf (dbase + start_pos) (bytes_at src (sbase + start_pos) my_data).

(** The scenario 5 of the specification, weights kept as 32 bit patterns. *)
Definition scenario5 : COO Z :=
  mkCOO 3 3 3 2 [1; 2]%Z [2; 1]%Z [1065353216; 1073741824]%Z [].

(** ** Well formed edge lists

    A text is a run of lines to skip (comment lines, and blank lines that
    hold no digit) followed by blocks: an entry line [x sep y trail] and the
    lines to skip that follow it. *)

(** A character that is neither a digit, nor the start of a comment, nor
    the end of the line. *)
Definition is_filler (a : ascii) : bool :=
  negb (is_digit a) && negb (is_comment a) && negb (is_nl a).

Inductive skipline : Type :=
| Comment (c : ascii) (body : list ascii)
| Blank (body : list ascii).

Record entry : Type := mkEntry {
  e_x : list ascii;      (* the digits of the row label *)
  e_sep : list ascii;    (* what separates the two labels *)
  e_y : list ascii;      (* the digits of the column label *)
  e_trail : list ascii   (* the rest of the line *)
}.

Record block : Type := mkBlock { b_entry : entry; b_gap : list skipline }.

Definition render_skip (l : skipline) : list ascii :=
  match l with
  | Comment c body => c :: body ++ [NL]
  | Blank body => body ++ [NL]
  end.

Definition render_gap (g : list skipline) : list ascii := concat (map render_skip g).

Definition render_entry (e : entry) : list ascii :=
  e_x e ++ e_sep e ++ e_y e ++ e_trail e ++ [NL].

Definition render_block (b : block) : list ascii :=
  render_entry (b_entry b) ++ render_gap (b_gap b).

Definition render_blocks (bs : list block) : list ascii := concat (map render_block bs).

Definition render_file (gap0 : list skipline) (bs : list block) : list ascii :=
  render_gap gap0 ++ render_blocks bs.

Definition skip_ok (l : skipline) : bool :=
  match l with
  | Comment c body => is_comment c && forallb (fun a => negb (is_nl a)) body
  | Blank body => forallb is_filler body
  end.

Definition entry_ok (e : entry) : bool :=
  negb (length (e_x e) =? 0) && forallb is_digit (e_x e)
  && negb (length (e_sep e) =? 0) && forallb is_filler (e_sep e)
  && negb (length (e_y e) =? 0) && forallb is_digit (e_y e)
  && negb (is_digit (nth 0 (e_trail e) zero))
  && forallb (fun a => negb (is_nl a)) (e_trail e).

Definition block_ok (b : block) : bool :=
  entry_ok (b_entry b) && forallb skip_ok (b_gap b).

Definition file_ok (gap0 : list skipline) (bs : list block) : bool :=
  forallb skip_ok gap0 && forallb block_ok bs.

(** The label a run of digits stands for, as [read_int<L>] accumulates it. *)
Definition digits_value (L : IntType) (ds : list ascii) : Z :=
  fold_left (fun res a => wrap L (res * 10 + digit_val a)) ds 0%Z.

Definition entry_xy (L : IntType) (e : entry) : Z * Z :=
  (digits_value L (e_x e), digits_value L (e_y e)).

(** The structural-predicate truth table of the specification: what is
    emitted for an input [(x,y)]. *)
Definition emit (sym ut sl : bool) (xy : Z * Z) : list (Z * Z) :=
  let '(x, y) := xy in
  if sl && (x =? y)%Z then []
  else if negb sym && ut && (x >? y)%Z then []
  else if sym && ut then [(Z.min x y, Z.max x y)]
  else if sym && negb (x =? y)%Z then [(x, y); (y, x)]
  else [(x, y)].

(** The entries of a text, in the order of its lines. *)
Definition entries (sym ut sl : bool) (L : IntType) (bs : list block) : list (Z * Z) :=
  flat_map (fun b => emit sym ut sl (entry_xy L (b_entry b))) bs.

(** The labels that count for [nrows_] and [ncols_]: the first entry
    emitted for each record that is kept. *)
Definition first_emitted (sym ut sl : bool) (L : IntType) (bs : list block) : list (Z * Z) :=
  flat_map (fun b => take 1 (emit sym ut sl (entry_xy L (b_entry b)))) bs.

(** A line without its newline. *)
Definition skip_body (l : skipline) : list ascii :=
  match l with
  | Comment c body => c :: body
  | Blank body => body
  end.

Definition entry_body (e : entry) : list ascii := e_x e ++ e_sep e ++ e_y e ++ e_trail e.

(** A cut of the text [data] read up to [e]: the end of the range, or the
    first digit of an entry. *)
Definition cut (data : list ascii) (p e : nat) : Prop :=
  e <= p \/ is_digit (at_ data p) = true.

(** The offset at which block [k] starts. *)
Definition block_start (gap0 : list skipline) (bs : list block) (k : nat) : nat :=
  length (render_gap gap0) + length (render_blocks (take k bs)).

(** [max_row] after the labels [vs] have been compared with it in turn. *)
Definition max_over (vs : list Z) (m : Z) : Z :=
  fold_left (fun m v => if (v >? m)%Z then v else m) vs m.

(** The arrays of [c'] are those of [c] with the entries [es] stored from
    index [pos] on, and nothing else of the object has changed. *)
Definition stored {W : Type} (c c' : COO W) (pos : nat) (es : list (Z * Z)) : Prop :=
  x_ c' = blit (x_ c) pos (map fst es)
  /\ y_ c' = blit (y_ c) pos (map snd es)
  /\ w_ c' = w_ c /\ m_ c' = m_ c.

(** The cursor [p] stands in front of the blocks [seg], which end where
    the range ends, at [e]; [rest] is what follows them in [data]. *)
Definition in_front (data : list ascii) (e : nat) (rest : list ascii)
    (p : nat) (seg : list block) : Prop :=
  drop p data = render_blocks seg ++ rest
  /\ forallb block_ok seg = true
  /\ e = p + length (render_blocks seg).

(** The number of blocks that start at or before the offset [i]: the index
    of the block in front of which a thread boundary put at [i] ends up
    (after [move_to_eol] and [move_to_next_int]). *)
Definition boundary_index (gap0 : list skipline) (bs : list block) (i : nat) : nat :=
  length (List.filter (fun k => block_start gap0 bs k <=? i) (seq 0 (length bs))).

(** The index of the first block of thread [t] out of [P]; thread 0 starts
    with [move_to_first_int], at the first block. *)
Definition thread_block (gap0 : list skipline) (bs : list block) (P t : nat) : nat :=
  if t =? 0 then 0
  else boundary_index gap0 bs (t * length (render_file gap0 bs) / P).

(** A text of two comment lines. *)
Definition comment_lines : list skipline :=
  [Comment "#"%char (bytes_of " hello"); Comment "%"%char (bytes_of " x")].

(** A text of three records between comments and an empty line. *)
Definition sample_gap : list skipline := [Comment "%"%char (bytes_of " edges")].
Definition sample_blocks : list block :=
  [mkBlock (mkEntry (bytes_of "1") (bytes_of " ") (bytes_of "2") []) [Blank []];
   mkBlock (mkEntry (bytes_of "3") [TAB] (bytes_of "1") (bytes_of " # last"))
           [Comment "#"%char []];
   mkBlock (mkEntry (bytes_of "2") (bytes_of ", ") (bytes_of "2") []) []].

(** Three weighted records, the second a self loop. *)
Definition self_loop_text : list ascii :=
  text_of_lines ["1 2 5"; "3 3 9"; "2 1 7"]%string.

(** ** Writing integers as text ([write_size], [write_ascii])

    The writer stores characters through a [FilePos], a pointer into the
    mapping: here the mapping and the offset of the pointer in it.  A store
    beyond the mapping, undefined in C++, leaves the mapping as it is. *)

Definition WPos : Type := list ascii * nat.

(** [pigo::write(fp, char)] *)
Definition put (w : WPos) (c : ascii) : WPos := (<[snd w := c]> (fst w), S (snd w)).

(** [pigo::write(fp, std::string)]: [for (char x : val) write(fp, x);] *)
Definition put_string (w : WPos) (s : list ascii) : WPos := fold_left put s w.

(** [detail::neg_size]: one more character for a negative value of a
    signed type. *)
Definition neg_size (T : IntType) (obj : Z) : nat :=
  if signed T && (obj <? 0)%Z then 1 else 0.

(** [detail::write_neg_ascii] *)
Definition write_neg_ascii (T : IntType) (w : WPos) (obj : Z) : WPos :=
  if signed T && (obj <? 0)%Z then put w "-"%char else w.

(** [detail::get_positive]; [-obj] is taken in [T]. *)
Definition get_positive (T : IntType) (obj : Z) : Z :=
  if signed T && (obj <? 0)%Z then wrap T (- obj) else obj.

(** A value of [T] has at most [8 * sizeof(T)] decimal digits (it has that
    many bits), so the two loops below end before [digit_fuel T] is used
    up. *)
Definition digit_fuel (T : IntType) : nat := S (8 * bytes T).

(** [do { obj /= 10; ++res; } while (obj != 0);] with the division of C++,
    which truncates. *)
Fixpoint write_size_loop (fuel : nat) (obj : Z) (res : nat) : nat :=
  match fuel with
  | 0 => res
  | S fuel' =>
      let obj := Z.quot obj 10 in
      let res := S res in
      if (obj =? 0)%Z then res else write_size_loop fuel' obj res
  end.

(** [write_size(T obj)] for an integral [T] *)
Definition write_size (T : IntType) (obj : Z) : nat :=
  write_size_loop (digit_fuel T) obj (neg_size T obj).

(** [do { *((char* )fp+pos--) = (obj%10)+'0'; obj /= 10; } while (obj != 0);]
    The character is the sum reduced to a byte.  [pos] is unsigned and is
    not used again after the decrement that follows the last digit. *)
Fixpoint write_digits (fuel : nat) (buf : list ascii) (fp pos : nat) (obj : Z) : list ascii :=
  match fuel with
  | 0 => buf
  | S fuel' =>
      let buf := <[fp + pos := chr (Z.to_nat ((Z.rem obj 10 + 48) mod 256))]> buf in
      let obj := Z.quot obj 10 in
      if (obj =? 0)%Z then buf else write_digits fuel' buf fp (pos - 1) obj
  end.

(** [write_ascii(fp, T obj)] for an integral [T] *)
Definition write_ascii (T : IntType) (w : WPos) (obj : Z) : WPos :=
  let w := write_neg_ascii T w obj in
  let obj := get_positive T obj in
  let num_size := write_size T obj in
  let pos := num_size - 1 in
  (write_digits (digit_fuel T) (fst w) (snd w) pos obj, snd w + num_size).

(** The decimal numeral of [v >= 0], most significant digit first and
    without leading zeros. *)
Fixpoint decimal_fuel (fuel : nat) (v : Z) : list ascii :=
  match fuel with
  | 0 => []
  | S fuel' =>
      (if (v / 10 =? 0)%Z then [] else decimal_fuel fuel' (v / 10))
      ++ [chr (Z.to_nat (v mod 10 + 48))]
  end.

Definition decimal (v : Z) : list ascii := decimal_fuel (S (Z.to_nat (Z.log2 v))) v.

(** The values of [T] that are not negative are those below [upper T]. *)
Definition upper (T : IntType) : Z := if signed T then modulus T / 2 else modulus T.

(** The numeral of an integer: a minus sign for a negative value, then the
    decimal numeral of its magnitude. *)
Definition numeral (v : Z) : list ascii :=
  if (v <? 0)%Z then "-"%char :: decimal (- v) else decimal v.

(** The values of [T] that [write_ascii] can negate in [T]: all of them but
    the least value of a signed type. *)
Definition writable (T : IntType) (v : Z) : Prop :=
  ((if signed T then - upper T < v else 0 <= v) /\ v < upper T)%Z.

(** ** [COO::write]: the edge list written as text

    The iterations [e = 0 .. m_-1] of the two [#pragma omp for] loops are
    handed to the threads by the OpenMP runtime, which is not part of the
    sources: [share tid] is the list of the iterations thread [tid] runs,
    in the order it runs them, the same in both loops.  Modelled from the
    spec: [detail::get_value_(x_, e)] is element [e] of the array. *)

Section COOWrite.
Variables (wgt : bool) (L : IntType).
Context {W : Type}.
(** the characters [write_ascii] stores for a weight; [write_size] is
    their number *)
Variable W_chars : W -> list ascii.
Variable num_threads : nat.
Variable share : nat -> list nat.

(** The first pass, for one edge: what is added to [my_size]. *)
Definition entry_size (c : COO W) (e : nat) : nat :=
  write_size L (nth e (x_ c) 0%Z) + 1 + write_size L (nth e (y_ c) 0%Z)
  + (if wgt then 1 + from_option (fun w => length (W_chars w)) 0 (w_ c !! e) else 0)
  + 1.

(** The second pass, for one edge. *)
Definition write_entry (c : COO W) (w : WPos) (e : nat) : WPos :=
  let w := write_ascii L w (nth e (x_ c) 0%Z) in
  let w := put w SP in
  let w := write_ascii L w (nth e (y_ c) 0%Z) in
  let w := if wgt
           then put_string (put w SP) (from_option W_chars [] (w_ c !! e))
           else w in
  put w NL.

Definition my_size (c : COO W) (tid : nat) : nat :=
  fold_left (fun s e => s + entry_size c e) (share tid) 0.

(** [pos_offsets] after the prefix sum: [pos_offsets[0] = 0] and
    [pos_offsets[t] = pos_offsets[t-1] + my_size] of thread [t-1]. *)
Definition pos_offsets (c : COO W) : list nat :=
  0 :: prefix_sum 0 (map (my_size c) (seq 0 num_threads)).

(** The parallel region of [COO::write(fn)]: the file that results, or
    the exception that the constructor of [File] raises in the [single]
    block of the region; what becomes of that exception depends on the
    build, see [COO_write_outcome]. *)
Definition COO_write (c : COO W) (fn : list ascii) : res File :=
  let offs := pos_offsets c in
  match File_open fn [] WRITE (nth num_threads offs 0) with
  | Throw e => Throw e
  | Ok f =>
      let thread buf tid :=
        fst (fold_left (write_entry c) (share tid) (buf, fp_ f + nth tid offs 0)) in
      Ok (mkFile (fn_ f) (fold_left thread (seq 0 num_threads) (data_ f)) (size_ f) (fp_ f))
  end.
End COOWrite.

(** How a call ends: it returns, an exception reaches the caller, or the
    process is terminated. *)
Inductive ended (A : Type) : Type :=
| Returned (a : A)
| Threw (e : exn)
| Terminated (e : exn).
Arguments Returned {A} a.
Arguments Threw {A} e.
Arguments Terminated {A} e.

(** [COO::write(fn)] as a call.  Built with OpenMP, [num_threads] threads
    run the region and share the iterations as [share] says; the [File]
    is constructed inside the [single] block of the region, nothing in
    the region catches, and an exception that leaves a parallel region
    ends the process ([std::terminate]) instead of reaching the caller.
    Built without OpenMP the pragmas are no more than comments: one
    thread runs the iterations [0 .. m_-1] in order and the exception of
    the constructor leaves [write]. *)
Definition COO_write_outcome (openmp wgt : bool) (L : IntType) {W : Type}
    (W_chars : W -> list ascii) (num_threads : nat) (share : nat -> list nat)
    (c : COO W) (fn : list ascii) : ended File :=
  if openmp then
    match COO_write wgt L W_chars num_threads share c fn with
    | Ok f => Returned f
    | Throw e => Terminated e
    end
  else
    match COO_write wgt L W_chars 1 (fun _ => seq 0 (Z.to_nat (m_ c))) c fn with
    | Ok f => Returned f
    | Throw e => Threw e
    end.

(** The line of an edge, and the text of the edges of a COO in the order
    of the arrays. *)
Definition edge_line (xy : Z * Z) : list ascii :=
  numeral (fst xy) ++ [SP] ++ numeral (snd xy) ++ [NL].

Definition coo_text {W : Type} (c : COO W) : list ascii :=
  flat_map edge_line (zip (x_ c) (y_ c)).

(** The block of an edge line: no lines to skip after it. *)
Definition edge_block (xy : Z * Z) : block :=
  mkBlock (mkEntry (decimal (fst xy)) [SP] (decimal (snd xy)) []) [].

(** The edge with index [e]. *)
Definition edge_at {W : Type} (c : COO W) (e : nat) : Z * Z :=
  (nth e (x_ c) 0%Z, nth e (y_ c) 0%Z).

(** A COO of three edges, and the static schedule of three iterations on
    two threads. *)
Definition three_edges : COO Z := mkCOO 13 8 13 3 [12; 0; 5]%Z [7; 3; 5]%Z [] [].
Definition two_shares (tid : nat) : list nat := nth tid [[0; 1]; [2]] [].

(** ** More of the scanner *)

(** [FileReader::at_end_of_line]:
    [while (td < end && *td != '\n') { if ( *td != ' ' && *td != '\r') return false; ++td; }
     return true;] *)
Fixpoint at_end_of_line_loop (data : list ascii) (fuel td : nat) : bool :=
  match fuel with
  | 0 => true
  | S fuel' =>
      if is_nl (at_ data td) then true
      else if negb (Ascii.eqb (at_ data td) SP) && negb (Ascii.eqb (at_ data td) CR)
      then false
      else at_end_of_line_loop data fuel' (S td)
  end.

Definition at_end_of_line (data : list ascii) (r : FileReader) : bool :=
  at_end_of_line_loop data (end_ r - d r) (d r).

(** A space or a carriage return. *)
Definition is_space_cr (a : ascii) : bool := Ascii.eqb a SP || Ascii.eqb a CR.

(** The cursor [r'] is the cursor [r] moved forward within its range. *)
Definition moved_on (r r' : FileReader) : Prop :=
  d r <= d r' <= end_ r /\ end_ r' = end_ r.

(** The indices the stores recorded in a trace went to, array by array, in
    the order of the stores. *)
Definition x_stores (tr : list store_event) : list nat :=
  flat_map (fun ev => match ev with StoreX i => [i] | _ => [] end) tr.
Definition y_stores (tr : list store_event) : list nat :=
  flat_map (fun ev => match ev with StoreY i => [i] | _ => [] end) tr.
Definition w_stores (tr : list store_event) : list nat :=
  flat_map (fun ev => match ev with StoreW i => [i] | _ => [] end) tr.

(** From [s] to [s'] the stores went, in each of [x_] and [y_], to the
    indices from [coord_pos s] up to [coord_pos s'], once each and in
    ascending order, and no weight was stored. *)
Definition stored_in_order {W : Type} (s s' : PState W) : Prop :=
  coord_pos s <= coord_pos s'
  /\ x_stores (trace (this s'))
     = x_stores (trace (this s)) ++ seq (coord_pos s) (coord_pos s' - coord_pos s)
  /\ y_stores (trace (this s'))
     = y_stores (trace (this s)) ++ seq (coord_pos s) (coord_pos s' - coord_pos s)
  /\ w_stores (trace (this s')) = w_stores (trace (this s)).

(** ** A range of a larger mapping *)

(** The cursor [r] of a text, when the text lies [k] bytes into the
    mapping. *)
Definition shift (k : nat) (r : FileReader) : FileReader :=
  mkReader (k + d r) (k + end_ r).

Definition shift_state {W : Type} (k : nat) (s : PState W) : PState W :=
  mkPState (this s) (coord_pos s) (shift k (rd s)) (max_row s) (max_col s).

(** ** MatrixMarket files *)

Definition mm_banner : list ascii := bytes_of "%%MatrixMarket matrix coordinate".

(** The size line [R C N] of a MatrixMarket file, and what follows it. *)
Definition mm_size_line (R C N : Z) (rest : list ascii) : list ascii :=
  decimal R ++ SP :: decimal C ++ SP :: decimal N ++ NL :: rest.

(** A MatrixMarket file: the banner with its two words, comment and
    blank lines, the size line, and the entries, each possibly followed
    by comment and blank lines. *)
Definition mm_text (field symmetry : list ascii) (gap1 : list skipline) (R C N : Z)
    (gap2 : list skipline) (bs : list block) : list ascii :=
  mm_banner ++ SP :: field ++ SP :: symmetry ++ NL :: render_gap gap1
  ++ mm_size_line R C N (render_gap gap2 ++ render_blocks bs).

Definition is_word (w : list ascii) : bool :=
  negb (length w =? 0) && forallb (fun a => negb (is_word_end a)) w.

Definition mm_symmetry (w : list ascii) : bool :=
  string_eq w "general" || string_eq w "symmetric" || string_eq w "skew-symmetric".

Definition labels_within (L : IntType) (R C : Z) (bs : list block) : Prop :=
  Forall (fun b => (fst (entry_xy L (b_entry b)) <= R
                    /\ snd (entry_xy L (b_entry b)) <= C)%Z) bs.

(** The first line of a MatrixMarket file, as the comment line an edge
    list reader takes it for, and the size line as the entry it takes it
    for. *)
Definition mm_banner_line (field symmetry : list ascii) : skipline :=
  Comment "%"%char (tl mm_banner ++ SP :: field ++ SP :: symmetry).

Definition mm_size_block (R C N : Z) (gap2 : list skipline) : block :=
  mkBlock (mkEntry (decimal R) [SP] (decimal C) (SP :: decimal N)) gap2.

(** The labels of the entry lines, as read. *)
Definition row_label (L : IntType) (b : block) : Z := fst (entry_xy L (b_entry b)).
Definition col_label (L : IntType) (b : block) : Z := snd (entry_xy L (b_entry b)).

(** ** Entry lines with a weight *)

(** A line [x sep y gap w trail]: the two labels, the weight [w] as a run
    of digits, and the lines to skip after it. *)
Record wentry : Type := mkWEntry {
  we_x : list ascii;
  we_sep : list ascii;
  we_y : list ascii;
  we_gap : list ascii;
  we_w : list ascii;
  we_trail : list ascii;
  we_skip : list skipline
}.

(** The line as a block: for the labels the weight is part of what
    follows the second label. *)
Definition wblock (l : wentry) : block :=
  mkBlock (mkEntry (we_x l) (we_sep l) (we_y l) (we_gap l ++ we_w l ++ we_trail l))
          (we_skip l).

Definition wentry_ok (l : wentry) : bool :=
  block_ok (wblock l)
  && negb (length (we_gap l) =? 0) && forallb is_filler (we_gap l)
  && negb (length (we_w l) =? 0) && forallb is_digit (we_w l)
  && negb (is_digit (nth 0 (we_trail l) zero)).

Definition wentry_xy (L : IntType) (l : wentry) : Z * Z :=
  (digits_value L (we_x l), digits_value L (we_y l)).

(** The arrays of [c'] are those of [c] with the entries [es] and the
    weights [ws] stored from index [pos] on. *)
Definition stored_w {W : Type} (c c' : COO W) (pos : nat) (es : list (Z * Z))
    (ws : list W) : Prop :=
  x_ c' = blit (x_ c) pos (map fst es)
  /\ y_ c' = blit (y_ c) pos (map snd es)
  /\ w_ c' = blit (w_ c) pos ws /\ m_ c' = m_ c.

(** Three weighted lines. *)
Definition sample_wentries : list wentry :=
  [mkWEntry (bytes_of "1") (bytes_of " ") (bytes_of "2") (bytes_of " ") (bytes_of "10") []
            [Comment "#"%char (bytes_of " note")];
   mkWEntry (bytes_of "3") [TAB] (bytes_of "1") (bytes_of ", ") (bytes_of "7")
            (bytes_of " # x") [];
   mkWEntry (bytes_of "2") (bytes_of " ") (bytes_of "2") (bytes_of " ") (bytes_of "0")
            (bytes_of ".5") [Blank []]].

(** ** The text of a COO with weights *)

(** The edge with index [e] and its weight. *)
Definition wedge_at (c : COO Z) (e : nat) : Z * Z * Z :=
  (nth e (x_ c) 0%Z, nth e (y_ c) 0%Z, nth e (w_ c) 0%Z).

(** The line [x y w] of an edge with an integral weight. *)
Definition wedge_line (xyw : Z * Z * Z) : list ascii :=
  numeral (fst (fst xyw)) ++ [SP] ++ numeral (snd (fst xyw)) ++ [SP]
  ++ numeral (snd xyw) ++ [NL].

Definition coo_wtext (c : COO Z) : list ascii :=
  flat_map (fun e => wedge_line (wedge_at c e)) (seq 0 (length (x_ c))).

(** The same line as a weighted entry line. *)
Definition wedge_entry (xyw : Z * Z * Z) : wentry :=
  mkWEntry (decimal (fst (fst xyw))) [SP] (decimal (snd (fst xyw))) [SP]
           (decimal (snd xyw)) [] [].

(** Labels that fit [L] and a weight that fits [T], none negative. *)
Definition in_range3 (L T : IntType) (xyw : Z * Z * Z) : Prop :=
  (0 <= fst (fst xyw) < upper L /\ 0 <= snd (fst xyw) < upper L
   /\ 0 <= snd xyw < upper T)%Z.

(** A COO of three edges with weights. *)
Definition three_wedges : COO Z :=
  mkCOO 13 8 13 3 [12; 0; 5]%Z [7; 3; 5]%Z [40; 0; 9]%Z [].

(** ** [COO::split_cvs_write]: the edges written as CSV files

    The loop over [start] writes one file per round; [share start end tid]
    is the list of the iterations of [for (O e = start; e < end; ++e)]
    that the OpenMP runtime hands to thread [tid], the same in both
    [#pragma omp for] loops of a round.  [std::to_string(fcnt)] is the
    decimal numeral of the counter; the counter is an [int] in the
    source and a natural number here, its overflow is left out. *)

Definition csv_header (edgeIDs : bool) : list ascii :=
  bytes_of (if edgeIDs then "~id,~from,~to,~label" else "~from,~to,~label") ++ [NL].

Definition line_end : list ascii := bytes_of ",con" ++ [NL].

(** [ell]: the characters of a line besides the numbers. *)
Definition ell (edgeIDs : bool) : nat :=
  length line_end + (if edgeIDs then 2 else 0) + 3.

Section SplitCSV.
Variables (L O : IntType).
Context {W : Type}.
Variable num_threads : nat.
Variable share : nat -> nat -> nat -> list nat.
Variable c : COO W.
Variables (fn : list ascii) (edge_per_file : Z) (edgeIDs : bool).

(** The first pass, for one edge. *)
Definition csv_entry_size (e : nat) : nat :=
  ell edgeIDs
  + (if edgeIDs then write_size O (Z.of_nat e) else 0)
  + write_size L (nth e (x_ c) 0%Z)
  + write_size L (nth e (y_ c) 0%Z).

(** The second pass, for one edge. *)
Definition csv_write_entry (w : WPos) (e : nat) : WPos :=
  let w := if edgeIDs
           then put (write_ascii O (put w "e"%char) (Z.of_nat e)) ","%char
           else w in
  let w := write_ascii L (put w "v"%char) (nth e (x_ c) 0%Z) in
  let w := put w ","%char in
  let w := write_ascii L (put w "v"%char) (nth e (y_ c) 0%Z) in
  put_string w line_end.

(** [fn + "." + std::to_string(fcnt) + ".csv"] *)
Definition csv_name (fcnt : nat) : list ascii :=
  fn ++ bytes_of "." ++ decimal (Z.of_nat fcnt) ++ bytes_of ".csv".

(** One round of the loop: the file of the edges [start .. end-1]. *)
Definition csv_file (fcnt start end' : nat) : res File :=
  let my_size tid := fold_left (fun s e => s + csv_entry_size e) (share start end' tid) 0 in
  let offs := 0 :: prefix_sum 0 (map my_size (seq 0 num_threads)) in
  match File_open (csv_name fcnt) [] WRITE
          (length (csv_header edgeIDs) + nth num_threads offs 0) with
  | Throw e => Throw e
  | Ok f =>
      let '(buf, fp) := put_string (data_ f, fp_ f) (csv_header edgeIDs) in
      let thread buf tid :=
        fst (fold_left csv_write_entry (share start end' tid) (buf, fp + nth tid offs 0)) in
      Ok (mkFile (fn_ f) (fold_left thread (seq 0 num_threads) buf) (size_ f) fp)
  end.

(** [for (O start=0; start<=m_; start += edge_per_file)]: the files
    written so far are [files]; [None] when the rounds outnumber [fuel]. *)
Fixpoint split_loop (fuel : nat) (start : Z) (fcnt : nat) (files : list File)
    : option (res (list File)) :=
  match fuel with
  | 0 => None
  | S fuel' =>
      if (start <=? m_ c)%Z
      then
        let end' := Z.min (m_ c) (wrap O (start + edge_per_file)) in
        match csv_file fcnt (Z.to_nat start) (Z.to_nat end') with
        | Throw e => Some (Throw e)
        | Ok f => split_loop fuel' (wrap O (start + edge_per_file)) (S fcnt) (files ++ [f])
        end
      else Some (Ok files)
  end.

(** [COO::split_cvs_write(fn, edge_per_file, edgeIDs)]: the files it
    leaves, in the order in which they are written. *)
Definition split_cvs_write (fuel : nat) : option (res (list File)) :=
  split_loop fuel 0%Z 0 [].
End SplitCSV.

(** The line of edge [e] in a CSV file. *)
Definition csv_line {W : Type} (c : COO W) (edgeIDs : bool) (e : nat) : list ascii :=
  (if edgeIDs then ["e"%char] ++ numeral (Z.of_nat e) ++ [","%char] else [])
  ++ ["v"%char] ++ numeral (nth e (x_ c) 0%Z) ++ [","%char]
  ++ ["v"%char] ++ numeral (nth e (y_ c) 0%Z) ++ line_end.

(** File number [k] when every file takes [epf] edges of [m]. *)
Definition csv_content {W : Type} (c : COO W) (edgeIDs : bool) (epf m k : nat) : list ascii :=
  csv_header edgeIDs
  ++ flat_map (csv_line c edgeIDs) (seq (k * epf) (Nat.min m (k * epf + epf) - k * epf)).

(** The static schedule of a loop over [start .. end-1] on two threads. *)
Definition halves (start end' tid : nat) : list nat :=
  match tid with
  | 0 => seq start ((end' - start) / 2)
  | 1 => seq (start + (end' - start) / 2) (end' - start - (end' - start) / 2)
  | _ => []
  end.

(** ** [FileReader::count_spaces_to_eol] *)

Definition is_space (c : ascii) : bool := Ascii.eqb c SP.

(** [( *d >= '0' && *d <= '9') || *d == '.'] *)
Definition is_digit_dot (c : ascii) : bool := is_digit c || Ascii.eqb c "."%char.

(** [*d != '\n' && *d != '%' && *d != '#' && ( *d < '0' || *d > '9')] *)
Definition before_int (c : ascii) : bool :=
  negb (is_nl c) && negb (is_comment c) && negb (is_digit c).

(** The loop of [count_spaces_to_eol].  A round that does not leave the
    loop has moved the cursor on, so [fuel = size r + 1] is enough.  The
    loop [while ( *d == ' ') ++d;] does not look at [end]: it stops at the
    end of the mapping at the latest, where a read gives [zero]. *)
Fixpoint count_spaces_loop (data : list ascii) (fuel space_ct : nat) (r : FileReader)
    : nat * FileReader :=
  match fuel with
  | 0 => (space_ct, r)
  | S fuel' =>
      if good r && negb (is_nl (at_ data (d r)))
      then
        let r := skip_while data before_int r in
        if negb (is_digit (at_ data (d r))) then (space_ct, move_to_eol data r)
        else
          let r := skip_while data is_digit_dot r in
          if is_nl (at_ data (d r)) then (space_ct, r)
          else if is_comment (at_ data (d r)) then (space_ct, move_to_eol data r)
          else
            let space_ct := S space_ct in
            let r := set_d r (advance_while data is_space (length data - d r) (d r)) in
            if is_nl (at_ data (d r)) then (space_ct - 1, r)
            else if is_comment (at_ data (d r)) then (space_ct - 1, move_to_eol data r)
            else count_spaces_loop data fuel' space_ct r
      else (space_ct, r)
  end.

Definition count_spaces_to_eol (data : list ascii) (r : FileReader) : nat * FileReader :=
  count_spaces_loop data (S (size r)) 0 r.

(** A number of a line and the spaces after it. *)
Record numfield : Type := mkNumField { f_num : list ascii; f_sp : list ascii }.

Definition render_fields (fs : list numfield) : list ascii :=
  concat (map (fun f => f_num f ++ f_sp f) fs).

(** A number starts with a digit and goes on with digits and dots; only
    spaces follow it. *)
Definition field_ok (f : numfield) : bool :=
  is_digit (nth 0 (f_num f) zero) && forallb is_digit_dot (f_num f)
  && forallb is_space (f_sp f).

(** Every number but the last is followed by a space. *)
Fixpoint separated (fs : list numfield) : bool :=
  match fs with
  | [] => true
  | [f] => true
  | f :: fs' => negb (length (f_sp f) =? 0) && separated fs'
  end.


(** * Properties *)

(** Splits a conjunction into its parts (and leaves equalities alone). *)
Ltac split_ands := repeat match goal with |- _ /\ _ => split end.


(** ** The two passes on a last record without a newline *)

(** C1 (as the code has it): on the two records ["1 2\n3 4"], read without
    flags by one thread, the count-only specialisation counts both records,
    so [m_] is 2 and two entries are allocated, while the setting
    specialisation returns at [if (!r.good()) return;] after it has read the
    last [y], and stores the first record only: index 1 of [x_] and [y_] is
    never written. *)
Theorem pass1_counts_more_than_pass2_writes :
  forall (W : Type) (wr : WeightReader W) (junk : Junk W),
    pass1 two_records_open false false false false uint32_t wr
          (thread_range two_records_open 1 (whole two_records_open) 0) = 2
    /\ m_ (parse_text false false false false wr 1 junk two_records_open) = 2%Z
    /\ trace (parse_text false false false false wr 1 junk two_records_open)
       = [StoreX 0; StoreY 0].
Proof.
  intros W wr junk. intros. split_ands; vm_compute; reflexivity.
Qed.

(** C4 (as the code has it): the record on a last line without a newline is
    not stored.  Without flags it is counted ([m_ = 2]) and its slot keeps
    what the allocator left there; with a flag set ([sl] here) it is not
    even counted.  The same records ended by a newline are both stored. *)
Theorem last_record_without_newline_is_lost :
  forall (W : Type) (wr : WeightReader W) (junk : Junk W),
    let open := parse_text false false false false wr 1 junk two_records_open in
    let closed := parse_text false false false false wr 1 junk two_records_closed in
    let open_sl := parse_text false false true false wr 1 junk two_records_open in
    (m_ open = 2%Z /\ x_ open = [1%Z; jx junk 1] /\ y_ open = [2%Z; jy junk 1])
    /\ (m_ closed = 2%Z /\ x_ closed = [1%Z; 3%Z] /\ y_ closed = [2%Z; 4%Z])
    /\ (m_ open_sl = 1%Z /\ x_ open_sl = [1%Z] /\ y_ open_sl = [2%Z]).
Proof.
  intros W wr junk. intros. split_ands; vm_compute; reflexivity.
Qed.

(** ** The label counts under [sym] *)

(** C2 (as the code has it): under [sym] and not [ut] the record ["1 5"]
    stores [(1,5)] and the mirrored [(5,1)], but [max_row] and [max_col]
    are updated from [(x,y)] only: [nrows_] is 2 while [x_] holds 5. *)
Theorem mirrored_entry_exceeds_nrows :
  forall (W : Type) (wr : WeightReader W) (junk : Junk W),
    let c := parse_text true false false false wr 1 junk (text_of_lines ["1 5"]%string) in
    x_ c = [1%Z; 5%Z] /\ y_ c = [5%Z; 1%Z]
    /\ nrows_ c = 2%Z /\ ncols_ c = 6%Z /\ n_ c = 6%Z
    /\ (nrows_ c <=? max_label (x_ c))%Z = true.
Proof.
  intros W wr junk. intros. split_ands; vm_compute; reflexivity.
Qed.

(** ** Stores of weights of dropped records *)

(** C9 (as the code has it): with [sl] and [wgt], on the three records
    ["1 2 0.5\n2 1 0.5\n1 1 9\n"], two entries are counted and allocated;
    pass 2 stores the weight of the self loop [1 1 9] at [coord_pos = 2]
    before the filter drops the record, and once more when the recursive
    call finds the end of the range. *)
Theorem dropped_record_stores_weight_at_m :
  forall (F : Type) (ops : FloatOps F) (junk : Junk F),
    let c := parse_text false false true true float_weight 1 junk
               (text_of_lines ["1 2 0.5"; "2 1 0.5"; "1 1 9"]%string) in
    m_ c = 2%Z /\ length (w_ c) = 2
    /\ trace c = [StoreW 0; StoreX 0; StoreY 0; StoreW 1; StoreX 1; StoreY 1;
                  StoreW 2; StoreW 2].
Proof.
  intros F ops junk. intros. split_ands; vm_compute; reflexivity.
Qed.

(** ** [at_str] and the magic strings *)

Lemma at_str_true_size (data s : list ascii) (r : FileReader) :
  at_str data s r = true -> length s + 1 <= size r.
Proof.
  unfold at_str, size.
  destruct (Nat.leb_spec (end_ r) (d r + length s)); [discriminate | lia].
Qed.

Lemma at_str_exact_false (data s : list ascii) (r : FileReader) :
  size r = length s -> at_str data s r = false.
Proof.
  unfold at_str, size. intros Hsz.
  destruct (Nat.leb_spec (end_ r) (d r + length s)); [reflexivity | lia].
Qed.

Lemma File_open_nonempty (fn : list ascii) (c : ascii) (rest : list ascii) :
  File_open fn (c :: rest) READ 0
  = Ok (mkFile fn (c :: rest) (S (length rest)) 0).
Proof. reflexivity. Qed.

(** C10: [at_str(s)] is true only when at least [|s|+1] bytes remain before
    [end], and is false when exactly the bytes of [s] remain.  So a file
    that consists of a magic string and nothing more opens, but
    [guess_file_type] does not answer the type of that magic string
    (whichever of the four it is) and [File::read] of the magic string
    throws. *)
Theorem at_str_wants_a_byte_after_the_string :
  forall (data s : list ascii) (r : FileReader)
         (fn : list ascii) (c : ascii) (rest h1 h2 h3 : list ascii),
    let magic := c :: rest in
    let f := mkFile fn magic (length magic) 0 in
    (at_str data s r = true -> length s + 1 <= size r)
    /\ (size r = length s -> at_str data s r = false)
    /\ File_open fn magic READ 0 = Ok f
    /\ guess_file_type magic h1 h2 h3 f <> Ok PIGO_COO_BIN
    /\ guess_file_type h1 magic h2 h3 f <> Ok PIGO_CSR_BIN
    /\ guess_file_type h1 h2 magic h3 f <> Ok PIGO_DIGRAPH_BIN
    /\ guess_file_type h1 h2 h3 magic f <> Ok PIGO_TENSOR_BIN
    /\ File_read_str f magic = Throw (Error "Cannot read the given string").
Proof.
  intros data s r fn c rest h1 h2 h3 magic f.
  assert (Hmagic : at_str (data_ f) magic (reader f) = false)
    by (apply at_str_exact_false; reflexivity).
  split; [apply at_str_true_size |].
  split; [apply at_str_exact_false |].
  split; [apply File_open_nonempty |].
  repeat split.
  - unfold guess_file_type. rewrite Hmagic.
    repeat match goal with |- context [if ?b then _ else _] => destruct b end;
      discriminate.
  - unfold guess_file_type. rewrite Hmagic.
    repeat match goal with |- context [if ?b then _ else _] => destruct b end;
      discriminate.
  - unfold guess_file_type. rewrite Hmagic.
    repeat match goal with |- context [if ?b then _ else _] => destruct b end;
      discriminate.
  - unfold guess_file_type. rewrite Hmagic.
    repeat match goal with |- context [if ?b then _ else _] => destruct b end;
      discriminate.
  - unfold File_read_str. rewrite Hmagic. reflexivity.
Qed.

(** ** The non-zero count of a MatrixMarket header *)

Lemma mm_check_rows_cols_ok (sym sl : bool) (O : IntType) {W : Type}
    (nrows ncols nnz : Z) (c : COO W) :
  (nrows_ c <=? nrows)%Z = true ->
  (ncols_ c <=? ncols)%Z = true ->
  mm_check sym sl O nrows ncols nnz c
  = let c1 := set_ncols (set_nrows c nrows) ncols in
    if (if sym then (nnz >? twice O (m_ c))%Z
        else if sl then false else (nnz >? m_ c)%Z)
    then Throws (Error (if sym then "Header wants more non-zeros than found"
                        else "Header wants more non-zeros than read")) (free c1)
    else Returns (set_n c1 (if (nrows >? ncols)%Z then nrows else ncols)).
Proof.
  intros Hr Hc. unfold mm_check.
  assert (Hr' : (nrows >=? nrows_ c)%Z = true) by lia.
  assert (Hc' : (ncols >=? ncols_ (set_nrows c nrows))%Z = true) by (simpl; lia).
  rewrite Hr', Hc'. cbn [negb].
  destruct sym; [ | destruct sl ]; cbn -[twice];
    rewrite ?andb_false_r;
    repeat match goal with |- context [if ?b then _ else _] => destruct b end;
    reflexivity.
Qed.

(** C5 (amended): after a MatrixMarket read whose row and column counts
    pass their checks, an error about the header's non-zero count is
    raised exactly when: with [sym], [nnz > 2*m_], the product being taken
    as the usual arithmetic conversions have it ([twice]: in [int] for an
    [O] narrower than [int], wrapping for an unsigned [O] at least as
    wide, and for a signed [O] at least as wide assumed to fit [O]);
    without [sym] and without [sl], [nnz > m_]; without [sym] and with
    [sl], never.  Whenever [read_mm_] throws after the entries have been
    read, the arrays have been freed. *)
Theorem mm_header_nnz_check :
  forall (sym ut sl wgt : bool) (L O : IntType) (W : Type) (wr : WeightReader W)
         (num_threads : nat) (junk : Junk W) (data : list ascii) (c : COO W)
         (r r' : FileReader) (nrows ncols nnz : Z),
    read_mm_header wgt L O data r = Ok (nrows, ncols, nnz, r') ->
    let c' := read_el_ data sym ut sl wgt L O wr num_threads junk c r' in
    (nrows_ c' <=? nrows)%Z = true ->
    (ncols_ c' <=? ncols)%Z = true ->
    (sym = true -> signed O = true -> 4 <= bytes O -> fits O (2 * m_ c')) ->
    let raised := if sym then (nnz >? twice O (m_ c'))%Z
                  else if sl then false else (nnz >? m_ c')%Z in
    match read_mm_ sym ut sl wgt L O wr num_threads junk data c r with
    | Throws e c'' => raised = true /\ x_ c'' = [] /\ y_ c'' = [] /\ w_ c'' = []
    | Returns c'' => raised = false /\ m_ c'' = m_ c' /\ x_ c'' = x_ c' /\ y_ c'' = y_ c'
    end.
Proof.
  intros sym ut sl wgt L O W wr P junk data c r r' nrows ncols nnz Hh c' Hr Hc _ raised.
  unfold read_mm_. rewrite Hh. fold c'.
  rewrite (mm_check_rows_cols_ok sym sl O nrows ncols nnz c' Hr Hc).
  cbv zeta. fold raised. destruct raised; cbn; auto.
Qed.

(** The check passes its hypotheses on a file read as a symmetric matrix
    with signed counts of four bytes: five non-zeros announced, two
    entries read and mirrored, so [m_ = 4] and [5 > 8] fails: the read
    returns. *)
Lemma mm_header_nnz_check_witness :
  match read_mm_ true false false false int32_t int32_t (unsigned_weight uint32_t)
          1 zero_junk mm_five_announced fresh (whole mm_five_announced) with
  | Throws e c'' => False
  | Returns c'' =>
      (5 >? twice int32_t
              (m_ (read_el_ mm_five_announced true false false false int32_t int32_t
                     (unsigned_weight uint32_t) 1 zero_junk fresh (mkReader 55 63))))%Z = false
      /\ m_ c'' = 4%Z /\ x_ c'' = [1; 2; 2; 3]%Z /\ y_ c'' = [2; 1; 3; 2]%Z
  end.
Proof.
  assert (Hh : read_mm_header false int32_t int32_t mm_five_announced
                 (whole mm_five_announced) = Ok (4%Z, 4%Z, 5%Z, mkReader 55 63))
    by (vm_compute; reflexivity).
  pose proof (mm_header_nnz_check true false false false int32_t int32_t Z
                (unsigned_weight uint32_t) 1 zero_junk mm_five_announced fresh
                (whole mm_five_announced) (mkReader 55 63) 4 4 5 Hh) as H.
  cbv zeta in H.
  assert (Hr : (nrows_ (read_el_ mm_five_announced true false false false int32_t
                  int32_t (unsigned_weight uint32_t) 1 zero_junk fresh (mkReader 55 63))
                <=? 4)%Z = true) by (vm_compute; reflexivity).
  assert (Hc : (ncols_ (read_el_ mm_five_announced true false false false int32_t
                  int32_t (unsigned_weight uint32_t) 1 zero_junk fresh (mkReader 55 63))
                <=? 4)%Z = true) by (vm_compute; reflexivity).
  assert (Hfit : true = true -> signed int32_t = true -> 4 <= bytes int32_t ->
                 fits int32_t
                   (2 * m_ (read_el_ mm_five_announced true false false false int32_t
                              int32_t (unsigned_weight uint32_t) 1 zero_junk fresh
                              (mkReader 55 63))))
    by (intros _ _ _; vm_compute; reflexivity).
  specialize (H Hr Hc Hfit).
  destruct (read_mm_ true false false false int32_t int32_t (unsigned_weight uint32_t)
              1 zero_junk mm_five_announced fresh (whole mm_five_announced)).
  - destruct H as (H1 & H2 & H3 & H4). split; [exact H1|].
    rewrite H2, H3, H4. vm_compute. auto.
  - destruct H as [H _]. vm_compute in H. discriminate H.
Defined.

(** C5 (the claim as stated fails): read with [sl] and without [sym], the
    file that announces five non-zeros and holds two is accepted, although
    [nnz != m_]. *)
Lemma mm_nnz_unchecked_with_sl :
  exists (r : FileReader) (c : COO Z),
    read_mm_header false uint32_t uint32_t mm_five_announced (whole mm_five_announced)
    = Ok (4%Z, 4%Z, 5%Z, r)
    /\ read_mm_ false false true false uint32_t uint32_t (unsigned_weight uint32_t)
         1 zero_junk mm_five_announced fresh (whole mm_five_announced) = Returns c
    /\ m_ c = 2%Z.
Proof.
  exists (mkReader 55 63). eexists. split_ands; [vm_compute; reflexivity | vm_compute; reflexivity | reflexivity].
Qed.

(** ** The conversion from CSR *)

Lemma convert_row_sizes {W : Type} (sym ut wgt : bool) (L : IntType) (csr : CSR W)
    (fuel : nat) :
  forall (c : COO W) (v : Z) (cur hi cc cw : nat),
    n_ (convert_row sym ut wgt L csr fuel c v cur hi cc cw) = n_ c
    /\ m_ (convert_row sym ut wgt L csr fuel c v cur hi cc cw) = m_ c.
Proof.
  induction fuel as [|fuel IH]; intros c v cur hi cc cw; [auto|].
  cbn -[Nat.add wrap Nat.ltb].
  destruct (cur <? hi); [|auto].
  destruct sym, ut, wgt; cbn -[Nat.add wrap Nat.ltb];
    repeat match goal with
           | |- context [weights csr !! ?i] => destruct (weights csr !! i)
           | |- context [(?a >? ?b)%Z] => destruct (a >? b)%Z
           end;
    match goal with
    | |- context [convert_row _ _ _ _ _ fuel ?c' ?v' ?a ?b ?cc' ?cw'] =>
        destruct (IH c' v' a b cc' cw') as [-> ->]
    end; auto.
Qed.

Section ConvertCSR.
Context {W : Type}.
Variables (wgt : bool) (L O : IntType).
Variable csr : CSR W.

Lemma convert_row_step (fuel : nat) (c : COO W) (v : Z) (cur hi coo_cur cw : nat) :
  cur < hi ->
  convert_row true false wgt L csr (S fuel) c v cur hi coo_cur cw
  = convert_row true false wgt L csr fuel (store_mirrored wgt L csr c v cur coo_cur cw)
      v (cur + 1) hi (coo_cur + 1 + 1) (if wgt then cw + 1 else cw).
Proof.
  intros Hlt. cbn -[Nat.add wrap Nat.ltb].
  rewrite (proj2 (Nat.ltb_lt _ _) Hlt).
  unfold store_mirrored, put_weight.
  destruct wgt; [destruct (weights csr !! cw)|]; reflexivity.
Qed.

Lemma store_mirrored_x (c : COO W) (v : Z) (cur cc cw : nat) :
  x_ (store_mirrored wgt L csr c v cur cc cw)
  = <[cc + 1 := v]> (<[cc := wrap L (nth cur (endpoints csr) 0%Z)]> (x_ c)).
Proof.
  unfold store_mirrored, put_weight.
  destruct wgt; [destruct (weights csr !! cw)|]; reflexivity.
Qed.

Lemma store_mirrored_y (c : COO W) (v : Z) (cur cc cw : nat) :
  y_ (store_mirrored wgt L csr c v cur cc cw)
  = <[cc + 1 := wrap L (nth cur (endpoints csr) 0%Z)]> (<[cc := v]> (y_ c)).
Proof.
  unfold store_mirrored, put_weight.
  destruct wgt; [destruct (weights csr !! cw)|]; reflexivity.
Qed.

Lemma store_mirrored_w (c : COO W) (v : Z) (cur cc cw : nat) (w : W) :
  wgt = true -> weights csr !! cw = Some w ->
  w_ (store_mirrored wgt L csr c v cur cc cw) = <[cc + 1 := w]> (<[cc := w]> (w_ c)).
Proof.
  intros -> Hw. unfold store_mirrored, put_weight. rewrite Hw. reflexivity.
Qed.

Lemma store_mirrored_no_w (c : COO W) (v : Z) (cur cc cw : nat) :
  wgt = false -> w_ (store_mirrored wgt L csr c v cur cc cw) = w_ c.
Proof. intros ->. reflexivity. Qed.

Lemma store_mirrored_sizes (c : COO W) (v : Z) (cur cc cw : nat) :
  let c' := store_mirrored wgt L csr c v cur cc cw in
  n_ c' = n_ c /\ m_ c' = m_ c /\ length (w_ c') = length (w_ c).
Proof.
  unfold store_mirrored, put_weight.
  destruct wgt; [destruct (weights csr !! cw)|]; cbn; rewrite ?length_insert; auto.
Qed.

Lemma convert_row_mirrors (fuel : nat) :
  forall (c : COO W) (v : Z) (cur hi cw : nat),
    fuel = hi - cur -> cur <= hi ->
    hi * 2 <= length (x_ c) -> hi * 2 <= length (y_ c) ->
    (wgt = true -> cw = cur /\ hi * 2 <= length (w_ c) /\ hi <= length (weights csr)) ->
    let c' := convert_row true false wgt L csr fuel c v cur hi (cur * 2) cw in
    same_outside c c' cur hi
    /\ forall k, cur <= k < hi -> mirrored_at wgt L csr c' v k.
Proof.
  induction fuel as [|fuel IH]; intros c v cur hi cw Hf Hle Hx Hy Hw c'.
  - subst c'. cbn. split.
    + unfold same_outside. repeat split; auto.
    + intros k Hk. lia.
  - assert (Hlt : cur < hi) by lia.
    subst c'. rewrite convert_row_step by assumption.
    set (c1 := store_mirrored wgt L csr c v cur (cur * 2) cw).
    pose proof (store_mirrored_sizes c v cur (cur * 2) cw) as (Hn1 & Hm1 & Hlw1).
    fold c1 in Hn1, Hm1, Hlw1.
    assert (Hx1 : x_ c1 = <[cur * 2 + 1 := v]>
                    (<[cur * 2 := wrap L (nth cur (endpoints csr) 0%Z)]> (x_ c)))
      by apply store_mirrored_x.
    assert (Hy1 : y_ c1 = <[cur * 2 + 1 := wrap L (nth cur (endpoints csr) 0%Z)]>
                    (<[cur * 2 := v]> (y_ c)))
      by apply store_mirrored_y.
    replace (cur * 2 + 1 + 1) with ((cur + 1) * 2) by lia.
    destruct (IH c1 v (cur + 1) hi (if wgt then cw + 1 else cw)) as [Hout Hin].
    { lia. } { lia. }
    { rewrite Hx1, !length_insert. lia. }
    { rewrite Hy1, !length_insert. lia. }
    { intros Hwgt. rewrite Hwgt. destruct (Hw Hwgt) as (-> & ? & ?).
      rewrite Hlw1. auto. }
    destruct Hout as (Hlx & Hly & Hlw & Hn & Hm & Hsame).
    split.
    + unfold same_outside. rewrite Hlx, Hly, Hlw, Hn, Hm, Hx1, Hy1, !length_insert.
      repeat split; auto.
      * destruct (Hsame i) as (-> & _ & _); [lia|].
        rewrite Hx1, !list_lookup_insert_ne by lia. reflexivity.
      * destruct (Hsame i) as (_ & -> & _); [lia|].
        rewrite Hy1, !list_lookup_insert_ne by lia. reflexivity.
      * destruct (Hsame i) as (_ & _ & ->); [lia|].
        destruct (Bool.bool_dec wgt true) as [Ewgt|Ewgt];
          [|apply not_true_is_false in Ewgt].
        -- destruct (Hw Ewgt) as (-> & ? & ?).
           destruct (lookup_lt_is_Some_2 (weights csr) cur) as [w Ew]; [lia|].
           unfold c1. rewrite (store_mirrored_w _ _ _ _ _ w) by assumption.
           rewrite !list_lookup_insert_ne by lia. reflexivity.
        -- unfold c1. rewrite store_mirrored_no_w by assumption. reflexivity.
    + intros k Hk. destruct (Nat.eq_dec k cur) as [->|Hne]; [|apply Hin; lia].
      unfold mirrored_at.
      destruct (Hsame (cur * 2)) as (-> & -> & E1); [lia|].
      destruct (Hsame (cur * 2 + 1)) as (-> & -> & E2); [lia|].
      rewrite E1, E2, Hx1, Hy1.
      rewrite list_lookup_insert_ne, list_lookup_insert_eq by (rewrite ?length_insert; lia).
      rewrite list_lookup_insert_ne, list_lookup_insert_eq by (rewrite ?length_insert; lia).
      rewrite !list_lookup_insert_eq by (rewrite ?length_insert; lia).
      repeat split; auto.
      * destruct (Hw H) as (-> & ? & ?).
        destruct (lookup_lt_is_Some_2 (weights csr) cur) as [w Ew]; [lia|].
        unfold c1. rewrite (store_mirrored_w _ _ _ _ _ w) by assumption.
        rewrite list_lookup_insert_ne, list_lookup_insert_eq by (rewrite ?length_insert; lia).
        congruence.
      * destruct (Hw H) as (-> & ? & ?).
        destruct (lookup_lt_is_Some_2 (weights csr) cur) as [w Ew]; [lia|].
        unfold c1. rewrite (store_mirrored_w _ _ _ _ _ w) by assumption.
        rewrite list_lookup_insert_eq by (rewrite ?length_insert; lia).
        congruence.
Qed.

Lemma mirrored_at_same (c c' : COO W) (v : Z) (k : nat) :
  (forall i, i = k * 2 \/ i = k * 2 + 1 ->
     x_ c' !! i = x_ c !! i /\ y_ c' !! i = y_ c !! i /\ w_ c' !! i = w_ c !! i) ->
  mirrored_at wgt L csr c v k -> mirrored_at wgt L csr c' v k.
Proof.
  intros Hsame (Hx0 & Hy0 & Hx1 & Hy1 & Hw). unfold mirrored_at.
  destruct (Hsame (k * 2)) as (-> & -> & ->); [auto|].
  destruct (Hsame (k * 2 + 1)) as (-> & -> & ->); auto.
Qed.

Lemma fold_vertices_sizes (sym ut : bool) (vs : list nat) :
  forall c : COO W,
    n_ (fold_left (convert_vertex sym ut wgt L csr) vs c) = n_ c
    /\ m_ (fold_left (convert_vertex sym ut wgt L csr) vs c) = m_ c.
Proof.
  induction vs as [|v vs IH]; intros c; [auto|].
  cbn [fold_left]. destruct (IH (convert_vertex sym ut wgt L csr c v)) as [-> ->].
  unfold convert_vertex. apply convert_row_sizes.
Qed.

Hypothesis Hwf : csr_wf wgt L O csr.

Lemma off_ascending (v w : nat) :
  v <= w -> w <= Z.to_nat (csr_n csr) -> off csr v <= off csr w.
Proof.
  induction w as [|w IH]; intros Hvw Hw.
  - replace v with 0 by lia. lia.
  - destruct (Nat.eq_dec v (S w)) as [->|Hne]; [lia|].
    transitivity (off csr w); [apply IH; lia|].
    apply (wf_ascending _ _ _ _ Hwf). lia.
Qed.

Lemma fold_vertices_mirrors (nv : nat) :
  forall c : COO W,
    nv <= Z.to_nat (csr_n csr) ->
    Z.to_nat (csr_m csr) * 2 <= length (x_ c) ->
    Z.to_nat (csr_m csr) * 2 <= length (y_ c) ->
    (wgt = true -> Z.to_nat (csr_m csr) * 2 <= length (w_ c)) ->
    let c' := fold_left (convert_vertex true false wgt L csr) (seq 0 nv) c in
    same_outside c c' 0 (off csr nv)
    /\ forall v k, v < nv -> off csr v <= k < off csr (S v) ->
         mirrored_at wgt L csr c' (Z.of_nat v) k.
Proof.
  induction nv as [|nv IH]; intros c Hnv Hx Hy Hw c'.
  - subst c'. cbn. split; [|intros; lia].
    unfold same_outside. repeat split; auto.
  - subst c'. rewrite seq_S, fold_left_app. cbn [fold_left Nat.add].
    destruct (IH c) as [Hout Hin]; [lia|assumption..|].
    set (c1 := fold_left (convert_vertex true false wgt L csr) (seq 0 nv) c) in *.
    destruct Hout as (Hlx & Hly & Hlw & Hn & Hm & Hsame).
    pose proof (off_ascending nv (S nv) ltac:(lia) ltac:(lia)) as Hasc.
    pose proof (off_ascending (S nv) (Z.to_nat (csr_n csr)) ltac:(lia) ltac:(lia)) as Hlast.
    pose proof (wf_last _ _ _ _ Hwf) as Hlast'.
    pose proof (wf_endpoints _ _ _ _ Hwf) as Hep.
    unfold convert_vertex. cbn [andb negb].
    fold (off csr nv). fold (off csr (nv + 1)).
    replace (nv + 1) with (S nv) by lia.
    destruct (convert_row_mirrors (off csr (S nv) - off csr nv) c1 (Z.of_nat nv)
                (off csr nv) (off csr (S nv)) (off csr nv)) as [Hout' Hin'];
      [reflexivity | lia | lia | lia | |].
    { intros Hwgt. pose proof (wf_weights _ _ _ _ Hwf Hwgt). specialize (Hw Hwgt).
      repeat split; lia. }
    set (c2 := convert_row true false wgt L csr _ c1 _ _ _ _ _) in *.
    destruct Hout' as (Hlx' & Hly' & Hlw' & Hn' & Hm' & Hsame').
    split.
    + unfold same_outside.
      rewrite Hlx', Hly', Hlw', Hn', Hm'. repeat split; auto.
      all: destruct (Hsame' i) as (Ex & Ey & Ew); [lia|];
           destruct (Hsame i) as (Ex0 & Ey0 & Ew0); [lia|]; congruence.
    + intros v k Hv Hk.
      destruct (Nat.eq_dec v nv) as [->|Hne]; [apply Hin'; lia|].
      apply (mirrored_at_same c1); [|apply Hin; lia].
      pose proof (off_ascending (S v) nv ltac:(lia) ltac:(lia)).
      intros i Hi. apply Hsame'. lia.
Qed.
End ConvertCSR.

(** C8: for a well formed CSR, [convert_csr_] throws [NotYetImplemented]
    exactly when [sl] is set or [ut] is set without [sym], and then no array
    has been allocated or written; otherwise it returns with [n_ = csr.n()]
    and [m_ = csr.m()], doubled under [sym] and not [ut], where for every arc
    [k] from [v] to [u] the entries [2k] and [2k+1] hold [(u,v)] and
    [(v,u)], both with the weight of the arc. *)
Theorem convert_csr_outcome :
  forall (sym ut sl wgt : bool) (L O : IntType) (W : Type) (junk : Junk W)
         (c : COO W) (csr : CSR W),
    csr_wf wgt L O csr ->
    match convert_csr_ sym ut sl wgt L O junk c csr with
    | Throws e c' =>
        (sl = true \/ (sym = false /\ ut = true))
        /\ (exists msg, e = NotYetImplemented msg)
        /\ x_ c' = x_ c /\ y_ c' = y_ c /\ w_ c' = w_ c /\ trace c' = trace c
    | Returns c' =>
        sl = false /\ (sym = true \/ ut = false)
        /\ n_ c' = csr_n csr
        /\ m_ c' = (if sym && negb ut then csr_m csr * 2 else csr_m csr)%Z
        /\ (sym = true -> ut = false ->
            forall (v k : nat) (u : Z), arc csr v k u ->
              x_ c' !! (k * 2) = Some u /\ y_ c' !! (k * 2) = Some (Z.of_nat v)
              /\ x_ c' !! (k * 2 + 1) = Some (Z.of_nat v) /\ y_ c' !! (k * 2 + 1) = Some u
              /\ (wgt = true ->
                  is_Some (weights csr !! k)
                  /\ w_ c' !! (k * 2) = weights csr !! k
                  /\ w_ c' !! (k * 2 + 1) = weights csr !! k))
    end.
Proof.
  intros sym ut sl wgt L O W junk c csr Hwf.
  pose proof (wf_n _ _ _ _ Hwf) as [Hn0 Hn].
  pose proof (wf_m _ _ _ _ Hwf) as (Hm0 & Hm & Hm2).
  unfold fits in Hn, Hm, Hm2.
  unfold convert_csr_.
  destruct sl.
  { (* removing self loops is refused, whatever the other flags *)
    destruct sym, ut; cbn [andb negb];
      (split; [auto|]); (split; [eexists; reflexivity|]); auto. }
  destruct sym, ut; cbn [andb negb].
  - (* sym, ut *)
    split; [reflexivity|]. split; [auto|].
    destruct (fold_vertices_sizes wgt L csr true true
                (seq 0 (Z.to_nat (n_ (allocate_ wgt junk
                   (set_m (set_n c (wrap L (csr_n csr))) (wrap O (csr_m csr)))))))
                (allocate_ wgt junk (set_m (set_n c (wrap L (csr_n csr))) (wrap O (csr_m csr)))))
      as [-> ->].
    cbn. split; [exact Hn|]. split; [exact Hm|]. intros _ Hut; discriminate Hut.
  - (* sym, not ut: every arc is stored twice *)
    split; [reflexivity|]. split; [auto|].
    set (c0 := allocate_ wgt junk _).
    assert (En : n_ c0 = csr_n csr) by (cbn; exact Hn).
    assert (Em : m_ c0 = (csr_m csr * 2)%Z) by (cbn; rewrite Hm; exact Hm2).
    assert (Hlx : length (x_ c0) = Z.to_nat (csr_m csr) * 2)
      by (unfold c0, allocate_; cbn [x_ m_ set_m]; rewrite Hm, Hm2, length_map, length_seq; lia).
    assert (Hly : length (y_ c0) = Z.to_nat (csr_m csr) * 2)
      by (unfold c0, allocate_; cbn [y_ m_ set_m]; rewrite Hm, Hm2, length_map, length_seq; lia).
    assert (Hlw : wgt = true -> length (w_ c0) = Z.to_nat (csr_m csr) * 2).
    { intros ->. unfold c0, allocate_; cbn [w_ m_ set_m].
      rewrite Hm, Hm2, length_map, length_seq; lia. }
    destruct (fold_vertices_sizes wgt L csr true false (seq 0 (Z.to_nat (n_ c0))) c0)
      as [En' Em'].
    rewrite En', Em', Em. split; [exact En|]. split; [reflexivity|].
    intros _ _ v k u (Hv & Hk & Hu).
    destruct (fold_vertices_mirrors wgt L O csr Hwf (Z.to_nat (n_ c0)) c0) as [_ Hin];
      [lia | lia | lia | intros Hw; rewrite (Hlw Hw); lia |].
    destruct (Hin v k) as (Hx0 & Hy0 & Hx1 & Hy1 & Hw); [lia | lia |].
    assert (Eu : wrap L (nth k (endpoints csr) 0%Z) = u).
    { rewrite nth_lookup, Hu. cbn.
      exact (Forall_lookup_1 _ _ _ _ (wf_labels _ _ _ _ Hwf) Hu). }
    rewrite Eu in Hx0, Hy1.
    repeat split; auto.
    + apply lookup_lt_is_Some. rewrite (wf_weights _ _ _ _ Hwf H).
      apply lookup_lt_Some in Hu. exact Hu.
    + apply Hw; assumption.
    + apply Hw; assumption.
  - (* ut without sym is refused *)
    split; [auto|]. split; [eexists; reflexivity|]. auto.
  - (* no flag *)
    split; [reflexivity|]. split; [auto|].
    destruct (fold_vertices_sizes wgt L csr false false
                (seq 0 (Z.to_nat (n_ (allocate_ wgt junk
                   (set_m (set_n c (wrap L (csr_n csr))) (wrap O (csr_m csr)))))))
                (allocate_ wgt junk (set_m (set_n c (wrap L (csr_n csr))) (wrap O (csr_m csr)))))
      as [-> ->].
    cbn. split; [exact Hn|]. split; [exact Hm|]. intros Hsym; discriminate Hsym.
Qed.

Lemma triangle_csr_wf : csr_wf true uint32_t uint32_t triangle_csr.
Proof.
  constructor.
  - split; [cbn; lia | reflexivity].
  - split; [cbn; lia|]. split; reflexivity.
  - intros v Hv. change (Z.to_nat (csr_n triangle_csr)) with 3 in Hv.
    destruct v as [|[|[|v]]]; [cbv; lia ..|lia].
  - cbv. lia.
  - reflexivity.
  - repeat constructor.
  - reflexivity.
Qed.

(** The triangle converted under [sym] with weights: six entries. *)
Lemma convert_csr_outcome_witness :
  match convert_csr_ true false false true uint32_t uint32_t zero_junk fresh triangle_csr with
  | Throws e c' => False
  | Returns c' =>
      n_ c' = 3%Z /\ m_ c' = 6%Z
      /\ x_ c' = [1; 0; 2; 0; 2; 1]%Z /\ y_ c' = [0; 1; 0; 2; 1; 2]%Z
      /\ w_ c' = [10; 10; 20; 20; 30; 30]%Z
  end.
Proof.
  pose proof (convert_csr_outcome true false false true uint32_t uint32_t Z zero_junk
                fresh triangle_csr triangle_csr_wf) as H.
  destruct (convert_csr_ true false false true uint32_t uint32_t zero_junk fresh triangle_csr)
    eqn:E.
  - vm_compute in E. injection E as <-. repeat split; reflexivity.
  - destruct H as ([H|[H _]] & _); discriminate H.
Defined.

(** ** The binary format *)

(** *** Bytes and integers *)

Lemma code_chr (n : nat) : n < 256 -> code (chr n) = n.
Proof. apply nat_ascii_embedding. Qed.

Lemma length_encode_le (n : nat) : forall v, length (encode_le n v) = n.
Proof. induction n as [|n IH]; intros v; cbn; [reflexivity | rewrite IH; reflexivity]. Qed.

Lemma decode_encode_le (n : nat) :
  forall v, decode_le (encode_le n v) = (v mod 2 ^ (8 * Z.of_nat n))%Z.
Proof.
  induction n as [|n IH]; intros v.
  - cbn. rewrite Z.mod_1_r. reflexivity.
  - cbn [encode_le decode_le]. rewrite IH, code_chr.
    + rewrite Z2Nat.id by (apply Z.mod_pos_bound; lia).
      replace (8 * Z.of_nat (S n))%Z with (8 + 8 * Z.of_nat n)%Z by lia.
      rewrite Z.pow_add_r by lia.
      change (2 ^ 8)%Z with 256%Z.
      rewrite Z.rem_mul_r by lia. reflexivity.
    + pose proof (Z.mod_pos_bound v 256 ltac:(lia)). lia.
Qed.

Lemma wrap_mod (T : IntType) (v : Z) : wrap T (v mod modulus T) = wrap T v.
Proof.
  unfold wrap. destruct (signed T).
  - rewrite Zplus_mod_idemp_l. reflexivity.
  - apply Z.mod_mod. unfold modulus. lia.
Qed.

Lemma decode_encode (T : IntType) (v : Z) : fits T v -> decode T (encode T v) = v.
Proof.
  intros Hv. unfold decode, encode. rewrite decode_encode_le.
  fold (modulus T). rewrite wrap_mod. exact Hv.
Qed.

Lemma length_encode (T : IntType) (v : Z) : length (encode T v) = bytes T.
Proof. apply length_encode_le. Qed.

(** *** Arrays and their bytes *)

Lemma length_raw {A : Type} (enc : A -> list ascii) (k : nat) (v : list A) :
  (forall a, length (enc a) = k) -> length (raw enc v) = k * length v.
Proof.
  intros Hk. unfold raw. induction v as [|a v IH]; cbn; [lia|].
  rewrite length_app, Hk. fold (raw enc v) in *. lia.
Qed.

Lemma unraw_raw {A : Type} (enc : A -> list ascii) (dec : list ascii -> A) (k : nat)
    (v : list A) (rest : list ascii) :
  (forall a, length (enc a) = k) ->
  Forall (fun a => dec (enc a) = a) v ->
  unraw dec k (length v) (raw enc v ++ rest) = v.
Proof.
  intros Hk Hv. induction Hv as [|a v Ha Hv IH]; [reflexivity|].
  cbn [length unraw raw map concat]. rewrite <- app_assoc.
  rewrite take_app_length' by (symmetry; apply Hk).
  rewrite drop_app_length' by (symmetry; apply Hk).
  rewrite Ha. f_equal. exact IH.
Qed.

(** *** Copies *)

Lemma blit_app {A : Type} (src1 : list A) : forall buf pos src2,
  blit buf pos (src1 ++ src2) = blit (blit buf pos src1) (pos + length src1) src2.
Proof.
  induction src1 as [|b src1 IH]; intros buf pos src2; cbn.
  - rewrite Nat.add_0_r. reflexivity.
  - rewrite IH. f_equal. lia.
Qed.

Lemma length_blit {A : Type} (src : list A) :
  forall buf pos, length (blit buf pos src) = length buf.
Proof.
  induction src as [|b src IH]; intros buf pos; cbn; [reflexivity|].
  rewrite IH, length_insert. reflexivity.
Qed.

Lemma blit_spec {A : Type} (src : list A) : forall pre rest,
  length src <= length rest ->
  blit (pre ++ rest) (length pre) src = pre ++ src ++ drop (length src) rest.
Proof.
  induction src as [|b src IH]; intros pre rest Hlen; cbn.
  - rewrite drop_0. reflexivity.
  - destruct rest as [|c rest]; [cbn in Hlen; lia|].
    rewrite insert_app_r_alt by lia. rewrite Nat.sub_diag. cbn.
    replace (pre ++ b :: rest) with ((pre ++ [b]) ++ rest) by (rewrite <- app_assoc; reflexivity).
    replace (S (length pre)) with (length (pre ++ [b])) by (rewrite length_app; cbn; lia).
    rewrite IH by (cbn in Hlen; lia).
    rewrite <- app_assoc. reflexivity.
Qed.

Lemma bytes_at_app (buf : list ascii) (pos a b : nat) :
  bytes_at buf pos (a + b) = bytes_at buf pos a ++ bytes_at buf (pos + a) b.
Proof. unfold bytes_at. rewrite seq_app, map_app. reflexivity. Qed.

Lemma bytes_at_drop (buf : list ascii) (pos len : nat) :
  pos + len <= length buf -> bytes_at buf pos len = take len (drop pos buf).
Proof.
  revert pos. induction len as [|len IH]; intros pos Hlen.
  - reflexivity.
  - unfold bytes_at in *. cbn [seq map].
    rewrite IH by lia.
    destruct (lookup_lt_is_Some_2 buf pos ltac:(lia)) as [c Hc].
    rewrite (drop_S buf c pos Hc). cbn.
    f_equal. unfold at_. rewrite nth_lookup, Hc. reflexivity.
Qed.

Lemma bytes_at_prefix (bs rest : list ascii) (pre : list ascii) :
  bytes_at (pre ++ bs ++ rest) (length pre) (length bs) = bs.
Proof.
  rewrite bytes_at_drop by (rewrite !length_app; lia).
  rewrite drop_app_length. rewrite take_app_length. reflexivity.
Qed.

Lemma length_bytes_at (buf : list ascii) (pos len : nat) : length (bytes_at buf pos len) = len.
Proof. unfold bytes_at. rewrite length_map, length_seq. reflexivity. Qed.

Lemma bytes_at_whole (v : list ascii) : bytes_at v 0 (length v) = v.
Proof. rewrite bytes_at_drop by (cbn; lia). rewrite drop_0. apply firstn_all. Qed.

Lemma bytes_at_of_drop (buf : list ascii) (pos : nat) (bs rest : list ascii) :
  drop pos buf = bs ++ rest -> bytes_at buf pos (length bs) = bs.
Proof.
  intros Hd.
  assert (Hlen : length (drop pos buf) = length bs + length rest)
    by (rewrite Hd, length_app; reflexivity).
  rewrite length_drop in Hlen.
  destruct (Nat.le_gt_cases (length bs) 0) as [H0|Hpos].
  - destruct bs; [reflexivity | cbn in H0; lia].
  - rewrite bytes_at_drop by lia. rewrite Hd. apply take_app_length.
Qed.

Lemma drop_step (buf : list ascii) (pos : nat) (bs rest : list ascii) :
  drop pos buf = bs ++ rest -> drop (pos + length bs) buf = rest.
Proof.
  intros Hd. rewrite <- drop_drop, Hd. apply drop_app_length.
Qed.

(** The threads of [parallel_write] and [parallel_read] copy, between
    them, the [v_size] bytes: all but the last take [v_size / num_threads]
    bytes each, the last takes the rest. *)
Section Shares.
Variables (num_threads v_size dbase sbase : nat) (src : list ascii).

Lemma shares_before_last (k : nat) : forall buf,
  k <= num_threads - 1 ->
  fold_left (share_copy num_threads v_size dbase sbase src) (seq 0 k) buf
  = blit buf dbase (bytes_at src sbase (k * (v_size / num_threads))).
Proof.
  induction k as [|k IH]; intros buf Hk.
  - reflexivity.
  - rewrite seq_S, fold_left_app, IH by lia. cbn [fold_left Nat.add].
    unfold share_copy, my_share.
    destruct (Nat.eqb_spec k (num_threads - 1)) as [E|_]; [lia|].
    replace (S k * (v_size / num_threads))
      with (k * (v_size / num_threads) + v_size / num_threads) by lia.
    rewrite bytes_at_app, blit_app, length_bytes_at. reflexivity.
Qed.

Lemma shares_cover (buf : list ascii) :
  0 < num_threads ->
  fold_left (share_copy num_threads v_size dbase sbase src) (seq 0 num_threads) buf
  = blit buf dbase (bytes_at src sbase v_size).
Proof.
  intros HP.
  assert (Hseq : seq 0 num_threads = seq 0 (num_threads - 1) ++ [num_threads - 1])
    by (rewrite <- seq_S; f_equal; lia).
  rewrite Hseq, fold_left_app, shares_before_last by lia. cbn [fold_left].
  unfold share_copy, my_share. rewrite Nat.eqb_refl.
  pose proof (Nat.Div0.mul_div_le v_size num_threads) as Hq.
  assert (Hle : v_size / num_threads * (num_threads - 1) <= v_size) by nia.
  assert (Hsplit : bytes_at src sbase v_size
                   = bytes_at src sbase ((num_threads - 1) * (v_size / num_threads))
                     ++ bytes_at src (sbase + (num_threads - 1) * (v_size / num_threads))
                          (v_size - v_size / num_threads * (num_threads - 1)))
    by (rewrite <- bytes_at_app; f_equal; lia).
  rewrite Hsplit, blit_app, length_bytes_at. reflexivity.
Qed.
End Shares.

Lemma parallel_write_at (num_threads : nat) (fn pre rest v : list ascii) (sz : nat) :
  0 < num_threads -> length v <= length rest ->
  parallel_write num_threads (mkFile fn (pre ++ rest) sz (length pre)) v (length v)
  = mkFile fn ((pre ++ v) ++ drop (length v) rest) sz (length (pre ++ v)).
Proof.
  intros HP Hlen. unfold parallel_write. cbn [fn_ data_ size_ fp_].
  change (fold_left _ (seq 0 num_threads) (pre ++ rest))
    with (fold_left (share_copy num_threads (length v) (length pre) 0 v)
            (seq 0 num_threads) (pre ++ rest)).
  rewrite shares_cover by assumption.
  rewrite bytes_at_whole, blit_spec by assumption.
  rewrite length_app, <- app_assoc. reflexivity.
Qed.

Lemma write_bytes_at (fn pre rest bs : list ascii) (sz : nat) :
  length bs <= length rest ->
  File_write_bytes (mkFile fn (pre ++ rest) sz (length pre)) bs
  = mkFile fn ((pre ++ bs) ++ drop (length bs) rest) sz (length (pre ++ bs)).
Proof.
  intros Hlen. unfold File_write_bytes. cbn [fn_ data_ size_ fp_].
  rewrite blit_spec by assumption. rewrite length_app, <- app_assoc. reflexivity.
Qed.

Lemma parallel_read_at (num_threads : nat) (f : File) (buf bs rest : list ascii) (n : nat) :
  0 < num_threads ->
  drop (fp_ f) (data_ f) = bs ++ rest -> length bs = n -> length buf = n ->
  parallel_read num_threads f buf n = (bs, set_fp f (fp_ f + n)).
Proof.
  intros HP Hd <- Hlen. unfold parallel_read. f_equal.
  change (fold_left _ (seq 0 num_threads) buf)
    with (fold_left (share_copy num_threads (length bs) 0 (fp_ f) (data_ f))
            (seq 0 num_threads) buf).
  rewrite shares_cover by assumption.
  rewrite (bytes_at_of_drop _ _ _ _ Hd).
  pose proof (blit_spec bs [] buf ltac:(lia)) as Hb. cbn in Hb. rewrite Hb.
  rewrite drop_ge by lia. apply app_nil_r.
Qed.

Lemma File_read_at (T : IntType) (f : File) (v : Z) (rest : list ascii) :
  drop (fp_ f) (data_ f) = encode T v ++ rest -> fits T v ->
  File_read T f = (v, set_fp f (fp_ f + bytes T)).
Proof.
  intros Hd Hv. unfold File_read. f_equal.
  rewrite <- (length_encode T v), (bytes_at_of_drop _ _ _ _ Hd).
  apply decode_encode, Hv.
Qed.

Lemma File_read_str_at (f : File) (s rest : list ascii) :
  drop (fp_ f) (data_ f) = s ++ rest -> rest <> [] -> size_ f = length (data_ f) ->
  File_read_str f s = Ok (set_fp f (fp_ f + length s)).
Proof.
  intros Hd Hrest Hsz. unfold File_read_str, at_str, reader. cbn [d end_].
  assert (Hlen : length (drop (fp_ f) (data_ f)) = length s + length rest)
    by (rewrite Hd, length_app; reflexivity).
  rewrite length_drop in Hlen.
  assert (0 < length rest) by (destruct rest; [congruence | cbn; lia]).
  destruct (Nat.leb_spec (size_ f) (fp_ f + length s)); [lia|].
  fold (bytes_at (data_ f) (fp_ f) (length s)).
  rewrite (bytes_at_of_drop _ _ _ _ Hd).
  rewrite bool_decide_eq_true_2 by reflexivity. reflexivity.
Qed.

Lemma parallel_write_is_write (num_threads : nat) (f : File) (v : list ascii) (n : nat) :
  0 < num_threads -> length v = n ->
  parallel_write num_threads f v n = File_write_bytes f v.
Proof.
  intros HP <-. unfold parallel_write, File_write_bytes. f_equal.
  change (fold_left _ (seq 0 num_threads) (data_ f))
    with (fold_left (share_copy num_threads (length v) (fp_ f) 0 v)
            (seq 0 num_threads) (data_ f)).
  rewrite shares_cover by assumption. rewrite bytes_at_whole. reflexivity.
Qed.

Lemma write_nothing (f : File) : File_write_bytes f [] = f.
Proof. destruct f. unfold File_write_bytes. cbn. rewrite Nat.add_0_r. reflexivity. Qed.

Lemma write_segments (segs : list (list ascii)) :
  forall (fn pre rest : list ascii) (sz : nat),
    length (concat segs) <= length rest ->
    fold_left File_write_bytes segs (mkFile fn (pre ++ rest) sz (length pre))
    = mkFile fn ((pre ++ concat segs) ++ drop (length (concat segs)) rest) sz
             (length (pre ++ concat segs)).
Proof.
  induction segs as [|s segs IH]; intros fn pre rest sz Hlen.
  - cbn. rewrite drop_0, app_nil_r. reflexivity.
  - cbn [fold_left concat] in *. rewrite length_app in Hlen.
    rewrite write_bytes_at by lia.
    rewrite IH by (rewrite length_drop; lia).
    rewrite drop_drop, <- !app_assoc. f_equal.
    rewrite !length_app. reflexivity.
Qed.

Section RoundTrip.
Context {W : Type}.
Variables (wgt : bool) (L O : IntType) (W_size : nat).
Variables (W_bytes : W -> list ascii) (W_of_bytes : list ascii -> W).
Variable hdr : list ascii.
Variable c : COO W.
Hypothesis Hwf : coo_wf wgt L O W_size W_bytes W_of_bytes c.

Lemma length_raw_x : length (raw (encode L) (x_ c)) = bytes L * Z.to_nat (m_ c).
Proof.
  rewrite (length_raw _ (bytes L)) by apply length_encode.
  rewrite (proj1 (wf_x _ _ _ _ _ _ _ Hwf)). reflexivity.
Qed.

Lemma length_raw_y : length (raw (encode L) (y_ c)) = bytes L * Z.to_nat (m_ c).
Proof.
  rewrite (length_raw _ (bytes L)) by apply length_encode.
  rewrite (proj1 (wf_y _ _ _ _ _ _ _ Hwf)). reflexivity.
Qed.

Lemma length_raw_w :
  length (if wgt then raw W_bytes (w_ c) else []) = weight_size_ wgt W_size (m_ c).
Proof.
  unfold weight_size_. pose proof (wf_w _ _ _ _ _ _ _ Hwf) as Hw.
  destruct wgt; [|reflexivity].
  rewrite (length_raw _ W_size) by apply (wf_W_bytes _ _ _ _ _ _ _ Hwf).
  rewrite (proj1 (Hw eq_refl)). reflexivity.
Qed.

Lemma length_coo_image :
  length (coo_image wgt L O W_bytes hdr c)
  = length hdr + 2 + (bytes L * 3 + bytes O) + bytes L * Z.to_nat (m_ c) * 2
    + weight_size_ wgt W_size (m_ c).
Proof.
  unfold coo_image.
  rewrite !length_app, !length_encode, length_raw_x, length_raw_y, length_raw_w.
  cbn [bytes uint8_t]. lia.
Qed.

(** [save] writes the image, and nothing else. *)
Lemma save_writes_image (num_threads : nat) (fn : list ascii) :
  0 < num_threads ->
  save wgt L O W_size W_bytes num_threads hdr c fn
  = Ok (mkFile fn (coo_image wgt L O W_bytes hdr c)
               (length (coo_image wgt L O W_bytes hdr c))
               (length (coo_image wgt L O W_bytes hdr c))).
Proof.
  intros HP. unfold save. rewrite <- length_coo_image.
  set (image := coo_image wgt L O W_bytes hdr c).
  assert (Himg : 2 <= length image) by (unfold image; rewrite length_coo_image; lia).
  unfold File_open.
  destruct (Nat.eqb_spec (length image) 0) as [E|_]; [lia|].
  set (init := repeat zero (length image - 1) ++ [chr 1]).
  assert (Hinit : length init = length image)
    by (unfold init; rewrite length_app, repeat_length; cbn; lia).
  rewrite Hinit, Nat.eqb_refl. cbn [negb].
  destruct (Nat.eqb_spec (length image) 0) as [E|_]; [lia|].
  unfold seek. cbn [size_ fn_ data_].
  destruct (Nat.leb_spec (length image) 0) as [E|_]; [lia|].
  f_equal.
  rewrite !(parallel_write_is_write num_threads _ (raw (encode L) (x_ c)))
    by (try assumption; apply length_raw_x).
  rewrite !(parallel_write_is_write num_threads _ (raw (encode L) (y_ c)))
    by (try assumption; apply length_raw_y).
  set (f9 := File_write_bytes (File_write_bytes (File_write O _ _) _) _).
  assert (Hw : (if 0 <? weight_size_ wgt W_size (m_ c)
                then parallel_write num_threads f9 (raw W_bytes (w_ c))
                       (weight_size_ wgt W_size (m_ c))
                else f9)
               = File_write_bytes f9 (if wgt then raw W_bytes (w_ c) else [])).
  { pose proof length_raw_w as Hlw.
    destruct (Nat.ltb_spec 0 (weight_size_ wgt W_size (m_ c))) as [Hpos|Hzero].
    - unfold weight_size_ in *. destruct wgt; [|lia].
      apply parallel_write_is_write; assumption.
    - assert (E : (if wgt then raw W_bytes (w_ c) else []) = [])
        by (apply length_zero_iff_nil; lia).
      rewrite E, write_nothing. reflexivity. }
  rewrite Hw. clear Hw. subst f9. unfold File_write.
  change (File_write_bytes (File_write_bytes (File_write_bytes (File_write_bytes
            (File_write_bytes (File_write_bytes (File_write_bytes (File_write_bytes
            (File_write_bytes (File_write_bytes (mkFile fn init (length image) 0)
              ?s1) ?s2) ?s3) ?s4) ?s5) ?s6) ?s7) ?s8) ?s9) ?s10)
    with (fold_left File_write_bytes [s1; s2; s3; s4; s5; s6; s7; s8; s9; s10]
            (mkFile fn ([] ++ init) (length image) (length (@nil ascii)))).

  assert (Hcat : concat [hdr; encode uint8_t (wrap uint8_t (Z.of_nat (bytes L)));
                         encode uint8_t (wrap uint8_t (Z.of_nat (bytes O)));
                         encode L (nrows_ c); encode L (ncols_ c); encode L (n_ c);
                         encode O (m_ c); raw (encode L) (x_ c); raw (encode L) (y_ c);
                         if wgt then raw W_bytes (w_ c) else []] = image)
    by (cbn [concat]; rewrite app_nil_r; reflexivity).
  rewrite write_segments by (rewrite Hcat; lia).
  rewrite Hcat. cbn [app]. rewrite drop_ge, app_nil_r by lia. reflexivity.
Qed.
End RoundTrip.

Lemma at_str_at (data s rest : list ascii) (p e : nat) :
  drop p data = s ++ rest -> rest <> [] -> e = length data ->
  at_str data s (mkReader p e) = true.
Proof.
  intros Hd Hrest ->. unfold at_str. cbn [d end_].
  assert (Hlen : length (drop p data) = length s + length rest)
    by (rewrite Hd, length_app; reflexivity).
  rewrite length_drop in Hlen.
  assert (0 < length rest) by (destruct rest; [congruence | cbn; lia]).
  destruct (Nat.leb_spec (length data) (p + length s)); [lia|].
  fold (bytes_at data p (length s)).
  rewrite (bytes_at_of_drop _ _ _ _ Hd).
  apply bool_decide_eq_true_2. reflexivity.
Qed.

Lemma fits_wrap (T : IntType) (z : Z) : fits T (wrap T z).
Proof.
  unfold fits, wrap. destruct (signed T).
  - assert (Hmod : (0 < modulus T)%Z) by (apply Z.pow_pos_nonneg; lia).
    set (M := modulus T) in *. set (h := (M / 2)%Z).
    replace ((z + h) mod M - h + h)%Z with ((z + h) mod M)%Z by ring.
    rewrite Z.mod_mod by lia. reflexivity.
  - apply Z.mod_mod. unfold modulus. lia.
Qed.

Lemma wrap_uint8_small (n : nat) : n < 256 -> wrap uint8_t (Z.of_nat n) = Z.of_nat n.
Proof.
  intros Hn. unfold wrap, modulus. cbn [signed bytes uint8_t].
  change (2 ^ (8 * Z.of_nat 1))%Z with 256%Z. apply Z.mod_small. lia.
Qed.

Lemma read_bin_reads_image {W : Type} (wgt : bool) (L O : IntType) (W_size : nat)
    (W_bytes : W -> list ascii) (W_of_bytes : list ascii -> W) (hdr : list ascii)
    (c : COO W) (num_threads : nat) (junk : Junk W) (c0 : COO W) (fn : list ascii) :
  coo_wf wgt L O W_size W_bytes W_of_bytes c ->
  0 < num_threads ->
  exists c',
    read_bin_ wgt L O W_size W_bytes W_of_bytes num_threads junk hdr c0
      (mkFile fn (coo_image wgt L O W_bytes hdr c)
              (length (coo_image wgt L O W_bytes hdr c)) 0)
    = Returns c'
    /\ nrows_ c' = nrows_ c /\ ncols_ c' = ncols_ c /\ n_ c' = n_ c /\ m_ c' = m_ c
    /\ x_ c' = x_ c /\ y_ c' = y_ c /\ (wgt = true -> w_ c' = w_ c).
Proof.
  intros Hwf HP.
  pose proof (wf_fits _ _ _ _ _ _ _ Hwf) as (Hnr & Hnc & Hn & Hm).
  pose proof (wf_x _ _ _ _ _ _ _ Hwf) as [Hlx Hfx].
  pose proof (wf_y _ _ _ _ _ _ _ Hwf) as [Hly Hfy].
  pose proof (wf_L_size _ _ _ _ _ _ _ Hwf) as HL.
  pose proof (wf_O_size _ _ _ _ _ _ _ Hwf) as HO.
  pose proof (wf_W_size _ _ _ _ _ _ _ Hwf) as HWs.
  pose proof (wf_W_bytes _ _ _ _ _ _ _ Hwf) as HWb.
  pose proof (wf_w _ _ _ _ _ _ _ Hwf) as Hw.
  set (image := coo_image wgt L O W_bytes hdr c).
  set (f0 := mkFile fn image (length image) 0).
  unfold read_bin_.
  assert (D : drop (fp_ f0) (data_ f0) = image) by apply drop_0.
  unfold image, coo_image in D.
  rewrite (File_read_str_at f0 hdr _ D);
    [| cbn; discriminate | reflexivity].
  apply drop_step in D.
  (* the two widths *)
  match goal with |- context [File_read uint8_t ?f] =>
    rewrite (File_read_at uint8_t f _ _ D (fits_wrap _ _)) end.
  cbv beta iota. apply drop_step in D. rewrite length_encode in D.
  match goal with |- context [File_read uint8_t ?f] =>
    rewrite (File_read_at uint8_t f _ _ D (fits_wrap _ _)) end.
  cbv beta iota. apply drop_step in D. rewrite length_encode in D.
  rewrite !wrap_uint8_small by assumption. rewrite !Z.eqb_refl. cbn [negb].
  (* the four sizes *)
  match goal with |- context [File_read L ?f] =>
    rewrite (File_read_at L f _ _ D Hnr) end.
  cbv beta iota. apply drop_step in D. rewrite length_encode in D.
  match goal with |- context [File_read L ?f] =>
    rewrite (File_read_at L f _ _ D Hnc) end.
  cbv beta iota. apply drop_step in D. rewrite length_encode in D.
  match goal with |- context [File_read L ?f] =>
    rewrite (File_read_at L f _ _ D Hn) end.
  cbv beta iota. apply drop_step in D. rewrite length_encode in D.
  match goal with |- context [File_read O ?f] =>
    rewrite (File_read_at O f _ _ D Hm) end.
  cbv beta iota. apply drop_step in D. rewrite length_encode in D.
  (* the arrays *)
  set (c1 := allocate_ wgt junk _).
  assert (Em : m_ c1 = m_ c) by reflexivity.
  rewrite Em.
  assert (Hjx : length (raw (encode L) (x_ c1)) = bytes L * Z.to_nat (m_ c)).
  { rewrite (length_raw _ (bytes L)) by apply length_encode.
    unfold c1, allocate_. cbn [x_ m_ set_m]. rewrite length_map, length_seq. reflexivity. }
  assert (Hjy : length (raw (encode L) (y_ c1)) = bytes L * Z.to_nat (m_ c)).
  { rewrite (length_raw _ (bytes L)) by apply length_encode.
    unfold c1, allocate_. cbn [y_ m_ set_m]. rewrite length_map, length_seq. reflexivity. }
  match goal with |- context [parallel_read num_threads ?f (raw (encode L) (x_ c1)) ?n] =>
    rewrite (parallel_read_at num_threads f _ _ _ n HP D
               (length_raw_x wgt L O W_size W_bytes W_of_bytes c Hwf) Hjx) end.
  cbv beta iota. apply drop_step in D.
  rewrite (length_raw_x wgt L O W_size W_bytes W_of_bytes c Hwf) in D.
  match goal with |- context [parallel_read num_threads ?f (raw (encode L) (y_ c1)) ?n] =>
    rewrite (parallel_read_at num_threads f _ _ _ n HP D
               (length_raw_y wgt L O W_size W_bytes W_of_bytes c Hwf) Hjy) end.
  cbv beta iota. apply drop_step in D.
  rewrite (length_raw_y wgt L O W_size W_bytes W_of_bytes c Hwf) in D.
  eexists. split; [reflexivity|]. cbn [nrows_ ncols_ n_ m_ x_ y_ w_].
  split; [reflexivity|]. split; [reflexivity|]. split; [reflexivity|].
  split; [reflexivity|].
  split.
  { rewrite <- Hlx. rewrite <- (app_nil_r (raw (encode L) (x_ c))).
    apply unraw_raw; [apply length_encode|].
    eapply Forall_impl; [exact Hfx|]. intros a Ha. apply decode_encode, Ha. }
  split.
  { rewrite <- Hly. rewrite <- (app_nil_r (raw (encode L) (y_ c))).
    apply unraw_raw; [apply length_encode|].
    eapply Forall_impl; [exact Hfy|]. intros a Ha. apply decode_encode, Ha. }
  intros ->. destruct (Hw eq_refl) as [Hlw Hfw].
  rewrite <- (app_nil_r (raw W_bytes (w_ c))) in D.
  unfold weight_size_.
  destruct (Nat.ltb_spec 0 (W_size * Z.to_nat (m_ c))) as [Hpos|Hzero].
  - match goal with |- context [parallel_read num_threads ?f ?buf ?n] =>
      rewrite (parallel_read_at num_threads f buf _ _ n HP D) end.
    + cbn [fst]. rewrite <- Hlw. rewrite <- (app_nil_r (raw W_bytes (w_ c))).
      apply unraw_raw; assumption.
    + rewrite (length_raw _ W_size) by assumption. rewrite Hlw. reflexivity.
    + rewrite (length_raw _ W_size) by assumption.
      unfold c1, allocate_. cbn [w_ m_ set_m]. rewrite length_map, length_seq. reflexivity.
  - assert (E0 : Z.to_nat (m_ c) = 0) by nia.
    unfold c1, allocate_. cbn [w_ m_ set_m]. rewrite E0. cbn.
    symmetry. apply length_zero_iff_nil. lia.
Qed.

(** C7: a COO saved in the binary format and loaded back, with the same
    widths [L], [O], [W] (the type of the file given or detected), is the
    COO that was saved: the same [nrows_], [ncols_], [n_], [m_], the same
    [x_] and [y_], and with [wgt] the same [w_]; whatever the numbers of
    threads at work in [save] and in the constructor. *)
Theorem save_load_roundtrip :
  forall (sym ut sl wgt : bool) (L O : IntType) (W : Type) (wr : WeightReader W)
         (W_size : nat) (W_bytes : W -> list ascii) (W_of_bytes : list ascii -> W)
         (save_threads load_threads : nat) (junk : Junk W)
         (coo_file_header csr_file_header digraph_file_header tensor_file_header : list ascii)
         (CSR_load : File -> FileType -> res (CSR W))
         (c : COO W) (fn : list ascii) (ft : FileType),
    coo_wf wgt L O W_size W_bytes W_of_bytes c ->
    0 < save_threads -> 0 < load_threads ->
    ft = AUTO \/ ft = PIGO_COO_BIN ->
    exists (f : File) (c' : COO W),
      save wgt L O W_size W_bytes save_threads coo_file_header c fn = Ok f
      /\ COO_from_file sym ut sl wgt L O wr W_size W_bytes W_of_bytes load_threads junk
           coo_file_header csr_file_header digraph_file_header tensor_file_header
           CSR_load fn (data_ f) ft = Returns c'
      /\ nrows_ c' = nrows_ c /\ ncols_ c' = ncols_ c /\ n_ c' = n_ c /\ m_ c' = m_ c
      /\ x_ c' = x_ c /\ y_ c' = y_ c /\ (wgt = true -> w_ c' = w_ c).
Proof.
  intros sym ut sl wgt L O W wr W_size W_bytes W_of_bytes Ps Pl junk
         hcoo hcsr hdg hts CSR_load c fn ft Hwf HPs HPl Hft.
  destruct (read_bin_reads_image wgt L O W_size W_bytes W_of_bytes hcoo c Pl junk
              fresh fn Hwf HPl) as (c' & Hread & Hsame).
  exists (mkFile fn (coo_image wgt L O W_bytes hcoo c)
                 (length (coo_image wgt L O W_bytes hcoo c))
                 (length (coo_image wgt L O W_bytes hcoo c))), c'.
  split; [apply (save_writes_image wgt L O W_size W_bytes W_of_bytes hcoo c Hwf); assumption|].
  split; [|exact Hsame].
  cbn [data_]. unfold COO_from_file, File_open. cbn [Nat.ltb Nat.leb]. unfold seek.
  cbn [size_ fn_ data_].
  pose proof (length_coo_image wgt L O W_size W_bytes W_of_bytes hcoo c Hwf) as Hlen.
  destruct (Nat.eqb_spec (length (coo_image wgt L O W_bytes hcoo c)) 0) as [E|_]; [lia|].
  destruct (Nat.leb_spec (length (coo_image wgt L O W_bytes hcoo c)) 0) as [E|_]; [lia|].
  unfold read_.
  destruct Hft as [-> | ->]; [|exact Hread].
  unfold guess_file_type, reader. cbn [fp_ size_ data_].
  rewrite (at_str_at _ hcoo
             (encode uint8_t (wrap uint8_t (Z.of_nat (bytes L)))
              ++ encode uint8_t (wrap uint8_t (Z.of_nat (bytes O)))
              ++ encode L (nrows_ c) ++ encode L (ncols_ c) ++ encode L (n_ c)
              ++ encode O (m_ c) ++ raw (encode L) (x_ c) ++ raw (encode L) (y_ c)
              ++ (if wgt then raw W_bytes (w_ c) else [])));
    [exact Hread | apply drop_0 | cbn; discriminate | reflexivity].
Qed.

Lemma scenario5_wf : coo_wf true uint32_t uint32_t 4 (encode_le 4) decode_le scenario5.
Proof.
  constructor.
  - cbn; lia.
  - cbn; lia.
  - lia.
  - intros w. apply length_encode_le.
  - repeat split; reflexivity.
  - split; [reflexivity|]. repeat constructor.
  - split; [reflexivity|]. repeat constructor.
  - intros _. split; [reflexivity|]. repeat constructor.
Qed.

(** Scenario 6 of the specification: the binary round trip of scenario 5,
    written by two threads and read by three. *)
Lemma save_load_roundtrip_witness :
  exists (f : File) (c' : COO Z),
    save true uint32_t uint32_t 4 (encode_le 4) 2 (bytes_of "PIGO-COO-v2") scenario5
         (bytes_of "s5.bin") = Ok f
    /\ COO_from_file false false false true uint32_t uint32_t (unsigned_weight uint32_t)
         4 (encode_le 4) decode_le 3 zero_junk
         (bytes_of "PIGO-COO-v2") (bytes_of "PIGO-CSR-v2") (bytes_of "PIGO-DiGraph-v2")
         (bytes_of "PIGO-Tensor-v1") (fun _ _ => Throw (Error "no CSR"))
         (bytes_of "s5.bin") (data_ f) AUTO = Returns c'
    /\ nrows_ c' = 3%Z /\ ncols_ c' = 3%Z /\ n_ c' = 3%Z /\ m_ c' = 2%Z
    /\ x_ c' = [1; 2]%Z /\ y_ c' = [2; 1]%Z
    /\ (true = true -> w_ c' = [1065353216; 1073741824]%Z).
Proof.
  apply (save_load_roundtrip false false false true uint32_t uint32_t Z
           (unsigned_weight uint32_t) 4 (encode_le 4) decode_le 2 3 zero_junk
           (bytes_of "PIGO-COO-v2") (bytes_of "PIGO-CSR-v2") (bytes_of "PIGO-DiGraph-v2")
           (bytes_of "PIGO-Tensor-v1") (fun _ _ => Throw (Error "no CSR"))
           scenario5 (bytes_of "s5.bin") AUTO scenario5_wf);
    [lia | lia | left; reflexivity].
Defined.

(** ** The scanners on a text whose layout is known

    [drop p data = suf] says that the cursor [p] stands in front of [suf]. *)

Section Layout.
Variable data : list ascii.

Lemma at_hd (p : nat) (suf : list ascii) :
  drop p data = suf -> at_ data p = nth 0 suf zero.
Proof.
  intros <-. unfold at_. rewrite !nth_lookup, lookup_drop, Nat.add_0_r. reflexivity.
Qed.

Lemma at_cons (p : nat) (a : ascii) (suf : list ascii) :
  drop p data = a :: suf -> at_ data p = a.
Proof. intros H. rewrite (at_hd p _ H). reflexivity. Qed.

Lemma drop_cons_step (p : nat) (a : ascii) (suf : list ascii) :
  drop p data = a :: suf -> drop (S p) data = suf.
Proof.
  intros H. replace (S p) with (p + length [a]) by (cbn; lia).
  apply (drop_step data p [a] suf H).
Qed.

Lemma drop_bound (p : nat) (run rest : list ascii) :
  drop p data = run ++ rest -> run <> [] -> p + length run <= length data.
Proof.
  intros H Hne.
  assert (Hl : length (drop p data) = length run + length rest)
    by (rewrite H, length_app; reflexivity).
  rewrite length_drop in Hl.
  destruct run; [congruence|]. cbn in *. lia.
Qed.

(** A loop [while (d < end && c( *d)) ++d;] in front of a run of
    characters that satisfy [c], followed by one that does not or by the
    end of the range. *)
Lemma advance_while_over (c : ascii -> bool) (run : list ascii) :
  forall (p e : nat) (rest : list ascii),
    drop p data = run ++ rest ->
    forallb c run = true ->
    p + length run <= e ->
    p + length run = e \/ c (nth 0 rest zero) = false ->
    advance_while data c (e - p) p = p + length run.
Proof.
  induction run as [|a run IH]; intros p e rest Hd Hc He Hstop.
  - cbn in *. rewrite Nat.add_0_r in *.
    destruct (e - p) as [|f] eqn:Ef; cbn; [reflexivity|].
    destruct Hstop as [Hstop | Hstop]; [lia|].
    rewrite (at_hd p _ Hd), Hstop. reflexivity.
  - cbn in Hc, He. apply andb_prop in Hc as [Ha Hc].
    destruct (e - p) as [|f] eqn:Ef; [lia|].
    cbn [advance_while]. rewrite (at_cons p a _ Hd), Ha.
    replace f with (e - S p) by lia.
    rewrite (IH (S p) e rest); [cbn; lia | | assumption | lia | ].
    + apply (drop_cons_step p a). exact Hd.
    + destruct Hstop as [Hstop|Hstop]; [left; cbn in Hstop; lia | right; exact Hstop].
Qed.

(** The digit loop of [read_int] in front of a run of digits. *)
Lemma read_digits_over (T : IntType) (run : list ascii) :
  forall (p e : nat) (rest : list ascii) (res : Z),
    drop p data = run ++ rest ->
    forallb is_digit run = true ->
    p + length run <= e ->
    p + length run = e \/ is_digit (nth 0 rest zero) = false ->
    read_digits data T (e - p) p res
    = (fold_left (fun res a => wrap T (res * 10 + digit_val a)) run res, p + length run).
Proof.
  induction run as [|a run IH]; intros p e rest res Hd Hc He Hstop.
  - cbn in *. rewrite Nat.add_0_r in *.
    destruct (e - p) as [|f] eqn:Ef; cbn; [reflexivity|].
    destruct Hstop as [Hstop | Hstop]; [lia|].
    rewrite (at_hd p _ Hd), Hstop. reflexivity.
  - cbn in Hc, He. apply andb_prop in Hc as [Ha Hc].
    destruct (e - p) as [|f] eqn:Ef; [lia|].
    cbn [read_digits fold_left]. rewrite (at_cons p a _ Hd), Ha.
    replace f with (e - S p) by lia.
    rewrite (IH (S p) e rest); [f_equal; cbn; lia | | assumption | lia | ].
    + apply (drop_cons_step p a). exact Hd.
    + destruct Hstop as [Hstop|Hstop]; [left; cbn in Hstop; lia | right; exact Hstop].
Qed.

(** [read_int] in front of a run of digits. *)
Lemma read_int_over (T : IntType) (run rest : list ascii) (p e : nat) :
  drop p data = run ++ rest ->
  run <> [] -> forallb is_digit run = true ->
  p + length run <= e ->
  p + length run = e \/ is_digit (nth 0 rest zero) = false ->
  read_int data T (mkReader p e) = (digits_value T run, mkReader (p + length run) e).
Proof.
  intros Hd Hne Hc He Hstop. unfold read_int. cbn [d end_].
  assert (H0 : advance_while data (fun c => negb (is_digit c)) (e - p) p = p).
  { replace p with (p + length (@nil ascii)) at 3 by (cbn; lia).
    apply (advance_while_over _ [] p e (run ++ rest)); [exact Hd | reflexivity | cbn; lia |].
    right. destruct run as [|a run]; [congruence|]. cbn in *.
    apply andb_prop in Hc as [-> _]. reflexivity. }
  rewrite H0, (read_digits_over T run p e rest 0%Z Hd Hc He Hstop). reflexivity.
Qed.

(** The inner loop of [skip_comments] in front of the rest of a line. *)
Lemma past_eol_over (body : list ascii) :
  forall (p e : nat) (rest : list ascii),
    drop p data = body ++ NL :: rest ->
    forallb (fun a => negb (is_nl a)) body = true ->
    p + length body < e ->
    past_eol data (e - p) p = p + length body + 1.
Proof.
  induction body as [|a body IH]; intros p e rest Hd Hc He.
  - cbn in *. destruct (e - p) as [|f] eqn:Ef; [lia|].
    cbn [past_eol]. rewrite (at_cons p NL _ Hd).
    change (is_nl NL) with true. cbn [length]. lia.
  - cbn in Hc, He. apply andb_prop in Hc as [Ha Hc].
    destruct (e - p) as [|f] eqn:Ef; [lia|].
    cbn [past_eol]. rewrite (at_cons p a _ Hd).
    apply negb_true_iff in Ha. rewrite Ha.
    replace f with (e - S p) by lia.
    rewrite (IH (S p) e rest); [cbn; lia | | assumption | lia].
    apply (drop_cons_step p a). exact Hd.
Qed.

(** *** Fuel: the loops stop at the end of the range *)

Lemma past_eol_gt (fuel p : nat) : 0 < fuel -> p < past_eol data fuel p.
Proof.
  revert p. induction fuel as [|f IH]; intros p Hf; [lia|].
  cbn. destruct (is_nl (at_ data p)); [lia|].
  destruct f; [cbn; lia|]. specialize (IH (S p) ltac:(lia)). lia.
Qed.

Lemma skip_comments_loop_fuel (e : nat) (f1 : nat) :
  forall (f2 p : nat),
    e - p <= f1 -> e - p <= f2 ->
    skip_comments_loop data f1 e p = skip_comments_loop data f2 e p.
Proof.
  induction f1 as [|f1 IH]; intros f2 p H1 H2.
  - destruct f2 as [|f2]; [reflexivity|]. cbn [skip_comments_loop].
    destruct (Nat.ltb_spec p e); [lia|]. reflexivity.
  - destruct f2 as [|f2].
    + cbn [skip_comments_loop]. destruct (Nat.ltb_spec p e); [lia|]. reflexivity.
    + cbn [skip_comments_loop]. destruct (Nat.ltb_spec p e) as [Hlt|]; [|reflexivity].
      destruct (is_comment (at_ data p)); [|reflexivity]. cbn [andb].
      pose proof (past_eol_gt (e - p) p ltac:(lia)).
      apply IH; lia.
Qed.

Lemma skip_comments_loop_ge (e fuel : nat) :
  forall p, p <= skip_comments_loop data fuel e p.
Proof.
  induction fuel as [|f IH]; intros p; [cbn; lia|].
  cbn [skip_comments_loop]. destruct (Nat.ltb_spec p e) as [Hlt|]; [|cbn; lia].
  destruct (is_comment (at_ data p)); cbn [andb]; [|lia].
  pose proof (past_eol_gt (e - p) p ltac:(lia)).
  specialize (IH (past_eol data (e - p) p)). lia.
Qed.

Lemma skip_if_comment_ge (r : FileReader) :
  d r <= d (skip_if_comment data r) /\ end_ (skip_if_comment data r) = end_ r.
Proof.
  unfold skip_if_comment, skip_comments.
  destruct (is_comment (at_ data (d r))); cbn; [|lia].
  split; [apply skip_comments_loop_ge | reflexivity].
Qed.

Lemma seek_loop_fuel (stop : ascii -> bool) (f1 : nat) :
  forall (f2 : nat) (r : FileReader),
    size r <= f1 -> size r <= f2 ->
    seek_loop data stop f1 r = seek_loop data stop f2 r.
Proof.
  unfold size.
  induction f1 as [|f1 IH]; intros f2 r H1 H2.
  - destruct f2 as [|f2]; [reflexivity|]. cbn [seek_loop]. unfold good.
    destruct (Nat.ltb_spec (d r) (end_ r)); [lia|]. reflexivity.
  - destruct f2 as [|f2].
    + cbn [seek_loop]. unfold good. destruct (Nat.ltb_spec (d r) (end_ r)); [lia|]. reflexivity.
    + cbn [seek_loop]. unfold good. destruct (Nat.ltb_spec (d r) (end_ r)) as [Hlt|]; [|reflexivity].
      destruct (stop (at_ data (d r))); [reflexivity|]. cbn [andb negb].
      pose proof (skip_if_comment_ge (set_d r (S (d r)))) as [Hge He].
      cbn [set_d d end_] in Hge, He.
      apply IH; lia.
Qed.

(** *** [move_to_first_int], one character or one comment at a time *)

Lemma digit_not_comment (a : ascii) : is_digit a = true -> is_comment a = false.
Proof.
  destruct a as [[] [] [] [] [] [] [] []]; vm_compute; congruence.
Qed.

Lemma zero_plain : is_digit zero = false /\ is_comment zero = false /\ is_nl zero = false.
Proof. repeat split. Qed.

Lemma move_to_first_int_stop (p e : nat) :
  e <= p \/ is_digit (at_ data p) = true ->
  move_to_first_int data (mkReader p e) = mkReader p e.
Proof.
  intros H. unfold move_to_first_int.
  assert (E : skip_if_comment data (mkReader p e) = mkReader p e).
  { unfold skip_if_comment, skip_comments. cbn [d end_ set_d].
    destruct H as [H|H].
    - replace (e - p) with 0 by lia. cbn. destruct (is_comment (at_ data p)); reflexivity.
    - rewrite (digit_not_comment _ H). reflexivity. }
  rewrite E. unfold size. cbn [d end_].
  destruct (e - p) as [|f] eqn:Ef; [reflexivity|].
  cbn [seek_loop]. unfold good. cbn [d end_].
  destruct H as [H|H]; [lia|]. rewrite H, andb_false_r. reflexivity.
Qed.

Lemma move_to_first_int_step (p e : nat) :
  p < e -> is_digit (at_ data p) = false -> is_comment (at_ data p) = false ->
  move_to_first_int data (mkReader p e) = move_to_first_int data (mkReader (S p) e).
Proof.
  intros Hlt Hd Hc.
  assert (E : skip_if_comment data (mkReader p e) = mkReader p e)
    by (unfold skip_if_comment; cbn [d]; rewrite Hc; reflexivity).
  unfold move_to_first_int at 1. cbv zeta. rewrite !E.
  unfold size. cbn [d end_].
  destruct (e - p) as [|f] eqn:Ef; [lia|].
  cbn [seek_loop]. unfold good. cbn [d end_ set_d].
  rewrite (proj2 (Nat.ltb_lt _ _) Hlt), Hd. cbn [andb negb].
  unfold move_to_first_int.
  pose proof (skip_if_comment_ge (mkReader (S p) e)) as [Hge He]. cbn [d end_] in Hge, He.
  apply seek_loop_fuel; unfold size; lia.
Qed.

Lemma move_to_first_int_comment (p e : nat) (a : ascii) (body rest : list ascii) :
  drop p data = a :: body ++ NL :: rest ->
  is_comment a = true ->
  forallb (fun a => negb (is_nl a)) body = true ->
  p + length body + 1 < e ->
  move_to_first_int data (mkReader p e)
  = move_to_first_int data (mkReader (p + length body + 2) e).
Proof.
  intros Hd Ha Hbody He.
  assert (Hnl : negb (is_nl a) = true).
  { destruct a as [[] [] [] [] [] [] [] []]; vm_compute in Ha |- *; congruence. }
  assert (Hpast : past_eol data (e - p) p = p + length body + 2).
  { rewrite (past_eol_over (a :: body) p e rest); [cbn; lia | exact Hd | | cbn; lia].
    cbn. rewrite Hnl. exact Hbody. }
  assert (E : skip_if_comment data (mkReader p e)
              = skip_if_comment data (mkReader (p + length body + 2) e)).
  { unfold skip_if_comment at 1. cbn [d]. rewrite (at_cons p a _ Hd), Ha.
    unfold skip_comments. cbn [d end_ set_d].
    assert (Ef : e - p = S (e - p - 1)) by lia.
    rewrite Ef. set (f := e - p - 1) in *.
    cbn [skip_comments_loop]. rewrite (proj2 (Nat.ltb_lt p e) ltac:(lia)).
    rewrite (at_cons p a _ Hd), Ha. cbn [andb].
    rewrite Hpast.
    unfold skip_if_comment, skip_comments. cbn [d end_ set_d].
    destruct (is_comment (at_ data (p + length body + 2))) eqn:Ec.
    - f_equal. apply skip_comments_loop_fuel; lia.
    - f_equal. destruct f as [|f]; [reflexivity|].
      cbn [skip_comments_loop]. rewrite Ec, andb_false_r. reflexivity. }
  unfold move_to_first_int. cbv zeta. rewrite E. reflexivity.
Qed.

(** Over a run of characters that are no digits and start no comment. *)
Lemma move_to_first_int_fillers (run : list ascii) :
  forall (p e : nat) (rest : list ascii),
    drop p data = run ++ rest ->
    forallb is_filler run = true ->
    p + length run <= e ->
    move_to_first_int data (mkReader p e)
    = move_to_first_int data (mkReader (p + length run) e).
Proof.
  induction run as [|a run IH]; intros p e rest Hd Hrun He.
  - cbn. rewrite Nat.add_0_r. reflexivity.
  - cbn in Hrun, He. apply andb_prop in Hrun as [Ha Hrun].
    unfold is_filler in Ha. apply andb_prop in Ha as [Ha Hnl].
    apply andb_prop in Ha as [Hdg Hcm].
    apply negb_true_iff in Hdg, Hcm.
    rewrite move_to_first_int_step; [| lia | rewrite (at_cons p a _ Hd); assumption ..].
    rewrite (IH (S p) e rest); [f_equal; f_equal; cbn; lia | | assumption | lia].
    apply (drop_cons_step p a). exact Hd.
Qed.

(** Over the lines to skip. *)
Lemma move_to_first_int_gap (gap : list skipline) :
  forall (p e : nat) (rest : list ascii),
    drop p data = render_gap gap ++ rest ->
    forallb skip_ok gap = true ->
    p + length (render_gap gap) <= e ->
    move_to_first_int data (mkReader p e)
    = move_to_first_int data (mkReader (p + length (render_gap gap)) e).
Proof.
  induction gap as [|l gap IH]; intros p e rest Hd Hok He.
  - cbn. rewrite Nat.add_0_r. reflexivity.
  - cbn [forallb] in Hok. apply andb_prop in Hok as [Hl Hok].
    unfold render_gap in *. cbn [map concat] in *. fold (render_gap gap) in *.
    rewrite length_app in *. rewrite <- app_assoc in Hd.
    assert (Hnext : drop (p + length (render_skip l)) data = concat (map render_skip gap) ++ rest)
      by (apply (drop_step data p _ _ Hd)).
    rewrite Nat.add_assoc, <- (IH (p + length (render_skip l)) e rest Hnext Hok ltac:(lia)).
    destruct l as [c body | body]; cbn [render_skip skip_ok] in *.
    + apply andb_prop in Hl as [Hc Hbody].
      cbn [app] in Hd. rewrite <- app_assoc in Hd. cbn [app] in Hd.
      rewrite (move_to_first_int_comment p e c body _ Hd Hc Hbody)
        by (cbn [length] in He; rewrite length_app in He; cbn in He; lia).
      f_equal. f_equal. cbn [length]. rewrite length_app. cbn. lia.
    + rewrite <- app_assoc in Hd. cbn [app] in Hd.
      rewrite length_app in *. cbn [length] in *.
      rewrite (move_to_first_int_fillers body p e _ Hd Hl) by lia.
      rewrite move_to_first_int_step.
      * f_equal. f_equal. lia.
      * lia.
      * rewrite (at_cons _ NL _ (drop_step data p _ _ Hd)). reflexivity.
      * rewrite (at_cons _ NL _ (drop_step data p _ _ Hd)). reflexivity.
Qed.

(** *** Lines *)

Lemma move_to_eol_over (run rest : list ascii) (p e : nat) :
  drop p data = run ++ NL :: rest ->
  forallb (fun a => negb (is_nl a)) run = true ->
  p + length run < e ->
  move_to_eol data (mkReader p e) = mkReader (p + length run) e.
Proof.
  intros Hd Hrun He. unfold move_to_eol, skip_while, set_d. cbn [d end_].
  rewrite (advance_while_over (fun c => negb (is_nl c)) run p e (NL :: rest));
    [reflexivity | assumption | assumption | lia | right; reflexivity].
Qed.

Lemma move_to_non_int_stay (p e : nat) :
  is_digit (at_ data p) = false ->
  move_to_non_int data (mkReader p e) = mkReader p e.
Proof.
  intros H. unfold move_to_non_int, skip_while, set_d. cbn [d end_].
  destruct (e - p); cbn; [reflexivity|]. rewrite H. reflexivity.
Qed.

(** From the newline that ends a line, [move_to_next_int] goes on from
    the start of the next line. *)
Lemma move_to_next_int_from_nl (p e : nat) (rest : list ascii) :
  drop p data = NL :: rest -> p < e ->
  move_to_next_int data (mkReader p e) = move_to_first_int data (mkReader (S p) e).
Proof.
  intros Hd He. unfold move_to_next_int.
  rewrite move_to_non_int_stay by (rewrite (at_cons p NL _ Hd); reflexivity).
  apply move_to_first_int_step; [assumption | rewrite (at_cons p NL _ Hd); reflexivity ..].
Qed.

(** From any place in a line, [move_to_eol] then [move_to_next_int] reach
    the cut that follows the lines to skip after this line. *)
Lemma next_record_after_line (run rest : list ascii) (gap : list skipline) (i e : nat) :
  drop i data = run ++ NL :: render_gap gap ++ rest ->
  forallb (fun a => negb (is_nl a)) run = true ->
  forallb skip_ok gap = true ->
  i + length run + 1 + length (render_gap gap) <= e ->
  cut data (i + length run + 1 + length (render_gap gap)) e ->
  move_to_next_int data (move_to_eol data (mkReader i e))
  = mkReader (i + length run + 1 + length (render_gap gap)) e.
Proof.
  intros Hd Hrun Hgap He Hcut.
  rewrite (move_to_eol_over run _ i e Hd Hrun) by lia.
  pose proof (drop_step data i _ _ Hd) as Hnl.
  rewrite (move_to_next_int_from_nl _ e _ Hnl) by lia.
  pose proof (drop_cons_step _ _ _ Hnl) as Hg.
  rewrite (move_to_first_int_gap gap _ e rest Hg Hgap) by lia.
  replace (S (i + length run) + length (render_gap gap))
    with (i + length run + 1 + length (render_gap gap)) by lia.
  apply move_to_first_int_stop. exact Hcut.
Qed.

Lemma forallb_drop {A : Type} (f : A -> bool) (l : list A) (j : nat) :
  forallb f l = true -> forallb f (drop j l) = true.
Proof.
  revert j. induction l as [|a l IH]; intros j H; destruct j; cbn in *; auto.
  apply andb_prop in H as [_ H]. auto.
Qed.

(** From any place [i] of a line that starts at [p]. *)
Lemma next_record_in_line (body rest : list ascii) (gap : list skipline) (p i e : nat) :
  drop p data = body ++ NL :: render_gap gap ++ rest ->
  forallb (fun a => negb (is_nl a)) body = true ->
  forallb skip_ok gap = true ->
  p <= i <= p + length body ->
  p + length body + 1 + length (render_gap gap) <= e ->
  cut data (p + length body + 1 + length (render_gap gap)) e ->
  move_to_next_int data (move_to_eol data (mkReader i e))
  = mkReader (p + length body + 1 + length (render_gap gap)) e.
Proof.
  intros Hd Hbody Hgap Hi He Hcut.
  assert (Hdi : drop i data = drop (i - p) body ++ NL :: render_gap gap ++ rest).
  { replace i with (p + (i - p)) at 1 by lia.
    rewrite <- drop_drop, Hd, drop_app_le by lia. reflexivity. }
  assert (Hlen : i + length (drop (i - p) body) = p + length body)
    by (rewrite length_drop; lia).
  rewrite (next_record_after_line (drop (i - p) body) rest gap i e Hdi);
    [f_equal; lia | apply forallb_drop; assumption | assumption | lia |].
  replace (i + length (drop (i - p) body)) with (p + length body) by lia.
  exact Hcut.
Qed.

Lemma render_skip_body (l : skipline) : render_skip l = skip_body l ++ [NL].
Proof. destruct l; reflexivity. Qed.

Lemma filler_not_nl (a : ascii) : is_filler a = true -> negb (is_nl a) = true.
Proof. unfold is_filler. intros H. apply andb_prop in H as [_ H]. exact H. Qed.

Lemma comment_not_nl (a : ascii) : is_comment a = true -> negb (is_nl a) = true.
Proof. destruct a as [[] [] [] [] [] [] [] []]; vm_compute; congruence. Qed.

Lemma digit_not_nl (a : ascii) : is_digit a = true -> negb (is_nl a) = true.
Proof. destruct a as [[] [] [] [] [] [] [] []]; vm_compute; congruence. Qed.

Lemma forallb_impl {A : Type} (f g : A -> bool) (l : list A) :
  (forall a, f a = true -> g a = true) -> forallb f l = true -> forallb g l = true.
Proof.
  intros Hfg. induction l as [|a l IH]; cbn; [reflexivity|].
  intros H. apply andb_prop in H as [Ha Hl]. rewrite (Hfg a Ha), (IH Hl). reflexivity.
Qed.

Lemma skip_body_no_nl (l : skipline) :
  skip_ok l = true -> forallb (fun a => negb (is_nl a)) (skip_body l) = true.
Proof.
  destruct l as [c body | body]; cbn; intros H.
  - apply andb_prop in H as [Hc Hb]. rewrite (comment_not_nl c Hc), Hb. reflexivity.
  - exact (forallb_impl _ _ _ filler_not_nl H).
Qed.

(** From any place [i] of the lines to skip that start at [p]. *)
Lemma next_record_in_gap (gap : list skipline) :
  forall (p i e : nat) (rest : list ascii),
    drop p data = render_gap gap ++ rest ->
    forallb skip_ok gap = true ->
    p <= i < p + length (render_gap gap) ->
    p + length (render_gap gap) <= e ->
    cut data (p + length (render_gap gap)) e ->
    move_to_next_int data (move_to_eol data (mkReader i e))
    = mkReader (p + length (render_gap gap)) e.
Proof.
  induction gap as [|l gap IH]; intros p i e rest Hd Hok Hi He Hcut.
  - cbn in Hi. lia.
  - cbn [forallb] in Hok. apply andb_prop in Hok as [Hl Hok].
    unfold render_gap in *. cbn [map concat] in *. fold (render_gap gap) in *.
    rewrite length_app in *. rewrite <- app_assoc in Hd.
    rewrite render_skip_body in *. rewrite length_app in *. cbn [length] in *.
    destruct (Nat.le_gt_cases i (p + length (skip_body l))) as [Hin|Hout].
    + rewrite <- app_assoc in Hd. cbn [app] in Hd.
      rewrite (next_record_in_line (skip_body l) rest gap p i e Hd);
        [f_equal; lia | apply skip_body_no_nl; assumption | assumption | lia | lia |].
      replace (p + length (skip_body l) + 1 + length (render_gap gap))
        with (p + (length (skip_body l) + 1 + length (render_gap gap))) by lia.
      exact Hcut.
    + pose proof (drop_step data p _ _ Hd) as Hnext.
      rewrite length_app in Hnext. cbn [length] in Hnext.
      rewrite (IH (p + (length (skip_body l) + 1)) i e rest Hnext Hok);
        [f_equal; lia | lia | lia |].
      replace (p + (length (skip_body l) + 1) + length (render_gap gap))
        with (p + (length (skip_body l) + 1 + length (render_gap gap))) by lia.
      exact Hcut.
Qed.

(** *** One entry line *)

Lemma entry_ok_inv (en : entry) :
  entry_ok en = true ->
  (e_x en <> [] /\ forallb is_digit (e_x en) = true)
  /\ (e_sep en <> [] /\ forallb is_filler (e_sep en) = true)
  /\ (e_y en <> [] /\ forallb is_digit (e_y en) = true)
  /\ is_digit (nth 0 (e_trail en) zero) = false
  /\ forallb (fun a => negb (is_nl a)) (e_trail en) = true.
Proof.
  unfold entry_ok. intros H.
  repeat match type of H with (_ && _ = true) => apply andb_prop in H as [H ?] end.
  repeat match goal with
         | H : negb (length ?l =? 0) = true |- _ =>
             assert (l <> []) by (destruct l; [discriminate H | discriminate]); clear H
         | H : negb _ = true |- _ => apply negb_true_iff in H
         end.
  auto 10.
Qed.

Lemma head_filler (run rest : list ascii) :
  run <> [] -> forallb is_filler run = true ->
  is_digit (nth 0 (run ++ rest) zero) = false
  /\ is_comment (nth 0 (run ++ rest) zero) = false.
Proof.
  intros Hne H. destruct run as [|a run]; [congruence|]. cbn in *.
  apply andb_prop in H as [H _]. unfold is_filler in H.
  apply andb_prop in H as [H _]. apply andb_prop in H as [H1 H2].
  apply negb_true_iff in H1, H2. auto.
Qed.

Section Entry.
Variables (L : IntType) (en : entry) (rest : list ascii) (p e : nat).
Hypothesis Hd : drop p data = render_entry en ++ rest.
Hypothesis Hok : entry_ok en = true.
Hypothesis He : p + length (render_entry en) <= e.

Let p1 := p + length (e_x en).
Let p2 := p1 + length (e_sep en).
Let p3 := p2 + length (e_y en).
Let p4 := p3 + length (e_trail en).

Lemma entry_length : length (render_entry en) = p4 + 1 - p.
Proof. unfold render_entry, p4, p3, p2, p1. rewrite !length_app. cbn. lia. Qed.

Lemma entry_drop_x :
  drop p data = e_x en ++ e_sep en ++ e_y en ++ e_trail en ++ NL :: rest.
Proof. rewrite Hd. unfold render_entry. rewrite <- !app_assoc. reflexivity. Qed.

Lemma entry_drop_sep : drop p1 data = e_sep en ++ e_y en ++ e_trail en ++ NL :: rest.
Proof. apply (drop_step data p _ _ entry_drop_x). Qed.

Lemma entry_drop_y : drop p2 data = e_y en ++ e_trail en ++ NL :: rest.
Proof. apply (drop_step data p1 _ _ entry_drop_sep). Qed.

Lemma entry_drop_trail : drop p3 data = e_trail en ++ NL :: rest.
Proof. apply (drop_step data p2 _ _ entry_drop_y). Qed.

Lemma entry_drop_nl : drop p4 data = NL :: rest.
Proof. apply (drop_step data p3 _ _ entry_drop_trail). Qed.

Lemma entry_read_x :
  read_int data L (mkReader p e) = (digits_value L (e_x en), mkReader p1 e).
Proof.
  pose proof entry_length. destruct (entry_ok_inv en Hok) as ([Hx Hxd] & [Hs Hsf] & _).
  apply (read_int_over L _ _ p e entry_drop_x Hx Hxd); [unfold p1 in *; lia|].
  right. apply (head_filler _ _ Hs Hsf).
Qed.

Lemma entry_to_y : move_to_next_int data (mkReader p1 e) = mkReader p2 e.
Proof.
  pose proof entry_length. destruct (entry_ok_inv en Hok) as (_ & [Hs Hsf] & [Hy Hyd] & _).
  unfold move_to_next_int.
  rewrite move_to_non_int_stay
    by (rewrite (at_hd p1 _ entry_drop_sep); apply (head_filler _ _ Hs Hsf)).
  rewrite (move_to_first_int_fillers (e_sep en) p1 e _ entry_drop_sep Hsf)
    by (unfold p4, p3, p2 in *; lia).
  apply move_to_first_int_stop. right.
  rewrite (at_hd _ _ entry_drop_y).
  destruct (e_y en) as [|a ys]; [congruence|]. cbn in *.
  apply andb_prop in Hyd as [-> _]. reflexivity.
Qed.

Lemma entry_read_y :
  read_int data L (mkReader p2 e) = (digits_value L (e_y en), mkReader p3 e).
Proof.
  pose proof entry_length.
  destruct (entry_ok_inv en Hok) as (_ & _ & [Hy Hyd] & Ht & _).
  apply (read_int_over L _ _ p2 e entry_drop_y Hy Hyd); [unfold p4, p3 in *; lia|].
  right. destruct (e_trail en); [reflexivity | exact Ht].
Qed.

Lemma entry_good_after_y : good (mkReader p3 e) = true.
Proof.
  pose proof entry_length. unfold good. cbn [d end_].
  apply Nat.ltb_lt. unfold p4 in *. lia.
Qed.

Lemma entry_to_eol : move_to_eol data (mkReader p3 e) = mkReader p4 e.
Proof.
  pose proof entry_length.
  destruct (entry_ok_inv en Hok) as (_ & _ & _ & _ & Ht).
  apply (move_to_eol_over _ _ p3 e entry_drop_trail Ht). unfold p4 in *. lia.
Qed.

(** The count-only specialisation without flags does not read the labels. *)
Lemma entry_skip_x : move_to_next_int data (mkReader p e) = mkReader p2 e.
Proof.
  pose proof entry_length.
  destruct (entry_ok_inv en Hok) as ([Hx Hxd] & [Hs Hsf] & _).
  unfold move_to_next_int.
  assert (E : move_to_non_int data (mkReader p e) = mkReader p1 e).
  { unfold move_to_non_int, skip_while, set_d. cbn [d end_].
    rewrite (advance_while_over is_digit (e_x en) p e _ entry_drop_x Hxd);
      [reflexivity | unfold p1 in *; lia |].
    right. apply (head_filler _ _ Hs Hsf). }
  rewrite E. pose proof entry_to_y as Hy. unfold move_to_next_int in Hy.
  rewrite move_to_non_int_stay in Hy
    by (rewrite (at_hd p1 _ entry_drop_sep); apply (head_filler _ _ Hs Hsf)).
  exact Hy.
Qed.

Lemma entry_good_at_y : good (mkReader p2 e) = true.
Proof.
  pose proof entry_length. unfold good. cbn [d end_].
  apply Nat.ltb_lt. unfold p4, p3 in *. lia.
Qed.

Lemma entry_eol_from_y : move_to_eol data (mkReader p2 e) = mkReader p4 e.
Proof.
  pose proof entry_length.
  destruct (entry_ok_inv en Hok) as (_ & _ & [Hy Hyd] & _ & Ht).
  assert (Hd2 : drop p2 data = (e_y en ++ e_trail en) ++ NL :: rest)
    by (rewrite <- app_assoc; exact entry_drop_y).
  rewrite (move_to_eol_over _ _ p2 e Hd2).
  - f_equal. unfold p4, p3. rewrite length_app. lia.
  - rewrite forallb_app, Ht, (forallb_impl _ _ _ digit_not_nl Hyd). reflexivity.
  - rewrite length_app. unfold p4, p3 in *. lia.
Qed.
End Entry.

(** *** One block: an entry line and the lines to skip after it *)

Section Block.
Variables (L : IntType) (b : block) (rest : list ascii) (p e : nat).
Hypothesis Hd : drop p data = render_block b ++ rest.
Hypothesis Hok : block_ok b = true.
Hypothesis He : p + length (render_block b) <= e.
Hypothesis Hcut : cut data (p + length (render_block b)) e.

Let x := digits_value L (e_x (b_entry b)).
Let y := digits_value L (e_y (b_entry b)).
Let p' := p + length (render_block b).

Lemma block_entry_ok : entry_ok (b_entry b) = true.
Proof. unfold block_ok in Hok. apply andb_prop in Hok as [H _]. exact H. Qed.

Lemma block_gap_ok : forallb skip_ok (b_gap b) = true.
Proof. unfold block_ok in Hok. apply andb_prop in Hok as [_ H]. exact H. Qed.

Lemma block_drop_entry :
  drop p data = render_entry (b_entry b) ++ render_gap (b_gap b) ++ rest.
Proof. rewrite Hd. unfold render_block. rewrite <- app_assoc. reflexivity. Qed.

Lemma block_entry_fits : p + length (render_entry (b_entry b)) <= e.
Proof. unfold render_block in He. rewrite length_app in He. lia. Qed.

Lemma block_to_next :
  move_to_next_int data
    (mkReader (p + length (e_x (b_entry b)) + length (e_sep (b_entry b))
               + length (e_y (b_entry b)) + length (e_trail (b_entry b))) e)
  = mkReader p' e.
Proof.
  pose proof block_entry_fits as Hfit.
  pose proof (entry_length (b_entry b) p e Hfit) as Hlen. cbv zeta in Hlen.
  pose proof (entry_drop_nl (b_entry b) _ p block_drop_entry) as Hnl.
  assert (Hbl : length (render_block b)
                = length (render_entry (b_entry b)) + length (render_gap (b_gap b)))
    by (unfold render_block; apply length_app).
  rewrite (move_to_next_int_from_nl _ e _ Hnl) by lia.
  pose proof (drop_cons_step _ _ _ Hnl) as Hg.
  rewrite (move_to_first_int_gap (b_gap b) _ e rest Hg block_gap_ok) by lia.
  assert (E : S (p + length (e_x (b_entry b)) + length (e_sep (b_entry b))
                 + length (e_y (b_entry b)) + length (e_trail (b_entry b)))
              + length (render_gap (b_gap b)) = p') by (unfold p'; lia).
  rewrite E. apply move_to_first_int_stop. exact Hcut.
Qed.

(** Count-only, without flags. *)
Lemma block_count_noflags (pos : nat) :
  read_coord_entry_count_noflags data pos (mkReader p e) = (pos + 1, mkReader p' e).
Proof.
  unfold read_coord_entry_count_noflags.
  rewrite (entry_skip_x (b_entry b) _ p e block_drop_entry block_entry_ok block_entry_fits).
  rewrite (entry_good_at_y (b_entry b) p e block_entry_fits). cbn [negb].
  rewrite (entry_eol_from_y (b_entry b) _ p e block_drop_entry block_entry_ok block_entry_fits).
  rewrite block_to_next. reflexivity.
Qed.

Context {W : Type}.
Variable wr : WeightReader W.

(** Setting, without flags and without weights. *)
Lemma block_set_noflags (c : COO W) (pos : nat) (mr mc : Z) :
  read_coord_entry_set_noflags data false L wr (mkPState c pos (mkReader p e) mr mc)
  = mkPState (set_y (set_x c pos x) pos y) (pos + 1) (mkReader p' e)
             (if (x >? mr)%Z then x else mr) (if (y >? mc)%Z then y else mc).
Proof.
  unfold read_coord_entry_set_noflags. cbn [rd this coord_pos max_row max_col].
  rewrite (entry_read_x L (b_entry b) _ p e block_drop_entry block_entry_ok block_entry_fits).
  rewrite (entry_to_y (b_entry b) _ p e block_drop_entry block_entry_ok block_entry_fits).
  rewrite (entry_read_y L (b_entry b) _ p e block_drop_entry block_entry_ok block_entry_fits).
  unfold read_wgt_set.
  rewrite (entry_good_after_y (b_entry b) p e block_entry_fits). cbn [negb].
  rewrite (entry_to_eol (b_entry b) _ p e block_drop_entry block_entry_ok block_entry_fits).
  rewrite block_to_next. reflexivity.
Qed.

Variables sym ut sl : bool.

(** Count-only, with flags: a record that is dropped hands over to the
    next call. *)
Lemma block_count_flags (fuel pos : nat) :
  read_coord_entry_count data sym ut sl false L wr (S fuel) pos (mkReader p e)
  = if sl && (x =? y)%Z
    then read_coord_entry_count data sym ut sl false L wr fuel pos (mkReader p' e)
    else if negb sym && ut && (x >? y)%Z
    then read_coord_entry_count data sym ut sl false L wr fuel pos (mkReader p' e)
    else ((if sym && negb ut && negb (x =? y)%Z then S pos else pos) + 1, mkReader p' e).
Proof.
  cbn [read_coord_entry_count].
  rewrite (entry_read_x L (b_entry b) _ p e block_drop_entry block_entry_ok block_entry_fits).
  rewrite (entry_to_y (b_entry b) _ p e block_drop_entry block_entry_ok block_entry_fits).
  rewrite (entry_read_y L (b_entry b) _ p e block_drop_entry block_entry_ok block_entry_fits).
  unfold read_wgt_count.
  rewrite (entry_good_after_y (b_entry b) p e block_entry_fits). cbn [negb].
  rewrite (entry_to_eol (b_entry b) _ p e block_drop_entry block_entry_ok block_entry_fits).
  rewrite block_to_next. reflexivity.
Qed.

(** Setting, with flags and without weights. *)
Lemma block_set_flags (fuel : nat) (c : COO W) (pos : nat) (mr mc : Z) :
  read_coord_entry_set data sym ut sl false L wr (S fuel) (mkPState c pos (mkReader p e) mr mc)
  = if sl && (x =? y)%Z
    then read_coord_entry_set data sym ut sl false L wr fuel (mkPState c pos (mkReader p' e) mr mc)
    else if negb sym && ut && (x >? y)%Z
    then read_coord_entry_set data sym ut sl false L wr fuel (mkPState c pos (mkReader p' e) mr mc)
    else
      let '(x1, y1) := if sym && ut && (x >? y)%Z then (y, x) else (x, y) in
      let c1 := set_y (set_x c pos x1) pos y1 in
      let '(c2, pos2) :=
        if sym && negb ut && negb (x1 =? y1)%Z
        then (set_x (set_y c1 (pos + 1) x1) (pos + 1) y1, pos + 1 + 1)
        else (c1, pos + 1) in
      mkPState c2 pos2 (mkReader p' e)
               (if (x1 >? mr)%Z then x1 else mr) (if (y1 >? mc)%Z then y1 else mc).
Proof.
  cbn [read_coord_entry_set]. cbn [rd this coord_pos max_row max_col].
  rewrite (entry_read_x L (b_entry b) _ p e block_drop_entry block_entry_ok block_entry_fits).
  rewrite (entry_to_y (b_entry b) _ p e block_drop_entry block_entry_ok block_entry_fits).
  rewrite (entry_read_y L (b_entry b) _ p e block_drop_entry block_entry_ok block_entry_fits).
  unfold read_wgt_set.
  rewrite (entry_good_after_y (b_entry b) p e block_entry_fits). cbn [negb].
  rewrite (entry_to_eol (b_entry b) _ p e block_drop_entry block_entry_ok block_entry_fits).
  rewrite block_to_next. reflexivity.
Qed.
End Block.
End Layout.

(** *** A run of blocks, read by one thread *)

Lemma render_blocks_app (bs1 bs2 : list block) :
  render_blocks (bs1 ++ bs2) = render_blocks bs1 ++ render_blocks bs2.
Proof. unfold render_blocks. rewrite map_app, concat_app. reflexivity. Qed.

Lemma render_block_length (b : block) : 1 <= length (render_block b).
Proof.
  unfold render_block, render_entry. rewrite !length_app. cbn. lia.
Qed.

Lemma render_blocks_length (bs : list block) : length bs <= length (render_blocks bs).
Proof.
  induction bs as [|b bs IH]; [cbn; lia|].
  change (render_blocks (b :: bs)) with (render_block b ++ render_blocks bs).
  rewrite length_app. pose proof (render_block_length b). cbn [length]. lia.
Qed.

Lemma entries_app (sym ut sl : bool) (L : IntType) (bs1 bs2 : list block) :
  entries sym ut sl L (bs1 ++ bs2) = entries sym ut sl L bs1 ++ entries sym ut sl L bs2.
Proof. unfold entries. apply flat_map_app. Qed.

Lemma first_emitted_app (sym ut sl : bool) (L : IntType) (bs1 bs2 : list block) :
  first_emitted sym ut sl L (bs1 ++ bs2)
  = first_emitted sym ut sl L bs1 ++ first_emitted sym ut sl L bs2.
Proof. unfold first_emitted. apply flat_map_app. Qed.

Lemma max_over_app (l1 l2 : list Z) (m : Z) :
  max_over (l1 ++ l2) m = max_over l2 (max_over l1 m).
Proof. unfold max_over. apply fold_left_app. Qed.

Lemma stored_refl {W : Type} (c : COO W) (pos : nat) : stored c c pos [].
Proof. repeat split. Qed.

Lemma stored_trans {W : Type} (c c1 c2 : COO W) (pos : nat) (es1 es2 : list (Z * Z)) :
  stored c c1 pos es1 -> stored c1 c2 (pos + length es1) es2 ->
  stored c c2 pos (es1 ++ es2).
Proof.
  intros (Hx1 & Hy1 & Hw1 & Hm1) (Hx2 & Hy2 & Hw2 & Hm2).
  unfold stored. rewrite !map_app, !blit_app, !length_map.
  rewrite Hx2, Hy2, Hw2, Hm2, Hx1, Hy1, Hw1, Hm1. auto.
Qed.

Section Blocks.
Variable data : list ascii.
Variables (L : IntType) (sym ut sl : bool).
Context {W : Type}.
Variable wr : WeightReader W.
Variables (e : nat) (rest : list ascii).

Lemma in_front_cons (p : nat) (b : block) (seg : list block) :
  in_front data e rest p (b :: seg) ->
  drop p data = render_block b ++ render_blocks seg ++ rest
  /\ block_ok b = true
  /\ p + length (render_block b) <= e
  /\ cut data (p + length (render_block b)) e
  /\ in_front data e rest (p + length (render_block b)) seg.
Proof.
  intros (Hd & Hok & He).
  change (render_blocks (b :: seg)) with (render_block b ++ render_blocks seg) in *.
  rewrite length_app in He. rewrite <- app_assoc in Hd.
  cbn [forallb] in Hok. apply andb_prop in Hok as [Hb Hok].
  pose proof (drop_step data p _ _ Hd) as Hnext.
  repeat split; try assumption; try lia.
  destruct seg as [|b' seg]; [left; cbn in He; lia | right].
  rewrite (at_hd data _ _ Hnext).
  cbn [forallb] in Hok. apply andb_prop in Hok as [Hb' _].
  unfold block_ok in Hb'. apply andb_prop in Hb' as [Hen _].
  destruct (entry_ok_inv (b_entry b') Hen) as ([Hx Hxd] & _).
  change (render_blocks (b' :: seg)) with (render_block b' ++ render_blocks seg).
  unfold render_block, render_entry.
  destruct (e_x (b_entry b')) as [|a xs]; [congruence|].
  cbn in *. apply andb_prop in Hxd as [-> _]. reflexivity.
Qed.

Lemma read_int_at_end (T : IntType) : read_int data T (mkReader e e) = (0%Z, mkReader e e).
Proof. unfold read_int. cbn [d end_]. rewrite Nat.sub_diag. cbn. rewrite Nat.sub_diag. reflexivity. Qed.

Lemma move_to_next_int_at_end : move_to_next_int data (mkReader e e) = mkReader e e.
Proof.
  unfold move_to_next_int, move_to_non_int, skip_while. cbn [d end_ set_d].
  rewrite Nat.sub_diag. cbn [advance_while].
  apply move_to_first_int_stop. left. lia.
Qed.

Lemma past_end_count (pos fuel : nat) :
  read_coord_entry_count data sym ut sl false L wr (S fuel) pos (mkReader e e)
  = (pos, mkReader e e).
Proof.
  cbn [read_coord_entry_count].
  rewrite read_int_at_end, move_to_next_int_at_end, read_int_at_end.
  unfold read_wgt_count, good. cbn [d end_]. rewrite Nat.ltb_irrefl. reflexivity.
Qed.

Lemma emit_count (x y : Z) :
  sl && (x =? y)%Z = false -> negb sym && ut && (x >? y)%Z = false ->
  (if sym && negb ut && negb (x =? y)%Z then S 0 else 0) + 1
  = length (emit sym ut sl (x, y)).
Proof.
  intros H1 H2. unfold emit. rewrite H1, H2.
  destruct sym, ut; cbn; try reflexivity; destruct (x =? y)%Z; reflexivity.
Qed.

Lemma emit_dropped (x y : Z) :
  sl && (x =? y)%Z = true \/ negb sym && ut && (x >? y)%Z = true ->
  emit sym ut sl (x, y) = [].
Proof.
  intros [H|H]; unfold emit; rewrite H; [reflexivity|].
  destruct (sl && (x =? y)%Z); reflexivity.
Qed.

(** One call of the count-only implementation with flags: it reads the
    blocks [seg1], of which all but the last are dropped. *)
Lemma count_flags_call (seg : list block) :
  forall (p pos fuel : nat),
    in_front data e rest p seg -> length seg < fuel ->
    exists seg1 seg2,
      seg = seg1 ++ seg2 /\ (seg <> [] -> seg1 <> [])
      /\ read_coord_entry_count data sym ut sl false L wr fuel pos (mkReader p e)
         = (pos + length (entries sym ut sl L seg1),
            mkReader (p + length (render_blocks seg1)) e).
Proof.
  induction seg as [|b seg IH]; intros p pos fuel Hf Hfuel.
  - exists [], []. destruct Hf as (_ & _ & He). cbn in He. rewrite Nat.add_0_r in He.
    subst p. destruct fuel as [|fuel]; [lia|].
    rewrite past_end_count. cbn. rewrite !Nat.add_0_r. auto.
  - destruct fuel as [|fuel]; [lia|].
    destruct (in_front_cons p b seg Hf) as (Hd & Hb & He & Hcut & Hnext).
    rewrite (block_count_flags data L b _ p e Hd Hb He Hcut wr sym ut sl fuel pos).
    set (x := digits_value L (e_x (b_entry b))).
    set (y := digits_value L (e_y (b_entry b))).
    destruct (sl && (x =? y)%Z) eqn:E1;
      [| destruct (negb sym && ut && (x >? y)%Z) eqn:E2].
    + destruct (IH _ pos fuel Hnext ltac:(cbn in Hfuel; lia)) as (seg1 & seg2 & -> & _ & ->).
      exists (b :: seg1), seg2. split; [reflexivity|]. split; [discriminate|].
      change (entries sym ut sl L (b :: seg1))
        with (emit sym ut sl (x, y) ++ entries sym ut sl L seg1).
      rewrite (emit_dropped x y) by (left; exact E1).
      change (render_blocks (b :: seg1)) with (render_block b ++ render_blocks seg1).
      cbn [app]. rewrite length_app, Nat.add_assoc. reflexivity.
    + destruct (IH _ pos fuel Hnext ltac:(cbn in Hfuel; lia)) as (seg1 & seg2 & -> & _ & ->).
      exists (b :: seg1), seg2. split; [reflexivity|]. split; [discriminate|].
      change (entries sym ut sl L (b :: seg1))
        with (emit sym ut sl (x, y) ++ entries sym ut sl L seg1).
      rewrite (emit_dropped x y) by (right; exact E2).
      change (render_blocks (b :: seg1)) with (render_block b ++ render_blocks seg1).
      cbn [app]. rewrite length_app, Nat.add_assoc. reflexivity.
    + exists [b], seg. split; [reflexivity|]. split; [discriminate|].
      change (entries sym ut sl L [b]) with (emit sym ut sl (x, y) ++ []).
      rewrite app_nil_r, <- (emit_count x y E1 E2).
      change (render_blocks [b]) with (render_block b ++ []). rewrite app_nil_r.
      f_equal. destruct (sym && negb ut && negb (x =? y)%Z); lia.
Qed.

Lemma past_end_set (c : COO W) (pos fuel : nat) (mr mc : Z) :
  read_coord_entry_set data sym ut sl false L wr (S fuel)
    (mkPState c pos (mkReader e e) mr mc)
  = mkPState c pos (mkReader e e) mr mc.
Proof.
  cbn [read_coord_entry_set]. cbn [rd this coord_pos max_row max_col].
  rewrite read_int_at_end, move_to_next_int_at_end, read_int_at_end.
  unfold read_wgt_set, good. cbn [d end_]. rewrite Nat.ltb_irrefl. reflexivity.
Qed.

(** What the setting implementation stores for a record that is kept is
    what the truth table emits for it. *)
Lemma emit_kept (x y : Z) (c : COO W) (pos : nat) :
  sl && (x =? y)%Z = false -> negb sym && ut && (x >? y)%Z = false ->
  forall x1 y1 c2 pos2,
    (if sym && ut && (x >? y)%Z then (y, x) else (x, y)) = (x1, y1) ->
    (if sym && negb ut && negb (x1 =? y1)%Z
     then (set_x (set_y (set_y (set_x c pos x1) pos y1) (pos + 1) x1) (pos + 1) y1,
           pos + 1 + 1)
     else (set_y (set_x c pos x1) pos y1, pos + 1)) = (c2, pos2) ->
    pos2 = pos + length (emit sym ut sl (x, y))
    /\ stored c c2 pos (emit sym ut sl (x, y))
    /\ take 1 (emit sym ut sl (x, y)) = [(x1, y1)].
Proof.
  intros H1 H2 x1 y1 c2 pos2 Hxy Hc. unfold emit. rewrite H1, H2.
  destruct sym, ut; cbn [andb negb] in *.
  - (* sym, ut: the entry is folded into the upper triangle *)
    injection Hc as <- <-.
    assert (E : (x1, y1) = (Z.min x y, Z.max x y)).
    { rewrite <- Hxy. destruct (Z.gtb_spec x y).
      - rewrite Z.min_r, Z.max_l by lia. reflexivity.
      - rewrite Z.min_l, Z.max_r by lia. reflexivity. }
    rewrite <- E. split; [cbn; lia|]. split; [|reflexivity].
    unfold stored. cbn. auto.
  - (* sym, not ut: the entry and its mirror *)
    injection Hxy as <- <-.
    destruct (x =? y)%Z eqn:Exy; cbn [negb] in *; injection Hc as <- <-.
    + split; [cbn; lia|]. split; [|reflexivity]. unfold stored. cbn. auto.
    + split; [cbn; lia|]. split; [|reflexivity].
      unfold stored. cbn. replace (pos + 1) with (S pos) by lia. auto.
  - injection Hxy as <- <-. injection Hc as <- <-.
    split; [cbn; lia|]. split; [|reflexivity]. unfold stored. cbn. auto.
  - injection Hxy as <- <-. injection Hc as <- <-.
    split; [cbn; lia|]. split; [|reflexivity]. unfold stored. cbn. auto.
Qed.

(** One call of the setting implementation with flags. *)
Lemma set_flags_call (seg : list block) :
  forall (p : nat) (c : COO W) (pos : nat) (mr mc : Z) (fuel : nat),
    in_front data e rest p seg -> length seg < fuel ->
    exists seg1 seg2 c',
      seg = seg1 ++ seg2 /\ (seg <> [] -> seg1 <> [])
      /\ read_coord_entry_set data sym ut sl false L wr fuel
           (mkPState c pos (mkReader p e) mr mc)
         = mkPState c' (pos + length (entries sym ut sl L seg1))
             (mkReader (p + length (render_blocks seg1)) e)
             (max_over (map fst (first_emitted sym ut sl L seg1)) mr)
             (max_over (map snd (first_emitted sym ut sl L seg1)) mc)
      /\ stored c c' pos (entries sym ut sl L seg1).
Proof.
  induction seg as [|b seg IH]; intros p c pos mr mc fuel Hf Hfuel.
  - exists [], [], c. destruct Hf as (_ & _ & He). cbn in He. rewrite Nat.add_0_r in He.
    subst p. destruct fuel as [|fuel]; [lia|].
    rewrite past_end_set. cbn. rewrite !Nat.add_0_r.
    split; [reflexivity|]. split; [auto|]. split; [reflexivity | apply stored_refl].
  - destruct fuel as [|fuel]; [lia|].
    destruct (in_front_cons p b seg Hf) as (Hd & Hb & He & Hcut & Hnext).
    rewrite (block_set_flags data L b _ p e Hd Hb He Hcut wr sym ut sl fuel c pos mr mc).
    set (x := digits_value L (e_x (b_entry b))).
    set (y := digits_value L (e_y (b_entry b))).
    assert (Hdrop : emit sym ut sl (x, y) = [] ->
            exists seg1 seg2 c',
              b :: seg = seg1 ++ seg2 /\ (b :: seg <> [] -> seg1 <> [])
              /\ read_coord_entry_set data sym ut sl false L wr fuel
                   (mkPState c pos (mkReader (p + length (render_block b)) e) mr mc)
                 = mkPState c' (pos + length (entries sym ut sl L seg1))
                     (mkReader (p + length (render_blocks seg1)) e)
                     (max_over (map fst (first_emitted sym ut sl L seg1)) mr)
                     (max_over (map snd (first_emitted sym ut sl L seg1)) mc)
              /\ stored c c' pos (entries sym ut sl L seg1)).
    { intros Hemit.
      destruct (IH _ c pos mr mc fuel Hnext ltac:(cbn in Hfuel; lia))
        as (seg1 & seg2 & c' & -> & _ & -> & Hst).
      exists (b :: seg1), seg2, c'. split; [reflexivity|]. split; [discriminate|].
      change (entries sym ut sl L (b :: seg1))
        with (emit sym ut sl (x, y) ++ entries sym ut sl L seg1).
      change (first_emitted sym ut sl L (b :: seg1))
        with (take 1 (emit sym ut sl (x, y)) ++ first_emitted sym ut sl L seg1).
      change (render_blocks (b :: seg1)) with (render_block b ++ render_blocks seg1).
      rewrite Hemit. cbn [app take]. rewrite length_app, Nat.add_assoc.
      split; [reflexivity | exact Hst]. }
    destruct (sl && (x =? y)%Z) eqn:E1;
      [apply Hdrop, emit_dropped; left; exact E1|].
    destruct (negb sym && ut && (x >? y)%Z) eqn:E2;
      [apply Hdrop, emit_dropped; right; exact E2|].
    clear Hdrop.
    destruct (if sym && ut && (x >? y)%Z then (y, x) else (x, y)) as [x1 y1] eqn:Exy.
    cbv zeta.
    destruct (if sym && negb ut && negb (x1 =? y1)%Z
              then (set_x (set_y (set_y (set_x c pos x1) pos y1) (pos + 1) x1) (pos + 1) y1,
                    pos + 1 + 1)
              else (set_y (set_x c pos x1) pos y1, pos + 1)) as [c2 pos2] eqn:Ec.
    destruct (emit_kept x y c pos E1 E2 x1 y1 c2 pos2 Exy Ec) as (Hpos & Hst & Hfirst).
    exists [b], seg, c2. split; [reflexivity|]. split; [discriminate|].
    change (entries sym ut sl L [b]) with (emit sym ut sl (x, y) ++ []).
    change (first_emitted sym ut sl L [b]) with (take 1 (emit sym ut sl (x, y)) ++ []).
    change (render_blocks [b]) with (render_block b ++ []).
    rewrite !app_nil_r, Hfirst, <- Hpos. cbn. split; [reflexivity | exact Hst].
Qed.

Lemma no_flags_inv : no_flags sym ut sl = true -> sym = false /\ ut = false /\ sl = false.
Proof. unfold no_flags. destruct sym, ut, sl; cbn; intros H; try discriminate H; auto. Qed.

Lemma emit_no_flags (xy : Z * Z) : no_flags sym ut sl = true -> emit sym ut sl xy = [xy].
Proof.
  intros H. destruct (no_flags_inv H) as (Hs & Hu & Hl). destruct xy as [x y].
  unfold emit. rewrite Hs, Hu, Hl. reflexivity.
Qed.

Lemma in_front_nil (p : nat) : in_front data e rest p [] -> p = e.
Proof. intros (_ & _ & He). cbn in He. lia. Qed.

Lemma in_front_app (p : nat) (seg1 seg2 : list block) :
  in_front data e rest p (seg1 ++ seg2) -> in_front data e rest (p + length (render_blocks seg1)) seg2.
Proof.
  intros (Hd & Hok & He). rewrite render_blocks_app in *.
  rewrite forallb_app in Hok. apply andb_prop in Hok as [_ Hok].
  rewrite <- app_assoc in Hd. rewrite length_app in He.
  repeat split; [apply (drop_step data p _ _ Hd) | assumption | lia].
Qed.

(** One call of [read_coord_entry_<true>]. *)
Lemma count_call (seg : list block) (p pos : nat) :
  in_front data e rest p seg ->
  exists seg1 seg2,
    seg = seg1 ++ seg2 /\ (seg <> [] -> seg1 <> [])
    /\ read_coord_entry_true data sym ut sl false L wr pos (mkReader p e)
       = (pos + length (entries sym ut sl L seg1),
          mkReader (p + length (render_blocks seg1)) e).
Proof.
  intros Hf. unfold read_coord_entry_true.
  destruct (no_flags sym ut sl) eqn:Eflags.
  - destruct seg as [|b seg].
    + exists [], []. rewrite (in_front_nil p Hf).
      unfold read_coord_entry_count_noflags.
      cbv zeta. rewrite move_to_next_int_at_end. unfold good. cbn [d end_].
      rewrite Nat.ltb_irrefl. cbn. rewrite !Nat.add_0_r. auto.
    + destruct (in_front_cons p b seg Hf) as (Hd & Hb & He & Hcut & Hnext).
      exists [b], seg. split; [reflexivity|]. split; [discriminate|].
      rewrite (block_count_noflags data L b _ p e Hd Hb He Hcut pos).
      change (entries sym ut sl L [b])
        with (emit sym ut sl (entry_xy L (b_entry b)) ++ []).
      rewrite (emit_no_flags _ Eflags).
      change (render_blocks [b]) with (render_block b ++ []). rewrite !app_nil_r.
      reflexivity.
  - apply count_flags_call; [assumption|].
    destruct Hf as (_ & _ & He). unfold size. cbn [d end_].
    pose proof (render_blocks_length seg). lia.
Qed.

(** One call of [read_coord_entry_<false>]. *)
Lemma set_call (seg : list block) (p : nat) (c : COO W) (pos : nat) (mr mc : Z) :
  in_front data e rest p seg ->
  exists seg1 seg2 c',
    seg = seg1 ++ seg2 /\ (seg <> [] -> seg1 <> [])
    /\ read_coord_entry_false data sym ut sl false L wr
         (mkPState c pos (mkReader p e) mr mc)
       = mkPState c' (pos + length (entries sym ut sl L seg1))
           (mkReader (p + length (render_blocks seg1)) e)
           (max_over (map fst (first_emitted sym ut sl L seg1)) mr)
           (max_over (map snd (first_emitted sym ut sl L seg1)) mc)
    /\ stored c c' pos (entries sym ut sl L seg1).
Proof.
  intros Hf. unfold read_coord_entry_false.
  destruct (no_flags sym ut sl) eqn:Eflags.
  - destruct seg as [|b seg].
    + exists [], [], c. rewrite (in_front_nil p Hf).
      unfold read_coord_entry_set_noflags. cbn [rd this coord_pos max_row max_col].
      rewrite read_int_at_end, move_to_next_int_at_end, read_int_at_end.
      unfold read_wgt_set, good. cbn [d end_]. rewrite Nat.ltb_irrefl.
      cbn. rewrite !Nat.add_0_r.
      split; [reflexivity|]. split; [auto|]. split; [reflexivity | apply stored_refl].
    + destruct (in_front_cons p b seg Hf) as (Hd & Hb & He & Hcut & Hnext).
      exists [b], seg, (set_y (set_x c pos (digits_value L (e_x (b_entry b)))) pos
                          (digits_value L (e_y (b_entry b)))).
      split; [reflexivity|]. split; [discriminate|].
      rewrite (block_set_noflags data L b _ p e Hd Hb He Hcut wr c pos mr mc).
      change (entries sym ut sl L [b])
        with (emit sym ut sl (entry_xy L (b_entry b)) ++ []).
      change (first_emitted sym ut sl L [b])
        with (take 1 (emit sym ut sl (entry_xy L (b_entry b))) ++ []).
      rewrite (emit_no_flags _ Eflags).
      change (render_blocks [b]) with (render_block b ++ []). rewrite !app_nil_r.
      split; [reflexivity|]. unfold stored. cbn. auto.
  - cbn [rd]. apply set_flags_call; [assumption|].
    destruct Hf as (_ & _ & He). unfold size. cbn [d end_].
    pose proof (render_blocks_length seg). lia.
Qed.

(** Pass 1 over the blocks of a range counts the entries they emit. *)
Lemma pass1_loop_blocks (n : nat) :
  forall (seg : list block), length seg <= n ->
  forall (p pos fuel : nat),
    in_front data e rest p seg -> e - p <= fuel ->
    pass1_loop data sym ut sl false L wr fuel pos (mkReader p e)
    = pos + length (entries sym ut sl L seg).
Proof.
  induction n as [|n IH]; intros seg Hlen p pos fuel Hf Hfuel.
  - destruct seg; [|cbn in Hlen; lia]. rewrite (in_front_nil p Hf).
    destruct fuel; cbn [pass1_loop]; unfold good; cbn [d end_];
      rewrite ?Nat.ltb_irrefl; cbn; lia.
  - destruct seg as [|b seg].
    + rewrite (in_front_nil p Hf).
      destruct fuel; cbn [pass1_loop]; unfold good; cbn [d end_];
        rewrite ?Nat.ltb_irrefl; cbn; lia.
    + destruct (count_call (b :: seg) p pos Hf) as (seg1 & seg2 & Heq & Hne & Hcall).
      specialize (Hne ltac:(discriminate)).
      pose proof (render_blocks_length seg1) as Hl1.
      assert (Hlen1 : 1 <= length seg1) by (destruct seg1; [congruence | cbn; lia]).
      rewrite Heq in Hf, Hlen.
      assert (Hp : p + length (render_blocks seg1) <= e).
      { destruct Hf as (_ & _ & He). rewrite render_blocks_app, length_app in He. lia. }
      destruct fuel as [|fuel]; [lia|].
      cbn [pass1_loop]. unfold good. cbn [d end_].
      rewrite (proj2 (Nat.ltb_lt p e) ltac:(lia)), Hcall.
      rewrite (IH seg2) by
        (first [ apply (in_front_app p seg1 seg2 Hf) | rewrite length_app in Hlen; lia | lia ]).
      rewrite Heq, entries_app, length_app. lia.
Qed.

(** Pass 2 over the blocks of a range stores the entries they emit. *)
Lemma pass2_loop_blocks (n : nat) :
  forall (seg : list block), length seg <= n ->
  forall (p : nat) (c : COO W) (pos : nat) (mr mc : Z) (fuel : nat),
    in_front data e rest p seg -> e - p <= fuel ->
    exists c',
      pass2_loop data sym ut sl false L wr fuel (mkPState c pos (mkReader p e) mr mc)
      = mkPState c' (pos + length (entries sym ut sl L seg)) (mkReader e e)
          (max_over (map fst (first_emitted sym ut sl L seg)) mr)
          (max_over (map snd (first_emitted sym ut sl L seg)) mc)
      /\ stored c c' pos (entries sym ut sl L seg).
Proof.
  assert (Hnil : forall p c pos mr mc fuel, in_front data e rest p [] ->
            exists c',
              pass2_loop data sym ut sl false L wr fuel (mkPState c pos (mkReader p e) mr mc)
              = mkPState c' (pos + length (entries sym ut sl L [])) (mkReader e e)
                  (max_over (map fst (first_emitted sym ut sl L [])) mr)
                  (max_over (map snd (first_emitted sym ut sl L [])) mc)
              /\ stored c c' pos (entries sym ut sl L [])).
  { intros p c pos mr mc fuel Hf. exists c. rewrite (in_front_nil p Hf).
    cbn. rewrite Nat.add_0_r. split; [|apply stored_refl].
    destruct fuel; cbn [pass2_loop rd]; unfold good; cbn [d end_];
      rewrite ?Nat.ltb_irrefl; reflexivity. }
  induction n as [|n IH]; intros seg Hlen p c pos mr mc fuel Hf Hfuel.
  - destruct seg; [|cbn in Hlen; lia]. apply Hnil, Hf.
  - destruct seg as [|b seg]; [apply Hnil, Hf|].
    destruct (set_call (b :: seg) p c pos mr mc Hf)
      as (seg1 & seg2 & c1 & Heq & Hne & Hcall & Hst1).
    specialize (Hne ltac:(discriminate)).
    pose proof (render_blocks_length seg1) as Hl1.
    assert (Hlen1 : 1 <= length seg1) by (destruct seg1; [congruence | cbn; lia]).
    rewrite Heq in Hf, Hlen.
    assert (Hp : p + length (render_blocks seg1) <= e).
    { destruct Hf as (_ & _ & He). rewrite render_blocks_app, length_app in He. lia. }
    destruct fuel as [|fuel]; [lia|].
    cbn [pass2_loop rd]. unfold good. cbn [d end_].
    rewrite (proj2 (Nat.ltb_lt p e) ltac:(lia)), Hcall.
    destruct (IH seg2 ltac:(rewrite length_app in Hlen; lia)
                (p + length (render_blocks seg1)) c1
                (pos + length (entries sym ut sl L seg1))
                (max_over (map fst (first_emitted sym ut sl L seg1)) mr)
                (max_over (map snd (first_emitted sym ut sl L seg1)) mc)
                fuel (in_front_app p seg1 seg2 Hf) ltac:(lia))
      as (c2 & -> & Hst2).
    exists c2. rewrite Heq, entries_app, first_emitted_app, !map_app, !max_over_app, length_app.
    split; [f_equal; lia|]. apply (stored_trans c c1 c2); assumption.
Qed.
End Blocks.

Lemma filter_prefix (f : nat -> bool) :
  (forall j j', j <= j' -> f j' = true -> f j = true) ->
  forall n k, k = length (List.filter f (seq 0 n)) ->
    k <= n /\ (forall j, j < k -> f j = true) /\ (k < n -> f k = false).
Proof.
  intros Hdown. induction n as [|n IH]; intros k Hk.
  - cbn in Hk. subst k. repeat split; intros; lia.
  - rewrite seq_S, List.filter_app, length_app in Hk. cbn [List.filter Nat.add] in Hk.
    destruct (IH _ eq_refl) as (Hle & Hall & Hstop).
    remember (length (List.filter f (seq 0 n))) as k0 eqn:Ek0. clear Ek0 IH.
    destruct (f n) eqn:En; cbn [length] in Hk.
    + assert (H0 : k0 = n).
      { destruct (Nat.eq_dec k0 n) as [|Hne]; [assumption|].
        assert (Hf : f k0 = false) by (apply Hstop; lia).
        rewrite (Hdown k0 n) in Hf; [discriminate | lia | assumption]. }
      subst k0 k. split; [lia|]. split; [|lia].
      intros j Hj. apply (Hdown j n); [lia | assumption].
    + rewrite Nat.add_0_r in Hk. subst k. split; [lia|]. split; [assumption|].
      intros _. destruct (Nat.eq_dec k0 n) as [->|Hne]; [assumption | apply Hstop; lia].
Qed.

Lemma filter_length_mono (f g : nat -> bool) (l : list nat) :
  (forall j, f j = true -> g j = true) ->
  length (List.filter f l) <= length (List.filter g l).
Proof.
  intros Hfg. induction l as [|a l IH]; cbn; [lia|].
  destruct (f a) eqn:Ef.
  - rewrite (Hfg a Ef). cbn. lia.
  - destruct (g a); cbn; lia.
Qed.

Lemma filter_length_all (f : nat -> bool) (l : list nat) :
  (forall j, In j l -> f j = true) -> length (List.filter f l) = length l.
Proof.
  induction l as [|a l IH]; intros H; cbn; [reflexivity|].
  rewrite (H a (or_introl eq_refl)). cbn. rewrite IH; [reflexivity|].
  intros j Hj. apply H. right. exact Hj.
Qed.

Lemma forallb_take {A : Type} (f : A -> bool) (l : list A) (j : nat) :
  forallb f l = true -> forallb f (take j l) = true.
Proof.
  revert j. induction l as [|a l IH]; intros [|j] H; cbn; try reflexivity.
  cbn in H. apply andb_prop in H as [Ha Hl]. rewrite Ha, (IH j Hl). reflexivity.
Qed.

Lemma blocks_head_digit (seg : list block) (rest : list ascii) :
  forallb block_ok seg = true -> seg <> [] ->
  is_digit (nth 0 (render_blocks seg ++ rest) zero) = true.
Proof.
  intros Hok Hne. destruct seg as [|b seg]; [congruence|].
  cbn [forallb] in Hok. apply andb_prop in Hok as [Hb _].
  unfold block_ok in Hb. apply andb_prop in Hb as [Hen _].
  destruct (entry_ok_inv (b_entry b) Hen) as ([Hx Hxd] & _).
  change (render_blocks (b :: seg)) with (render_block b ++ render_blocks seg).
  unfold render_block, render_entry.
  destruct (e_x (b_entry b)) as [|a xs]; [congruence|].
  cbn in *. apply andb_prop in Hxd as [-> _]. reflexivity.
Qed.

Lemma entry_body_no_nl (en : entry) :
  entry_ok en = true -> forallb (fun a => negb (is_nl a)) (entry_body en) = true.
Proof.
  intros Hen. destruct (entry_ok_inv en Hen) as ([_ Hx] & [_ Hs] & [_ Hy] & _ & Ht).
  unfold entry_body. rewrite !forallb_app, Ht.
  rewrite (forallb_impl _ _ _ digit_not_nl Hx), (forallb_impl _ _ _ filler_not_nl Hs),
    (forallb_impl _ _ _ digit_not_nl Hy). reflexivity.
Qed.

Lemma render_block_body (b : block) :
  render_block b = entry_body (b_entry b) ++ NL :: render_gap (b_gap b).
Proof.
  unfold render_block, render_entry, entry_body.
  rewrite <- !app_assoc. reflexivity.
Qed.

Section TextFile.
Variables (gap0 : list skipline) (bs : list block).
Hypothesis Hok : file_ok gap0 bs = true.

Lemma gap0_ok : forallb skip_ok gap0 = true.
Proof. unfold file_ok in Hok. apply andb_prop in Hok as [H _]. exact H. Qed.

Lemma blocks_ok : forallb block_ok bs = true.
Proof. unfold file_ok in Hok. apply andb_prop in Hok as [_ H]. exact H. Qed.

Lemma block_start_0 : block_start gap0 bs 0 = length (render_gap gap0).
Proof. unfold block_start. rewrite take_0. cbn. lia. Qed.

Lemma block_start_add (k m : nat) :
  block_start gap0 bs (k + m)
  = block_start gap0 bs k + length (render_blocks (take m (drop k bs))).
Proof.
  unfold block_start. rewrite <- take_take_drop, render_blocks_app, length_app. lia.
Qed.

Lemma block_start_mono (j k : nat) :
  j <= k -> block_start gap0 bs j <= block_start gap0 bs k.
Proof.
  intros H. replace k with (j + (k - j)) by lia. rewrite block_start_add. lia.
Qed.

Lemma block_start_lt (j k : nat) :
  j < k -> k <= length bs -> block_start gap0 bs j < block_start gap0 bs k.
Proof.
  intros H Hk. replace k with (j + (k - j)) by lia. rewrite block_start_add.
  pose proof (render_blocks_length (take (k - j) (drop j bs))) as Hl.
  rewrite length_take, length_drop in Hl. lia.
Qed.

Lemma block_start_all :
  block_start gap0 bs (length bs) = length (render_file gap0 bs).
Proof.
  unfold block_start, render_file. rewrite firstn_all, length_app. reflexivity.
Qed.

Lemma block_start_le_size (k : nat) :
  block_start gap0 bs k <= length (render_file gap0 bs).
Proof.
  rewrite <- block_start_all.
  destruct (Nat.le_ge_cases k (length bs)) as [H|H]; [apply block_start_mono, H|].
  unfold block_start. rewrite (take_ge bs k) by lia. rewrite firstn_all. lia.
Qed.

Lemma drop_block_start (k m : nat) :
  drop (block_start gap0 bs k) (render_file gap0 bs)
  = render_blocks (take m (drop k bs)) ++ render_blocks (drop (k + m) bs).
Proof.
  assert (Hsplit : render_blocks bs
                   = render_blocks (take k bs)
                     ++ render_blocks (take m (drop k bs))
                     ++ render_blocks (drop (k + m) bs)).
  { rewrite <- !render_blocks_app. f_equal.
    rewrite <- drop_drop, take_drop, take_drop. reflexivity. }
  unfold block_start, render_file. rewrite Hsplit, app_assoc, <- length_app.
  apply drop_app_length.
Qed.

Lemma in_front_range (k m : nat) :
  k + m <= length bs ->
  in_front (render_file gap0 bs) (block_start gap0 bs (k + m))
    (render_blocks (drop (k + m) bs)) (block_start gap0 bs k) (take m (drop k bs)).
Proof.
  intros Hkm. split; [apply drop_block_start|].
  split; [apply forallb_take, forallb_drop, blocks_ok | apply block_start_add].
Qed.

Lemma cut_block_start (k : nat) :
  k <= length bs ->
  cut (render_file gap0 bs) (block_start gap0 bs k) (length (render_file gap0 bs)).
Proof.
  intros Hk. destruct (Nat.eq_dec k (length bs)) as [->|Hne].
  - left. rewrite block_start_all. lia.
  - right. rewrite (at_hd _ _ _ (drop_block_start k 1)).
    apply blocks_head_digit; [apply forallb_take, forallb_drop, blocks_ok|].
    intros Hnil. apply (f_equal length) in Hnil.
    rewrite length_take, length_drop in Hnil. cbn [length] in Hnil. lia.
Qed.

Lemma boundary_gap0 (i : nat) :
  i < block_start gap0 bs 0 ->
  move_to_next_int (render_file gap0 bs)
    (move_to_eol (render_file gap0 bs) (mkReader i (length (render_file gap0 bs))))
  = mkReader (block_start gap0 bs 0) (length (render_file gap0 bs)).
Proof.
  intros Hi. pose proof (cut_block_start 0 ltac:(lia)) as Hcut.
  pose proof (block_start_le_size 0) as Hle.
  rewrite block_start_0 in *.
  apply (next_record_in_gap (render_file gap0 bs) gap0 0 i _ (render_blocks bs));
    [reflexivity | apply gap0_ok | lia | exact Hle | exact Hcut].
Qed.

Lemma boundary_block (k i : nat) :
  k < length bs ->
  block_start gap0 bs k <= i < block_start gap0 bs (S k) ->
  move_to_next_int (render_file gap0 bs)
    (move_to_eol (render_file gap0 bs) (mkReader i (length (render_file gap0 bs))))
  = mkReader (block_start gap0 bs (S k)) (length (render_file gap0 bs)).
Proof.
  intros Hk Hi. pose proof (cut_block_start (S k) ltac:(lia)) as Hcut.
  pose proof (block_start_le_size (S k)) as Hle.
  pose proof (drop_block_start k 1) as Hd.
  pose proof (block_start_add k 1) as Hs.
  replace (k + 1) with (S k) in * by lia.
  assert (Hb : forallb block_ok (take 1 (drop k bs)) = true)
    by (apply forallb_take, forallb_drop, blocks_ok).
  destruct (drop k bs) as [|b tl] eqn:Edrop.
  { apply (f_equal length) in Edrop. rewrite length_drop in Edrop. cbn [length] in Edrop. lia. }
  cbn [take] in Hd, Hs, Hb. rewrite take_0 in Hd, Hs, Hb.
  change (render_blocks [b]) with (render_block b ++ []) in Hd, Hs.
  rewrite app_nil_r in Hd, Hs.
  cbn [forallb] in Hb. rewrite andb_true_r in Hb.
  unfold block_ok in Hb. apply andb_prop in Hb as [Hen Hgap].
  rewrite render_block_body in Hd, Hs. rewrite <- app_assoc in Hd. cbn [app] in Hd.
  rewrite length_app in Hs. cbn [length] in Hs.
  set (p := block_start gap0 bs k) in *.
  assert (Hs' : block_start gap0 bs (S k)
                = p + length (entry_body (b_entry b)) + 1 + length (render_gap (b_gap b)))
    by lia.
  rewrite Hs' in *.
  destruct (Nat.le_gt_cases i (p + length (entry_body (b_entry b)))) as [Hin|Hin].
  - apply (next_record_in_line _ _ _ _ p i _ Hd);
      [apply entry_body_no_nl, Hen | exact Hgap | lia | exact Hle | exact Hcut].
  - pose proof (drop_step _ p _ _ Hd) as Hd1.
    pose proof (drop_cons_step _ _ _ _ Hd1) as Hd2.
    replace (p + length (entry_body (b_entry b)) + 1 + length (render_gap (b_gap b)))
      with (S (p + length (entry_body (b_entry b))) + length (render_gap (b_gap b)))
      in * by lia.
    apply (next_record_in_gap _ _ _ i _ _ Hd2); [exact Hgap | lia | exact Hle | exact Hcut].
Qed.

Lemma boundary_end :
  move_to_next_int (render_file gap0 bs)
    (move_to_eol (render_file gap0 bs)
       (mkReader (length (render_file gap0 bs)) (length (render_file gap0 bs))))
  = mkReader (length (render_file gap0 bs)) (length (render_file gap0 bs)).
Proof.
  unfold move_to_eol, skip_while. cbn [d end_ set_d]. rewrite Nat.sub_diag.
  cbn [advance_while]. apply move_to_next_int_at_end.
Qed.

Lemma first_record :
  move_to_first_int (render_file gap0 bs) (whole (render_file gap0 bs))
  = mkReader (block_start gap0 bs 0) (length (render_file gap0 bs)).
Proof.
  pose proof (cut_block_start 0 ltac:(lia)) as Hcut.
  pose proof (block_start_le_size 0) as Hle.
  rewrite block_start_0 in *. unfold whole.
  rewrite (move_to_first_int_gap (render_file gap0 bs) gap0 0 _ (render_blocks bs));
    [| reflexivity | apply gap0_ok | exact Hle].
  apply move_to_first_int_stop. exact Hcut.
Qed.

Lemma boundary_index_spec (i k : nat) :
  k = boundary_index gap0 bs i ->
  k <= length bs
  /\ (forall j, j < k -> block_start gap0 bs j <= i)
  /\ (k < length bs -> i < block_start gap0 bs k).
Proof.
  intros Hk. unfold boundary_index in Hk.
  destruct (filter_prefix (fun k => block_start gap0 bs k <=? i)) with (n := length bs) (k := k)
    as (Hle & Hbelow & Habove); [|exact Hk|].
  - intros j j' Hj Hj'. apply Nat.leb_le in Hj'. apply Nat.leb_le.
    pose proof (block_start_mono j j' Hj). lia.
  - split; [exact Hle|]. split.
    + intros j Hj. apply Nat.leb_le, Hbelow, Hj.
    + intros Hlt. apply Nat.leb_gt, Habove, Hlt.
Qed.

Lemma boundary_index_mono (i j : nat) :
  i <= j -> boundary_index gap0 bs i <= boundary_index gap0 bs j.
Proof.
  intros Hij. apply filter_length_mono. intros k Hk.
  apply Nat.leb_le in Hk. apply Nat.leb_le. lia.
Qed.

Lemma boundary_index_end :
  boundary_index gap0 bs (length (render_file gap0 bs)) = length bs.
Proof.
  unfold boundary_index. rewrite filter_length_all; [apply length_seq|].
  intros j _. apply Nat.leb_le, block_start_le_size.
Qed.

(** Where a thread boundary put at offset [i] ends up: at the start of
    the first block that starts after [i]. *)
Lemma boundary (i : nat) :
  i <= length (render_file gap0 bs) ->
  move_to_next_int (render_file gap0 bs)
    (move_to_eol (render_file gap0 bs) (mkReader i (length (render_file gap0 bs))))
  = mkReader (block_start gap0 bs (boundary_index gap0 bs i)) (length (render_file gap0 bs)).
Proof.
  intros Hi.
  destruct (boundary_index_spec i _ eq_refl) as (Hle & Hbelow & Habove).
  pose proof block_start_all as Hall.
  destruct (boundary_index gap0 bs i) as [|k].
  - destruct (Nat.lt_ge_cases i (block_start gap0 bs 0)) as [Hlt|Hge];
      [apply boundary_gap0, Hlt|].
    assert (Hlen : length bs = 0) by (destruct (length bs); [reflexivity | specialize (Habove ltac:(lia)); lia]).
    rewrite Hlen in Hall. rewrite Hall in *.
    replace i with (length (render_file gap0 bs)) by lia. apply boundary_end.
  - specialize (Hbelow k ltac:(lia)).
    destruct (Nat.lt_ge_cases i (block_start gap0 bs (S k))) as [Hlt|Hge];
      [apply boundary_block; lia|].
    assert (Hlen : S k = length bs)
      by (destruct (Nat.eq_dec (S k) (length bs)); [assumption | specialize (Habove ltac:(lia)); lia]).
    rewrite <- Hlen in Hall. rewrite Hall in *.
    replace i with (length (render_file gap0 bs)) by lia. apply boundary_end.
Qed.

Section Threads.
Variable P : nat.
Hypothesis HP : 0 < P.

Lemma share_le (t : nat) :
  t <= P -> t * length (render_file gap0 bs) / P <= length (render_file gap0 bs).
Proof.
  intros Ht. apply Nat.Div0.div_le_upper_bound. nia.
Qed.

Lemma thread_block_le (t : nat) : thread_block gap0 bs P t <= length bs.
Proof.
  unfold thread_block. destruct (t =? 0); [lia|].
  apply (boundary_index_spec _ _ eq_refl).
Qed.

Lemma thread_block_mono (t : nat) :
  thread_block gap0 bs P t <= thread_block gap0 bs P (S t).
Proof.
  unfold thread_block. destruct (Nat.eqb_spec t 0) as [->|Hne]; [cbn; lia|].
  cbn [Nat.eqb]. apply boundary_index_mono, Nat.Div0.div_le_mono. nia.
Qed.

Lemma thread_block_last : thread_block gap0 bs P P = length bs.
Proof.
  unfold thread_block. destruct (Nat.eqb_spec P 0) as [H0|_]; [lia|].
  rewrite Nat.mul_comm, Nat.div_mul by lia. apply boundary_index_end.
Qed.

(** The range of thread [t]: the blocks between two thread boundaries. *)
Lemma thread_range_blocks (t : nat) :
  t < P ->
  thread_range (render_file gap0 bs) P (whole (render_file gap0 bs)) t
  = mkReader (block_start gap0 bs (thread_block gap0 bs P t))
             (block_start gap0 bs (thread_block gap0 bs P (S t))).
Proof.
  intros Ht. unfold thread_range, whole, size, advance. cbn [d end_].
  rewrite Nat.sub_0_r, !Nat.add_0_l, Nat.add_1_r.
  rewrite (boundary _ (share_le (S t) ltac:(lia))).
  assert (Hrs : (if negb (t =? 0)
                 then move_to_next_int (render_file gap0 bs)
                        (move_to_eol (render_file gap0 bs)
                           (mkReader (t * length (render_file gap0 bs) / P)
                              (length (render_file gap0 bs))))
                 else move_to_first_int (render_file gap0 bs)
                        (mkReader (t * length (render_file gap0 bs) / P)
                           (length (render_file gap0 bs))))
                = mkReader (block_start gap0 bs (thread_block gap0 bs P t))
                    (length (render_file gap0 bs))).
  { unfold thread_block. destruct (Nat.eqb_spec t 0) as [->|Hne]; cbn [negb].
    - cbn [Nat.mul]. rewrite Nat.Div0.div_0_l. apply first_record.
    - apply boundary, share_le. lia. }
  rewrite Hrs. unfold smaller_end. cbn [d end_].
  change (boundary_index gap0 bs (S t * length (render_file gap0 bs) / P))
    with (thread_block gap0 bs P (S t)).
  pose proof (block_start_le_size (thread_block gap0 bs P (S t))) as Hle.
  destruct (Nat.ltb_spec (block_start gap0 bs (thread_block gap0 bs P (S t)))
              (length (render_file gap0 bs))); [reflexivity | f_equal; lia].
Qed.
End Threads.
End TextFile.

Lemma entries_take_add (sym ut sl : bool) (L : IntType) (bs : list block) (k m : nat) :
  entries sym ut sl L (take (k + m) bs)
  = entries sym ut sl L (take k bs) ++ entries sym ut sl L (take m (drop k bs)).
Proof. rewrite <- take_take_drop, entries_app. reflexivity. Qed.

Lemma first_emitted_take_add (sym ut sl : bool) (L : IntType) (bs : list block) (k m : nat) :
  first_emitted sym ut sl L (take (k + m) bs)
  = first_emitted sym ut sl L (take k bs) ++ first_emitted sym ut sl L (take m (drop k bs)).
Proof. rewrite <- take_take_drop, first_emitted_app. reflexivity. Qed.

Lemma max_over_max (l : list Z) :
  forall a m : Z, Z.max a (max_over l m) = max_over l (Z.max a m).
Proof.
  induction l as [|v l IH]; intros a m; [reflexivity|].
  change (max_over (v :: l) m) with (max_over l (if (v >? m)%Z then v else m)).
  change (max_over (v :: l) (Z.max a m))
    with (max_over l (if (v >? Z.max a m)%Z then v else Z.max a m)).
  rewrite IH. f_equal.
  destruct (Z.gtb_spec v m), (Z.gtb_spec v (Z.max a m)); lia.
Qed.

Lemma max_over_ge (l : list Z) : forall m : Z, (m <= max_over l m)%Z.
Proof.
  induction l as [|v l IH]; intros m; [cbn; lia|].
  change (max_over (v :: l) m) with (max_over l (if (v >? m)%Z then v else m)).
  specialize (IH (if (v >? m)%Z then v else m)).
  destruct (Z.gtb_spec v m); lia.
Qed.

Lemma nth_map_seq {A : Type} (h : nat -> A) (n t : nat) (dflt : A) :
  t < n -> nth t (map h (seq 0 n)) dflt = h t.
Proof.
  intros Ht. rewrite (nth_indep _ dflt (h 0)) by (rewrite length_map, length_seq; lia).
  rewrite map_nth, seq_nth by lia. reflexivity.
Qed.

Lemma prefix_sum_telescope (g f : nat -> nat) (P : nat) :
  (forall t, t < P -> g (S t) = g t + f t) ->
  forall n a, a + n <= P ->
    prefix_sum (g a) (map f (seq a n)) = map (fun t => g (S t)) (seq a n).
Proof.
  intros Hg. induction n as [|n IH]; intros a Ha; [reflexivity|].
  cbn [seq map prefix_sum]. rewrite <- (Hg a) by lia. f_equal. apply IH. lia.
Qed.

Lemma blit_whole {A : Type} (buf src : list A) :
  length src = length buf -> blit buf 0 src = src.
Proof.
  intros H. pose proof (blit_spec src [] buf ltac:(lia)) as Hb.
  cbn [app length] in Hb. rewrite Hb, drop_ge by lia. apply app_nil_r.
Qed.

Section ReadEl.
Variables (gap0 : list skipline) (bs : list block).
Hypothesis Hok : file_ok gap0 bs = true.
Variables (sym ut sl : bool) (L O : IntType).
Context {W : Type}.
Variables (wr : WeightReader W) (junk : Junk W).
Variable P : nat.
Hypothesis HP : 0 < P.

Lemma thread_blocks_split (t : nat) :
  thread_block gap0 bs P (S t)
  = thread_block gap0 bs P t + (thread_block gap0 bs P (S t) - thread_block gap0 bs P t).
Proof. pose proof (thread_block_mono gap0 bs P HP t). lia. Qed.

(** What thread [t] counts in Pass 1. *)
Lemma pass1_thread (t : nat) :
  t < P ->
  length (entries sym ut sl L (take (thread_block gap0 bs P (S t)) bs))
  = length (entries sym ut sl L (take (thread_block gap0 bs P t) bs))
    + pass1 (render_file gap0 bs) sym ut sl false L wr
        (thread_range (render_file gap0 bs) P (whole (render_file gap0 bs)) t).
Proof.
  intros Ht. rewrite (thread_range_blocks gap0 bs Hok P HP t Ht).
  rewrite (thread_blocks_split t).
  set (k := thread_block gap0 bs P t).
  set (m := thread_block gap0 bs P (S t) - k).
  assert (Hkm : k + m <= length bs).
  { unfold m, k. rewrite <- thread_blocks_split. apply (thread_block_le gap0 bs P HP). }
  unfold pass1, size. cbn [d end_].
  rewrite (pass1_loop_blocks _ L sym ut sl wr _ _ _ _ (Nat.le_refl _) _ 0 _
             (in_front_range gap0 bs Hok k m Hkm) (Nat.le_refl _)).
  rewrite entries_take_add, length_app. lia.
Qed.

Lemma nl_offsets_blocks :
  prefix_sum 0
    (map (fun tid => pass1 (render_file gap0 bs) sym ut sl false L wr
                       (thread_range (render_file gap0 bs) P (whole (render_file gap0 bs)) tid))
         (seq 0 P))
  = map (fun t => length (entries sym ut sl L (take (thread_block gap0 bs P (S t)) bs)))
        (seq 0 P).
Proof.
  apply (prefix_sum_telescope
           (fun t => length (entries sym ut sl L (take (thread_block gap0 bs P t) bs)))
           _ P pass1_thread P 0).
  lia.
Qed.

(** The threads of Pass 2, run one after the other, store the entries of
    the blocks before the next thread boundary. *)
Lemma pass2_threads (c0 : COO W) (n : nat) :
  n <= P ->
  exists c',
    fold_left
      (pass2_thread (render_file gap0 bs) sym ut sl false L wr P
         (whole (render_file gap0 bs))
         (map (fun t => length (entries sym ut sl L (take (thread_block gap0 bs P (S t)) bs)))
              (seq 0 P)))
      (seq 0 n) (c0, 0%Z, 0%Z)
    = (c', max_over (map fst (first_emitted sym ut sl L (take (thread_block gap0 bs P n) bs))) 0,
           max_over (map snd (first_emitted sym ut sl L (take (thread_block gap0 bs P n) bs))) 0)
    /\ stored c0 c' 0 (entries sym ut sl L (take (thread_block gap0 bs P n) bs)).
Proof.
  induction n as [|n IH]; intros Hn.
  - exists c0. cbn. split; [reflexivity | apply stored_refl].
  - destruct (IH ltac:(lia)) as (c1 & Hfold & Hst1).
    rewrite seq_S, fold_left_app, Hfold. cbn [fold_left Nat.add].
    unfold pass2_thread.
    rewrite (thread_range_blocks gap0 bs Hok P HP n ltac:(lia)).
    assert (Hpos : (if 0 <? n
                    then nth (n - 1)
                           (map (fun t => length (entries sym ut sl L
                                                    (take (thread_block gap0 bs P (S t)) bs)))
                                (seq 0 P)) 0
                    else 0)
                   = length (entries sym ut sl L (take (thread_block gap0 bs P n) bs))).
    { destruct n as [|n']; [reflexivity|].
      cbn [Nat.ltb Nat.leb]. rewrite nth_map_seq by lia.
      replace (S n' - 1) with n' by lia. reflexivity. }
    rewrite Hpos. clear Hpos.
    rewrite (thread_blocks_split n).
    set (k := thread_block gap0 bs P n) in *.
    set (m := thread_block gap0 bs P (S n) - k).
    assert (Hkm : k + m <= length bs).
    { unfold m, k. rewrite <- thread_blocks_split. apply (thread_block_le gap0 bs P HP). }
    unfold pass2, size. cbn [rd d end_].
    destruct (pass2_loop_blocks _ L sym ut sl wr _ _ _ _ (Nat.le_refl _) _ c1
                (length (entries sym ut sl L (take k bs))) 0%Z 0%Z _
                (in_front_range gap0 bs Hok k m Hkm) (Nat.le_refl _))
      as (c2 & -> & Hst2).
    exists c2. cbn [this max_row max_col].
    rewrite entries_take_add, first_emitted_take_add, !map_app, !max_over_app.
    split.
    + rewrite !max_over_max.
      rewrite !Z.max_l by apply max_over_ge. reflexivity.
    + apply (stored_trans c0 c1 c2); assumption.
Qed.

(** [read_el_] on a well formed text, whatever the number of threads. *)
Lemma read_el_blocks :
  fits O (Z.of_nat (length (entries sym ut sl L bs))) ->
  let c := read_el_ (render_file gap0 bs) sym ut sl false L O wr P junk fresh
             (whole (render_file gap0 bs)) in
  x_ c = map fst (entries sym ut sl L bs)
  /\ y_ c = map snd (entries sym ut sl L bs)
  /\ w_ c = []
  /\ m_ c = Z.of_nat (length (entries sym ut sl L bs))
  /\ nrows_ c = wrap L (max_over (map fst (first_emitted sym ut sl L bs)) 0 + 1)
  /\ ncols_ c = wrap L (max_over (map snd (first_emitted sym ut sl L bs)) 0 + 1)
  /\ n_ c = Z.max (nrows_ c) (ncols_ c).
Proof.
  intros Hfit c. subst c. unfold read_el_, read_el_order. cbv zeta.
  rewrite nl_offsets_blocks, nth_map_seq by lia.
  replace (S (P - 1)) with P by lia.
  rewrite (thread_block_last gap0 bs P HP), firstn_all.
  unfold fits in Hfit. rewrite Hfit.
  destruct (pass2_threads
              (allocate_ false junk
                 (set_m fresh (Z.of_nat (length (entries sym ut sl L bs))))) P (Nat.le_refl _))
    as (c' & Hfold & Hst).
  rewrite Hfold. clear Hfold.
  rewrite (thread_block_last gap0 bs P HP), firstn_all in *.
  destruct Hst as (Hx & Hy & Hw & Hm).
  cbn [allocate_ set_m fresh x_ y_ w_ m_] in Hx, Hy, Hw, Hm.
  rewrite Nat2Z.id in Hx, Hy.
  rewrite blit_whole in Hx by (rewrite !length_map, length_seq; reflexivity).
  rewrite blit_whole in Hy by (rewrite !length_map, length_seq; reflexivity).
  cbn [x_ y_ w_ m_ nrows_ ncols_ n_ set_n set_ncols set_nrows].
  split_ands; try assumption; try reflexivity.
  match goal with |- (if (?a >? ?b)%Z then _ else _) = _ => destruct (Z.gtb_spec a b); lia end.
Qed.
End ReadEl.


Lemma wrap_0 (T : IntType) : wrap T 0 = 0%Z.
Proof.
  unfold wrap.
  assert (Hmod : (0 < modulus T)%Z) by (apply Z.pow_pos_nonneg; lia).
  destruct (signed T); [|apply Z.mod_0_l; lia].
  rewrite Z.add_0_l, Z.mod_small; [lia|].
  split; [apply Z.div_pos; lia | apply Z.div_lt; lia].
Qed.

Lemma wrap_1 (T : IntType) : 0 < bytes T -> wrap T 1 = 1%Z.
Proof.
  intros Hb. unfold wrap.
  assert (Hmod : (256 <= modulus T)%Z).
  { unfold modulus. change 256%Z with (2 ^ 8)%Z. apply Z.pow_le_mono_r; lia. }
  destruct (signed T); [|apply Z.mod_small; lia].
  pose proof (Z.mul_div_le (modulus T) 2 ltac:(lia)).
  rewrite Z.mod_small; [lia|].
  split; [pose proof (Z.div_pos (modulus T) 2); lia|].
  pose proof (Z.div_le_mono 256 (modulus T) 2 ltac:(lia) Hmod) as H128.
  change (256 / 2)%Z with 128%Z in H128. lia.
Qed.

Lemma render_gap_length (gap : list skipline) : length gap <= length (render_gap gap).
Proof.
  induction gap as [|l gap IH]; [cbn; lia|].
  change (render_gap (l :: gap)) with (render_skip l ++ render_gap gap).
  rewrite length_app, render_skip_body, length_app. cbn [length]. lia.
Qed.

Section CommentsOnly.
Variable gap0 : list skipline.
Hypothesis Hgap : forallb skip_ok gap0 = true.
Variables (sym ut sl wgt : bool) (L O : IntType).
Context {W : Type}.
Variables (wr : WeightReader W) (junk : Junk W).
Variable P : nat.
Hypothesis HP : 0 < P.

Lemma comments_file_ok : file_ok gap0 [] = true.
Proof. unfold file_ok. rewrite Hgap. reflexivity. Qed.

(** Every thread of a text without records is given the empty range at
    the end of the text. *)
Lemma comments_range (t : nat) :
  t < P ->
  thread_range (render_file gap0 []) P (whole (render_file gap0 [])) t
  = mkReader (length (render_gap gap0)) (length (render_gap gap0)).
Proof.
  intros Ht. rewrite (thread_range_blocks gap0 [] comments_file_ok P HP t Ht).
  unfold block_start. rewrite !take_nil. cbn. rewrite Nat.add_0_r. reflexivity.
Qed.

Lemma comments_pass2 (offs : list nat) (c : COO W) (n : nat) :
  n <= P ->
  fold_left (pass2_thread (render_file gap0 []) sym ut sl wgt L wr P
               (whole (render_file gap0 [])) offs)
    (seq 0 n) (c, 0%Z, 0%Z)
  = (c, 0%Z, 0%Z).
Proof.
  induction n as [|n IH]; intros Hn; [reflexivity|].
  rewrite seq_S, fold_left_app, IH by lia. cbn [fold_left Nat.add].
  unfold pass2_thread. rewrite comments_range by lia.
  unfold pass2, size. cbn [rd d end_]. rewrite Nat.sub_diag. reflexivity.
Qed.

Lemma read_el_comments :
  read_el_ (render_file gap0 []) sym ut sl wgt L O wr P junk fresh
    (whole (render_file gap0 []))
  = mkCOO (wrap L 1) (wrap L 1) (wrap L 1) 0 [] [] [] [].
Proof.
  unfold read_el_, read_el_order. cbv zeta.
  assert (Hp1 : map (fun tid => pass1 (render_file gap0 []) sym ut sl wgt L wr
                                  (thread_range (render_file gap0 []) P
                                     (whole (render_file gap0 [])) tid))
                    (seq 0 P)
                = map (fun _ => 0) (seq 0 P)).
  { apply map_ext_in. intros t Ht. apply in_seq in Ht.
    rewrite comments_range by lia. unfold pass1, size. cbn [d end_].
    rewrite Nat.sub_diag. reflexivity. }
  rewrite Hp1.
  rewrite (prefix_sum_telescope (fun _ => 0) (fun _ => 0) P (fun _ _ => eq_refl) P 0)
    by lia.
  rewrite nth_map_seq by lia. change (Z.of_nat 0) with 0%Z. rewrite wrap_0.
  rewrite comments_pass2 by lia.
  cbn. rewrite Z.gtb_ltb, Z.ltb_irrefl. destruct wgt; reflexivity.
Qed.
End CommentsOnly.

(** C3 (amended). Opening an empty file throws (the constructor of [File]
    asks for a mapping of length 0, which the system refuses with
    [MAP_FAILED], and throws the error [PIGO: MMAP]), whatever the file
    type asked for; a file that holds only comment lines and lines without a digit,
    read as an edge list by any number of threads and under any flags,
    gives an object without entries whose [nrows_], [ncols_] and [n_] are
    1 (the maxima stay 0 and one is added). *)
Theorem empty_file_throws_and_comments_give_n_one :
  forall (sym ut sl wgt : bool) (L O : IntType) (W : Type) (wr : WeightReader W)
         (W_size : nat) (W_bytes : W -> list ascii) (W_of_bytes : list ascii -> W)
         (P : nat) (junk : Junk W) (hcoo hcsr hdg hts : list ascii)
         (CSR_load : File -> FileType -> res (CSR W)) (fn : list ascii)
         (gap0 : list skipline),
    0 < length gap0 -> forallb skip_ok gap0 = true -> 0 < P -> 0 < bytes L ->
    (forall ft : FileType,
        COO_from_file sym ut sl wgt L O wr W_size W_bytes W_of_bytes P junk
          hcoo hcsr hdg hts CSR_load fn [] ft
        = Throws (Error "PIGO: MMAP") fresh)
    /\ COO_from_file sym ut sl wgt L O wr W_size W_bytes W_of_bytes P junk
         hcoo hcsr hdg hts CSR_load fn (render_gap gap0) EDGE_LIST
       = Returns (mkCOO 1 1 1 0 [] [] [] []).
Proof.
  intros sym ut sl wgt L O W wr W_size W_bytes W_of_bytes P junk hcoo hcsr hdg hts
         CSR_load fn gap0 Hne Hgap HP HL.
  split; [intros ft; reflexivity|].
  pose proof (render_gap_length gap0) as Hlen.
  replace (render_gap gap0) with (render_file gap0 []) in *
    by (unfold render_file; apply app_nil_r).
  unfold COO_from_file, File_open, seek. cbn [Nat.ltb Nat.leb size_].
  destruct (Nat.eqb_spec (length (render_file gap0 [])) 0) as [H0|_]; [lia|].
  destruct (Nat.leb_spec (length (render_file gap0 [])) 0) as [H0|_]; [lia|].
  unfold read_, reader. cbn [fp_ size_ data_]. f_equal.
  change (mkReader 0 (length (render_file gap0 []))) with (whole (render_file gap0 [])).
  rewrite (read_el_comments gap0 Hgap sym ut sl wgt L O wr junk P HP).
  rewrite (wrap_1 L HL). reflexivity.
Qed.

(** The empty file, and the text of the comment lines [# hello] and [% x]
    read by three threads under [sym], [sl] and [wgt]. *)
Lemma empty_file_throws_and_comments_give_n_one_witness :
  (forall ft : FileType,
      COO_from_file true false true true uint32_t uint64_t (unsigned_weight uint32_t)
        4 (encode_le 4) decode_le 3 zero_junk
        (bytes_of "PIGO-COO-v2") (bytes_of "PIGO-CSR-v2") (bytes_of "PIGO-DiGraph-v2")
        (bytes_of "PIGO-Tensor-v1") (fun _ _ => Throw (Error "no CSR"))
        (bytes_of "c.el") [] ft
      = Throws (Error "PIGO: MMAP") fresh)
  /\ COO_from_file true false true true uint32_t uint64_t (unsigned_weight uint32_t)
       4 (encode_le 4) decode_le 3 zero_junk
       (bytes_of "PIGO-COO-v2") (bytes_of "PIGO-CSR-v2") (bytes_of "PIGO-DiGraph-v2")
       (bytes_of "PIGO-Tensor-v1") (fun _ _ => Throw (Error "no CSR"))
       (bytes_of "c.el") (render_gap comment_lines) EDGE_LIST
     = Returns (mkCOO 1 1 1 0 [] [] [] []).
Proof.
  apply (empty_file_throws_and_comments_give_n_one true false true true uint32_t uint64_t
           Z (unsigned_weight uint32_t) 4 (encode_le 4) decode_le 3 zero_junk
           (bytes_of "PIGO-COO-v2") (bytes_of "PIGO-CSR-v2") (bytes_of "PIGO-DiGraph-v2")
           (bytes_of "PIGO-Tensor-v1") (fun _ _ => Throw (Error "no CSR"))
           (bytes_of "c.el") comment_lines);
    [cbn; lia | reflexivity | lia | cbn; lia].
Defined.

(** C3, as stated, fails: the file of the two comment lines [# hello] and
    [% x] is read without an error and gives [m_ = 0] but [n_ = 1], and
    the empty file is not read at all, an exception leaves the
    constructor. *)
Lemma comment_file_has_n_one_empty_file_throws :
  (exists c : COO Z,
      COO_from_file false false false false uint32_t uint32_t (unsigned_weight uint32_t)
        4 (encode_le 4) decode_le 1 zero_junk
        (bytes_of "PIGO-COO-v2") (bytes_of "PIGO-CSR-v2") (bytes_of "PIGO-DiGraph-v2")
        (bytes_of "PIGO-Tensor-v1") (fun _ _ => Throw (Error "no CSR"))
        (bytes_of "c.el") (text_of_lines ["# hello"; "% x"]%string) AUTO
      = Returns c
      /\ m_ c = 0%Z /\ n_ c = 1%Z /\ nrows_ c = 1%Z /\ ncols_ c = 1%Z)
  /\ COO_from_file false false false false uint32_t uint32_t (unsigned_weight uint32_t)
       4 (encode_le 4) decode_le 1 zero_junk
       (bytes_of "PIGO-COO-v2") (bytes_of "PIGO-CSR-v2") (bytes_of "PIGO-DiGraph-v2")
       (bytes_of "PIGO-Tensor-v1") (fun _ _ => Throw (Error "no CSR"))
       (bytes_of "empty.el") [] AUTO
     = Throws (Error "PIGO: MMAP") fresh.
Proof.
  split; [|reflexivity].
  exists (mkCOO 1 1 1 0 [] [] [] []). split_ands; vm_compute; reflexivity.
Qed.

(** C6 (the code departs from the claim).  The text of the three records
    [1 2 5], [3 3 9] and [2 1 7] is read with weights and without self
    loops.  One thread stores the edges [(1,2)] and [(2,1)] with the
    weights 5 and 7.  Of two threads the first has the first two lines
    and the second the third.  A weight is stored before the record is
    tested for a self loop: the first thread stores the weight of the
    self loop it drops, and the weight it reads at the end of its range,
    at index 1, where the second thread stores the weight of its edge.
    Both threads store to [w_[1]]; when the second thread has its turn
    before the first, [w_] ends as [[5; 0]], not as the [[5; 7]] of the
    sequential scan, while [x_] and [y_] are the same. *)
Theorem weights_depend_on_the_turns_of_the_threads :
  let run (order : list nat) (P : nat) :=
    read_el_order self_loop_text false false true true uint32_t uint32_t
      (unsigned_weight uint32_t) order P zero_junk fresh (whole self_loop_text) in
  run [0] 1
  = read_el_ self_loop_text false false true true uint32_t uint32_t
      (unsigned_weight uint32_t) 1 zero_junk fresh (whole self_loop_text)
  /\ x_ (run [0] 1) = [1; 2]%Z /\ y_ (run [0] 1) = [2; 1]%Z /\ w_ (run [0] 1) = [5; 7]%Z
  /\ In (StoreW 1) (trace (run [0] 2)) /\ In (StoreW 1) (trace (run [1] 2))
  /\ w_ (run [0; 1] 2) = [5; 7]%Z
  /\ x_ (run [1; 0] 2) = [1; 2]%Z /\ y_ (run [1; 0] 2) = [2; 1]%Z
  /\ w_ (run [1; 0] 2) = [5; 0]%Z.
Proof.
  intros run. split_ands; try (vm_compute; reflexivity).
  - vm_compute. tauto.
  - vm_compute. tauto.
Qed.

(** ** Integers written as text *)

Lemma pow10_S (f : nat) : (10 ^ Z.of_nat (S f) = 10 * 10 ^ Z.of_nat f)%Z.
Proof. rewrite Nat2Z.inj_succ, Z.pow_succ_r by lia. reflexivity. Qed.

Lemma pow10_pos (f : nat) : (0 < 10 ^ Z.of_nat f)%Z.
Proof. apply Z.pow_pos_nonneg; lia. Qed.

Lemma div10_bound (f : nat) (v : Z) :
  (0 <= v < 10 ^ Z.of_nat (S f))%Z -> (0 <= v / 10 < 10 ^ Z.of_nat f)%Z.
Proof.
  rewrite pow10_S. intros H. split; [apply Z.div_pos; lia|].
  apply Z.div_lt_upper_bound; lia.
Qed.

Lemma div10_zero (v : Z) : (0 <= v)%Z -> (v / 10 = 0)%Z -> (v < 10)%Z.
Proof.
  intros H0 H. pose proof (Z.div_mod v 10 ltac:(lia)) as Hdm.
  pose proof (Z.mod_pos_bound v 10 ltac:(lia)). lia.
Qed.

Lemma div10_nonzero (v : Z) : (0 <= v)%Z -> (v / 10 <> 0)%Z -> (10 <= v)%Z.
Proof.
  intros H0 H. destruct (Z.lt_ge_cases v 10) as [Hlt|Hge]; [|exact Hge].
  rewrite Z.div_small in H by lia. congruence.
Qed.

Lemma decimal_fuel_indep (f1 : nat) :
  forall (f2 : nat) (v : Z),
    (0 <= v < 10 ^ Z.of_nat (S f1))%Z -> (v < 10 ^ Z.of_nat (S f2))%Z ->
    decimal_fuel (S f1) v = decimal_fuel (S f2) v.
Proof.
  induction f1 as [|f1 IH]; intros f2 v H1 H2; cbn [decimal_fuel];
    destruct (Z.eqb_spec (v / 10) 0) as [Hz|Hnz]; try reflexivity.
  - apply div10_nonzero in Hnz; [|lia]. change (10 ^ Z.of_nat 1)%Z with 10%Z in H1. lia.
  - f_equal. pose proof (div10_nonzero v ltac:(lia) Hnz) as H10.
    destruct f2 as [|f2]; [change (10 ^ Z.of_nat 1)%Z with 10%Z in H2; lia|].
    apply IH; [apply div10_bound; lia | apply div10_bound; lia].
Qed.

Lemma log2_fuel (v : Z) : (0 <= v)%Z -> (v < 10 ^ Z.of_nat (S (Z.to_nat (Z.log2 v))))%Z.
Proof.
  intros H0. destruct (Z.eq_dec v 0%Z) as [->|Hne]; [reflexivity|].
  pose proof (Z.log2_spec v ltac:(lia)) as [_ Hlt].
  pose proof (Z.log2_nonneg v) as Hl.
  rewrite Nat2Z.inj_succ, Z2Nat.id by lia.
  apply Z.lt_le_trans with (1 := Hlt). apply Z.pow_le_mono_l. lia.
Qed.

Lemma decimal_eq (f : nat) (v : Z) :
  (0 <= v < 10 ^ Z.of_nat (S f))%Z -> decimal v = decimal_fuel (S f) v.
Proof.
  intros H. unfold decimal. apply decimal_fuel_indep; [|lia].
  split; [lia | apply log2_fuel; lia].
Qed.

Lemma decimal_small (v : Z) :
  (0 <= v < 10)%Z -> decimal v = [chr (Z.to_nat (v + 48))].
Proof.
  intros H. rewrite (decimal_eq 0) by (change (10 ^ Z.of_nat 1)%Z with 10%Z; lia).
  cbn [decimal_fuel]. rewrite Z.div_small, Z.mod_small by lia. reflexivity.
Qed.

Lemma decimal_big (v : Z) :
  (10 <= v)%Z -> decimal v = decimal (v / 10) ++ [chr (Z.to_nat (v mod 10 + 48))].
Proof.
  intros H. pose proof (log2_fuel v ltac:(lia)) as Hf.
  unfold decimal at 1. cbn [decimal_fuel].
  destruct (Z.eqb_spec (v / 10) 0) as [Hz|Hnz]; [apply div10_zero in Hz; lia|].
  f_equal. destruct (Z.to_nat (Z.log2 v)) as [|f] eqn:Ef.
  - change (10 ^ Z.of_nat 1)%Z with 10%Z in Hf. lia.
  - symmetry. apply decimal_eq, div10_bound. lia.
Qed.

(** Induction over the digits of a number. *)
Lemma decimal_ind (P : Z -> Prop) :
  (forall v, (0 <= v < 10)%Z -> P v) ->
  (forall v, (10 <= v)%Z -> P (v / 10)%Z -> P v) ->
  forall v, (0 <= v)%Z -> P v.
Proof.
  intros Hsmall Hbig v Hv.
  assert (H : (0 <= v -> P v)%Z); [|exact (H Hv)].
  pattern v. apply Z_lt_induction; [|exact Hv].
  intros n IH Hn. destruct (Z.lt_ge_cases n 10) as [Hlt|Hge]; [apply Hsmall; lia|].
  assert (Hq : (0 <= n / 10 < n)%Z)
    by (split; [apply Z.div_pos; lia | apply Z.div_lt; lia]).
  apply Hbig; [exact Hge|]. apply IH; lia.
Qed.

Lemma decimal_digits (v : Z) : (0 <= v)%Z -> forallb is_digit (decimal v) = true.
Proof.
  intros Hv. pattern v. apply decimal_ind; [| |exact Hv]; clear v Hv.
  - intros v Hv. rewrite decimal_small by lia. cbn [forallb]. rewrite andb_true_r.
    unfold is_digit. rewrite code_chr by lia.
    apply andb_true_intro. split; apply Nat.leb_le; lia.
  - intros v Hv IH. rewrite decimal_big by lia. rewrite forallb_app, IH.
    cbn [forallb andb]. rewrite andb_true_r.
    pose proof (Z.mod_pos_bound v 10 ltac:(lia)).
    unfold is_digit. rewrite code_chr by lia.
    apply andb_true_intro. split; apply Nat.leb_le; lia.
Qed.

Lemma decimal_nonempty (v : Z) : (0 <= v)%Z -> decimal v <> [].
Proof.
  intros Hv. destruct (Z.lt_ge_cases v 10).
  - rewrite decimal_small by lia. discriminate.
  - rewrite decimal_big by lia. intros Hnil. apply app_eq_nil in Hnil as [_ Hnil]. discriminate.
Qed.

Lemma digit_val_chr (u : Z) : (0 <= u < 10)%Z -> digit_val (chr (Z.to_nat (u + 48))) = u.
Proof. intros H. unfold digit_val. rewrite code_chr by lia. lia. Qed.

Lemma wrap_small (T : IntType) (v : Z) : (0 <= v < upper T)%Z -> wrap T v = v.
Proof.
  unfold upper, wrap. intros H.
  assert (Hmod : (0 < modulus T)%Z) by (apply Z.pow_pos_nonneg; lia).
  pose proof (Z.mul_div_le (modulus T) 2 ltac:(lia)).
  destruct (signed T); [|apply Z.mod_small; lia].
  rewrite Z.mod_small by lia. lia.
Qed.

Lemma digits_value_snoc (T : IntType) (ds : list ascii) (a : ascii) :
  digits_value T (ds ++ [a]) = wrap T (digits_value T ds * 10 + digit_val a).
Proof. unfold digits_value. rewrite fold_left_app. reflexivity. Qed.

(** The numeral of [v] reads back as [v] in every type that holds [v]. *)
Lemma digits_value_decimal (T : IntType) (v : Z) :
  (0 <= v < upper T)%Z -> digits_value T (decimal v) = v.
Proof.
  intros [Hv Hup]. revert Hup. pattern v. apply decimal_ind; [| |exact Hv]; clear v Hv.
  - intros v Hv Hup. rewrite decimal_small by lia.
    change (digits_value T [chr (Z.to_nat (v + 48))])
      with (wrap T (0 * 10 + digit_val (chr (Z.to_nat (v + 48))))).
    rewrite digit_val_chr by lia. apply wrap_small. lia.
  - intros v Hv IH Hup. rewrite decimal_big by lia.
    pose proof (Z.mod_pos_bound v 10 ltac:(lia)).
    pose proof (Z.div_mod v 10 ltac:(lia)).
    assert (Hq : (v / 10 < v)%Z) by (apply Z.div_lt; lia).
    rewrite digits_value_snoc, IH, digit_val_chr by lia.
    rewrite wrap_small by lia. lia.
Qed.

(** The number of digits of the numeral. *)
Lemma decimal_length_bounds (v : Z) :
  (0 <= v)%Z ->
  1 <= length (decimal v)
  /\ (v < 10 ^ Z.of_nat (length (decimal v)))%Z
  /\ (1 < length (decimal v) -> (10 ^ Z.of_nat (length (decimal v) - 1) <= v)%Z).
Proof.
  intros Hv. pattern v. apply decimal_ind; [| |exact Hv]; clear v Hv.
  - intros v Hv. rewrite decimal_small by lia. cbn [length].
    split; [lia|]. split; [change (10 ^ Z.of_nat 1)%Z with 10%Z; lia | lia].
  - intros v Hv (H1 & Hlt & Hge). rewrite decimal_big by lia.
    rewrite length_app. cbn [length].
    pose proof (Z.mod_pos_bound v 10 ltac:(lia)).
    pose proof (Z.div_mod v 10 ltac:(lia)).
    replace (length (decimal (v / 10)) + 1) with (S (length (decimal (v / 10)))) by lia.
    split; [lia|]. split; [rewrite pow10_S; lia|]. intros _.
    replace (S (length (decimal (v / 10))) - 1) with (length (decimal (v / 10))) by lia.
    destruct (Nat.eq_dec (length (decimal (v / 10))) 1) as [E1|Hne].
    + rewrite E1. change (10 ^ Z.of_nat 1)%Z with 10%Z. lia.
    + specialize (Hge ltac:(lia)).
      replace (length (decimal (v / 10))) with (S (length (decimal (v / 10)) - 1)) at 1 by lia.
      rewrite pow10_S. lia.
Qed.

Lemma type_fuel (T : IntType) (v : Z) :
  (0 <= v < upper T)%Z -> (0 <= v < 10 ^ Z.of_nat (digit_fuel T))%Z.
Proof.
  intros [H0 Hup]. split; [exact H0|].
  assert (Hmod : (v < modulus T)%Z).
  { unfold upper in Hup. destruct (signed T); [|exact Hup].
    assert (0 < modulus T)%Z by (apply Z.pow_pos_nonneg; lia).
    pose proof (Z.mul_div_le (modulus T) 2 ltac:(lia)). lia. }
  unfold digit_fuel. rewrite pow10_S.
  assert (Hle : (modulus T <= 10 ^ Z.of_nat (8 * bytes T))%Z).
  { unfold modulus. replace (Z.of_nat (8 * bytes T)) with (8 * Z.of_nat (bytes T))%Z by lia.
    apply Z.pow_le_mono_l. lia. }
  pose proof (pow10_pos (8 * bytes T)). lia.
Qed.

Lemma write_size_loop_S (fuel : nat) (obj : Z) (res : nat) :
  write_size_loop (S fuel) obj res
  = if (Z.quot obj 10 =? 0)%Z then S res else write_size_loop fuel (Z.quot obj 10) (S res).
Proof. reflexivity. Qed.

Lemma write_digits_S (fuel : nat) (buf : list ascii) (fp pos : nat) (obj : Z) :
  write_digits (S fuel) buf fp pos obj
  = if (Z.quot obj 10 =? 0)%Z
    then <[fp + pos := chr (Z.to_nat ((Z.rem obj 10 + 48) mod 256))]> buf
    else write_digits fuel
           (<[fp + pos := chr (Z.to_nat ((Z.rem obj 10 + 48) mod 256))]> buf)
           fp (pos - 1) (Z.quot obj 10).
Proof. reflexivity. Qed.

Lemma write_size_loop_decimal (fuel : nat) :
  forall (v : Z) (res : nat),
    (0 <= v < 10 ^ Z.of_nat (S fuel))%Z ->
    write_size_loop (S fuel) v res = res + length (decimal v).
Proof.
  induction fuel as [|fuel IH]; intros v res Hv; rewrite write_size_loop_S;
    rewrite !Z.quot_div_nonneg by lia;
    destruct (Z.eqb_spec (v / 10) 0) as [Hz|Hnz].
  - apply div10_zero in Hz; [|lia]. rewrite decimal_small by lia. cbn [length]. lia.
  - apply div10_nonzero in Hnz; [|lia]. change (10 ^ Z.of_nat 1)%Z with 10%Z in Hv. lia.
  - apply div10_zero in Hz; [|lia]. rewrite decimal_small by lia. cbn [length]. lia.
  - apply div10_nonzero in Hnz; [|lia].
    rewrite IH by (apply div10_bound; lia).
    rewrite (decimal_big v) by lia. rewrite length_app. cbn [length]. lia.
Qed.

(** A negative value takes as many turns of the loop as its magnitude. *)
Lemma write_size_loop_opp (fuel : nat) :
  forall (v : Z) (res : nat),
    write_size_loop fuel (- v) res = write_size_loop fuel v res.
Proof.
  induction fuel as [|fuel IH]; intros v res; [reflexivity|].
  rewrite !write_size_loop_S. rewrite Z.quot_opp_l by lia.
  destruct (Z.eqb_spec (Z.quot v 10) 0) as [Hz|Hnz].
  - rewrite Hz. reflexivity.
  - destruct (Z.eqb_spec (- Z.quot v 10) 0) as [Hz'|_]; [lia|]. apply IH.
Qed.

Lemma blit_insert_comm {A : Type} (src : list A) :
  forall (buf : list A) (pos i : nat) (a : A),
    i < pos \/ pos + length src <= i ->
    blit (<[i := a]> buf) pos src = <[i := a]> (blit buf pos src).
Proof.
  induction src as [|b src IH]; intros buf pos i a Hi; [reflexivity|].
  cbn [blit length] in *. rewrite list_insert_insert_ne by lia. apply IH. lia.
Qed.

Lemma write_digits_decimal (fuel : nat) :
  forall (v : Z) (buf : list ascii) (fp pos : nat),
    (0 <= v < 10 ^ Z.of_nat (S fuel))%Z ->
    length (decimal v) <= S pos ->
    write_digits (S fuel) buf fp pos v
    = blit buf (fp + S pos - length (decimal v)) (decimal v).
Proof.
  induction fuel as [|fuel IH]; intros v buf fp pos Hv Hlen; rewrite write_digits_S;
    rewrite !Z.quot_div_nonneg, !Z.rem_mod_nonneg by lia;
    pose proof (Z.mod_pos_bound v 10 ltac:(lia)) as Hm;
    rewrite (Z.mod_small (v mod 10 + 48) 256) by lia;
    destruct (Z.eqb_spec (v / 10) 0) as [Hz|Hnz].
  - apply div10_zero in Hz; [|lia]. rewrite Z.mod_small by lia.
    rewrite decimal_small by lia. cbn [length blit]. f_equal. lia.
  - apply div10_nonzero in Hnz; [|lia]. change (10 ^ Z.of_nat 1)%Z with 10%Z in Hv. lia.
  - apply div10_zero in Hz; [|lia]. rewrite Z.mod_small by lia.
    rewrite decimal_small by lia. cbn [length blit]. f_equal. lia.
  - apply div10_nonzero in Hnz; [|lia].
    rewrite (decimal_big v) in * by lia. rewrite length_app in *. cbn [length] in *.
    rewrite IH by (first [apply div10_bound; lia | lia]).
    rewrite blit_app. cbn [blit].
    pose proof (decimal_length_bounds (v / 10) ltac:(apply Z.div_pos; lia)) as (H1 & _).
    rewrite blit_insert_comm by lia.
    f_equal; [lia|]. f_equal. lia.
Qed.

Lemma write_size_nonneg (T : IntType) (v : Z) :
  (0 <= v < upper T)%Z -> write_size T v = length (decimal v).
Proof.
  intros Hv. unfold write_size, neg_size.
  replace (v <? 0)%Z with false by (symmetry; apply Z.ltb_ge; lia).
  rewrite andb_false_r. apply (write_size_loop_decimal (8 * bytes T)), type_fuel, Hv.
Qed.

Lemma write_size_negative (T : IntType) (v : Z) :
  signed T = true -> (- upper T < v < 0)%Z ->
  write_size T v = 1 + length (decimal (- v)).
Proof.
  intros Hs Hv. unfold write_size, neg_size. rewrite Hs.
  replace (v <? 0)%Z with true by (symmetry; apply Z.ltb_lt; lia). cbn [andb].
  replace v with (- - v)%Z at 1 by lia. rewrite write_size_loop_opp.
  apply (write_size_loop_decimal (8 * bytes T)), type_fuel. lia.
Qed.

Lemma write_ascii_nonneg (T : IntType) (buf : list ascii) (fp : nat) (v : Z) :
  (0 <= v < upper T)%Z ->
  write_ascii T (buf, fp) v = (blit buf fp (decimal v), fp + length (decimal v)).
Proof.
  intros Hv. unfold write_ascii, write_neg_ascii, get_positive.
  replace (v <? 0)%Z with false by (symmetry; apply Z.ltb_ge; lia).
  rewrite andb_false_r. cbn [fst snd]. rewrite write_size_nonneg by exact Hv.
  pose proof (decimal_length_bounds v ltac:(lia)) as (H1 & _).
  unfold digit_fuel. rewrite write_digits_decimal by (first [apply (type_fuel T), Hv | lia]).
  f_equal. f_equal. lia.
Qed.

Lemma write_ascii_negative (T : IntType) (buf : list ascii) (fp : nat) (v : Z) :
  signed T = true -> (- upper T < v < 0)%Z ->
  write_ascii T (buf, fp) v
  = (blit buf fp ("-"%char :: decimal (- v)), fp + (1 + length (decimal (- v)))).
Proof.
  intros Hs Hv. unfold write_ascii, write_neg_ascii, get_positive, put. rewrite Hs.
  replace (v <? 0)%Z with true by (symmetry; apply Z.ltb_lt; lia).
  cbn [andb fst snd]. rewrite (wrap_small T (- v)) by lia.
  rewrite write_size_nonneg by lia.
  pose proof (decimal_length_bounds (- v) ltac:(lia)) as (H1 & _).
  unfold digit_fuel. rewrite write_digits_decimal by (first [apply (type_fuel T); lia | lia]).
  cbn [blit]. f_equal; [|lia]. f_equal. lia.
Qed.

Lemma put_blit (buf : list ascii) (p : nat) (a : ascii) :
  put (buf, p) a = (blit buf p [a], p + 1).
Proof. unfold put. cbn. f_equal. lia. Qed.

Lemma put_string_blit (s : list ascii) :
  forall (buf : list ascii) (p : nat),
    put_string (buf, p) s = (blit buf p s, p + length s).
Proof.
  unfold put_string. induction s as [|a s IH]; intros buf p; cbn [fold_left blit length].
  - f_equal. lia.
  - unfold put at 2. cbn [fst snd]. rewrite IH. f_equal. lia.
Qed.

Lemma numeral_nonneg (v : Z) : (0 <= v)%Z -> numeral v = decimal v.
Proof.
  intros H. unfold numeral.
  replace (v <? 0)%Z with false by (symmetry; apply Z.ltb_ge; lia). reflexivity.
Qed.

(** [write_ascii] stores the numeral and moves on by [write_size]. *)
Lemma write_ascii_numeral (T : IntType) (buf : list ascii) (fp : nat) (v : Z) :
  writable T v ->
  write_ascii T (buf, fp) v = (blit buf fp (numeral v), fp + write_size T v)
  /\ length (numeral v) = write_size T v.
Proof.
  intros [Hlo Hhi]. destruct (Z.lt_ge_cases v 0) as [Hneg|Hnn].
  - destruct (signed T) eqn:Hs; [|lia].
    rewrite write_ascii_negative, write_size_negative by (first [exact Hs | lia]).
    unfold numeral. replace (v <? 0)%Z with true by (symmetry; apply Z.ltb_lt; lia).
    split; reflexivity.
  - assert (Hv : (0 <= v < upper T)%Z) by lia.
    rewrite write_ascii_nonneg, write_size_nonneg, numeral_nonneg by (first [exact Hv | lia]).
    split; reflexivity.
Qed.

Lemma blit_at {A : Type} (buf src : list A) (fp : nat) :
  fp + length src <= length buf ->
  blit buf fp src = take fp buf ++ src ++ drop (fp + length src) buf.
Proof.
  intros H.
  assert (Hfp : length (take fp buf) = fp) by (rewrite length_take; lia).
  transitivity (blit (take fp buf ++ drop fp buf) (length (take fp buf)) src);
    [rewrite take_drop, Hfp; reflexivity|].
  rewrite blit_spec by (rewrite length_drop; lia).
  rewrite drop_drop. reflexivity.
Qed.

Lemma drop_blit {A : Type} (buf src : list A) (fp : nat) :
  fp + length src <= length buf ->
  drop fp (blit buf fp src) = src ++ drop (fp + length src) buf.
Proof.
  intros H. rewrite blit_at by exact H.
  assert (Hfp : length (take fp buf) = fp) by (rewrite length_take; lia).
  transitivity (drop (length (take fp buf))
                  (take fp buf ++ src ++ drop (fp + length src) buf));
    [rewrite Hfp; reflexivity | apply drop_app_length].
Qed.

(** ** [COO::write] *)

Lemma zip_edge_at {W : Type} (c : COO W) :
  length (y_ c) = length (x_ c) ->
  zip (x_ c) (y_ c) = map (edge_at c) (seq 0 (length (x_ c))).
Proof.
  intros Hlen. apply (nth_ext _ _ (0%Z, 0%Z) (edge_at c 0)).
  - rewrite length_zip_with, length_map, length_seq. lia.
  - intros n Hn. rewrite length_zip_with in Hn.
    rewrite (nth_indep (map _ _) (edge_at c 0) (edge_at c (length (x_ c))))
      by (rewrite length_map, length_seq; lia).
    rewrite map_nth, seq_nth by lia. cbn [Nat.add].
    unfold edge_at. rewrite !nth_lookup, lookup_zip_with.
    destruct (lookup_lt_is_Some_2 (x_ c) n ltac:(lia)) as [x ->].
    destruct (lookup_lt_is_Some_2 (y_ c) n ltac:(lia)) as [y ->].
    reflexivity.
Qed.

Section WriteText.
Variable L : IntType.
Context {W : Type}.
Variable W_chars : W -> list ascii.
Variable c : COO W.
Hypothesis Hx : Forall (writable L) (x_ c).
Hypothesis Hy : Forall (writable L) (y_ c).
Hypothesis Hxm : length (x_ c) = Z.to_nat (m_ c).
Hypothesis Hym : length (y_ c) = Z.to_nat (m_ c).

Lemma write_entry_line (buf : list ascii) (p e : nat) :
  e < Z.to_nat (m_ c) ->
  write_entry false L W_chars c (buf, p) e
  = (blit buf p (edge_line (edge_at c e)), p + length (edge_line (edge_at c e)))
  /\ entry_size false L W_chars c e = length (edge_line (edge_at c e)).
Proof.
  intros He.
  assert (Hxe : writable L (nth e (x_ c) 0%Z))
    by (apply (proj1 (List.Forall_nth (writable L) (x_ c)) Hx); lia).
  assert (Hye : writable L (nth e (y_ c) 0%Z))
    by (apply (proj1 (List.Forall_nth (writable L) (y_ c)) Hy); lia).
  unfold write_entry, entry_size, edge_line, edge_at. cbn [fst snd].
  destruct (write_ascii_numeral L buf p _ Hxe) as [-> Hlx]. rewrite put_blit.
  destruct (write_ascii_numeral L (blit (blit buf p (numeral (nth e (x_ c) 0%Z)))
                                      (p + write_size L (nth e (x_ c) 0%Z)) [SP])
              (p + write_size L (nth e (x_ c) 0%Z) + 1) _ Hye) as [-> Hly].
  rewrite put_blit. rewrite !blit_app, !length_app, <- Hlx, <- Hly. cbn [length].
  split; [f_equal; lia | lia].
Qed.

Lemma write_entries_lines (es : list nat) :
  forall (buf : list ascii) (p : nat),
    Forall (fun e => e < Z.to_nat (m_ c)) es ->
    fold_left (write_entry false L W_chars c) es (buf, p)
    = (blit buf p (flat_map (fun e => edge_line (edge_at c e)) es),
       p + length (flat_map (fun e => edge_line (edge_at c e)) es)).
Proof.
  induction es as [|e es IH]; intros buf p Hes; cbn [fold_left flat_map].
  - cbn. f_equal. lia.
  - inversion Hes as [|? ? He Hes']; subst.
    destruct (write_entry_line buf p e He) as [-> _].
    rewrite IH by exact Hes'. rewrite blit_app, length_app. f_equal. lia.
Qed.

Lemma sizes_lines (es : list nat) :
  forall s : nat,
    Forall (fun e => e < Z.to_nat (m_ c)) es ->
    fold_left (fun s e => s + entry_size false L W_chars c e) es s
    = s + length (flat_map (fun e => edge_line (edge_at c e)) es).
Proof.
  induction es as [|e es IH]; intros s Hes; cbn [fold_left flat_map].
  - cbn. lia.
  - inversion Hes as [|? ? He Hes']; subst.
    destruct (write_entry_line [] 0 e He) as [_ ->].
    rewrite IH by exact Hes'. rewrite length_app. lia.
Qed.

Section Schedule.
Variables (P : nat) (share : nat -> list nat).
Hypothesis Hsched : concat (map share (seq 0 P)) = seq 0 (Z.to_nat (m_ c)).

Lemma share_in_range (t : nat) :
  t < P -> Forall (fun e => e < Z.to_nat (m_ c)) (share t).
Proof.
  intros Ht. apply List.Forall_forall. intros e He.
  assert (Hin : In e (concat (map share (seq 0 P)))).
  { apply in_concat. exists (share t). split; [|exact He].
    apply in_map, in_seq. lia. }
  rewrite Hsched in Hin. apply in_seq in Hin. lia.
Qed.

Lemma shares_before (t : nat) :
  length (flat_map (fun e => edge_line (edge_at c e)) (concat (map share (seq 0 (S t)))))
  = length (flat_map (fun e => edge_line (edge_at c e)) (concat (map share (seq 0 t))))
    + length (flat_map (fun e => edge_line (edge_at c e)) (share t)).
Proof.
  rewrite seq_S, map_app, concat_app, flat_map_app, length_app.
  cbn [map concat Nat.add]. rewrite app_nil_r. reflexivity.
Qed.

Lemma pos_offsets_lines (t : nat) :
  t <= P ->
  nth t (pos_offsets false L W_chars P share c) 0
  = length (flat_map (fun e => edge_line (edge_at c e)) (concat (map share (seq 0 t)))).
Proof.
  intros Ht. unfold pos_offsets.
  pose proof (prefix_sum_telescope
                (fun t => length (flat_map (fun e => edge_line (edge_at c e))
                                    (concat (map share (seq 0 t)))))
                (my_size false L W_chars share c) P) as Htel.
  cbv beta in Htel.
  replace (prefix_sum 0 (map (my_size false L W_chars share c) (seq 0 P)))
    with (map (fun t => length (flat_map (fun e => edge_line (edge_at c e))
                                  (concat (map share (seq 0 (S t))))))
              (seq 0 P)).
  2:{ symmetry. apply (Htel ltac:(intros t' Ht'; rewrite shares_before; unfold my_size;
                                   rewrite sizes_lines by (apply share_in_range; lia);
                                   reflexivity) P 0 ltac:(lia)). }
  destruct t as [|t]; [reflexivity|]. cbn [nth]. rewrite nth_map_seq by lia. reflexivity.
Qed.

Lemma write_threads (buf : list ascii) (n : nat) :
  n <= P ->
  fold_left
    (fun buf tid =>
       fst (fold_left (write_entry false L W_chars c) (share tid)
              (buf, 0 + nth tid (pos_offsets false L W_chars P share c) 0)))
    (seq 0 n) buf
  = blit buf 0 (flat_map (fun e => edge_line (edge_at c e)) (concat (map share (seq 0 n)))).
Proof.
  induction n as [|n IH]; intros Hn; [reflexivity|].
  rewrite seq_S, fold_left_app, IH by lia. cbn [fold_left Nat.add].
  rewrite write_entries_lines by (apply share_in_range; lia). cbn [fst].
  rewrite pos_offsets_lines by lia.
  rewrite map_app, concat_app, flat_map_app, blit_app.
  cbn [map concat Nat.add]. rewrite app_nil_r. reflexivity.
Qed.
End Schedule.
End WriteText.

Lemma flat_map_map {A B C : Type} (f : B -> list C) (g : A -> B) (l : list A) :
  flat_map f (map g l) = flat_map (fun a => f (g a)) l.
Proof. induction l as [|a l IH]; cbn; [reflexivity | rewrite IH; reflexivity]. Qed.

Lemma coo_text_lines {W : Type} (c : COO W) :
  length (y_ c) = length (x_ c) ->
  coo_text c = flat_map (fun e => edge_line (edge_at c e)) (seq 0 (length (x_ c))).
Proof. intros H. unfold coo_text. rewrite zip_edge_at by exact H. apply flat_map_map. Qed.

Lemma edge_line_length (xy : Z * Z) : 1 <= length (edge_line xy).
Proof. unfold edge_line. rewrite !length_app. cbn [length]. lia. Qed.

Lemma coo_text_nonempty {W : Type} (c : COO W) :
  length (y_ c) = length (x_ c) -> 0 < length (x_ c) -> 0 < length (coo_text c).
Proof.
  intros H Hm. rewrite coo_text_lines by exact H.
  destruct (length (x_ c)) as [|m]; [lia|].
  cbn [seq flat_map]. rewrite length_app. pose proof (edge_line_length (edge_at c 0)). lia.
Qed.

Lemma File_open_write (fn content : list ascii) (n : nat) :
  0 < n ->
  File_open fn content WRITE n = Ok (mkFile fn (repeat zero (n - 1) ++ [chr 1]) n 0).
Proof.
  intros Hn. unfold File_open.
  destruct (Nat.eqb_spec n 0) as [|_]; [lia|]. cbv zeta.
  assert (Hlen : length (repeat zero (n - 1) ++ [chr 1]) = n)
    by (rewrite length_app, repeat_length; cbn [length]; lia).
  rewrite Hlen, Nat.eqb_refl. cbn [negb].
  destruct (Nat.eqb_spec n 0) as [|_]; [lia|]. unfold seek. cbn [size_].
  destruct (Nat.leb_spec n 0); [lia | reflexivity].
Qed.

(** The file [COO::write] leaves for an unweighted COO with [m_ > 0]. *)
Lemma COO_write_text :
  forall (L : IntType) (W : Type) (W_chars : W -> list ascii) (P : nat)
         (share : nat -> list nat) (c : COO W) (fn : list ascii),
    Forall (writable L) (x_ c) -> Forall (writable L) (y_ c) ->
    length (x_ c) = Z.to_nat (m_ c) -> length (y_ c) = Z.to_nat (m_ c) ->
    (0 < m_ c)%Z ->
    concat (map share (seq 0 P)) = seq 0 (Z.to_nat (m_ c)) ->
    COO_write false L W_chars P share c fn
    = Ok (mkFile fn (coo_text c) (length (coo_text c)) 0).
Proof.
  intros L W W_chars P share c fn Hx Hy Hxm Hym Hm Hsched.
  assert (Hyx : length (y_ c) = length (x_ c)) by lia.
  pose proof (coo_text_nonempty c Hyx ltac:(lia)) as Hne.
  unfold COO_write. cbv zeta.
  rewrite (pos_offsets_lines L W_chars c Hx Hy Hxm Hym P share Hsched P (Nat.le_refl _)).
  rewrite Hsched, <- Hxm, <- coo_text_lines by exact Hyx.
  rewrite File_open_write by exact Hne. cbn [fn_ size_ fp_ data_].
  rewrite (write_threads L W_chars c Hx Hy Hxm Hym P share Hsched _ P (Nat.le_refl _)).
  rewrite Hsched, <- Hxm, <- coo_text_lines by exact Hyx.
  rewrite blit_whole; [reflexivity|].
  rewrite length_app, repeat_length. cbn [length]. lia.
Qed.

(** X1: [write_size] of a value that is not negative is the number of its
    decimal digits. *)
Theorem write_size_counts_the_decimal_digits :
  forall (T : IntType) (v : Z),
    (0 <= v < upper T)%Z ->
    1 <= write_size T v
    /\ (v < 10 ^ Z.of_nat (write_size T v))%Z
    /\ (1 < write_size T v -> (10 ^ Z.of_nat (write_size T v - 1) <= v)%Z).
Proof.
  intros T v Hv. rewrite write_size_nonneg by exact Hv.
  apply decimal_length_bounds. lia.
Qed.

Lemma write_size_counts_the_decimal_digits_witness :
  1 <= write_size uint32_t 1203
  /\ (1203 < 10 ^ Z.of_nat (write_size uint32_t 1203))%Z
  /\ (1 < write_size uint32_t 1203
      -> (10 ^ Z.of_nat (write_size uint32_t 1203 - 1) <= 1203)%Z).
Proof.
  apply (write_size_counts_the_decimal_digits uint32_t 1203). vm_compute. split; [discriminate | reflexivity].
Defined.

(** X2: [write_ascii] stores the numeral of the value at the file position,
    leaves every other byte as it was, and advances the position by
    [write_size], for every value of the type but the least value of a
    signed type. *)
Theorem write_ascii_stores_the_numeral :
  forall (T : IntType) (buf : list ascii) (fp : nat) (v : Z),
    writable T v ->
    fp + write_size T v <= length buf ->
    write_ascii T (buf, fp) v
    = (take fp buf ++ numeral v ++ drop (fp + write_size T v) buf, fp + write_size T v)
    /\ length (numeral v) = write_size T v.
Proof.
  intros T buf fp v Hv Hfit.
  destruct (write_ascii_numeral T buf fp v Hv) as [-> Hlen].
  split; [|exact Hlen]. rewrite blit_at by lia. rewrite Hlen. reflexivity.
Qed.

Lemma write_ascii_stores_the_numeral_witness :
  write_ascii int32_t (repeat "."%char 8, 2) (-120)
  = (take 2 (repeat "."%char 8) ++ numeral (-120)
       ++ drop (2 + write_size int32_t (-120)) (repeat "."%char 8),
     2 + write_size int32_t (-120))
  /\ length (numeral (-120)) = write_size int32_t (-120).
Proof.
  apply (write_ascii_stores_the_numeral int32_t (repeat "."%char 8) 2 (-120)).
  - vm_compute. split; reflexivity.
  - vm_compute. lia.
Defined.

Lemma nth_drop_0 (l : list ascii) (k : nat) : nth 0 (drop k l) zero = nth k l zero.
Proof.
  revert k. induction l as [|a l IH]; intros [|k]; cbn; try reflexivity. apply IH.
Qed.

(** X3: what [write_ascii] wrote, [read_int] reads back. *)
Theorem read_int_reads_back_write_ascii :
  forall (T : IntType) (buf : list ascii) (fp e : nat) (v : Z),
    (0 <= v < upper T)%Z ->
    fp + write_size T v <= e -> e <= length buf ->
    fp + write_size T v = e \/ is_digit (at_ buf (fp + write_size T v)) = false ->
    read_int (fst (write_ascii T (buf, fp) v)) T (mkReader fp e)
    = (v, mkReader (snd (write_ascii T (buf, fp) v)) e).
Proof.
  intros T buf fp e v Hv Hfit He Hnext.
  rewrite write_ascii_nonneg by exact Hv. cbn [fst snd].
  rewrite write_size_nonneg in * by exact Hv.
  rewrite (read_int_over _ T (decimal v) (drop (fp + length (decimal v)) buf) fp e).
  - rewrite digits_value_decimal by exact Hv. reflexivity.
  - apply drop_blit. lia.
  - apply decimal_nonempty. lia.
  - apply decimal_digits. lia.
  - exact Hfit.
  - destruct Hnext as [Heq|Hnd]; [left; exact Heq | right].
    rewrite nth_drop_0. exact Hnd.
Qed.

Lemma read_int_reads_back_write_ascii_witness :
  read_int (fst (write_ascii uint32_t (repeat "."%char 8, 2) 1203)) uint32_t (mkReader 2 8)
  = (1203%Z, mkReader (snd (write_ascii uint32_t (repeat "."%char 8, 2) 1203)) 8).
Proof.
  apply (read_int_reads_back_write_ascii uint32_t (repeat "."%char 8) 2 8 1203).
  - vm_compute. split; [discriminate | reflexivity].
  - vm_compute. lia.
  - vm_compute. lia.
  - right. vm_compute. reflexivity.
Defined.

(** X4: [COO::write] of an unweighted COO with [m_ > 0] edges whose labels
    [write_ascii] can write leaves a file that holds exactly the lines
    [x y] of the edges, in the order of the arrays, whatever the number of
    threads, when the iterations are handed out in contiguous ascending
    blocks. *)
Theorem COO_write_gives_the_edge_lines :
  forall (L : IntType) (W : Type) (W_chars : W -> list ascii) (P : nat)
         (share : nat -> list nat) (c : COO W) (fn : list ascii),
    Forall (writable L) (x_ c) -> Forall (writable L) (y_ c) ->
    length (x_ c) = Z.to_nat (m_ c) -> length (y_ c) = Z.to_nat (m_ c) ->
    (0 < m_ c)%Z ->
    concat (map share (seq 0 P)) = seq 0 (Z.to_nat (m_ c)) ->
    COO_write false L W_chars P share c fn
    = Ok (mkFile fn (coo_text c) (length (coo_text c)) 0).
Proof. exact COO_write_text. Qed.

Lemma COO_write_gives_the_edge_lines_witness :
  COO_write false uint32_t (fun _ : Z => []) 2 two_shares three_edges (bytes_of "g.el")
  = Ok (mkFile (bytes_of "g.el") (coo_text three_edges) (length (coo_text three_edges)) 0).
Proof.
  apply (COO_write_gives_the_edge_lines uint32_t Z (fun _ => []) 2 two_shares three_edges
           (bytes_of "g.el")).
  - repeat constructor; vm_compute; congruence.
  - repeat constructor; vm_compute; congruence.
  - reflexivity.
  - reflexivity.
  - reflexivity.
  - reflexivity.
Defined.

(** ** The text of [COO::write] read by [read_el_] *)

Lemma render_edge_blocks (es : list (Z * Z)) :
  Forall (fun xy => (0 <= fst xy)%Z /\ (0 <= snd xy)%Z) es ->
  render_file [] (map edge_block es) = flat_map edge_line es.
Proof.
  unfold render_file. cbn [render_gap map concat app].
  induction 1 as [|xy es [Hx Hy] _ IH]; [reflexivity|].
  cbn [map flat_map].
  change (render_blocks (edge_block xy :: map edge_block es))
    with (render_block (edge_block xy) ++ render_blocks (map edge_block es)).
  rewrite IH. f_equal.
  unfold render_block, render_entry, edge_block, edge_line.
  cbn [b_entry b_gap e_x e_sep e_y e_trail render_gap map concat].
  rewrite !numeral_nonneg by assumption. rewrite app_nil_r. reflexivity.
Qed.

Lemma edge_block_ok (xy : Z * Z) :
  (0 <= fst xy)%Z -> (0 <= snd xy)%Z -> block_ok (edge_block xy) = true.
Proof.
  intros Hx Hy. unfold block_ok, entry_ok, edge_block.
  cbn [b_entry b_gap e_x e_sep e_y e_trail forallb andb].
  rewrite !decimal_digits by assumption.
  pose proof (decimal_nonempty _ Hx) as Hnx. pose proof (decimal_nonempty _ Hy) as Hny.
  destruct (decimal (fst xy)); [congruence|]. destruct (decimal (snd xy)); [congruence|].
  reflexivity.
Qed.

Lemma edge_blocks_ok (es : list (Z * Z)) :
  Forall (fun xy => (0 <= fst xy)%Z /\ (0 <= snd xy)%Z) es ->
  file_ok [] (map edge_block es) = true.
Proof.
  unfold file_ok. cbn [forallb andb].
  induction 1 as [|xy es [Hx Hy] _ IH]; [reflexivity|].
  cbn [map forallb]. rewrite IH, edge_block_ok by assumption. reflexivity.
Qed.

Lemma entries_edge_blocks (L : IntType) (es : list (Z * Z)) :
  Forall (fun xy => (0 <= fst xy < upper L)%Z /\ (0 <= snd xy < upper L)%Z) es ->
  entries false false false L (map edge_block es) = es.
Proof.
  induction 1 as [|[x y] es [Hx Hy] _ IH]; [reflexivity|].
  cbn [map]. unfold entries in *. cbn [flat_map]. rewrite IH.
  unfold entry_xy, edge_block. cbn [b_entry e_x e_y fst snd] in *.
  rewrite !digits_value_decimal by assumption. reflexivity.
Qed.

Lemma Forall_zip_pair (P : Z -> Prop) (xs ys : list Z) :
  Forall P xs -> Forall P ys -> Forall (fun xy => P (fst xy) /\ P (snd xy)) (zip xs ys).
Proof.
  intros Hx. revert ys. induction Hx as [|x xs Hx _ IH]; intros ys Hy; [constructor|].
  destruct Hy as [|y ys Hy Hys]; [constructor|].
  cbn. constructor; [split; assumption | apply IH, Hys].
Qed.

Lemma Forall_weaken {A : Type} (P Q : A -> Prop) (l : list A) :
  (forall a, P a -> Q a) -> Forall P l -> Forall Q l.
Proof. intros H. induction 1; constructor; auto. Qed.

Lemma nonneg_writable (T : IntType) (v : Z) : (0 <= v < upper T)%Z -> writable T v.
Proof.
  intros H. unfold writable. split; [|lia]. destruct (signed T); lia.
Qed.

(** X5: the text [COO::write] leaves is read back by [read_el_]. *)
Theorem COO_write_then_read_el_gives_back_the_edges :
  forall (L O : IntType) (W : Type) (W_chars : W -> list ascii) (wr : WeightReader W)
         (junk : Junk W) (P1 : nat) (share : nat -> list nat) (P2 : nat)
         (c : COO W) (fn : list ascii),
    Forall (fun v => (0 <= v < upper L)%Z) (x_ c) ->
    Forall (fun v => (0 <= v < upper L)%Z) (y_ c) ->
    length (x_ c) = Z.to_nat (m_ c) -> length (y_ c) = Z.to_nat (m_ c) ->
    (0 < m_ c)%Z -> fits O (m_ c) ->
    concat (map share (seq 0 P1)) = seq 0 (Z.to_nat (m_ c)) ->
    0 < P2 ->
    exists f : File,
      COO_write false L W_chars P1 share c fn = Ok f
      /\ size_ f = length (data_ f)
      /\ let c' := read_el_ (data_ f) false false false false L O wr P2 junk fresh
                     (reader f) in
         x_ c' = x_ c /\ y_ c' = y_ c /\ w_ c' = [] /\ m_ c' = m_ c.
Proof.
  intros L O W W_chars wr junk P1 share P2 c fn Hx Hy Hxm Hym Hm HO Hsched HP2.
  exists (mkFile fn (coo_text c) (length (coo_text c)) 0).
  split.
  { apply COO_write_text; try assumption;
      eapply Forall_weaken; try eassumption; apply nonneg_writable. }
  split; [reflexivity|]. unfold reader. cbn [data_ fp_ size_].
  pose proof (Forall_zip_pair _ _ _ Hx Hy) as Hz. cbv beta in Hz.
  assert (Hnn : Forall (fun xy => (0 <= fst xy)%Z /\ (0 <= snd xy)%Z) (zip (x_ c) (y_ c)))
    by (eapply Forall_weaken; [|exact Hz]; cbv beta; intros a [H1 H2]; lia).
  assert (Htext : coo_text c = render_file [] (map edge_block (zip (x_ c) (y_ c))))
    by (symmetry; apply render_edge_blocks, Hnn).
  assert (Hlen : length (zip (x_ c) (y_ c)) = Z.to_nat (m_ c))
    by (rewrite length_zip_with; lia).
  rewrite Htext.
  change (mkReader 0 (length (render_file [] (map edge_block (zip (x_ c) (y_ c))))))
    with (whole (render_file [] (map edge_block (zip (x_ c) (y_ c))))).
  destruct (read_el_blocks [] (map edge_block (zip (x_ c) (y_ c))) (edge_blocks_ok _ Hnn)
              false false false L O wr junk P2 HP2) as (Ex & Ey & Ew & Em & _).
  { rewrite entries_edge_blocks by exact Hz. rewrite Hlen, Z2Nat.id by lia. exact HO. }
  rewrite entries_edge_blocks in Ex, Ey, Em by exact Hz.
  cbv zeta. rewrite Ex, Ey, Ew, Em, Hlen, Z2Nat.id by lia.
  rewrite fst_zip, snd_zip by lia. auto.
Qed.

Lemma COO_write_then_read_el_gives_back_the_edges_witness :
  exists f : File,
    COO_write false uint32_t (fun _ : Z => []) 2 two_shares three_edges (bytes_of "g.el") = Ok f
    /\ size_ f = length (data_ f)
    /\ let c' := read_el_ (data_ f) false false false false uint32_t uint32_t
                   (unsigned_weight uint32_t) 3 zero_junk fresh (reader f) in
       x_ c' = x_ three_edges /\ y_ c' = y_ three_edges /\ w_ c' = []
       /\ m_ c' = m_ three_edges.
Proof.
  apply (COO_write_then_read_el_gives_back_the_edges uint32_t uint32_t Z (fun _ => [])
           (unsigned_weight uint32_t) zero_junk 2 two_shares 3 three_edges (bytes_of "g.el")).
  - repeat constructor; vm_compute; congruence.
  - repeat constructor; vm_compute; congruence.
  - reflexivity.
  - reflexivity.
  - reflexivity.
  - reflexivity.
  - reflexivity.
  - lia.
Defined.

Lemma COO_write_no_edges :
  forall (wgt : bool) (L : IntType) (W : Type) (W_chars : W -> list ascii) (P : nat)
         (share : nat -> list nat) (c : COO W) (fn : list ascii),
    m_ c = 0%Z ->
    concat (map share (seq 0 P)) = seq 0 (Z.to_nat (m_ c)) ->
    COO_write wgt L W_chars P share c fn = Throw (Error "max_size is too low to write").
Proof.
  intros wgt L W W_chars P share c fn Hm Hsched. rewrite Hm in Hsched. cbn in Hsched.
  assert (Hshare : forall t, t < P -> share t = []).
  { intros t Ht. destruct (share t) as [|e es] eqn:E; [reflexivity|].
    assert (Hin : In e (concat (map share (seq 0 P)))).
    { apply in_concat. exists (share t). split; [apply in_map, in_seq; lia|].
      rewrite E. left. reflexivity. }
    rewrite Hsched in Hin. destruct Hin. }
  unfold COO_write, pos_offsets. cbv zeta.
  rewrite (prefix_sum_telescope (fun _ => 0) (my_size wgt L W_chars share c) P) with (n := P) (a := 0);
    [| |lia].
  - replace (nth P (0 :: map (fun _ : nat => 0) (seq 0 P)) 0) with 0; [reflexivity|].
    destruct P as [|p]; [reflexivity|]. cbn [nth]. rewrite nth_map_seq by lia. reflexivity.
  - intros t Ht. unfold my_size. rewrite (Hshare t Ht). reflexivity.
Qed.

(** X6: [COO::write] of a COO without edges writes no file: the file would
    have size 0, which the constructor of [File] refuses with the error
    [max_size is too low to write].  The constructor runs inside the
    parallel region: built with OpenMP the process is terminated, built
    without it the error reaches the caller. *)
Theorem COO_write_of_no_edges_fails :
  forall (openmp wgt : bool) (L : IntType) (W : Type) (W_chars : W -> list ascii) (P : nat)
         (share : nat -> list nat) (c : COO W) (fn : list ascii),
    m_ c = 0%Z ->
    concat (map share (seq 0 P)) = seq 0 (Z.to_nat (m_ c)) ->
    COO_write_outcome openmp wgt L W_chars P share c fn
    = if openmp then Terminated (Error "max_size is too low to write")
      else Threw (Error "max_size is too low to write").
Proof.
  intros openmp wgt L W W_chars P share c fn Hm Hsched. unfold COO_write_outcome.
  destruct openmp.
  - rewrite (COO_write_no_edges wgt L W W_chars P share c fn Hm Hsched). reflexivity.
  - rewrite (COO_write_no_edges wgt L W W_chars 1 _ c fn Hm); [reflexivity|].
    cbn. apply app_nil_r.
Qed.

Lemma COO_write_of_no_edges_fails_witness :
  COO_write_outcome true true uint32_t (fun _ : Z => []) 2 (fun _ => []) (@fresh Z)
    (bytes_of "g.el")
  = Terminated (Error "max_size is too low to write").
Proof.
  apply (COO_write_of_no_edges_fails true true uint32_t Z (fun _ => []) 2 (fun _ => []) fresh
           (bytes_of "g.el")); reflexivity.
Defined.

(** ** The file: values and blocks written and read back *)

Lemma drop_blit_after {A : Type} (buf src : list A) (fp : nat) :
  fp + length src <= length buf ->
  drop (fp + length src) (blit buf fp src) = drop (fp + length src) buf.
Proof.
  intros H. rewrite blit_at by exact H.
  assert (Hfp : length (take fp buf ++ src) = fp + length src)
    by (rewrite length_app, length_take; lia).
  rewrite app_assoc, <- Hfp. apply drop_app_length.
Qed.

Lemma take_blit_before {A : Type} (buf src : list A) (fp : nat) :
  fp + length src <= length buf -> take fp (blit buf fp src) = take fp buf.
Proof.
  intros H. rewrite blit_at by exact H.
  assert (Hfp : length (take fp buf) = fp) by (rewrite length_take; lia).
  rewrite <- Hfp at 1. apply take_app_length.
Qed.

(** X7: [write<T>] then [read<T>] at the same position. *)
Theorem File_write_then_read_gives_back_the_value :
  forall (T : IntType) (f : File) (v : Z),
    fits T v -> fp_ f + bytes T <= length (data_ f) ->
    File_read T (set_fp (File_write T f v) (fp_ f))
    = (v, set_fp (File_write T f v) (fp_ f + bytes T))
    /\ fp_ (File_write T f v) = fp_ f + bytes T
    /\ take (fp_ f) (data_ (File_write T f v)) = take (fp_ f) (data_ f)
    /\ drop (fp_ f + bytes T) (data_ (File_write T f v)) = drop (fp_ f + bytes T) (data_ f).
Proof.
  intros T f v Hv Hfit.
  pose proof (length_encode T v) as Hlen.
  split.
  { rewrite (File_read_at T (set_fp (File_write T f v) (fp_ f)) v
               (drop (fp_ f + bytes T) (data_ f))); [reflexivity | | exact Hv].
    unfold File_write, File_write_bytes. cbn [fp_ data_ set_fp].
    rewrite drop_blit by lia. rewrite Hlen. reflexivity. }
  unfold File_write, File_write_bytes. cbn [fp_ data_ set_fp fn_ size_].
  split; [rewrite Hlen; reflexivity|].
  split; [apply take_blit_before; lia|].
  rewrite <- Hlen. apply drop_blit_after. lia.
Qed.

Lemma File_write_then_read_gives_back_the_value_witness :
  File_read uint32_t (set_fp (File_write uint32_t (mkFile [] (repeat zero 8) 8 2) 70000) 2)
  = (70000%Z, set_fp (File_write uint32_t (mkFile [] (repeat zero 8) 8 2) 70000) (2 + 4))
  /\ fp_ (File_write uint32_t (mkFile [] (repeat zero 8) 8 2) 70000) = 2 + 4
  /\ take 2 (data_ (File_write uint32_t (mkFile [] (repeat zero 8) 8 2) 70000))
     = take 2 (repeat zero 8)
  /\ drop (2 + 4) (data_ (File_write uint32_t (mkFile [] (repeat zero 8) 8 2) 70000))
     = drop (2 + 4) (repeat zero 8).
Proof.
  apply (File_write_then_read_gives_back_the_value uint32_t (mkFile [] (repeat zero 8) 8 2) 70000).
  - reflexivity.
  - cbn. lia.
Defined.

(** X8: [parallel_write] by [P1] threads then [parallel_read] by [P2]
    threads at the same position. *)
Theorem parallel_write_then_read_gives_back_the_bytes :
  forall (P1 P2 : nat) (f : File) (v buf : list ascii),
    0 < P1 -> 0 < P2 ->
    fp_ f + length v <= length (data_ f) -> length buf = length v ->
    parallel_read P2 (set_fp (parallel_write P1 f v (length v)) (fp_ f)) buf (length v)
    = (v, set_fp (parallel_write P1 f v (length v)) (fp_ f + length v))
    /\ parallel_write P1 f v (length v) = File_write_bytes f v
    /\ take (fp_ f) (data_ (parallel_write P1 f v (length v))) = take (fp_ f) (data_ f)
    /\ drop (fp_ f + length v) (data_ (parallel_write P1 f v (length v)))
       = drop (fp_ f + length v) (data_ f).
Proof.
  intros P1 P2 f v buf HP1 HP2 Hfit Hbuf.
  rewrite (parallel_write_is_write P1 f v (length v) HP1 eq_refl).
  split.
  { rewrite (parallel_read_at P2 (set_fp (File_write_bytes f v) (fp_ f)) buf v
               (drop (fp_ f + length v) (data_ f)) (length v));
      [reflexivity | exact HP2 | | reflexivity | exact Hbuf].
    unfold File_write_bytes. cbn [fp_ data_ set_fp]. apply drop_blit. lia. }
  unfold File_write_bytes. cbn [fp_ data_ set_fp fn_ size_].
  split; [reflexivity|].
  split; [apply take_blit_before; lia | apply drop_blit_after; lia].
Qed.

Lemma parallel_write_then_read_gives_back_the_bytes_witness :
  parallel_read 2 (set_fp (parallel_write 3 (mkFile [] (repeat zero 9) 9 1)
                             (bytes_of "abcdefg") (length (bytes_of "abcdefg"))) 1)
    (repeat zero 7) (length (bytes_of "abcdefg"))
  = (bytes_of "abcdefg",
     set_fp (parallel_write 3 (mkFile [] (repeat zero 9) 9 1) (bytes_of "abcdefg")
               (length (bytes_of "abcdefg"))) (1 + length (bytes_of "abcdefg")))
  /\ parallel_write 3 (mkFile [] (repeat zero 9) 9 1) (bytes_of "abcdefg")
       (length (bytes_of "abcdefg"))
     = File_write_bytes (mkFile [] (repeat zero 9) 9 1) (bytes_of "abcdefg")
  /\ take 1 (data_ (parallel_write 3 (mkFile [] (repeat zero 9) 9 1) (bytes_of "abcdefg")
                      (length (bytes_of "abcdefg"))))
     = take 1 (repeat zero 9)
  /\ drop (1 + length (bytes_of "abcdefg"))
       (data_ (parallel_write 3 (mkFile [] (repeat zero 9) 9 1) (bytes_of "abcdefg")
                 (length (bytes_of "abcdefg"))))
     = drop (1 + length (bytes_of "abcdefg")) (repeat zero 9).
Proof.
  apply (parallel_write_then_read_gives_back_the_bytes 3 2 (mkFile [] (repeat zero 9) 9 1)
           (bytes_of "abcdefg") (repeat zero 7)).
  - lia.
  - lia.
  - cbn. lia.
  - reflexivity.
Defined.

(** ** [save]: the size of the file *)

Lemma write_bytes_meta (f : File) (bs : list ascii) :
  size_ (File_write_bytes f bs) = size_ f
  /\ fp_ (File_write_bytes f bs) = fp_ f + length bs
  /\ length (data_ (File_write_bytes f bs)) = length (data_ f).
Proof. unfold File_write_bytes. cbn. rewrite length_blit. auto. Qed.

Lemma parallel_write_meta (P : nat) (f : File) (v : list ascii) (n : nat) :
  size_ (parallel_write P f v n) = size_ f
  /\ fp_ (parallel_write P f v n) = fp_ f + n
  /\ length (data_ (parallel_write P f v n)) = length (data_ f).
Proof.
  unfold parallel_write. cbn [size_ fp_ data_]. split; [reflexivity|]. split; [reflexivity|].
  generalize (data_ f). induction (seq 0 P) as [|t ts IH]; intros buf; [reflexivity|].
  cbn [fold_left]. rewrite IH. destruct (my_share P n t). apply length_blit.
Qed.

Lemma write_meta (T : IntType) (f : File) (v : Z) :
  size_ (File_write T f v) = size_ f
  /\ fp_ (File_write T f v) = fp_ f + bytes T
  /\ length (data_ (File_write T f v)) = length (data_ f).
Proof. unfold File_write. rewrite <- (length_encode T v). apply write_bytes_meta. Qed.

(** X9: [save] never throws, and the file it leaves has exactly the size
    it computed, with the file position at its end. *)
Theorem save_makes_a_file_of_the_computed_size :
  forall (wgt : bool) (L O : IntType) (W : Type) (W_size : nat) (W_bytes : W -> list ascii)
         (P : nat) (hdr : list ascii) (c : COO W) (fn : list ascii),
    exists f : File,
      save wgt L O W_size W_bytes P hdr c fn = Ok f
      /\ size_ f = length hdr + 2 + 3 * bytes L + bytes O
                   + 2 * (bytes L * Z.to_nat (m_ c)) + weight_size_ wgt W_size (m_ c)
      /\ length (data_ f) = size_ f
      /\ fp_ f = size_ f.
Proof.
  intros wgt L O W W_size W_bytes P hdr c fn. unfold save. cbv zeta.
  rewrite File_open_write by lia.
  eexists. split; [reflexivity|].
  set (n := length hdr + 2 + (bytes L * 3 + bytes O) + bytes L * Z.to_nat (m_ c) * 2
            + weight_size_ wgt W_size (m_ c)).
  set (f0 := mkFile fn (repeat zero (n - 1) ++ [chr 1]) n 0).
  assert (H0 : size_ f0 = n /\ fp_ f0 = 0 /\ length (data_ f0) = n).
  { unfold f0. cbn [size_ fp_ data_]. rewrite length_app, repeat_length. cbn [length].
    unfold n. lia. }
  destruct H0 as (Hs0 & Hp0 & Hl0).
  destruct (write_bytes_meta f0 hdr) as (Hs1 & Hp1 & Hl1).
  set (f1 := File_write_bytes f0 hdr) in *.
  destruct (write_meta uint8_t f1 (wrap uint8_t (Z.of_nat (bytes L)))) as (Hs2 & Hp2 & Hl2).
  set (f2 := File_write uint8_t f1 _) in *.
  destruct (write_meta uint8_t f2 (wrap uint8_t (Z.of_nat (bytes O)))) as (Hs3 & Hp3 & Hl3).
  set (f3 := File_write uint8_t f2 _) in *.
  destruct (write_meta L f3 (nrows_ c)) as (Hs4 & Hp4 & Hl4).
  set (f4 := File_write L f3 _) in *.
  destruct (write_meta L f4 (ncols_ c)) as (Hs5 & Hp5 & Hl5).
  set (f5 := File_write L f4 _) in *.
  destruct (write_meta L f5 (n_ c)) as (Hs6 & Hp6 & Hl6).
  set (f6 := File_write L f5 _) in *.
  destruct (write_meta O f6 (m_ c)) as (Hs7 & Hp7 & Hl7).
  set (f7 := File_write O f6 _) in *.
  destruct (parallel_write_meta P f7 (raw (encode L) (x_ c)) (bytes L * Z.to_nat (m_ c)))
    as (Hs8 & Hp8 & Hl8).
  set (f8 := parallel_write P f7 _ _) in *.
  destruct (parallel_write_meta P f8 (raw (encode L) (y_ c)) (bytes L * Z.to_nat (m_ c)))
    as (Hs9 & Hp9 & Hl9).
  set (f9 := parallel_write P f8 _ _) in *.
  destruct (parallel_write_meta P f9 (raw W_bytes (w_ c)) (weight_size_ wgt W_size (m_ c)))
    as (Hs10 & Hp10 & Hl10).
  cbn [bytes uint8_t] in *.
  destruct (Nat.ltb_spec 0 (weight_size_ wgt W_size (m_ c))); unfold n in *; lia.
Qed.

(** X10: a binary file saved for label and offset types of other widths is
    refused by [read_bin_], and the object is left as it was. *)
Theorem read_bin_refuses_other_widths :
  forall (wgt wgt2 : bool) (L O L2 O2 : IntType) (W : Type) (W_size : nat)
         (W_bytes : W -> list ascii) (W_of_bytes : list ascii -> W) (hdr : list ascii)
         (c c0 : COO W) (P : nat) (junk : Junk W) (fn : list ascii),
    coo_wf wgt L O W_size W_bytes W_of_bytes c ->
    bytes L2 <> bytes L \/ bytes O2 <> bytes O ->
    read_bin_ wgt2 L2 O2 W_size W_bytes W_of_bytes P junk hdr c0
      (mkFile fn (coo_image wgt L O W_bytes hdr c)
              (length (coo_image wgt L O W_bytes hdr c)) 0)
    = Throws (Error "Invalid COO template parameters to match binary") c0.
Proof.
  intros wgt wgt2 L O L2 O2 W W_size W_bytes W_of_bytes hdr c c0 P junk fn Hwf Hdiff.
  pose proof (wf_L_size _ _ _ _ _ _ _ Hwf) as HL.
  pose proof (wf_O_size _ _ _ _ _ _ _ Hwf) as HO.
  set (image := coo_image wgt L O W_bytes hdr c).
  set (f0 := mkFile fn image (length image) 0).
  unfold read_bin_.
  assert (D : drop (fp_ f0) (data_ f0) = image) by apply drop_0.
  unfold image, coo_image in D.
  rewrite (File_read_str_at f0 hdr _ D);
    [| cbn; discriminate | reflexivity].
  apply drop_step in D.
  match goal with |- context [File_read uint8_t ?f] =>
    rewrite (File_read_at uint8_t f _ _ D (fits_wrap _ _)) end.
  cbv beta iota. apply drop_step in D. rewrite length_encode in D.
  match goal with |- context [File_read uint8_t ?f] =>
    rewrite (File_read_at uint8_t f _ _ D (fits_wrap _ _)) end.
  cbv beta iota.
  rewrite !wrap_uint8_small by assumption.
  destruct (Z.eqb_spec (Z.of_nat (bytes L)) (Z.of_nat (bytes L2))) as [EL|_];
    [|reflexivity].
  destruct (Z.eqb_spec (Z.of_nat (bytes O)) (Z.of_nat (bytes O2))) as [EO|_];
    [|reflexivity].
  exfalso. destruct Hdiff; lia.
Qed.

Lemma read_bin_refuses_other_widths_witness :
  read_bin_ true uint64_t uint32_t 4 (encode_le 4) decode_le 2 zero_junk
    (bytes_of "PIGO-COO-v2") fresh
    (mkFile (bytes_of "s5.bin")
       (coo_image true uint32_t uint32_t (encode_le 4) (bytes_of "PIGO-COO-v2") scenario5)
       (length (coo_image true uint32_t uint32_t (encode_le 4) (bytes_of "PIGO-COO-v2")
                  scenario5)) 0)
  = Throws (Error "Invalid COO template parameters to match binary") fresh.
Proof.
  apply (read_bin_refuses_other_widths true true uint32_t uint32_t uint64_t uint32_t Z 4
           (encode_le 4) decode_le (bytes_of "PIGO-COO-v2") scenario5 fresh 2 zero_junk
           (bytes_of "s5.bin") scenario5_wf).
  left. cbn. lia.
Defined.

(** ** The scanners on arbitrary bytes *)

Section AnyBytes.
Variable data : list ascii.

Lemma advance_while_spec (c : ascii -> bool) (fuel : nat) :
  forall p : nat,
    p <= advance_while data c fuel p <= p + fuel
    /\ (forall i, p <= i < advance_while data c fuel p -> c (at_ data i) = true)
    /\ (advance_while data c fuel p = p + fuel
        \/ c (at_ data (advance_while data c fuel p)) = false).
Proof.
  induction fuel as [|fuel IH]; intros p; cbn [advance_while].
  - split; [lia|]. split; [intros i Hi; lia | left; lia].
  - destruct (c (at_ data p)) eqn:Ec.
    + destruct (IH (S p)) as (Hb & Hall & Hend).
      split; [lia|]. split.
      * intros i Hi. destruct (Nat.eq_dec i p) as [->|Hne]; [exact Ec | apply Hall; lia].
      * destruct Hend as [->|Hend]; [left; lia | right; exact Hend].
    + split; [lia|]. split; [intros i Hi; lia | right; exact Ec].
Qed.

Lemma bytes_at_snoc (p n : nat) :
  bytes_at data p (S n) = bytes_at data p n ++ [at_ data (p + n)].
Proof. unfold bytes_at. rewrite seq_S, map_app. reflexivity. Qed.

Lemma bytes_at_cons (p n : nat) :
  bytes_at data p (S n) = at_ data p :: bytes_at data (S p) n.
Proof. reflexivity. Qed.

Lemma read_digits_spec (T : IntType) (fuel : nat) :
  forall (p : nat) (res : Z),
    p <= snd (read_digits data T fuel p res) <= p + fuel
    /\ (forall i, p <= i < snd (read_digits data T fuel p res) -> is_digit (at_ data i) = true)
    /\ (snd (read_digits data T fuel p res) = p + fuel
        \/ is_digit (at_ data (snd (read_digits data T fuel p res))) = false)
    /\ fst (read_digits data T fuel p res)
       = fold_left (fun res a => wrap T (res * 10 + digit_val a))
           (bytes_at data p (snd (read_digits data T fuel p res) - p)) res.
Proof.
  induction fuel as [|fuel IH]; intros p res; cbn [read_digits].
  - cbn [fst snd]. rewrite Nat.sub_diag. split; [lia|].
    split; [intros i Hi; lia|]. split; [left; lia | reflexivity].
  - destruct (is_digit (at_ data p)) eqn:Ec.
    + destruct (IH (S p) (wrap T (res * 10 + digit_val (at_ data p))))
        as (Hb & Hall & Hend & Hval).
      split; [lia|]. split.
      * intros i Hi. destruct (Nat.eq_dec i p) as [->|Hne]; [exact Ec | apply Hall; lia].
      * split; [destruct Hend as [->|Hend]; [left; lia | right; exact Hend]|].
        rewrite Hval.
        replace (snd (read_digits data T fuel (S p) (wrap T (res * 10 + digit_val (at_ data p)))) - p)
          with (S (snd (read_digits data T fuel (S p)
                          (wrap T (res * 10 + digit_val (at_ data p)))) - S p)) by lia.
        rewrite bytes_at_cons. reflexivity.
    + cbn [fst snd]. rewrite Nat.sub_diag. split; [lia|].
      split; [intros i Hi; lia|]. split; [right; exact Ec | reflexivity].
Qed.

Lemma past_eol_spec (fuel : nat) :
  forall p : nat,
    p <= past_eol data fuel p <= p + fuel
    /\ (0 < fuel -> p < past_eol data fuel p).
Proof.
  induction fuel as [|fuel IH]; intros p; cbn [past_eol]; [lia|].
  destruct (is_nl (at_ data p)); [lia|]. destruct (IH (S p)). lia.
Qed.

Lemma skip_comments_loop_post (e : nat) (fuel : nat) :
  forall p : nat,
    e - p <= fuel -> p <= e ->
    p <= skip_comments_loop data fuel e p <= e
    /\ (skip_comments_loop data fuel e p = e
        \/ is_comment (at_ data (skip_comments_loop data fuel e p)) = false).
Proof.
  induction fuel as [|fuel IH]; intros p Hf Hp; cbn [skip_comments_loop].
  - split; [lia | left; lia].
  - destruct (Nat.ltb_spec p e) as [Hlt|Hge]; cbn [andb].
    + destruct (is_comment (at_ data p)) eqn:Ec.
      * destruct (past_eol_spec (e - p) p) as (Hb & Hgt). specialize (Hgt ltac:(lia)).
        destruct (IH (past_eol data (e - p) p) ltac:(lia) ltac:(lia)) as (Hb' & Hend).
        split; [lia | exact Hend].
      * split; [lia | right; exact Ec].
    + split; [lia | left; lia].
Qed.

Lemma skip_if_comment_post (r : FileReader) :
  d r <= end_ r ->
  d r <= d (skip_if_comment data r) <= end_ r
  /\ end_ (skip_if_comment data r) = end_ r.
Proof.
  intros Hr. unfold skip_if_comment, skip_comments, set_d.
  destruct (is_comment (at_ data (d r))); cbn [d end_]; [|lia].
  destruct (skip_comments_loop_post (end_ r) (end_ r - d r) (d r) ltac:(lia) Hr). lia.
Qed.

Lemma seek_loop_post (stop : ascii -> bool) (fuel : nat) :
  forall r : FileReader,
    size r <= fuel -> d r <= end_ r ->
    d r <= d (seek_loop data stop fuel r) <= end_ r
    /\ end_ (seek_loop data stop fuel r) = end_ r
    /\ (d (seek_loop data stop fuel r) = end_ r
        \/ stop (at_ data (d (seek_loop data stop fuel r))) = true).
Proof.
  induction fuel as [|fuel IH]; intros r Hf Hr; cbn [seek_loop]; unfold size, good in *.
  - split; [lia|]. split; [reflexivity | left; lia].
  - destruct (Nat.ltb_spec (d r) (end_ r)) as [Hlt|Hge]; cbn [andb].
    + destruct (stop (at_ data (d r))) eqn:Es; cbn [negb].
      * split; [lia|]. split; [reflexivity | right; exact Es].
      * unfold set_d.
        pose proof (skip_if_comment_post (mkReader (S (d r)) (end_ r))) as Hs.
        cbn [d end_] in Hs. destruct (Hs ltac:(lia)) as (Hb & He). clear Hs.
        set (r1 := skip_if_comment data (mkReader (S (d r)) (end_ r))) in *.
        destruct (IH r1 ltac:(lia) ltac:(lia)) as (Hb' & He' & Hend).
        rewrite He in *. split; [lia|]. split; [exact He' | exact Hend].
    + split; [lia|]. split; [reflexivity | left; lia].
Qed.

Lemma read_word_loop_spec (fuel : nat) :
  forall (p : nat) (res : list ascii),
    exists n : nat,
      n <= fuel
      /\ read_word_loop data fuel p res = (res ++ bytes_at data p n, p + n)
      /\ forallb (fun a => negb (is_word_end a)) (bytes_at data p n) = true
      /\ (n = fuel \/ is_word_end (at_ data (p + n)) = true).
Proof.
  induction fuel as [|fuel IH]; intros p res; cbn [read_word_loop].
  - exists 0. cbn. rewrite app_nil_r, Nat.add_0_r. auto.
  - destruct (is_word_end (at_ data p)) eqn:Ew; cbn [negb].
    + exists 0. cbn. rewrite app_nil_r, Nat.add_0_r. split; [lia|]. auto.
    + destruct (IH (S p) (res ++ [at_ data p])) as (n & Hn & -> & Hall & Hend).
      exists (S n). rewrite bytes_at_cons, <- app_assoc. cbn [app forallb].
      rewrite Ew, Hall. cbn [negb andb].
      replace (p + S n) with (S p + n) by lia.
      split; [lia|]. split; [reflexivity|]. split; [reflexivity|].
      destruct Hend as [->|Hend]; [left; reflexivity | right; exact Hend].
Qed.

Lemma at_end_of_line_loop_spec (fuel : nat) :
  forall td : nat,
    at_end_of_line_loop data fuel td
    = forallb is_space_cr
        (bytes_at data td (advance_while data (fun c => negb (is_nl c)) fuel td - td)).
Proof.
  induction fuel as [|fuel IH]; intros td; cbn [at_end_of_line_loop advance_while].
  - rewrite Nat.sub_diag. reflexivity.
  - destruct (is_nl (at_ data td)) eqn:En; cbn [negb].
    + rewrite Nat.sub_diag. reflexivity.
    + destruct (advance_while_spec (fun c => negb (is_nl c)) fuel (S td)) as (Hb & _).
      replace (advance_while data (fun c => negb (is_nl c)) fuel (S td) - td)
        with (S (advance_while data (fun c => negb (is_nl c)) fuel (S td) - S td)) by lia.
      rewrite bytes_at_cons. cbn [forallb]. rewrite <- IH.
      unfold is_space_cr.
      destruct (Ascii.eqb (at_ data td) SP), (Ascii.eqb (at_ data td) CR); reflexivity.
Qed.
End AnyBytes.

Lemma read_int_any_bytes :
  forall (data : list ascii) (T : IntType) (r : FileReader),
    d r <= end_ r ->
    exists p : nat,
      d r <= p /\ p <= d (snd (read_int data T r))
      /\ d (snd (read_int data T r)) <= end_ r
      /\ end_ (snd (read_int data T r)) = end_ r
      /\ (forall i, d r <= i < p -> is_digit (at_ data i) = false)
      /\ (p = end_ r \/ is_digit (at_ data p) = true)
      /\ (forall i, p <= i < d (snd (read_int data T r)) -> is_digit (at_ data i) = true)
      /\ (d (snd (read_int data T r)) = end_ r
          \/ is_digit (at_ data (d (snd (read_int data T r)))) = false)
      /\ fst (read_int data T r)
         = digits_value T (bytes_at data p (d (snd (read_int data T r)) - p)).
Proof.
  intros data T r Hr. unfold read_int.
  destruct (advance_while_spec data (fun c => negb (is_digit c)) (end_ r - d r) (d r))
    as (Hb & Hall & Hend).
  set (p := advance_while data (fun c => negb (is_digit c)) (end_ r - d r) (d r)) in *.
  destruct (read_digits_spec data T (end_ r - p) p 0%Z) as (Hb' & Hall' & Hend' & Hval).
  destruct (read_digits data T (end_ r - p) p 0%Z) as [v p'] eqn:E.
  cbn [fst snd set_d d end_] in *.
  exists p. split; [lia|]. split; [lia|]. split; [lia|]. split; [reflexivity|].
  split; [intros i Hi; apply negb_true_iff, Hall, Hi|].
  split; [destruct Hend as [Hend|Hend]; [left; lia | right; apply negb_false_iff, Hend]|].
  split; [exact Hall'|].
  split; [destruct Hend' as [Hend'|Hend']; [left; lia | right; exact Hend']|].
  exact Hval.
Qed.

(** X11: [read_int] on any bytes: it passes over what is not a digit, line
    ends included, then reads the run of digits it finds, and stops at the
    first byte that is not a digit or at [end]. *)
Theorem read_int_skips_to_the_digits_and_reads_them :
  forall (data : list ascii) (T : IntType) (r : FileReader),
    d r <= end_ r ->
    exists p : nat,
      d r <= p /\ p <= d (snd (read_int data T r))
      /\ d (snd (read_int data T r)) <= end_ r
      /\ end_ (snd (read_int data T r)) = end_ r
      /\ (forall i, d r <= i < p -> is_digit (at_ data i) = false)
      /\ (p = end_ r \/ is_digit (at_ data p) = true)
      /\ (forall i, p <= i < d (snd (read_int data T r)) -> is_digit (at_ data i) = true)
      /\ (d (snd (read_int data T r)) = end_ r
          \/ is_digit (at_ data (d (snd (read_int data T r)))) = false)
      /\ fst (read_int data T r)
         = digits_value T (bytes_at data p (d (snd (read_int data T r)) - p)).
Proof. exact read_int_any_bytes. Qed.

Lemma read_int_skips_to_the_digits_and_reads_them_witness :
  exists p : nat,
    0 <= p /\ p <= d (snd (read_int (bytes_of "ab 17;") uint32_t (mkReader 0 6)))
    /\ d (snd (read_int (bytes_of "ab 17;") uint32_t (mkReader 0 6))) <= 6
    /\ end_ (snd (read_int (bytes_of "ab 17;") uint32_t (mkReader 0 6))) = 6
    /\ (forall i, 0 <= i < p -> is_digit (at_ (bytes_of "ab 17;") i) = false)
    /\ (p = 6 \/ is_digit (at_ (bytes_of "ab 17;") p) = true)
    /\ (forall i, p <= i < d (snd (read_int (bytes_of "ab 17;") uint32_t (mkReader 0 6)))
          -> is_digit (at_ (bytes_of "ab 17;") i) = true)
    /\ (d (snd (read_int (bytes_of "ab 17;") uint32_t (mkReader 0 6))) = 6
        \/ is_digit (at_ (bytes_of "ab 17;")
                       (d (snd (read_int (bytes_of "ab 17;") uint32_t (mkReader 0 6))))) = false)
    /\ fst (read_int (bytes_of "ab 17;") uint32_t (mkReader 0 6))
       = digits_value uint32_t
           (bytes_at (bytes_of "ab 17;") p
              (d (snd (read_int (bytes_of "ab 17;") uint32_t (mkReader 0 6))) - p)).
Proof.
  apply (read_int_skips_to_the_digits_and_reads_them (bytes_of "ab 17;") uint32_t
           (mkReader 0 6)).
  cbn. lia.
Defined.

Lemma move_to_first_int_post (data : list ascii) (r : FileReader) :
  d r <= end_ r ->
  d r <= d (move_to_first_int data r) <= end_ r
  /\ end_ (move_to_first_int data r) = end_ r
  /\ (d (move_to_first_int data r) = end_ r
      \/ is_digit (at_ data (d (move_to_first_int data r))) = true).
Proof.
  intros Hr. unfold move_to_first_int. cbv zeta.
  destruct (skip_if_comment_post data r Hr) as (Hb & He).
  destruct (seek_loop_post data is_digit (size (skip_if_comment data r))
              (skip_if_comment data r) (Nat.le_refl _) ltac:(lia)) as (Hb' & He' & Hend).
  rewrite He in *. split; [lia|]. split; [exact He' | exact Hend].
Qed.

Lemma move_to_first_int_moves_on (data : list ascii) (r : FileReader) :
  d r < end_ r -> is_digit (at_ data (d r)) = false ->
  d r < d (move_to_first_int data r).
Proof.
  intros Hr Hnd. unfold move_to_first_int. cbv zeta.
  destruct (skip_if_comment_post data r ltac:(lia)) as (Hb & He).
  destruct (seek_loop_post data is_digit (size (skip_if_comment data r))
              (skip_if_comment data r) (Nat.le_refl _) ltac:(lia)) as (Hb' & _).
  unfold skip_if_comment in *.
  destruct (is_comment (at_ data (d r))) eqn:Ec.
  - assert (Hgt : d r < d (skip_comments data r)); [|lia].
    unfold skip_comments, set_d. cbn [d].
    destruct (end_ r - d r) as [|f] eqn:Ef; [lia|].
    cbn [skip_comments_loop]. rewrite (proj2 (Nat.ltb_lt _ _) Hr), Ec. cbn [andb].
    pose proof (skip_comments_loop_ge data (end_ r) f (past_eol data (end_ r - d r) (d r))).
    destruct (past_eol_spec data (end_ r - d r) (d r)) as (_ & Hgt).
    specialize (Hgt ltac:(lia)). lia.
  - clear Hb Hb' He. unfold size. destruct (end_ r - d r) as [|f] eqn:Ef; [lia|].
    cbn [seek_loop]. unfold good. rewrite (proj2 (Nat.ltb_lt _ _) Hr), Hnd. cbn [andb negb].
    pose proof (skip_if_comment_post data (set_d r (S (d r)))) as Hs.
    unfold set_d in *. cbn [d end_] in Hs. destruct (Hs ltac:(lia)) as (Hb1 & He1).
    destruct (seek_loop_post data is_digit f
                (skip_if_comment data (mkReader (S (d r)) (end_ r)))) as (Hb2 & _);
      unfold size; lia.
Qed.

Lemma move_to_next_int_progress :
  forall (data : list ascii) (r : FileReader),
    d r < end_ r ->
    d r < d (move_to_next_int data r)
    /\ d (move_to_next_int data r) <= end_ r
    /\ end_ (move_to_next_int data r) = end_ r
    /\ (d (move_to_next_int data r) = end_ r
        \/ is_digit (at_ data (d (move_to_next_int data r))) = true).
Proof.
  intros data r Hr. unfold move_to_next_int, move_to_non_int, skip_while, set_d.
  destruct (advance_while_spec data is_digit (end_ r - d r) (d r)) as (Hb & _ & Hend).
  set (q := advance_while data is_digit (end_ r - d r) (d r)) in *.
  destruct (move_to_first_int_post data (mkReader q (end_ r))) as (Hb' & He' & Hstop);
    [cbn [d end_]; lia|].
  cbn [d end_] in *.
  split; [|split; [lia | split; [exact He' | exact Hstop]]].
  destruct (Nat.eq_dec q (d r)) as [Eq|Hne]; [|lia].
  destruct Hend as [Hend|Hend]; [lia|].
  pose proof (move_to_first_int_moves_on data (mkReader q (end_ r))) as Hm.
  cbn [d end_] in Hm. specialize (Hm ltac:(lia) Hend). lia.
Qed.

(** X12: [move_to_next_int] moves a cursor that is not at [end] strictly
    forward, never beyond [end], and leaves it at [end] or on a digit. *)
Theorem move_to_next_int_moves_on :
  forall (data : list ascii) (r : FileReader),
    d r < end_ r ->
    d r < d (move_to_next_int data r)
    /\ d (move_to_next_int data r) <= end_ r
    /\ end_ (move_to_next_int data r) = end_ r
    /\ (d (move_to_next_int data r) = end_ r
        \/ is_digit (at_ data (d (move_to_next_int data r))) = true).
Proof. exact move_to_next_int_progress. Qed.

Lemma move_to_next_int_moves_on_witness :
  0 < d (move_to_next_int (bytes_of "12 # x") (mkReader 0 6))
  /\ d (move_to_next_int (bytes_of "12 # x") (mkReader 0 6)) <= 6
  /\ end_ (move_to_next_int (bytes_of "12 # x") (mkReader 0 6)) = 6
  /\ (d (move_to_next_int (bytes_of "12 # x") (mkReader 0 6)) = 6
      \/ is_digit (at_ (bytes_of "12 # x")
                     (d (move_to_next_int (bytes_of "12 # x") (mkReader 0 6)))) = true).
Proof.
  apply (move_to_next_int_moves_on (bytes_of "12 # x") (mkReader 0 6)). cbn. lia.
Defined.

(** X13: [skip_comments] leaves the cursor at [end] or on a byte that does
    not start a comment, never behind where it was, and does not move a
    cursor that is not on a comment. *)
Theorem skip_comments_leaves_the_comments :
  forall (data : list ascii) (r : FileReader),
    d r <= end_ r ->
    d r <= d (skip_comments data r) <= end_ r
    /\ end_ (skip_comments data r) = end_ r
    /\ (d (skip_comments data r) = end_ r
        \/ is_comment (at_ data (d (skip_comments data r))) = false)
    /\ (is_comment (at_ data (d r)) = false -> skip_comments data r = r).
Proof.
  intros data r Hr. unfold skip_comments, set_d. cbn [d end_].
  destruct (skip_comments_loop_post data (end_ r) (end_ r - d r) (d r) (Nat.le_refl _) Hr)
    as (Hb & Hend).
  split; [exact Hb|]. split; [reflexivity|]. split; [exact Hend|].
  intros Hnc. destruct r as [p e]. cbn [d end_] in *.
  destruct (e - p) as [|f]; cbn [skip_comments_loop]; [reflexivity|].
  rewrite Hnc, andb_false_r. reflexivity.
Qed.

Lemma skip_comments_leaves_the_comments_witness :
  0 <= d (skip_comments (bytes_of "# a") (mkReader 0 3)) <= 3
  /\ end_ (skip_comments (bytes_of "# a") (mkReader 0 3)) = 3
  /\ (d (skip_comments (bytes_of "# a") (mkReader 0 3)) = 3
      \/ is_comment (at_ (bytes_of "# a") (d (skip_comments (bytes_of "# a") (mkReader 0 3))))
         = false)
  /\ (is_comment (at_ (bytes_of "# a") 0) = false
      -> skip_comments (bytes_of "# a") (mkReader 0 3) = mkReader 0 3).
Proof.
  apply (skip_comments_leaves_the_comments (bytes_of "# a") (mkReader 0 3)). cbn. lia.
Defined.

(** X14: [read_word] returns the bytes from the cursor up to the first blank
    (space, tab, carriage return or newline) or to [end], and leaves the
    cursor there. *)
Theorem read_word_reads_up_to_the_blank :
  forall (data : list ascii) (r : FileReader),
    d r <= end_ r ->
    fst (read_word data r) = bytes_at data (d r) (length (fst (read_word data r)))
    /\ d (snd (read_word data r)) = d r + length (fst (read_word data r))
    /\ d (snd (read_word data r)) <= end_ r
    /\ end_ (snd (read_word data r)) = end_ r
    /\ forallb (fun a => negb (is_word_end a)) (fst (read_word data r)) = true
    /\ (d (snd (read_word data r)) = end_ r
        \/ is_word_end (at_ data (d (snd (read_word data r)))) = true).
Proof.
  intros data r Hr. unfold read_word.
  destruct (read_word_loop_spec data (end_ r - d r) (d r) []) as (n & Hn & -> & Hall & Hend).
  cbn [fst snd set_d d end_ app]. rewrite length_bytes_at.
  split; [reflexivity|]. split; [reflexivity|]. split; [lia|]. split; [reflexivity|].
  split; [exact Hall|]. destruct Hend as [->|Hend]; [left; lia | right; exact Hend].
Qed.

Lemma read_word_reads_up_to_the_blank_witness :
  fst (read_word (bytes_of "real x") (mkReader 0 6))
  = bytes_at (bytes_of "real x") 0 (length (fst (read_word (bytes_of "real x") (mkReader 0 6))))
  /\ d (snd (read_word (bytes_of "real x") (mkReader 0 6)))
     = 0 + length (fst (read_word (bytes_of "real x") (mkReader 0 6)))
  /\ d (snd (read_word (bytes_of "real x") (mkReader 0 6))) <= 6
  /\ end_ (snd (read_word (bytes_of "real x") (mkReader 0 6))) = 6
  /\ forallb (fun a => negb (is_word_end a)) (fst (read_word (bytes_of "real x") (mkReader 0 6)))
     = true
  /\ (d (snd (read_word (bytes_of "real x") (mkReader 0 6))) = 6
      \/ is_word_end (at_ (bytes_of "real x")
                        (d (snd (read_word (bytes_of "real x") (mkReader 0 6))))) = true).
Proof.
  apply (read_word_reads_up_to_the_blank (bytes_of "real x") (mkReader 0 6)). cbn. lia.
Defined.

(** X15: [at_end_of_line] is true exactly when every byte from the cursor to
    where [move_to_eol] stops (the next newline, or [end]) is a space or a
    carriage return; a tab is not accepted. *)
Theorem at_end_of_line_is_blank_to_the_newline :
  forall (data : list ascii) (r : FileReader),
    at_end_of_line data r
    = forallb is_space_cr (bytes_at data (d r) (d (move_to_eol data r) - d r)).
Proof.
  intros data r. unfold at_end_of_line, move_to_eol, skip_while, set_d. cbn [d].
  apply at_end_of_line_loop_spec.
Qed.

(** ** Every call of [read_coord_entry_] moves the cursor on *)

Section Progress.
Variable data : list ascii.

Lemma read_int_mono (T : IntType) (r : FileReader) :
  d r <= end_ r ->
  d r <= d (snd (read_int data T r)) <= end_ r
  /\ end_ (snd (read_int data T r)) = end_ r.
Proof.
  intros Hr.
  destruct (read_int_any_bytes data T r Hr) as (p & H1 & H2 & H3 & H4 & _).
  lia.
Qed.

Lemma read_int_progress (T : IntType) (r : FileReader) :
  d r < end_ r -> d r < d (snd (read_int data T r)).
Proof.
  intros Hr. unfold read_int.
  destruct (advance_while_spec data (fun c => negb (is_digit c)) (end_ r - d r) (d r))
    as (Hb & _ & Hend).
  set (p := advance_while data (fun c => negb (is_digit c)) (end_ r - d r) (d r)) in *.
  destruct (read_digits_spec data T (end_ r - p) p 0%Z) as (Hb' & _).
  destruct (Nat.eq_dec p (d r)) as [Ep|Hne].
  - destruct Hend as [Hend|Hend]; [lia|]. apply negb_false_iff in Hend.
    destruct (end_ r - p) as [|f] eqn:Ef; [lia|].
    cbn [read_digits]. rewrite Hend.
    destruct (read_digits_spec data T f (S p) (wrap T (0 * 10 + digit_val (at_ data p))))
      as (Hb2 & _).
    destruct (read_digits data T f (S p) _) as [v p']. cbn [snd set_d d] in *. lia.
  - destruct (read_digits data T (end_ r - p) p 0%Z) as [v p']. cbn [snd set_d d] in *. lia.
Qed.

Lemma moved_on_refl (r : FileReader) : d r <= end_ r -> moved_on r r.
Proof. unfold moved_on. lia. Qed.

Lemma moved_on_trans (r1 r2 r3 : FileReader) :
  moved_on r1 r2 -> moved_on r2 r3 -> moved_on r1 r3.
Proof. unfold moved_on. lia. Qed.

Lemma moved_on_read_int (T : IntType) (r : FileReader) :
  d r <= end_ r -> moved_on r (snd (read_int data T r)).
Proof. intros Hr. destruct (read_int_mono T r Hr). split; assumption. Qed.

Lemma moved_on_skip_while (c : ascii -> bool) (r : FileReader) :
  d r <= end_ r -> moved_on r (skip_while data c r).
Proof.
  intros Hr. unfold skip_while, set_d, moved_on. cbn [d end_].
  destruct (advance_while_spec data c (end_ r - d r) (d r)) as (Hb & _). lia.
Qed.

Lemma moved_on_next_int (r : FileReader) :
  d r <= end_ r -> moved_on r (move_to_next_int data r).
Proof.
  intros Hr. unfold move_to_next_int.
  pose proof (moved_on_skip_while is_digit r Hr) as H1. fold (move_to_non_int data r) in H1.
  apply (moved_on_trans _ _ _ H1).
  destruct (move_to_first_int_post data (move_to_non_int data r)) as (Hb & He & _);
    [unfold moved_on in H1; lia|].
  split; assumption.
Qed.

Lemma moved_on_next_record (r : FileReader) :
  d r <= end_ r -> moved_on r (move_to_next_int data (move_to_eol data r)).
Proof.
  intros Hr. pose proof (moved_on_skip_while (fun c => negb (is_nl c)) r Hr) as H1.
  fold (move_to_eol data r) in H1. apply (moved_on_trans _ _ _ H1).
  apply moved_on_next_int. unfold moved_on in H1. lia.
Qed.

Variables (sym ut sl : bool) (L : IntType).
Context {W : Type}.
Variable wr : WeightReader W.

Lemma count_noflags_moves (pos : nat) (r : FileReader) :
  d r <= end_ r ->
  moved_on r (snd (read_coord_entry_count_noflags data pos r))
  /\ (d r < end_ r -> d r < d (snd (read_coord_entry_count_noflags data pos r))).
Proof.
  intros Hr. unfold read_coord_entry_count_noflags. cbv zeta.
  pose proof (moved_on_next_int r Hr) as H1.
  assert (Hp : d r < end_ r -> d r < d (move_to_next_int data r))
    by (intros Hlt; apply (move_to_next_int_progress data r Hlt)).
  set (r1 := move_to_next_int data r) in *.
  pose proof (moved_on_next_record r1 ltac:(unfold moved_on in H1; lia)) as H2.
  destruct (good r1); cbn [negb snd].
  - split; [apply (moved_on_trans _ _ _ H1 H2)|].
    intros Hlt. specialize (Hp Hlt). unfold moved_on in *. lia.
  - split; [exact H1 | exact Hp].
Qed.

Lemma count_flags_moves (fuel : nat) :
  forall (pos : nat) (r : FileReader),
    d r <= end_ r ->
    moved_on r (snd (read_coord_entry_count data sym ut sl false L wr fuel pos r))
    /\ (0 < fuel -> d r < end_ r ->
        d r < d (snd (read_coord_entry_count data sym ut sl false L wr fuel pos r))).
Proof.
  induction fuel as [|fuel IH]; intros pos r Hr; cbn [read_coord_entry_count].
  - cbn [snd]. split; [apply moved_on_refl, Hr | lia].
  - pose proof (moved_on_read_int L r Hr) as H1.
    pose proof (read_int_progress L r) as Hp.
    destruct (read_int data L r) as [x r1]. cbn [snd] in H1, Hp.
    pose proof (moved_on_next_int r1 ltac:(unfold moved_on in H1; lia)) as H2.
    set (r2 := move_to_next_int data r1) in *.
    pose proof (moved_on_read_int L r2 ltac:(unfold moved_on in *; lia)) as H3.
    destruct (read_int data L r2) as [y r3]. cbn [snd] in H3.
    unfold read_wgt_count.
    pose proof (moved_on_next_record r3 ltac:(unfold moved_on in *; lia)) as H4.
    set (r4 := move_to_next_int data (move_to_eol data r3)) in *.
    pose proof (moved_on_trans _ _ _ (moved_on_trans _ _ _ H1 H2) H3) as H13.
    pose proof (moved_on_trans _ _ _ H13 H4) as H14.
    destruct (IH pos r4 ltac:(unfold moved_on in *; lia)) as (H5 & _).
    pose proof (moved_on_trans _ _ _ H14 H5) as H15.
    assert (Hgt : d r < end_ r -> d r < d r1) by exact Hp.
    destruct (good r3); cbn [negb].
    + destruct (sl && (x =? y)%Z); [|destruct (negb sym && ut && (x >? y)%Z)]; cbn [snd].
      * split; [exact H15|]. intros _ Hlt. specialize (Hgt Hlt). unfold moved_on in *. lia.
      * split; [exact H15|]. intros _ Hlt. specialize (Hgt Hlt). unfold moved_on in *. lia.
      * split; [exact H14|]. intros _ Hlt. specialize (Hgt Hlt). unfold moved_on in *. lia.
    + cbn [snd]. split; [exact H13|].
      intros _ Hlt. specialize (Hgt Hlt). unfold moved_on in *. lia.
Qed.

Lemma count_moves (pos : nat) (r : FileReader) :
  d r <= end_ r ->
  moved_on r (snd (read_coord_entry_true data sym ut sl false L wr pos r))
  /\ (d r < end_ r -> d r < d (snd (read_coord_entry_true data sym ut sl false L wr pos r))).
Proof.
  intros Hr. unfold read_coord_entry_true.
  destruct (no_flags sym ut sl); [apply count_noflags_moves, Hr|].
  destruct (count_flags_moves (S (size r)) pos r Hr) as (H1 & H2).
  split; [exact H1 | apply H2; lia].
Qed.

(** The fuel of the loop of Pass 1 is never used up. *)
Lemma pass1_loop_fuel (f1 : nat) :
  forall (f2 pos : nat) (r : FileReader),
    d r <= end_ r -> size r <= f1 -> size r <= f2 ->
    pass1_loop data sym ut sl false L wr f1 pos r
    = pass1_loop data sym ut sl false L wr f2 pos r.
Proof.
  induction f1 as [|f1 IH]; intros f2 pos r Hr H1 H2; unfold size in *.
  - destruct f2 as [|f2]; [reflexivity|]. cbn [pass1_loop]. unfold good.
    destruct (Nat.ltb_spec (d r) (end_ r)); [lia | reflexivity].
  - cbn [pass1_loop]. unfold good.
    destruct (Nat.ltb_spec (d r) (end_ r)) as [Hlt|Hge].
    + destruct f2 as [|f2]; [lia|]. cbn [pass1_loop]. unfold good.
      rewrite (proj2 (Nat.ltb_lt _ _) Hlt).
      destruct (count_moves pos r Hr) as ((Hb & He) & Hp). specialize (Hp Hlt).
      destruct (read_coord_entry_true data sym ut sl false L wr pos r) as [n r'].
      cbn [snd] in *. apply IH; unfold size; lia.
    + destruct f2 as [|f2]; [reflexivity|]. cbn [pass1_loop]. unfold good.
      destruct (Nat.ltb_spec (d r) (end_ r)); [lia | reflexivity].
Qed.

(** The generic implementation moves the cursor and the count alike in
    both passes. *)
Lemma count_set_agree (fuel : nat) :
  forall s : PState W,
    read_coord_entry_count data sym ut sl false L wr fuel (coord_pos s) (rd s)
    = (coord_pos (read_coord_entry_set data sym ut sl false L wr fuel s),
       rd (read_coord_entry_set data sym ut sl false L wr fuel s)).
Proof.
  induction fuel as [|fuel IH]; intros s; cbn [read_coord_entry_count read_coord_entry_set];
    [reflexivity|].
  destruct (read_int data L (rd s)) as [x r1].
  destruct (read_int data L (move_to_next_int data r1)) as [y r3].
  unfold read_wgt_count, read_wgt_set.
  destruct (good r3); cbn [negb]; [|reflexivity].
  destruct (sl && (x =? y)%Z) eqn:Esl; [apply (IH (mkPState _ _ _ _ _))|].
  destruct (negb sym && ut && (x >? y)%Z) eqn:Eut; [apply (IH (mkPState _ _ _ _ _))|].
  destruct (sym && ut && (x >? y)%Z).
  - rewrite (Z.eqb_sym y x).
    destruct (sym && negb ut && negb (x =? y)%Z); cbn [coord_pos rd]; f_equal; lia.
  - destruct (sym && negb ut && negb (x =? y)%Z); cbn [coord_pos rd]; f_equal; lia.
Qed.

Lemma set_noflags_moves (s : PState W) :
  d (rd s) <= end_ (rd s) ->
  moved_on (rd s) (rd (read_coord_entry_set_noflags data false L wr s))
  /\ (d (rd s) < end_ (rd s) ->
      d (rd s) < d (rd (read_coord_entry_set_noflags data false L wr s))).
Proof.
  intros Hr. unfold read_coord_entry_set_noflags. cbv zeta.
  pose proof (moved_on_read_int L (rd s) Hr) as H1.
  pose proof (read_int_progress L (rd s)) as Hp.
  destruct (read_int data L (rd s)) as [x r1]. cbn [snd] in H1, Hp.
  pose proof (moved_on_next_int r1 ltac:(unfold moved_on in H1; lia)) as H2.
  set (r2 := move_to_next_int data r1) in *.
  pose proof (moved_on_read_int L r2 ltac:(unfold moved_on in *; lia)) as H3.
  destruct (read_int data L r2) as [y r3]. cbn [snd] in H3.
  unfold read_wgt_set.
  pose proof (moved_on_next_record r3 ltac:(unfold moved_on in *; lia)) as H4.
  destruct (good r3); cbn [negb rd]; unfold moved_on in *; split; lia.
Qed.

Lemma set_moves (s : PState W) :
  d (rd s) <= end_ (rd s) ->
  moved_on (rd s) (rd (read_coord_entry_false data sym ut sl false L wr s))
  /\ (d (rd s) < end_ (rd s) ->
      d (rd s) < d (rd (read_coord_entry_false data sym ut sl false L wr s))).
Proof.
  intros Hr. unfold read_coord_entry_false.
  destruct (no_flags sym ut sl); [apply set_noflags_moves, Hr|].
  pose proof (count_set_agree (S (size (rd s))) s) as Ha.
  destruct (count_flags_moves (S (size (rd s))) (coord_pos s) (rd s) Hr) as (H1 & H2).
  rewrite Ha in H1, H2. cbn [snd] in H1, H2.
  split; [exact H1 | intros Hlt; apply H2; lia].
Qed.

(** The fuel of the loop of Pass 2 is never used up. *)
Lemma pass2_loop_fuel (f1 : nat) :
  forall (f2 : nat) (s : PState W),
    d (rd s) <= end_ (rd s) -> size (rd s) <= f1 -> size (rd s) <= f2 ->
    pass2_loop data sym ut sl false L wr f1 s = pass2_loop data sym ut sl false L wr f2 s.
Proof.
  induction f1 as [|f1 IH]; intros f2 s Hr H1 H2; unfold size in *.
  - destruct f2 as [|f2]; [reflexivity|]. cbn [pass2_loop]. unfold good.
    destruct (Nat.ltb_spec (d (rd s)) (end_ (rd s))); [lia | reflexivity].
  - cbn [pass2_loop]. unfold good.
    destruct (Nat.ltb_spec (d (rd s)) (end_ (rd s))) as [Hlt|Hge].
    + destruct f2 as [|f2]; [lia|]. cbn [pass2_loop]. unfold good.
      rewrite (proj2 (Nat.ltb_lt _ _) Hlt).
      destruct (set_moves s Hr) as ((Hb & He) & Hp). specialize (Hp Hlt).
      apply IH; unfold size; lia.
    + destruct f2 as [|f2]; [reflexivity|]. cbn [pass2_loop]. unfold good.
      destruct (Nat.ltb_spec (d (rd s)) (end_ (rd s))); [lia | reflexivity].
Qed.

(** With a flag set, the loops of the two passes count alike. *)
Lemma passes_agree (fuel : nat) :
  no_flags sym ut sl = false ->
  forall s : PState W,
    pass1_loop data sym ut sl false L wr fuel (coord_pos s) (rd s)
    = coord_pos (pass2_loop data sym ut sl false L wr fuel s).
Proof.
  intros Hflags. induction fuel as [|fuel IH]; intros s; cbn [pass1_loop pass2_loop];
    [reflexivity|].
  destruct (good (rd s)); [|reflexivity].
  unfold read_coord_entry_true, read_coord_entry_false. rewrite Hflags.
  rewrite (count_set_agree (S (size (rd s))) s). apply IH.
Qed.
End Progress.

(** X16: every call of [read_coord_entry_], counting or storing, moves a
    cursor that is not at [end] strictly forward and never beyond [end]:
    the loops [while (rs.good())] of the two passes end on every input. *)
Theorem read_coord_entry_moves_the_cursor_on :
  forall (data : list ascii) (sym ut sl : bool) (L : IntType) (W : Type)
         (wr : WeightReader W) (s : PState W),
    d (rd s) < end_ (rd s) ->
    d (rd s) < d (snd (read_coord_entry_true data sym ut sl false L wr (coord_pos s) (rd s)))
    /\ moved_on (rd s)
         (snd (read_coord_entry_true data sym ut sl false L wr (coord_pos s) (rd s)))
    /\ d (rd s) < d (rd (read_coord_entry_false data sym ut sl false L wr s))
    /\ moved_on (rd s) (rd (read_coord_entry_false data sym ut sl false L wr s)).
Proof.
  intros data sym ut sl L W wr s Hr.
  destruct (count_moves data sym ut sl L wr (coord_pos s) (rd s) ltac:(lia)) as (H1 & H2).
  destruct (set_moves data sym ut sl L wr s ltac:(lia)) as (H3 & H4).
  auto.
Qed.

Lemma read_coord_entry_moves_the_cursor_on_witness :
  d (mkReader 0 7)
  < d (snd (read_coord_entry_true two_records_open false false true false uint32_t
              (unsigned_weight uint32_t) 0 (mkReader 0 7)))
  /\ moved_on (mkReader 0 7)
       (snd (read_coord_entry_true two_records_open false false true false uint32_t
               (unsigned_weight uint32_t) 0 (mkReader 0 7)))
  /\ d (mkReader 0 7)
     < d (rd (read_coord_entry_false two_records_open false false true false uint32_t
                (unsigned_weight uint32_t) (mkPState (@fresh Z) 0 (mkReader 0 7) 0 0)))
  /\ moved_on (mkReader 0 7)
       (rd (read_coord_entry_false two_records_open false false true false uint32_t
              (unsigned_weight uint32_t) (mkPState (@fresh Z) 0 (mkReader 0 7) 0 0))).
Proof.
  apply (read_coord_entry_moves_the_cursor_on two_records_open false false true uint32_t Z
           (unsigned_weight uint32_t) (mkPState fresh 0 (mkReader 0 7) 0 0)).
  cbn. lia.
Defined.

(** X17: with [sym], [ut] or [sl] set and no weights, the two passes agree on
    every input: Pass 1 counts, for a range, exactly the entries Pass 2
    stores for it, and the two leave the cursor at the same place after
    every record. *)
Theorem flagged_passes_count_and_store_alike :
  forall (data : list ascii) (sym ut sl : bool) (L : IntType) (W : Type)
         (wr : WeightReader W) (s : PState W),
    no_flags sym ut sl = false ->
    read_coord_entry_true data sym ut sl false L wr (coord_pos s) (rd s)
    = (coord_pos (read_coord_entry_false data sym ut sl false L wr s),
       rd (read_coord_entry_false data sym ut sl false L wr s))
    /\ pass1_loop data sym ut sl false L wr (size (rd s)) (coord_pos s) (rd s)
       = coord_pos (pass2 data sym ut sl false L wr s).
Proof.
  intros data sym ut sl L W wr s Hflags. split.
  - unfold read_coord_entry_true, read_coord_entry_false. rewrite Hflags.
    apply count_set_agree.
  - unfold pass2. apply passes_agree, Hflags.
Qed.

Lemma flagged_passes_count_and_store_alike_witness :
  read_coord_entry_true two_records_open false false true false uint32_t
    (unsigned_weight uint32_t) 0 (mkReader 0 7)
  = (coord_pos (read_coord_entry_false two_records_open false false true false uint32_t
                  (unsigned_weight uint32_t) (mkPState (@fresh Z) 0 (mkReader 0 7) 0 0)),
     rd (read_coord_entry_false two_records_open false false true false uint32_t
           (unsigned_weight uint32_t) (mkPState (@fresh Z) 0 (mkReader 0 7) 0 0)))
  /\ pass1_loop two_records_open false false true false uint32_t (unsigned_weight uint32_t)
       (size (mkReader 0 7)) 0 (mkReader 0 7)
     = coord_pos (pass2 two_records_open false false true false uint32_t
                    (unsigned_weight uint32_t) (mkPState (@fresh Z) 0 (mkReader 0 7) 0 0)).
Proof.
  apply (flagged_passes_count_and_store_alike two_records_open false false true uint32_t Z
           (unsigned_weight uint32_t) (mkPState fresh 0 (mkReader 0 7) 0 0)).
  reflexivity.
Defined.

(** ** The stores of Pass 2 *)

Lemma stored_in_order_refl {W : Type} (s : PState W) : stored_in_order s s.
Proof.
  unfold stored_in_order. rewrite Nat.sub_diag. cbn [seq]. rewrite !app_nil_r. auto.
Qed.

Lemma stored_in_order_same {W : Type} (s s' : PState W) :
  this s' = this s -> coord_pos s' = coord_pos s -> stored_in_order s s'.
Proof.
  intros Ht Hp. unfold stored_in_order. rewrite Ht, Hp, Nat.sub_diag. cbn [seq].
  rewrite !app_nil_r. auto.
Qed.

Lemma stored_in_order_trans {W : Type} (s1 s2 s3 : PState W) :
  stored_in_order s1 s2 -> stored_in_order s2 s3 -> stored_in_order s1 s3.
Proof.
  intros (Hp1 & Hx1 & Hy1 & Hw1) (Hp2 & Hx2 & Hy2 & Hw2).
  assert (Hseq : seq (coord_pos s1) (coord_pos s3 - coord_pos s1)
                 = seq (coord_pos s1) (coord_pos s2 - coord_pos s1)
                   ++ seq (coord_pos s2) (coord_pos s3 - coord_pos s2)).
  { replace (coord_pos s3 - coord_pos s1)
      with ((coord_pos s2 - coord_pos s1) + (coord_pos s3 - coord_pos s2)) by lia.
    rewrite seq_app. do 2 f_equal. lia. }
  unfold stored_in_order. rewrite Hx2, Hy2, Hw2, Hx1, Hy1, Hw1, Hseq, <- !app_assoc.
  split; [lia | auto].
Qed.

Lemma stores_snoc (tr : list store_event) (ev : store_event) :
  x_stores (tr ++ [ev]) = x_stores tr ++ match ev with StoreX i => [i] | _ => [] end
  /\ y_stores (tr ++ [ev]) = y_stores tr ++ match ev with StoreY i => [i] | _ => [] end
  /\ w_stores (tr ++ [ev]) = w_stores tr ++ match ev with StoreW i => [i] | _ => [] end.
Proof.
  unfold x_stores, y_stores, w_stores. rewrite !flat_map_app. cbn [flat_map].
  rewrite !app_nil_r. auto.
Qed.

(** One entry stored at [pos], in either order of the two stores. *)
Lemma stored_one {W : Type} (c c' : COO W) (pos : nat) (r r' : FileReader) (a b a' b' : Z) :
  x_stores (trace c') = x_stores (trace c) ++ [pos] ->
  y_stores (trace c') = y_stores (trace c) ++ [pos] ->
  w_stores (trace c') = w_stores (trace c) ->
  stored_in_order (mkPState c pos r a b) (mkPState c' (pos + 1) r' a' b').
Proof.
  intros Hx Hy Hw. unfold stored_in_order. cbn [coord_pos this].
  replace (pos + 1 - pos) with 1 by lia. cbn [seq]. split; [lia | auto].
Qed.

Lemma stored_xy {W : Type} (c : COO W) (pos : nat) (x y : Z) :
  x_stores (trace (set_y (set_x c pos x) pos y)) = x_stores (trace c) ++ [pos]
  /\ y_stores (trace (set_y (set_x c pos x) pos y)) = y_stores (trace c) ++ [pos]
  /\ w_stores (trace (set_y (set_x c pos x) pos y)) = w_stores (trace c).
Proof.
  unfold set_x, set_y. cbn [trace].
  destruct (stores_snoc (trace c ++ [StoreX pos]) (StoreY pos)) as (-> & -> & ->).
  destruct (stores_snoc (trace c) (StoreX pos)) as (-> & -> & ->).
  rewrite !app_nil_r. auto.
Qed.

Lemma stored_yx {W : Type} (c : COO W) (pos : nat) (x y : Z) :
  x_stores (trace (set_x (set_y c pos x) pos y)) = x_stores (trace c) ++ [pos]
  /\ y_stores (trace (set_x (set_y c pos x) pos y)) = y_stores (trace c) ++ [pos]
  /\ w_stores (trace (set_x (set_y c pos x) pos y)) = w_stores (trace c).
Proof.
  unfold set_x, set_y. cbn [trace].
  destruct (stores_snoc (trace c ++ [StoreY pos]) (StoreX pos)) as (-> & -> & ->).
  destruct (stores_snoc (trace c) (StoreY pos)) as (-> & -> & ->).
  rewrite !app_nil_r. auto.
Qed.

Section Stores.
Variable data : list ascii.
Variables (sym ut sl : bool) (L : IntType).
Context {W : Type}.
Variable wr : WeightReader W.

Lemma set_flags_stores (fuel : nat) :
  forall s : PState W,
    stored_in_order s (read_coord_entry_set data sym ut sl false L wr fuel s).
Proof.
  induction fuel as [|fuel IH]; intros s; cbn [read_coord_entry_set];
    [apply stored_in_order_refl|].
  destruct (read_int data L (rd s)) as [x r1].
  destruct (read_int data L (move_to_next_int data r1)) as [y r3].
  unfold read_wgt_set.
  assert (Hsame : forall r', stored_in_order s
                    (mkPState (this s) (coord_pos s) r' (max_row s) (max_col s))).
  { intros r'. apply stored_in_order_same; reflexivity. }
  destruct (good r3); cbn [negb]; [|apply Hsame].
  destruct (sl && (x =? y)%Z);
    [eapply stored_in_order_trans; [apply Hsame | apply IH]|].
  destruct (negb sym && ut && (x >? y)%Z);
    [eapply stored_in_order_trans; [apply Hsame | apply IH]|].
  destruct s as [c pos r mr mc]. cbn [this coord_pos rd max_row max_col].
  destruct (sym && ut && (x >? y)%Z).
  - destruct (stored_xy c pos y x) as (Hx & Hy & Hw).
    destruct (sym && negb ut && negb (y =? x)%Z).
    + destruct (stored_yx (set_y (set_x c pos y) pos x) (pos + 1) y x) as (Hx' & Hy' & Hw').
      eapply stored_in_order_trans;
        [apply (stored_one c _ pos r r mr mc mr mc Hx Hy Hw)|].
      apply stored_one; assumption.
    + apply stored_one; assumption.
  - destruct (stored_xy c pos x y) as (Hx & Hy & Hw).
    destruct (sym && negb ut && negb (x =? y)%Z).
    + destruct (stored_yx (set_y (set_x c pos x) pos y) (pos + 1) x y) as (Hx' & Hy' & Hw').
      eapply stored_in_order_trans;
        [apply (stored_one c _ pos r r mr mc mr mc Hx Hy Hw)|].
      apply stored_one; assumption.
    + apply stored_one; assumption.
Qed.

Lemma set_noflags_stores (s : PState W) :
  stored_in_order s (read_coord_entry_set_noflags data false L wr s).
Proof.
  unfold read_coord_entry_set_noflags. cbv zeta.
  destruct (read_int data L (rd s)) as [x r1].
  destruct (read_int data L (move_to_next_int data r1)) as [y r3].
  unfold read_wgt_set. destruct s as [c pos r mr mc]. cbn [this coord_pos rd max_row max_col].
  destruct (good r3); cbn [negb]; [|apply stored_in_order_same; reflexivity].
  destruct (stored_xy c pos x y) as (Hx & Hy & Hw). apply stored_one; assumption.
Qed.

Lemma pass2_loop_stores (fuel : nat) :
  forall s : PState W,
    stored_in_order s (pass2_loop data sym ut sl false L wr fuel s).
Proof.
  induction fuel as [|fuel IH]; intros s; cbn [pass2_loop]; [apply stored_in_order_refl|].
  destruct (good (rd s)); [|apply stored_in_order_refl].
  eapply stored_in_order_trans; [|apply IH].
  unfold read_coord_entry_false.
  destruct (no_flags sym ut sl); [apply set_noflags_stores | apply set_flags_stores].
Qed.
End Stores.

(** X18: on any input and under any flags, Pass 2 without weights stores, in
    each of [x_] and [y_], to the indices from its starting position up to
    its final position, once each and in ascending order, and stores no
    weight. *)
Theorem pass2_stores_to_consecutive_indices :
  forall (data : list ascii) (sym ut sl : bool) (L : IntType) (W : Type)
         (wr : WeightReader W) (s : PState W),
    stored_in_order s (pass2 data sym ut sl false L wr s).
Proof. intros data sym ut sl L W wr s. apply pass2_loop_stores. Qed.

(** ** [guess_file_type] *)

Lemma at_str_app (data s t : list ascii) (r : FileReader) :
  at_str data (s ++ t) r = true -> at_str data s r = true.
Proof.
  unfold at_str. rewrite length_app.
  destruct (Nat.leb_spec (end_ r) (d r + (length s + length t))) as [|Hlt]; [discriminate|].
  destruct (Nat.leb_spec (end_ r) (d r + length s)); [lia|].
  intros Hd. apply bool_decide_eq_true_1 in Hd. apply bool_decide_eq_true_2.
  rewrite seq_app, map_app in Hd.
  apply app_inj_1 in Hd; [apply Hd|]. rewrite length_map, length_seq. reflexivity.
Qed.

Lemma guess_file_type_text :
  forall (tcoo tcsr tdg tts : list ascii) (f : File),
    at_str (data_ f) (bytes_of "PIGO") (reader f) = false ->
    guess_file_type (bytes_of "PIGO" ++ tcoo) (bytes_of "PIGO" ++ tcsr)
      (bytes_of "PIGO" ++ tdg) (bytes_of "PIGO" ++ tts) f
    = Ok (if has_extension (fn_ f) (bytes_of ".mtx") then MATRIX_MARKET
          else if has_extension (fn_ f) (bytes_of ".graph") then GRAPH
          else EDGE_LIST).
Proof.
  intros tcoo tcsr tdg tts f Hp. unfold guess_file_type. cbv zeta.
  assert (Hno : forall t, at_str (data_ f) (bytes_of "PIGO" ++ t) (reader f) = false).
  { intros t. destruct (at_str (data_ f) (bytes_of "PIGO" ++ t) (reader f)) eqn:E;
      [|reflexivity].
    apply at_str_app in E. congruence. }
  rewrite !Hno, Hp.
  destruct (has_extension (fn_ f) (bytes_of ".mtx")); [reflexivity|].
  destruct (has_extension (fn_ f) (bytes_of ".graph")); reflexivity.
Qed.

(** X19: a file whose bytes do not start with [PIGO] (followed by at least
    one more byte) is never taken for a binary file, whatever the four
    magic strings that start with [PIGO] are: its type is guessed from the
    extension of its name, [.mtx] first, then [.graph], and is an edge
    list otherwise. *)
Theorem guess_file_type_of_a_text_file :
  forall (tcoo tcsr tdg tts : list ascii) (f : File),
    at_str (data_ f) (bytes_of "PIGO") (reader f) = false ->
    guess_file_type (bytes_of "PIGO" ++ tcoo) (bytes_of "PIGO" ++ tcsr)
      (bytes_of "PIGO" ++ tdg) (bytes_of "PIGO" ++ tts) f
    = Ok (if has_extension (fn_ f) (bytes_of ".mtx") then MATRIX_MARKET
          else if has_extension (fn_ f) (bytes_of ".graph") then GRAPH
          else EDGE_LIST).
Proof. exact guess_file_type_text. Qed.

Lemma guess_file_type_of_a_text_file_witness :
  guess_file_type (bytes_of "PIGO" ++ bytes_of "-COO-v2") (bytes_of "PIGO" ++ bytes_of "-CSR-v2")
    (bytes_of "PIGO" ++ bytes_of "-DiGraph-v2") (bytes_of "PIGO" ++ bytes_of "-Tensor-v1")
    (mkFile (bytes_of "a.mtx") two_records_closed 8 0)
  = Ok (if has_extension (fn_ (mkFile (bytes_of "a.mtx") two_records_closed 8 0))
             (bytes_of ".mtx") then MATRIX_MARKET
        else if has_extension (fn_ (mkFile (bytes_of "a.mtx") two_records_closed 8 0))
                  (bytes_of ".graph") then GRAPH
        else EDGE_LIST).
Proof.
  apply (guess_file_type_of_a_text_file (bytes_of "-COO-v2") (bytes_of "-CSR-v2")
           (bytes_of "-DiGraph-v2") (bytes_of "-Tensor-v1")
           (mkFile (bytes_of "a.mtx") two_records_closed 8 0)).
  reflexivity.
Defined.

(** ** The parser does not depend on where its text lies in the mapping *)

Section Shift.
Variables (pre data : list ascii).

Lemma at_shift (i : nat) : at_ (pre ++ data) (length pre + i) = at_ data i.
Proof. unfold at_. apply app_nth2_plus. Qed.

Lemma at_shift_S (i : nat) : at_ (pre ++ data) (S (length pre + i)) = at_ data (S i).
Proof. rewrite <- Nat.add_succ_r. apply at_shift. Qed.

Lemma advance_while_shift (c : ascii -> bool) (fuel : nat) :
  forall p : nat,
    advance_while (pre ++ data) c fuel (length pre + p)
    = length pre + advance_while data c fuel p.
Proof.
  induction fuel as [|fuel IH]; intros p; cbn [advance_while]; [reflexivity|].
  rewrite at_shift. destruct (c (at_ data p)); [|reflexivity].
  rewrite <- Nat.add_succ_r. apply IH.
Qed.

Lemma past_eol_shift (fuel : nat) :
  forall p : nat,
    past_eol (pre ++ data) fuel (length pre + p) = length pre + past_eol data fuel p.
Proof.
  induction fuel as [|fuel IH]; intros p; cbn [past_eol]; [reflexivity|].
  rewrite at_shift. destruct (is_nl (at_ data p)); [lia|].
  rewrite <- Nat.add_succ_r. apply IH.
Qed.

Lemma skip_comments_loop_shift (fuel : nat) :
  forall e p : nat,
    skip_comments_loop (pre ++ data) fuel (length pre + e) (length pre + p)
    = length pre + skip_comments_loop data fuel e p.
Proof.
  induction fuel as [|fuel IH]; intros e p; cbn [skip_comments_loop]; [reflexivity|].
  rewrite at_shift.
  replace (length pre + p <? length pre + e) with (p <? e)
    by (destruct (Nat.ltb_spec p e), (Nat.ltb_spec (length pre + p) (length pre + e)); lia).
  destruct ((p <? e) && is_comment (at_ data p)); [|reflexivity].
  replace (length pre + e - (length pre + p)) with (e - p) by lia.
  rewrite past_eol_shift. apply IH.
Qed.

Lemma read_digits_shift (T : IntType) (fuel : nat) :
  forall (p : nat) (res : Z),
    read_digits (pre ++ data) T fuel (length pre + p) res
    = (fst (read_digits data T fuel p res), length pre + snd (read_digits data T fuel p res)).
Proof.
  induction fuel as [|fuel IH]; intros p res; cbn [read_digits]; [reflexivity|].
  rewrite at_shift. destruct (is_digit (at_ data p)); [|reflexivity].
  rewrite <- Nat.add_succ_r. apply IH.
Qed.

Lemma size_shift (r : FileReader) : size (shift (length pre) r) = size r.
Proof. unfold size, shift. cbn [d end_]. lia. Qed.

Lemma good_shift (r : FileReader) : good (shift (length pre) r) = good r.
Proof.
  unfold good, shift. cbn [d end_].
  destruct (Nat.ltb_spec (d r) (end_ r)), (Nat.ltb_spec (length pre + d r) (length pre + end_ r));
    lia || reflexivity.
Qed.

Lemma skip_while_shift (c : ascii -> bool) (r : FileReader) :
  skip_while (pre ++ data) c (shift (length pre) r) = shift (length pre) (skip_while data c r).
Proof.
  unfold skip_while, shift, set_d. cbn [d end_].
  replace (length pre + end_ r - (length pre + d r)) with (end_ r - d r) by lia.
  rewrite advance_while_shift. reflexivity.
Qed.

Lemma read_int_shift (T : IntType) (r : FileReader) :
  read_int (pre ++ data) T (shift (length pre) r)
  = (fst (read_int data T r), shift (length pre) (snd (read_int data T r))).
Proof.
  unfold read_int, shift, set_d. cbn [d end_].
  replace (length pre + end_ r - (length pre + d r)) with (end_ r - d r) by lia.
  rewrite advance_while_shift.
  set (p := advance_while data (fun c => negb (is_digit c)) (end_ r - d r) (d r)).
  replace (length pre + end_ r - (length pre + p)) with (end_ r - p) by lia.
  rewrite read_digits_shift.
  destruct (read_digits data T (end_ r - p) p 0%Z) as [v p']. reflexivity.
Qed.

Lemma skip_comments_shift (r : FileReader) :
  skip_comments (pre ++ data) (shift (length pre) r)
  = shift (length pre) (skip_comments data r).
Proof.
  unfold skip_comments, shift, set_d. cbn [d end_].
  replace (length pre + end_ r - (length pre + d r)) with (end_ r - d r) by lia.
  rewrite skip_comments_loop_shift. reflexivity.
Qed.

Lemma skip_if_comment_shift (r : FileReader) :
  skip_if_comment (pre ++ data) (shift (length pre) r)
  = shift (length pre) (skip_if_comment data r).
Proof.
  unfold skip_if_comment. rewrite skip_comments_shift.
  change (d (shift (length pre) r)) with (length pre + d r). rewrite at_shift.
  destruct (is_comment (at_ data (d r))); reflexivity.
Qed.

Lemma seek_loop_shift (stop : ascii -> bool) (fuel : nat) :
  forall r : FileReader,
    seek_loop (pre ++ data) stop fuel (shift (length pre) r)
    = shift (length pre) (seek_loop data stop fuel r).
Proof.
  induction fuel as [|fuel IH]; intros r; cbn [seek_loop]; [reflexivity|].
  rewrite good_shift.
  change (d (shift (length pre) r)) with (length pre + d r). rewrite at_shift.
  destruct (good r && negb (stop (at_ data (d r)))); [|reflexivity].
  replace (set_d (shift (length pre) r) (S (length pre + d r)))
    with (shift (length pre) (set_d r (S (d r))))
    by (unfold shift, set_d; cbn [d end_]; f_equal; lia).
  rewrite skip_if_comment_shift. apply IH.
Qed.

Lemma move_to_first_int_shift (r : FileReader) :
  move_to_first_int (pre ++ data) (shift (length pre) r)
  = shift (length pre) (move_to_first_int data r).
Proof.
  unfold move_to_first_int. cbv zeta.
  rewrite skip_if_comment_shift, size_shift. apply seek_loop_shift.
Qed.

Lemma move_to_next_int_shift (r : FileReader) :
  move_to_next_int (pre ++ data) (shift (length pre) r)
  = shift (length pre) (move_to_next_int data r).
Proof.
  unfold move_to_next_int, move_to_non_int.
  rewrite skip_while_shift. apply move_to_first_int_shift.
Qed.

Lemma move_to_eol_shift (r : FileReader) :
  move_to_eol (pre ++ data) (shift (length pre) r)
  = shift (length pre) (move_to_eol data r).
Proof. apply skip_while_shift. Qed.
End Shift.

Section ShiftParser.
Variables (pre data : list ascii).
Variables (sym ut sl : bool) (L O : IntType).
Context {W : Type}.
Variable wr : WeightReader W.

Lemma count_noflags_shift (pos : nat) (r : FileReader) :
  read_coord_entry_count_noflags (pre ++ data) pos (shift (length pre) r)
  = (fst (read_coord_entry_count_noflags data pos r),
     shift (length pre) (snd (read_coord_entry_count_noflags data pos r))).
Proof.
  unfold read_coord_entry_count_noflags. cbv zeta.
  rewrite move_to_next_int_shift, good_shift.
  destruct (good (move_to_next_int data r)); cbn [negb fst snd]; [|reflexivity].
  rewrite move_to_eol_shift, move_to_next_int_shift. reflexivity.
Qed.

Lemma count_flags_shift (fuel : nat) :
  forall (pos : nat) (r : FileReader),
    read_coord_entry_count (pre ++ data) sym ut sl false L wr fuel pos (shift (length pre) r)
    = (fst (read_coord_entry_count data sym ut sl false L wr fuel pos r),
       shift (length pre) (snd (read_coord_entry_count data sym ut sl false L wr fuel pos r))).
Proof.
  induction fuel as [|fuel IH]; intros pos r; cbn [read_coord_entry_count]; [reflexivity|].
  rewrite read_int_shift. destruct (read_int data L r) as [x r1]. cbn [fst snd].
  rewrite move_to_next_int_shift, read_int_shift.
  destruct (read_int data L (move_to_next_int data r1)) as [y r3]. cbn [fst snd].
  unfold read_wgt_count. rewrite good_shift.
  destruct (good r3); cbn [negb]; [|reflexivity].
  rewrite move_to_eol_shift, move_to_next_int_shift.
  destruct (sl && (x =? y)%Z); [apply IH|].
  destruct (negb sym && ut && (x >? y)%Z); [apply IH | reflexivity].
Qed.

Lemma count_shift (pos : nat) (r : FileReader) :
  read_coord_entry_true (pre ++ data) sym ut sl false L wr pos (shift (length pre) r)
  = (fst (read_coord_entry_true data sym ut sl false L wr pos r),
     shift (length pre) (snd (read_coord_entry_true data sym ut sl false L wr pos r))).
Proof.
  unfold read_coord_entry_true. rewrite size_shift.
  destruct (no_flags sym ut sl); [apply count_noflags_shift | apply count_flags_shift].
Qed.

Lemma set_noflags_shift (s : PState W) :
  read_coord_entry_set_noflags (pre ++ data) false L wr (shift_state (length pre) s)
  = shift_state (length pre) (read_coord_entry_set_noflags data false L wr s).
Proof.
  unfold read_coord_entry_set_noflags, shift_state. cbv zeta.
  cbn [rd this coord_pos max_row max_col].
  rewrite read_int_shift. destruct (read_int data L (rd s)) as [x r1]. cbn [fst snd].
  rewrite move_to_next_int_shift, read_int_shift.
  destruct (read_int data L (move_to_next_int data r1)) as [y r3]. cbn [fst snd].
  unfold read_wgt_set. rewrite good_shift.
  destruct (good r3); cbn [negb this coord_pos rd max_row max_col]; [|reflexivity].
  rewrite move_to_eol_shift, move_to_next_int_shift. reflexivity.
Qed.

Lemma set_flags_shift (fuel : nat) :
  forall s : PState W,
    read_coord_entry_set (pre ++ data) sym ut sl false L wr fuel (shift_state (length pre) s)
    = shift_state (length pre) (read_coord_entry_set data sym ut sl false L wr fuel s).
Proof.
  induction fuel as [|fuel IH]; intros s; cbn [read_coord_entry_set]; [reflexivity|].
  unfold shift_state at 1 2 3 4 5. cbn [rd this coord_pos max_row max_col].
  rewrite read_int_shift. destruct (read_int data L (rd s)) as [x r1]. cbn [fst snd].
  rewrite move_to_next_int_shift, read_int_shift.
  destruct (read_int data L (move_to_next_int data r1)) as [y r3]. cbn [fst snd].
  unfold read_wgt_set. rewrite good_shift.
  destruct (good r3); cbn [negb]; [|reflexivity].
  rewrite move_to_eol_shift, move_to_next_int_shift.
  destruct (sl && (x =? y)%Z);
    [apply (IH (mkPState (this s) (coord_pos s)
                  (move_to_next_int data (move_to_eol data r3)) (max_row s) (max_col s)))|].
  destruct (negb sym && ut && (x >? y)%Z);
    [apply (IH (mkPState (this s) (coord_pos s)
                  (move_to_next_int data (move_to_eol data r3)) (max_row s) (max_col s)))|].
  destruct (sym && ut && (x >? y)%Z).
  - destruct (sym && negb ut && negb (y =? x)%Z); reflexivity.
  - destruct (sym && negb ut && negb (x =? y)%Z); reflexivity.
Qed.

Lemma set_shift (s : PState W) :
  read_coord_entry_false (pre ++ data) sym ut sl false L wr (shift_state (length pre) s)
  = shift_state (length pre) (read_coord_entry_false data sym ut sl false L wr s).
Proof.
  unfold read_coord_entry_false.
  change (rd (shift_state (length pre) s)) with (shift (length pre) (rd s)).
  rewrite size_shift.
  destruct (no_flags sym ut sl); [apply set_noflags_shift | apply set_flags_shift].
Qed.

Lemma pass1_loop_shift (fuel : nat) :
  forall (pos : nat) (r : FileReader),
    pass1_loop (pre ++ data) sym ut sl false L wr fuel pos (shift (length pre) r)
    = pass1_loop data sym ut sl false L wr fuel pos r.
Proof.
  induction fuel as [|fuel IH]; intros pos r; cbn [pass1_loop]; [reflexivity|].
  rewrite good_shift, count_shift.
  destruct (good r); [|reflexivity].
  destruct (read_coord_entry_true data sym ut sl false L wr pos r) as [n r']. cbn [fst snd].
  apply IH.
Qed.

Lemma pass2_loop_shift (fuel : nat) :
  forall s : PState W,
    pass2_loop (pre ++ data) sym ut sl false L wr fuel (shift_state (length pre) s)
    = shift_state (length pre) (pass2_loop data sym ut sl false L wr fuel s).
Proof.
  induction fuel as [|fuel IH]; intros s; cbn [pass2_loop]; [reflexivity|].
  change (rd (shift_state (length pre) s)) with (shift (length pre) (rd s)).
  rewrite good_shift. destruct (good (rd s)); [|reflexivity].
  rewrite set_shift. apply IH.
Qed.

Lemma thread_range_shift (P : nat) (r : FileReader) (tid : nat) :
  thread_range (pre ++ data) P (shift (length pre) r) tid
  = shift (length pre) (thread_range data P r tid).
Proof.
  unfold thread_range. cbv zeta. rewrite size_shift.
  assert (Hadv : forall i, advance (shift (length pre) r) i = shift (length pre) (advance r i))
    by (intros i; unfold advance, shift; cbn [d end_]; f_equal; lia).
  rewrite !Hadv, !move_to_eol_shift, !move_to_next_int_shift, move_to_first_int_shift.
  set (re := move_to_next_int data (move_to_eol data (advance r ((tid + 1) * size r / P)))).
  set (rs := if negb (tid =? 0)
             then move_to_next_int data (move_to_eol data (advance r (tid * size r / P)))
             else move_to_first_int data (advance r (tid * size r / P))).
  replace (if negb (tid =? 0)
           then shift (length pre)
                  (move_to_next_int data (move_to_eol data (advance r (tid * size r / P))))
           else shift (length pre) (move_to_first_int data (advance r (tid * size r / P))))
    with (shift (length pre) rs) by (unfold rs; destruct (negb (tid =? 0)); reflexivity).
  unfold smaller_end, shift. cbn [d end_].
  destruct (Nat.ltb_spec (d re) (end_ rs)), (Nat.ltb_spec (length pre + d re) (length pre + end_ rs));
    lia || reflexivity.
Qed.

Lemma pass2_thread_shift (P : nat) (r : FileReader) (offs : list nat)
    (acc : COO W * Z * Z) (tid : nat) :
  pass2_thread (pre ++ data) sym ut sl false L wr P (shift (length pre) r) offs acc tid
  = pass2_thread data sym ut sl false L wr P r offs acc tid.
Proof.
  unfold pass2_thread. destruct acc as [[c mr] mc]. cbv zeta.
  rewrite thread_range_shift. unfold pass2. cbn [rd]. rewrite size_shift.
  set (pos := if 0 <? tid then nth (tid - 1) offs 0 else 0).
  change (mkPState c pos (shift (length pre) (thread_range data P r tid)) 0%Z 0%Z)
    with (shift_state (length pre) (mkPState c pos (thread_range data P r tid) 0%Z 0%Z)).
  rewrite pass2_loop_shift. reflexivity.
Qed.

(** [read_el_] on a text that lies [|pre|] bytes into the mapping. *)
Lemma read_el_shift (P : nat) (junk : Junk W) (c : COO W) (r : FileReader) :
  read_el_ (pre ++ data) sym ut sl false L O wr P junk c (shift (length pre) r)
  = read_el_ data sym ut sl false L O wr P junk c r.
Proof.
  unfold read_el_, read_el_order. cbv zeta.
  assert (Hp1 : map (fun tid => pass1 (pre ++ data) sym ut sl false L wr
                                  (thread_range (pre ++ data) P (shift (length pre) r) tid))
                    (seq 0 P)
                = map (fun tid => pass1 data sym ut sl false L wr (thread_range data P r tid))
                      (seq 0 P)).
  { apply map_ext. intros tid. rewrite thread_range_shift. unfold pass1.
    rewrite size_shift. apply pass1_loop_shift. }
  rewrite Hp1.
  set (offs := prefix_sum 0 _).
  assert (Hf : forall l acc,
             fold_left (pass2_thread (pre ++ data) sym ut sl false L wr P
                          (shift (length pre) r) offs) l acc
             = fold_left (pass2_thread data sym ut sl false L wr P r offs) l acc).
  { induction l as [|t l IH]; intros acc; [reflexivity|].
    cbn [fold_left]. rewrite pass2_thread_shift. apply IH. }
  rewrite Hf. reflexivity.
Qed.
End ShiftParser.

(** X20: [read_el_] reads a range relative to its start: when the same
    text lies [|pre|] bytes into a larger mapping, behind any bytes
    [pre], and the cursor and the end of the range are moved by [|pre|],
    the object read is the same, for every flag combination and thread
    count. *)
Theorem read_el_does_not_depend_on_what_precedes_the_range
    (pre data : list ascii) (sym ut sl : bool) (L O : IntType) {W : Type}
    (wr : WeightReader W) (P : nat) (junk : Junk W) (c : COO W) (r : FileReader) :
  read_el_ (pre ++ data) sym ut sl false L O wr P junk c (shift (length pre) r)
  = read_el_ data sym ut sl false L O wr P junk c r.
Proof. apply read_el_shift. Qed.

(** ** [read_mm_] on a MatrixMarket file *)

Lemma read_word_loop_over (data : list ascii) (w : list ascii) :
  forall (fuel p : nat) (res rest : list ascii),
    drop p data = w ++ rest ->
    forallb (fun a => negb (is_word_end a)) w = true ->
    length w <= fuel ->
    length w = fuel \/ is_word_end (nth 0 rest zero) = true ->
    read_word_loop data fuel p res = (res ++ w, p + length w).
Proof.
  induction w as [|a w IH]; intros fuel p res rest Hd Hw Hf He.
  - cbn [length app] in *. rewrite app_nil_r, Nat.add_0_r.
    destruct fuel as [|fuel]; [reflexivity|].
    cbn [read_word_loop]. rewrite (at_hd data p rest Hd).
    destruct He as [He|He]; [lia|]. rewrite He. reflexivity.
  - cbn [length] in Hf, He. destruct fuel as [|fuel]; [lia|].
    cbn [forallb] in Hw. apply andb_prop in Hw as [Ha Hw].
    cbn [read_word_loop]. rewrite (at_cons data p a (w ++ rest) Hd), Ha.
    rewrite (IH fuel (S p) (res ++ [a]) rest).
    + rewrite <- app_assoc. cbn [length app]. f_equal. lia.
    + apply (drop_cons_step data p a _ Hd).
    + exact Hw.
    + lia.
    + destruct He as [He|He]; [left; lia | right; exact He].
Qed.

Lemma read_word_over (data w rest : list ascii) (p e : nat) :
  drop p data = w ++ rest ->
  forallb (fun a => negb (is_word_end a)) w = true ->
  p + length w <= e ->
  is_word_end (nth 0 rest zero) = true ->
  read_word data (mkReader p e) = (w, mkReader (p + length w) e).
Proof.
  intros Hd Hw Hl He. unfold read_word. cbn [d end_].
  rewrite (read_word_loop_over data w (e - p) p [] rest Hd Hw); [reflexivity|lia|].
  right. exact He.
Qed.

Lemma read_str_at (data s rest : list ascii) (p : nat) :
  drop p data = s ++ rest -> rest <> [] ->
  read_str data s (mkReader p (length data)) = (true, mkReader (p + length s) (length data)).
Proof.
  intros Hd Hr. unfold read_str. cbv zeta.
  rewrite (at_str_at data s rest p (length data) Hd Hr eq_refl). reflexivity.
Qed.

Lemma skip_space_tab_over (data run rest : list ascii) (p e : nat) :
  drop p data = run ++ rest ->
  forallb is_space_tab run = true ->
  p + length run <= e ->
  is_space_tab (nth 0 rest zero) = false ->
  skip_space_tab data (mkReader p e) = mkReader (p + length run) e.
Proof.
  intros Hd Hr Hl Hn. unfold skip_space_tab, skip_while, set_d. cbn [d end_].
  rewrite (advance_while_over data is_space_tab run p e rest Hd Hr Hl); [reflexivity|].
  right. exact Hn.
Qed.

(** [move_to_next_int] from behind a number, over a run of fillers, to
    the next number of the line. *)
Lemma move_to_next_int_over (data run rest : list ascii) (p e : nat) :
  drop p data = run ++ rest ->
  run <> [] ->
  forallb is_filler run = true ->
  p + length run <= e ->
  is_digit (nth 0 rest zero) = true ->
  move_to_next_int data (mkReader p e) = mkReader (p + length run) e.
Proof.
  intros Hd Hne Hr Hl Hn. unfold move_to_next_int.
  rewrite move_to_non_int_stay.
  - rewrite (move_to_first_int_fillers data run p e rest Hd Hr Hl).
    apply move_to_first_int_stop. right.
    rewrite (at_hd data (p + length run) rest); [exact Hn|].
    apply (drop_step data p run rest Hd).
  - destruct run as [|a run]; [congruence|].
    rewrite (at_cons data p a (run ++ rest) Hd).
    cbn [forallb] in Hr. apply andb_prop in Hr as [Ha _].
    unfold is_filler in Ha. apply andb_prop in Ha as [Ha _].
    apply andb_prop in Ha as [Ha _]. apply negb_true_iff in Ha. exact Ha.
Qed.

(** [move_to_next_int] from the end of a line, over comment and blank
    lines, to a number. *)
Lemma move_to_next_int_lines (data : list ascii) (gap : list skipline)
    (rest : list ascii) (p e : nat) :
  drop p data = NL :: render_gap gap ++ rest ->
  forallb skip_ok gap = true ->
  p + 1 + length (render_gap gap) <= e ->
  p < e ->
  is_digit (nth 0 rest zero) = true ->
  move_to_next_int data (mkReader p e) = mkReader (p + 1 + length (render_gap gap)) e.
Proof.
  intros Hd Hg Hl Hp Hn.
  rewrite (move_to_next_int_from_nl data p e _ Hd Hp).
  pose proof (drop_cons_step data p NL _ Hd) as Hd1.
  rewrite (move_to_first_int_gap data gap (S p) e rest Hd1 Hg) by lia.
  replace (S p + length (render_gap gap)) with (p + 1 + length (render_gap gap)) by lia.
  apply move_to_first_int_stop. right.
  rewrite (at_hd data (p + 1 + length (render_gap gap)) rest); [exact Hn|].
  replace (p + 1 + length (render_gap gap)) with (S p + length (render_gap gap)) by lia.
  apply (drop_step data (S p) _ rest Hd1).
Qed.

Lemma decimal_head_digit (v : Z) (rest : list ascii) :
  (0 <= v)%Z -> is_digit (nth 0 (decimal v ++ rest) zero) = true.
Proof.
  intros Hv. pose proof (decimal_digits v Hv) as Hd.
  pose proof (decimal_nonempty v Hv) as Hne.
  destruct (decimal v) as [|a l]; [congruence|].
  cbn [forallb] in Hd. apply andb_prop in Hd as [Ha _]. exact Ha.
Qed.

Lemma word_head (w rest : list ascii) :
  is_word w = true -> is_space_tab (nth 0 (w ++ rest) zero) = false.
Proof.
  unfold is_word. intros H. apply andb_prop in H as [Hl Hw].
  destruct w as [|a w]; [discriminate|].
  cbn [forallb] in Hw. apply andb_prop in Hw as [Ha _].
  apply negb_true_iff in Ha. unfold is_word_end in Ha.
  apply orb_false_iff in Ha as [Ha _]. apply orb_false_iff in Ha as [Ha _].
  exact Ha.
Qed.

Lemma max_over_le (l : list Z) (R : Z) :
  Forall (fun v => (v <= R)%Z) l -> forall m, (m <= R)%Z -> (max_over l m <= R)%Z.
Proof.
  induction 1 as [|v l Hv Hl IH]; intros m Hm; [exact Hm|].
  change (max_over (v :: l) m) with (max_over l (if (v >? m)%Z then v else m)).
  apply IH. destruct (v >? m)%Z; assumption.
Qed.

Lemma entries_plain (L : IntType) (bs : list block) :
  entries false false false L bs = map (fun b => entry_xy L (b_entry b)) bs.
Proof.
  unfold entries. induction bs as [|b bs IH]; [reflexivity|].
  cbn [flat_map map]. rewrite IH. unfold emit.
  destruct (entry_xy L (b_entry b)). reflexivity.
Qed.

Lemma first_emitted_plain (L : IntType) (bs : list block) :
  first_emitted false false false L bs = map (fun b => entry_xy L (b_entry b)) bs.
Proof.
  unfold first_emitted. induction bs as [|b bs IH]; [reflexivity|].
  cbn [flat_map map]. rewrite IH. unfold emit.
  destruct (entry_xy L (b_entry b)). reflexivity.
Qed.

Section MMFile.
Variables (L O : IntType).
Variables (field symmetry : list ascii) (gap1 gap2 : list skipline) (R C N : Z).
Variable bs : list block.
Hypothesis Hfield : is_word field = true.
Hypothesis Hcomplex : string_eq field "complex" = false.
Hypothesis Hsym : mm_symmetry symmetry = true.
Hypothesis Hgap1 : forallb skip_ok gap1 = true.
Hypothesis Hgap2 : forallb skip_ok gap2 = true.
Hypothesis Hbs : forallb block_ok bs = true.
Hypothesis HR : (0 <= R /\ R + 1 < upper L)%Z.
Hypothesis HC : (0 <= C /\ C + 1 < upper L)%Z.
Hypothesis HN : (0 <= N < upper O)%Z.

Lemma mm_symmetry_word : is_word symmetry = true.
Proof.
  unfold mm_symmetry, string_eq in Hsym.
  apply orb_prop in Hsym as [H|H]; [apply orb_prop in H as [H|H]|];
    apply bool_decide_eq_true_1 in H; rewrite H; reflexivity.
Qed.

Lemma read_mm_header_text (data : list ascii) :
  data = mm_text field symmetry gap1 R C N gap2 bs ->
  read_mm_header false L O data (whole data)
  = Ok (R + 1, C + 1, N,
        mkReader (length data - length (render_blocks bs)) (length data))%Z.
Proof.
  intros Hdata.
  assert (D0 : drop 0 data
               = mm_banner ++ [SP] ++ field ++ [SP] ++ symmetry ++ NL :: render_gap gap1
                 ++ decimal R ++ [SP] ++ decimal C ++ [SP] ++ decimal N
                 ++ NL :: render_gap gap2 ++ render_blocks bs)
    by (rewrite Hdata; reflexivity).
  pose proof mm_symmetry_word as Hsw.
  assert (Hfw := Hfield). unfold is_word in Hfw, Hsw.
  apply andb_prop in Hfw as [Hfl Hfw]. apply andb_prop in Hsw as [Hsl Hsw].
  apply negb_true_iff, Nat.eqb_neq in Hfl. apply negb_true_iff, Nat.eqb_neq in Hsl.
  unfold read_mm_header, whole.
  (* the banner *)
  change (bytes_of "%%MatrixMarket matrix coordinate") with mm_banner.
  rewrite (read_str_at data mm_banner _ 0 D0) by discriminate.
  cbv beta iota zeta delta [negb].
  apply drop_step in D0. set (p1 := 0 + length mm_banner) in *.
  (* the blank and the field *)
  pose proof (drop_bound data p1 [SP] _ D0 ltac:(discriminate)) as B1.
  rewrite (skip_space_tab_over data [SP] _ p1 (length data) D0 eq_refl B1
             (word_head field _ Hfield)).
  apply drop_step in D0. set (p2 := p1 + length [SP]) in *.
  assert (B2 : p2 + length field <= length data).
  { apply (drop_bound data p2 field _ D0). intros ->. cbn in Hfl. lia. }
  rewrite (read_word_over data field _ p2 (length data) D0 Hfw B2 eq_refl).
  cbv beta iota zeta.
  apply drop_step in D0. set (p3 := p2 + length field) in *.
  (* the blank and the symmetry *)
  pose proof (drop_bound data p3 [SP] _ D0 ltac:(discriminate)) as B3.
  rewrite (skip_space_tab_over data [SP] _ p3 (length data) D0 eq_refl B3
             (word_head symmetry _ mm_symmetry_word)).
  apply drop_step in D0. set (p4 := p3 + length [SP]) in *.
  assert (B4 : p4 + length symmetry <= length data).
  { apply (drop_bound data p4 symmetry _ D0). intros ->. cbn in Hsl. lia. }
  rewrite (read_word_over data symmetry _ p4 (length data) D0 Hsw B4 eq_refl).
  cbv beta iota zeta.
  apply drop_step in D0. set (p5 := p4 + length symmetry) in *.
  rewrite andb_false_r, Hcomplex.
  replace (string_eq symmetry "symmetric" || string_eq symmetry "general"
           || string_eq symmetry "skew-symmetric") with true.
  2:{ pose proof Hsym as Hs3. unfold mm_symmetry in Hs3. revert Hs3.
      destruct (string_eq symmetry "symmetric"), (string_eq symmetry "general"),
        (string_eq symmetry "skew-symmetric"); intros Hs3;
        try reflexivity; discriminate Hs3. }
  cbv beta iota zeta delta [negb].
  (* to the size line *)
  pose proof (decimal_digits R (proj1 HR)) as HRd.
  pose proof (decimal_digits C (proj1 HC)) as HCd.
  pose proof (decimal_digits N (proj1 HN)) as HNd.
  pose proof (decimal_nonempty R (proj1 HR)) as HRn.
  pose proof (decimal_nonempty C (proj1 HC)) as HCn.
  pose proof (decimal_nonempty N (proj1 HN)) as HNn.
  assert (B5 : p5 + 1 + length (render_gap gap1) + length (decimal R) <= length data).
  { pose proof (drop_bound data p5 (NL :: render_gap gap1 ++ decimal R) 
                  ([SP] ++ decimal C ++ [SP] ++ decimal N
                        ++ NL :: render_gap gap2 ++ render_blocks bs)) as B.
    cbn [length] in B. rewrite length_app in B.
    assert (p5 + S (length (render_gap gap1) + length (decimal R)) <= length data).
    { apply B; [|discriminate]. rewrite D0. cbn [app]. rewrite <- app_assoc. reflexivity. }
    lia. }
  rewrite (move_to_next_int_lines data gap1 _ p5 (length data) D0 Hgap1
             ltac:(lia) ltac:(lia) (decimal_head_digit R _ (proj1 HR))).
  change (NL :: render_gap gap1 ++ ?x) with ([NL] ++ render_gap gap1 ++ x) in D0.
  apply drop_step in D0. apply drop_step in D0.
  change (length [NL]) with 1 in D0.
  set (p6 := p5 + 1 + length (render_gap gap1)) in *.
  (* R *)
  rewrite (read_int_over data L (decimal R) _ p6 (length data) D0 HRn HRd
             ltac:(lia) (or_intror eq_refl)).
  cbv beta iota zeta.
  apply drop_step in D0. set (p7 := p6 + length (decimal R)) in *.
  pose proof (drop_bound data p7 ([SP] ++ decimal C) _
                ltac:(rewrite D0, <- app_assoc; reflexivity) ltac:(discriminate)) as B7.
  rewrite length_app in B7. change (length [SP]) with 1 in B7.
  rewrite (move_to_next_int_over data [SP] _ p7 (length data) D0
             ltac:(discriminate) eq_refl ltac:(cbn [length]; lia)
             (decimal_head_digit C _ (proj1 HC))).
  apply drop_step in D0. set (p8 := p7 + length [SP]) in *.
  change (length [SP]) with 1 in *.
  (* C *)
  rewrite (read_int_over data L (decimal C) _ p8 (length data) D0 HCn HCd
             ltac:(lia) (or_intror eq_refl)).
  cbv beta iota zeta.
  apply drop_step in D0. set (p9 := p8 + length (decimal C)) in *.
  pose proof (drop_bound data p9 ([SP] ++ decimal N) _
                ltac:(rewrite D0, <- app_assoc; reflexivity) ltac:(discriminate)) as B9.
  rewrite length_app in B9. change (length [SP]) with 1 in B9.
  rewrite (move_to_next_int_over data [SP] _ p9 (length data) D0
             ltac:(discriminate) eq_refl ltac:(cbn [length]; lia)
             (decimal_head_digit N _ (proj1 HN))).
  apply drop_step in D0. set (p10 := p9 + length [SP]) in *.
  change (length [SP]) with 1 in *.
  (* N *)
  rewrite (read_int_over data O (decimal N) _ p10 (length data) D0 HNn HNd
             ltac:(lia) (or_intror eq_refl)).
  cbv beta iota zeta.
  apply drop_step in D0. set (p11 := p10 + length (decimal N)) in *.
  (* to the first entry *)
  assert (B11 : p11 + 1 + length (render_gap gap2) + length (render_blocks bs)
                = length data).
  { assert (Hl : length (drop p11 data)
                 = 1 + length (render_gap gap2) + length (render_blocks bs))
      by (rewrite D0; cbn [length]; rewrite length_app; lia).
    rewrite length_drop in Hl. lia. }
  rewrite (next_record_after_line data [] _ gap2 p11 (length data) D0 eq_refl Hgap2).
  - rewrite digits_value_decimal by lia. rewrite digits_value_decimal by lia.
    rewrite digits_value_decimal by lia.
    rewrite !wrap_small by lia.
    cbn [length]. repeat f_equal. lia.
  - cbn [length]. lia.
  - cbn [length]. unfold cut.
    destruct bs as [|b bs'] eqn:Ebs.
    + left. cbn [render_blocks map concat length] in B11.
      change (length (render_blocks [])) with 0 in B11. lia.
    + right.
      change (NL :: render_gap gap2 ++ ?x) with ([NL] ++ render_gap gap2 ++ x) in D0.
      apply drop_step in D0. apply drop_step in D0.
      change (length [NL]) with 1 in D0.
      replace (p11 + 0 + 1) with (p11 + 1) by lia.
      rewrite (at_hd data _ _ D0).
      pose proof (blocks_head_digit (b :: bs') [] Hbs ltac:(discriminate)) as Hh.
      rewrite app_nil_r in Hh. exact Hh.
Qed.

Context {W : Type}.
Variables (wr : WeightReader W) (junk : Junk W) (P : nat).
Hypothesis HP : 0 < P.
Hypothesis Hfit : fits O (Z.of_nat (length bs)).
Hypothesis Hlabels : labels_within L R C bs.
Hypothesis Hcount : (N <= Z.of_nat (length bs))%Z.

Lemma mm_text_split :
  mm_text field symmetry gap1 R C N gap2 bs
  = (mm_banner ++ SP :: field ++ SP :: symmetry ++ NL :: render_gap gap1
     ++ decimal R ++ SP :: decimal C ++ SP :: decimal N ++ NL :: render_gap gap2)
    ++ render_blocks bs.
Proof.
  unfold mm_text, mm_size_line.
  repeat first [rewrite <- app_assoc | progress cbn [app]]. reflexivity.
Qed.

Lemma read_mm_text :
  exists c : COO W,
    read_mm_ false false false false L O wr P junk
      (mm_text field symmetry gap1 R C N gap2 bs) fresh
      (whole (mm_text field symmetry gap1 R C N gap2 bs)) = Returns c
    /\ x_ c = map (fun b => fst (entry_xy L (b_entry b))) bs
    /\ y_ c = map (fun b => snd (entry_xy L (b_entry b))) bs
    /\ m_ c = Z.of_nat (length bs)
    /\ nrows_ c = (R + 1)%Z /\ ncols_ c = (C + 1)%Z
    /\ n_ c = Z.max (R + 1) (C + 1).
Proof.
  unfold read_mm_. rewrite (read_mm_header_text _ eq_refl).
  rewrite mm_text_split.
  set (pre := mm_banner ++ _). set (body := render_blocks bs).
  replace (mkReader (length (pre ++ body) - length body) (length (pre ++ body)))
    with (shift (length pre) (whole body))
    by (unfold shift, whole; cbn [d end_]; rewrite length_app; f_equal; lia).
  rewrite read_el_shift.
  assert (Hok : file_ok [] bs = true) by exact Hbs.
  assert (Hfit' : fits O (Z.of_nat (length (entries false false false L bs))))
    by (rewrite entries_plain, length_map; exact Hfit).
  pose proof (read_el_blocks [] bs Hok false false false L O wr junk P HP Hfit') as Hc.
  cbv zeta in Hc.
  change (render_file [] bs) with body in Hc.
  set (c := read_el_ body false false false false L O wr P junk fresh (whole body)) in *.
  destruct Hc as (Hx & Hy & _ & Hm & Hnr & Hnc & _).
  rewrite entries_plain in Hx, Hy, Hm. rewrite first_emitted_plain in Hnr, Hnc.
  rewrite map_map in Hx, Hy, Hnr, Hnc. rewrite length_map in Hm.
  assert (Hmx : (0 <= max_over (map (fun b => fst (entry_xy L (b_entry b))) bs) 0 <= R)%Z).
  { split; [apply max_over_ge|]. apply max_over_le; [|lia].
    apply Forall_map. eapply Forall_impl; [exact Hlabels|]. cbn. intros b Hb. apply Hb. }
  assert (Hmy : (0 <= max_over (map (fun b => snd (entry_xy L (b_entry b))) bs) 0 <= C)%Z).
  { split; [apply max_over_ge|]. apply max_over_le; [|lia].
    apply Forall_map. eapply Forall_impl; [exact Hlabels|]. cbn. intros b Hb. apply Hb. }
  rewrite wrap_small in Hnr by lia. rewrite wrap_small in Hnc by lia.
  unfold mm_check.
  replace (R + 1 >=? nrows_ c)%Z with true
    by (symmetry; rewrite Z.geb_leb; apply Z.leb_le; lia).
  cbv beta iota zeta delta [negb].
  replace (C + 1 >=? ncols_ (set_nrows c (R + 1)))%Z with true
    by (symmetry; cbn [ncols_ set_nrows]; rewrite Z.geb_leb; apply Z.leb_le; lia).
  cbv beta iota zeta.
  replace (N >? m_ (set_ncols (set_nrows c (R + 1)) (C + 1)))%Z with false
    by (symmetry; cbn [m_ set_ncols set_nrows]; rewrite Z.gtb_ltb; apply Z.ltb_ge; lia).
  eexists. split; [reflexivity|].
  cbn [x_ y_ m_ nrows_ ncols_ n_ set_n set_ncols set_nrows].
  repeat split; try assumption.
  destruct (Z.gtb_spec (R + 1) (C + 1)); lia.
Qed.
End MMFile.

(** X21: [read_mm_] (no flags, no weights) on a MatrixMarket file: the
    banner [%%MatrixMarket matrix coordinate], a field word other than
    [complex], one of the three symmetry words, comment and blank lines,
    the size line [R C N], and entry lines whose labels are at most [R]
    resp. [C] and of which there are at least [N].  The call returns,
    for every number of threads, with the labels of the entry lines in
    the arrays in the order of the file (as written: nothing is
    subtracted from the one-based labels), [m] their number, and
    [nrows = R + 1], [ncols = C + 1], [n] the larger of the two. *)
Theorem read_mm_reads_a_matrix_market_file
    (L O : IntType) {W : Type} (wr : WeightReader W) (junk : Junk W) (P : nat)
    (field symmetry : list ascii) (gap1 gap2 : list skipline) (R C N : Z)
    (bs : list block) :
  is_word field = true ->
  string_eq field "complex" = false ->
  mm_symmetry symmetry = true ->
  forallb skip_ok gap1 = true ->
  forallb skip_ok gap2 = true ->
  forallb block_ok bs = true ->
  (0 <= R /\ R + 1 < upper L)%Z ->
  (0 <= C /\ C + 1 < upper L)%Z ->
  (0 <= N < upper O)%Z ->
  0 < P ->
  fits O (Z.of_nat (length bs)) ->
  labels_within L R C bs ->
  (N <= Z.of_nat (length bs))%Z ->
  exists c : COO W,
    read_mm_ false false false false L O wr P junk
      (mm_text field symmetry gap1 R C N gap2 bs) fresh
      (whole (mm_text field symmetry gap1 R C N gap2 bs)) = Returns c
    /\ x_ c = map (fun b => fst (entry_xy L (b_entry b))) bs
    /\ y_ c = map (fun b => snd (entry_xy L (b_entry b))) bs
    /\ m_ c = Z.of_nat (length bs)
    /\ nrows_ c = (R + 1)%Z /\ ncols_ c = (C + 1)%Z
    /\ n_ c = Z.max (R + 1) (C + 1).
Proof. intros. apply read_mm_text; assumption. Qed.

Lemma read_mm_reads_a_matrix_market_file_witness :
  exists c : COO Z,
    read_mm_ false false false false uint32_t uint64_t (unsigned_weight uint32_t) 2 zero_junk
      (mm_text (bytes_of "pattern") (bytes_of "general") sample_gap 3 2 3 [] sample_blocks)
      fresh
      (whole (mm_text (bytes_of "pattern") (bytes_of "general") sample_gap 3 2 3 []
                sample_blocks)) = Returns c
    /\ x_ c = map (fun b => fst (entry_xy uint32_t (b_entry b))) sample_blocks
    /\ y_ c = map (fun b => snd (entry_xy uint32_t (b_entry b))) sample_blocks
    /\ m_ c = Z.of_nat (length sample_blocks)
    /\ nrows_ c = (3 + 1)%Z /\ ncols_ c = (2 + 1)%Z
    /\ n_ c = Z.max (3 + 1) (2 + 1).
Proof.
  apply (read_mm_reads_a_matrix_market_file uint32_t uint64_t (unsigned_weight uint32_t)
           zero_junk 2 (bytes_of "pattern") (bytes_of "general") sample_gap [] 3 2 3
           sample_blocks).
  - reflexivity.
  - reflexivity.
  - reflexivity.
  - reflexivity.
  - reflexivity.
  - reflexivity.
  - vm_compute; split; [discriminate | reflexivity].
  - vm_compute; split; [discriminate | reflexivity].
  - vm_compute; split; [discriminate | reflexivity].
  - lia.
  - reflexivity.
  - repeat constructor; vm_compute; discriminate.
  - cbn; lia.
Defined.

(** ** A MatrixMarket file and the guessed file type *)

Lemma mm_text_as_edge_list (field symmetry : list ascii) (gap1 gap2 : list skipline)
    (R C N : Z) (bs : list block) :
  mm_text field symmetry gap1 R C N gap2 bs
  = render_file (mm_banner_line field symmetry :: gap1) (mm_size_block R C N gap2 :: bs).
Proof.
  unfold mm_text, mm_size_line, render_file, render_blocks, render_block, render_entry,
    render_gap, mm_banner_line, mm_size_block.
  cbn [map concat render_skip b_entry b_gap e_x e_sep e_y e_trail].
  change mm_banner with ("%"%char :: tl mm_banner).
  repeat first [rewrite <- app_assoc | progress cbn [app]]. reflexivity.
Qed.

Lemma word_no_nl (w : list ascii) :
  forallb (fun a => negb (is_word_end a)) w = true ->
  forallb (fun a => negb (is_nl a)) w = true.
Proof.
  intros H. apply forallb_forall. intros a Ha.
  apply (proj1 (forallb_forall _ _) H) in Ha.
  apply negb_true_iff in Ha. apply negb_true_iff.
  unfold is_word_end in Ha. apply orb_false_iff in Ha as [_ Ha]. exact Ha.
Qed.

Lemma digits_no_nl (w : list ascii) :
  forallb is_digit w = true -> forallb (fun a => negb (is_nl a)) w = true.
Proof.
  intros H. apply forallb_forall. intros a Ha.
  apply (proj1 (forallb_forall _ _) H) in Ha.
  apply negb_true_iff. unfold is_nl. destruct (Ascii.eqb_spec a NL) as [->|]; [|reflexivity].
  discriminate Ha.
Qed.

Lemma mm_edge_list_ok (field symmetry : list ascii) (gap1 gap2 : list skipline)
    (R C N : Z) (bs : list block) :
  is_word field = true -> is_word symmetry = true ->
  forallb skip_ok gap1 = true -> forallb skip_ok gap2 = true ->
  forallb block_ok bs = true ->
  (0 <= R)%Z -> (0 <= C)%Z -> (0 <= N)%Z ->
  file_ok (mm_banner_line field symmetry :: gap1) (mm_size_block R C N gap2 :: bs) = true.
Proof.
  intros Hf Hs Hg1 Hg2 Hbs HR HC HN.
  unfold is_word in Hf, Hs.
  apply andb_prop in Hf as [_ Hf]. apply andb_prop in Hs as [_ Hs].
  apply word_no_nl in Hf. apply word_no_nl in Hs.
  pose proof (decimal_digits R HR) as HRd. pose proof (decimal_nonempty R HR) as HRn.
  pose proof (decimal_digits C HC) as HCd. pose proof (decimal_nonempty C HC) as HCn.
  pose proof (decimal_digits N HN) as HNd.
  unfold file_ok. cbn [forallb]. rewrite Hg1, Hbs, !andb_true_r.
  apply andb_true_intro. split.
  - unfold mm_banner_line, skip_ok. apply andb_true_intro. split; [reflexivity|].
    rewrite forallb_app. apply andb_true_intro. split; [reflexivity|].
    cbn [forallb]. rewrite forallb_app. cbn [forallb]. rewrite Hf, Hs. reflexivity.
  - unfold mm_size_block, block_ok, entry_ok.
    cbn [b_entry b_gap e_x e_sep e_y e_trail nth forallb].
    rewrite Hg2, HRd, HCd, (digits_no_nl _ HNd).
    destruct (decimal R); [congruence|]. destruct (decimal C); [congruence|]. reflexivity.
Qed.

Lemma no_PIGO_at_the_banner (rest : list ascii) (e : nat) :
  at_str (mm_banner ++ rest) (bytes_of "PIGO") (mkReader 0 e) = false.
Proof.
  unfold at_str. cbn [d end_]. destruct (_ <=? _); [reflexivity|].
  apply bool_decide_eq_false_2. intros H. discriminate H.
Qed.

Section MMByName.
Variables (L O : IntType).
Context {W : Type}.
Variables (wr : WeightReader W) (W_size : nat) (W_bytes : W -> list ascii)
  (W_of_bytes : list ascii -> W) (P : nat) (junk : Junk W).
Variables (tcoo tcsr tdg tts : list ascii) (CSR_load : File -> FileType -> res (CSR W)).
Variables (fn field symmetry : list ascii) (gap1 gap2 : list skipline) (R C N : Z).
Variable bs : list block.
Hypothesis Hfield : is_word field = true.
Hypothesis Hcomplex : string_eq field "complex" = false.
Hypothesis Hsym : mm_symmetry symmetry = true.
Hypothesis Hgap1 : forallb skip_ok gap1 = true.
Hypothesis Hgap2 : forallb skip_ok gap2 = true.
Hypothesis Hbs : forallb block_ok bs = true.
Hypothesis HR : (0 <= R /\ R + 1 < upper L)%Z.
Hypothesis HC : (0 <= C /\ C + 1 < upper L)%Z.
Hypothesis HN : (0 <= N < upper O)%Z.
Hypothesis HP : 0 < P.
Hypothesis Hfit : fits O (Z.of_nat (length bs)).
Hypothesis Hfit1 : fits O (Z.of_nat (S (length bs))).
Hypothesis Hlabels : labels_within L R C bs.
Hypothesis Hcount : (N <= Z.of_nat (length bs))%Z.
Hypothesis Hgraph : has_extension fn (bytes_of ".graph") = false.

Let text : list ascii := mm_text field symmetry gap1 R C N gap2 bs.
Let xs : list Z := map (fun b => fst (entry_xy L (b_entry b))) bs.
Let ys : list Z := map (fun b => snd (entry_xy L (b_entry b))) bs.

Lemma COO_of_mm_text :
  exists c : COO W,
    COO_from_file false false false false L O wr W_size W_bytes W_of_bytes P junk
      (bytes_of "PIGO" ++ tcoo) (bytes_of "PIGO" ++ tcsr) (bytes_of "PIGO" ++ tdg)
      (bytes_of "PIGO" ++ tts) CSR_load fn text AUTO = Returns c
    /\ nrows_ c = (R + 1)%Z /\ ncols_ c = (C + 1)%Z /\ n_ c = Z.max (R + 1) (C + 1)
    /\ if has_extension fn (bytes_of ".mtx")
       then x_ c = xs /\ y_ c = ys /\ m_ c = Z.of_nat (length bs)
       else x_ c = R :: xs /\ y_ c = C :: ys /\ m_ c = Z.of_nat (S (length bs)).
Proof.
  assert (Hlen : 0 < length text).
  { unfold text, mm_text. rewrite length_app. cbn. lia. }
  unfold COO_from_file, File_open, seek. cbn [Nat.ltb Nat.leb size_].
  destruct (Nat.eqb_spec (length text) 0) as [H0|_]; [lia|].
  destruct (Nat.leb_spec (length text) 0) as [H0|_]; [lia|].
  unfold read_. cbn [fn_ data_ size_].
  rewrite guess_file_type_text
    by (unfold reader; cbn [fp_ size_ data_]; apply no_PIGO_at_the_banner).
  cbn [fn_]. unfold reader. cbn [fp_ size_ data_].
  change (mkReader 0 (length text)) with (whole text).
  destruct (has_extension fn (bytes_of ".mtx")).
  - destruct (read_mm_text L O field symmetry gap1 gap2 R C N bs Hfield Hcomplex Hsym
                Hgap1 Hgap2 Hbs HR HC HN wr junk P HP Hfit Hlabels Hcount)
      as (c & Hc & Hx & Hy & Hm & Hnr & Hnc & Hn).
    exists c. fold text in Hc. rewrite Hc. repeat split; assumption.
  - rewrite Hgraph. eexists. split; [reflexivity|].
    pose proof (mm_symmetry_word symmetry Hsym) as Hsw.
    pose proof (mm_edge_list_ok field symmetry gap1 gap2 R C N bs Hfield Hsw Hgap1 Hgap2
                  Hbs (proj1 HR) (proj1 HC) (proj1 HN)) as Hok.
    assert (Hfit' : fits O (Z.of_nat (length (entries false false false L
                                                 (mm_size_block R C N gap2 :: bs)))))
      by (rewrite entries_plain, length_map; exact Hfit1).
    pose proof (read_el_blocks _ _ Hok false false false L O wr junk P HP Hfit') as Hc.
    cbv zeta in Hc. rewrite <- mm_text_as_edge_list in Hc. fold text in Hc.
    set (c := read_el_ text false false false false L O wr P junk fresh (whole text)) in *.
    destruct Hc as (Hx & Hy & _ & Hm & Hnr & Hnc & Hn).
    rewrite entries_plain in Hx, Hy, Hm. rewrite first_emitted_plain in Hnr, Hnc.
    rewrite map_map in Hx, Hy, Hnr, Hnc. rewrite length_map in Hm.
    cbn [map b_entry mm_size_block entry_xy e_x e_y fst snd length] in Hx, Hy, Hm, Hnr, Hnc.
    rewrite !(digits_value_decimal L) in Hx, Hy, Hnr, Hnc by lia.
    change (max_over (R :: ?l) 0) with (max_over l (if (R >? 0)%Z then R else 0)) in Hnr.
    change (max_over (C :: ?l) 0) with (max_over l (if (C >? 0)%Z then C else 0)) in Hnc.
    assert (Hmx : max_over xs (if (R >? 0)%Z then R else 0) = R).
    { apply Z.le_antisymm.
      - apply max_over_le; [|destruct (Z.gtb_spec R 0); lia].
        apply Forall_map. eapply Forall_impl; [exact Hlabels|]. cbn. intros b Hb. apply Hb.
      - etransitivity; [|apply max_over_ge]. destruct (Z.gtb_spec R 0); lia. }
    assert (Hmy : max_over ys (if (C >? 0)%Z then C else 0) = C).
    { apply Z.le_antisymm.
      - apply max_over_le; [|destruct (Z.gtb_spec C 0); lia].
        apply Forall_map. eapply Forall_impl; [exact Hlabels|]. cbn. intros b Hb. apply Hb.
      - etransitivity; [|apply max_over_ge]. destruct (Z.gtb_spec C 0); lia. }
    change (map (fun x : block => digits_value L (e_x (b_entry x))) bs) with xs in Hx, Hnr.
    change (map (fun x : block => digits_value L (e_y (b_entry x))) bs) with ys in Hy, Hnc.
    rewrite Hmx, wrap_small in Hnr by lia. rewrite Hmy, wrap_small in Hnc by lia.
    rewrite Hnr, Hnc in Hn.
    repeat split; assumption.
Qed.
End MMByName.

(** X22: the constructor [COO(fn, AUTO)] on a MatrixMarket file (as in
    [read_mm_reads_a_matrix_market_file]) decides by the file name only.
    When the name ends in [.mtx] the file is read by [read_mm_].
    Otherwise (and not ending in [.graph]) the same bytes are read as an
    edge list, again without an error: the banner is skipped as a
    comment line, and the size line [R C N] is stored as one more edge
    [(R, C)] in front of the entries.  [nrows], [ncols] and [n] are the
    same in both cases. *)
Theorem COO_reads_a_matrix_market_file_by_its_name
    (L O : IntType) {W : Type} (wr : WeightReader W) (W_size : nat)
    (W_bytes : W -> list ascii) (W_of_bytes : list ascii -> W) (P : nat) (junk : Junk W)
    (tcoo tcsr tdg tts : list ascii) (CSR_load : File -> FileType -> res (CSR W))
    (fn field symmetry : list ascii) (gap1 gap2 : list skipline) (R C N : Z)
    (bs : list block) :
  is_word field = true ->
  string_eq field "complex" = false ->
  mm_symmetry symmetry = true ->
  forallb skip_ok gap1 = true ->
  forallb skip_ok gap2 = true ->
  forallb block_ok bs = true ->
  (0 <= R /\ R + 1 < upper L)%Z ->
  (0 <= C /\ C + 1 < upper L)%Z ->
  (0 <= N < upper O)%Z ->
  0 < P ->
  fits O (Z.of_nat (length bs)) ->
  fits O (Z.of_nat (S (length bs))) ->
  labels_within L R C bs ->
  (N <= Z.of_nat (length bs))%Z ->
  has_extension fn (bytes_of ".graph") = false ->
  exists c : COO W,
    COO_from_file false false false false L O wr W_size W_bytes W_of_bytes P junk
      (bytes_of "PIGO" ++ tcoo) (bytes_of "PIGO" ++ tcsr) (bytes_of "PIGO" ++ tdg)
      (bytes_of "PIGO" ++ tts) CSR_load fn
      (mm_text field symmetry gap1 R C N gap2 bs) AUTO = Returns c
    /\ nrows_ c = (R + 1)%Z /\ ncols_ c = (C + 1)%Z /\ n_ c = Z.max (R + 1) (C + 1)
    /\ if has_extension fn (bytes_of ".mtx")
       then x_ c = map (fun b => fst (entry_xy L (b_entry b))) bs
            /\ y_ c = map (fun b => snd (entry_xy L (b_entry b))) bs
            /\ m_ c = Z.of_nat (length bs)
       else x_ c = R :: map (fun b => fst (entry_xy L (b_entry b))) bs
            /\ y_ c = C :: map (fun b => snd (entry_xy L (b_entry b))) bs
            /\ m_ c = Z.of_nat (S (length bs)).
Proof. intros. apply COO_of_mm_text; assumption. Qed.

Lemma COO_reads_a_matrix_market_file_by_its_name_witness :
  exists c : COO Z,
    COO_from_file false false false false uint32_t uint64_t (unsigned_weight uint32_t)
      4 (encode_le 4) decode_le 2 zero_junk
      (bytes_of "PIGO" ++ bytes_of "-COO-v2") (bytes_of "PIGO" ++ bytes_of "-CSR-v2")
      (bytes_of "PIGO" ++ bytes_of "-DiGraph-v2") (bytes_of "PIGO" ++ bytes_of "-Tensor-v1")
      (fun _ _ => Throw (Error "no CSR")) (bytes_of "m.txt")
      (mm_text (bytes_of "pattern") (bytes_of "general") sample_gap 3 2 3 [] sample_blocks)
      AUTO = Returns c
    /\ nrows_ c = (3 + 1)%Z /\ ncols_ c = (2 + 1)%Z /\ n_ c = Z.max (3 + 1) (2 + 1)
    /\ if has_extension (bytes_of "m.txt") (bytes_of ".mtx")
       then x_ c = map (fun b => fst (entry_xy uint32_t (b_entry b))) sample_blocks
            /\ y_ c = map (fun b => snd (entry_xy uint32_t (b_entry b))) sample_blocks
            /\ m_ c = Z.of_nat (length sample_blocks)
       else x_ c = 3%Z :: map (fun b => fst (entry_xy uint32_t (b_entry b))) sample_blocks
            /\ y_ c = 2%Z :: map (fun b => snd (entry_xy uint32_t (b_entry b))) sample_blocks
            /\ m_ c = Z.of_nat (S (length sample_blocks)).
Proof.
  apply (COO_reads_a_matrix_market_file_by_its_name uint32_t uint64_t
           (unsigned_weight uint32_t) 4 (encode_le 4) decode_le 2 zero_junk
           (bytes_of "-COO-v2") (bytes_of "-CSR-v2") (bytes_of "-DiGraph-v2")
           (bytes_of "-Tensor-v1") (fun _ _ => Throw (Error "no CSR")) (bytes_of "m.txt")
           (bytes_of "pattern") (bytes_of "general") sample_gap [] 3 2 3 sample_blocks).
  - reflexivity.
  - reflexivity.
  - reflexivity.
  - reflexivity.
  - reflexivity.
  - reflexivity.
  - vm_compute; split; [discriminate | reflexivity].
  - vm_compute; split; [discriminate | reflexivity].
  - vm_compute; split; [discriminate | reflexivity].
  - lia.
  - reflexivity.
  - reflexivity.
  - repeat constructor; vm_compute; discriminate.
  - cbn; lia.
  - reflexivity.
Defined.

(** ** [read_mm_] and labels above the header *)

Lemma max_over_exists (R : Z) (l : list Z) :
  Exists (fun v => (R < v)%Z) l -> forall m : Z, (R < max_over l m)%Z.
Proof.
  induction 1 as [v l Hv | v l _ IH]; intros m;
    change (max_over (v :: l) m) with (max_over l (if (v >? m)%Z then v else m)).
  - pose proof (max_over_ge l (if (v >? m)%Z then v else m)) as Hge.
    destruct (Z.gtb_spec v m); lia.
  - apply IH.
Qed.

Section MMReject.
Variables (L O : IntType).
Variables (field symmetry : list ascii) (gap1 gap2 : list skipline) (R C N : Z).
Variable bs : list block.
Hypothesis Hfield : is_word field = true.
Hypothesis Hcomplex : string_eq field "complex" = false.
Hypothesis Hsym : mm_symmetry symmetry = true.
Hypothesis Hgap1 : forallb skip_ok gap1 = true.
Hypothesis Hgap2 : forallb skip_ok gap2 = true.
Hypothesis Hbs : forallb block_ok bs = true.
Hypothesis HR : (0 <= R /\ R + 1 < upper L)%Z.
Hypothesis HC : (0 <= C /\ C + 1 < upper L)%Z.
Hypothesis HN : (0 <= N < upper O)%Z.
Context {W : Type}.
Variables (wr : WeightReader W) (junk : Junk W) (P : nat).
Hypothesis HP : 0 < P.
Hypothesis Hfit : fits O (Z.of_nat (length bs)).
Hypothesis Hsmall :
  Forall (fun b => (row_label L b + 1 < upper L /\ col_label L b + 1 < upper L)%Z) bs.

Let text : list ascii := mm_text field symmetry gap1 R C N gap2 bs.

(** The entries of the file as [read_mm_] has them before its checks. *)
Lemma read_mm_as_check :
  exists c : COO W,
    read_mm_ false false false false L O wr P junk text fresh (whole text)
    = mm_check false false O (R + 1) (C + 1) N c
    /\ nrows_ c = (max_over (map (row_label L) bs) 0 + 1)%Z
    /\ ncols_ c = (max_over (map (col_label L) bs) 0 + 1)%Z.
Proof.
  unfold read_mm_, text.
  rewrite (read_mm_header_text L O field symmetry gap1 gap2 R C N bs Hfield Hcomplex Hsym
             Hgap1 Hgap2 Hbs HR HC HN _ eq_refl).
  rewrite mm_text_split.
  set (pre := mm_banner ++ _). set (body := render_blocks bs).
  replace (mkReader (length (pre ++ body) - length body) (length (pre ++ body)))
    with (shift (length pre) (whole body))
    by (unfold shift, whole; cbn [d end_]; rewrite length_app; f_equal; lia).
  rewrite read_el_shift.
  assert (Hok : file_ok [] bs = true) by exact Hbs.
  assert (Hfit' : fits O (Z.of_nat (length (entries false false false L bs))))
    by (rewrite entries_plain, length_map; exact Hfit).
  pose proof (read_el_blocks [] bs Hok false false false L O wr junk P HP Hfit') as Hc.
  cbv zeta in Hc. change (render_file [] bs) with body in Hc.
  set (c := read_el_ body false false false false L O wr P junk fresh (whole body)) in *.
  destruct Hc as (_ & _ & _ & _ & Hnr & Hnc & _).
  rewrite first_emitted_plain, map_map in Hnr, Hnc.
  exists c. split; [reflexivity|].
  assert (Hmx : (0 <= max_over (map (row_label L) bs) 0 < upper L - 1)%Z).
  { split; [apply max_over_ge|].
    assert (max_over (map (row_label L) bs) 0 <= upper L - 2)%Z; [|lia].
    apply max_over_le; [|lia]. apply Forall_map.
    eapply Forall_impl; [exact Hsmall|]. cbv beta. intros b Hb. lia. }
  assert (Hmy : (0 <= max_over (map (col_label L) bs) 0 < upper L - 1)%Z).
  { split; [apply max_over_ge|].
    assert (max_over (map (col_label L) bs) 0 <= upper L - 2)%Z; [|lia].
    apply max_over_le; [|lia]. apply Forall_map.
    eapply Forall_impl; [exact Hsmall|]. cbv beta. intros b Hb. lia. }
  split.
  - rewrite Hnr.
    change (map (fun x : block => fst (entry_xy L (b_entry x))) bs)
      with (map (row_label L) bs).
    apply wrap_small. lia.
  - rewrite Hnc.
    change (map (fun x : block => snd (entry_xy L (b_entry x))) bs)
      with (map (col_label L) bs).
    apply wrap_small. lia.
Qed.

Lemma read_mm_rejects :
  (Exists (fun b => (R < row_label L b)%Z) bs ->
   exists c : COO W,
     read_mm_ false false false false L O wr P junk text fresh (whole text)
     = Throws (Error "Too many row labels in file contradicting header") c)
  /\ (Forall (fun b => (row_label L b <= R)%Z) bs ->
      Exists (fun b => (C < col_label L b)%Z) bs ->
      exists c : COO W,
        read_mm_ false false false false L O wr P junk text fresh (whole text)
        = Throws (Error "Too many col labels in file contradicting header") c).
Proof.
  destruct read_mm_as_check as (c & Hrun & Hnr & Hnc).
  split.
  - intros Hex.
    pose proof (max_over_exists R (map (row_label L) bs)
                  ltac:(apply List.Exists_exists in Hex as (b & Hin & Hb);
                        apply List.Exists_exists; exists (row_label L b);
                        split; [apply in_map, Hin | exact Hb]) 0%Z) as Hgt.
    exists (free c). rewrite Hrun. unfold mm_check.
    replace (R + 1 >=? nrows_ c)%Z with false
      by (symmetry; rewrite Z.geb_leb; apply Z.leb_gt; lia).
    cbn [negb]. reflexivity.
  - intros Hall Hex.
    pose proof (max_over_le (map (row_label L) bs) R
                  ltac:(apply Forall_map; exact Hall) 0%Z ltac:(lia)) as Hle.
    pose proof (max_over_exists C (map (col_label L) bs)
                  ltac:(apply List.Exists_exists in Hex as (b & Hin & Hb);
                        apply List.Exists_exists; exists (col_label L b);
                        split; [apply in_map, Hin | exact Hb]) 0%Z) as Hgt.
    exists (free (set_nrows c (R + 1))). rewrite Hrun. unfold mm_check.
    replace (R + 1 >=? nrows_ c)%Z with true
      by (symmetry; rewrite Z.geb_leb; apply Z.leb_le; lia).
    cbv beta iota zeta delta [negb].
    replace (C + 1 >=? ncols_ (set_nrows c (R + 1)))%Z with false
      by (symmetry; cbn [ncols_ set_nrows]; rewrite Z.geb_leb; apply Z.leb_gt; lia).
    reflexivity.
Qed.
End MMReject.



(** ** [read_el_] with weights *)

Lemma stored_w_refl {W : Type} (c : COO W) (pos : nat) : stored_w c c pos [] [].
Proof. repeat split. Qed.

Lemma stored_w_trans {W : Type} (c c1 c2 : COO W) (pos : nat)
    (es1 es2 : list (Z * Z)) (ws1 ws2 : list W) :
  length ws1 = length es1 ->
  stored_w c c1 pos es1 ws1 -> stored_w c1 c2 (pos + length es1) es2 ws2 ->
  stored_w c c2 pos (es1 ++ es2) (ws1 ++ ws2).
Proof.
  intros Hl (Hx1 & Hy1 & Hw1 & Hm1) (Hx2 & Hy2 & Hw2 & Hm2).
  unfold stored_w. rewrite !map_app, !blit_app, !length_map, Hl.
  rewrite Hx2, Hy2, Hw2, Hm2, Hx1, Hy1, Hw1, Hm1. auto.
Qed.

(** Without flags the counting pass does not look at the weight. *)
Lemma pass1_loop_wgt (data : list ascii) (L : IntType) {W : Type} (wr : WeightReader W)
    (fuel : nat) :
  forall (pos : nat) (r : FileReader),
    pass1_loop data false false false true L wr fuel pos r
    = pass1_loop data false false false false L wr fuel pos r.
Proof.
  induction fuel as [|fuel IH]; intros pos r; [reflexivity|].
  cbn [pass1_loop]. destruct (good r); [|reflexivity].
  unfold read_coord_entry_true. cbn [no_flags negb andb].
  destruct (read_coord_entry_count_noflags data pos r) as [n r']. apply IH.
Qed.

Section Weighted.
Variable L : IntType.
Context {W A : Type}.
Variable wr : WeightReader W.
Variables (blk : A -> block) (wv : A -> W) (Wok : A -> Prop).

(** What is asked of the weight reader: called behind the second label
    of a line, it returns the weight of the line and stops on the line. *)
Hypothesis Hwr :
  forall (data : list ascii) (a : A) (rest : list ascii) (p e : nat),
    Wok a -> block_ok (blk a) = true ->
    drop p data = e_trail (b_entry (blk a)) ++ NL :: rest ->
    p + length (e_trail (b_entry (blk a))) < e ->
    exists q, wgt_set wr data (mkReader p e) = (wv a, mkReader q e)
              /\ p <= q <= p + length (e_trail (b_entry (blk a))).

Lemma wblock_set (data : list ascii) (a : A) (rest : list ascii) (p e : nat)
    (c : COO W) (pos : nat) (mr mc : Z) :
  drop p data = render_block (blk a) ++ rest ->
  block_ok (blk a) = true ->
  p + length (render_block (blk a)) <= e ->
  cut data (p + length (render_block (blk a))) e ->
  Wok a ->
  read_coord_entry_set_noflags data true L wr (mkPState c pos (mkReader p e) mr mc)
  = mkPState (set_y (set_x (set_w c pos (wv a)) pos
                       (fst (entry_xy L (b_entry (blk a)))))
                pos (snd (entry_xy L (b_entry (blk a)))))
      (pos + 1) (mkReader (p + length (render_block (blk a))) e)
      (if (fst (entry_xy L (b_entry (blk a))) >? mr)%Z
       then fst (entry_xy L (b_entry (blk a))) else mr)
      (if (snd (entry_xy L (b_entry (blk a))) >? mc)%Z
       then snd (entry_xy L (b_entry (blk a))) else mc).
Proof.
  intros Hd Hok He Hcut HW.
  pose proof (block_drop_entry data _ _ _ Hd) as Hde.
  pose proof (block_entry_ok _ Hok) as Hen.
  pose proof (block_entry_fits L _ _ _ He) as Hfit.
  pose proof (entry_length _ _ _ Hfit) as Hlen.
  set (en := b_entry (blk a)) in *.
  unfold read_coord_entry_set_noflags. cbn [rd this coord_pos max_row max_col].
  rewrite (entry_read_x data L en _ p e Hde Hen Hfit).
  rewrite (entry_to_y data en _ p e Hde Hen Hfit).
  rewrite (entry_read_y data L en _ p e Hde Hen Hfit).
  pose proof (entry_drop_trail data en _ p Hde) as Hdt.
  set (p3 := p + length (e_x en) + length (e_sep en) + length (e_y en)) in *.
  assert (Hp3 : p <= p3) by (unfold p3; lia).
  assert (Hlt : p3 + length (e_trail en) < e) by lia.
  destruct (Hwr data a _ p3 e HW Hok Hdt Hlt) as (q & Hq & Hql).
  fold en in Hql.
  unfold read_wgt_set. rewrite Hq.
  unfold good. cbn [d end_]. rewrite (proj2 (Nat.ltb_lt q e)) by lia. cbn [negb].
  destruct (entry_ok_inv en Hen) as (_ & _ & _ & _ & Hnl).
  assert (Hdq : drop q data
                = drop (q - p3) (e_trail en) ++ NL :: render_gap (b_gap (blk a)) ++ rest).
  { replace q with (p3 + (q - p3)) at 1 by lia.
    rewrite <- drop_drop, Hdt. apply drop_app_le. lia. }
  rewrite (move_to_eol_over data _ _ q e Hdq (forallb_drop _ _ _ Hnl))
    by (rewrite length_drop; lia).
  replace (q + length (drop (q - p3) (e_trail en))) with (p3 + length (e_trail en))
    by (rewrite length_drop; lia).
  subst p3 en. rewrite (block_to_next data L (blk a) rest p e Hd Hok He Hcut).
  reflexivity.
Qed.

(** Pass 2 with weights over the lines of a range. *)
Lemma pass2_loop_wblocks (data : list ascii) (e : nat) (rest : list ascii) :
  forall (seg : list A) (p : nat) (c : COO W) (pos : nat) (mr mc : Z) (fuel : nat),
    in_front data e rest p (map blk seg) -> Forall Wok seg -> e - p <= fuel ->
    exists c',
      pass2_loop data false false false true L wr fuel (mkPState c pos (mkReader p e) mr mc)
      = mkPState c' (pos + length seg) (mkReader e e)
          (max_over (map (fun a => fst (entry_xy L (b_entry (blk a)))) seg) mr)
          (max_over (map (fun a => snd (entry_xy L (b_entry (blk a)))) seg) mc)
      /\ stored_w c c' pos (map (fun a => entry_xy L (b_entry (blk a))) seg) (map wv seg).
Proof.
  induction seg as [|a seg IH]; intros p c pos mr mc fuel Hf HW Hfuel.
  - exists c. rewrite (in_front_nil _ _ _ p Hf). cbn [length map]. rewrite Nat.add_0_r.
    split; [|apply stored_w_refl].
    destruct fuel; cbn [pass2_loop rd]; unfold good; cbn [d end_];
      rewrite ?Nat.ltb_irrefl; reflexivity.
  - cbn [map] in Hf.
    destruct (in_front_cons _ _ _ p _ _ Hf) as (Hd & Hb & He & Hcut & Hnext).
    inversion HW as [|? ? Ha HW']; subst.
    pose proof (render_block_length (blk a)) as Hbl.
    destruct fuel as [|fuel]; [lia|].
    cbn [pass2_loop rd]. unfold good. cbn [d end_].
    rewrite (proj2 (Nat.ltb_lt p e)) by lia.
    unfold read_coord_entry_false. cbn [no_flags negb andb].
    rewrite (wblock_set data a _ p e c pos mr mc Hd Hb He Hcut Ha).
    set (c1 := set_y (set_x (set_w c pos (wv a)) pos (fst (entry_xy L (b_entry (blk a)))))
                 pos (snd (entry_xy L (b_entry (blk a))))).
    destruct (IH (p + length (render_block (blk a))) c1 (pos + 1)
                (if (fst (entry_xy L (b_entry (blk a))) >? mr)%Z
                 then fst (entry_xy L (b_entry (blk a))) else mr)
                (if (snd (entry_xy L (b_entry (blk a))) >? mc)%Z
                 then snd (entry_xy L (b_entry (blk a))) else mc)
                fuel Hnext HW' ltac:(lia)) as (c2 & -> & Hst2).
    exists c2. cbn [length map]. split; [f_equal; lia|].
    change (entry_xy L (b_entry (blk a)) :: ?es) with ([entry_xy L (b_entry (blk a))] ++ es).
    change (wv a :: ?ws) with ([wv a] ++ ws).
    apply (stored_w_trans c c1 c2); [reflexivity| |exact Hst2].
    unfold stored_w. cbn. auto.
Qed.
End Weighted.

Section WeightedFile.
Variables L O : IntType.
Context {W A : Type}.
Variable wr : WeightReader W.
Variables (blk : A -> block) (wv : A -> W) (Wok : A -> Prop).
Hypothesis Hwr :
  forall (data : list ascii) (a : A) (rest : list ascii) (p e : nat),
    Wok a -> block_ok (blk a) = true ->
    drop p data = e_trail (b_entry (blk a)) ++ NL :: rest ->
    p + length (e_trail (b_entry (blk a))) < e ->
    exists q, wgt_set wr data (mkReader p e) = (wv a, mkReader q e)
              /\ p <= q <= p + length (e_trail (b_entry (blk a))).
Variables (gap0 : list skipline) (ls : list A).
Hypothesis Hok : file_ok gap0 (map blk ls) = true.
Hypothesis HW : Forall Wok ls.
Variables (junk : Junk W) (P : nat).
Hypothesis HP : 0 < P.

Let bs : list block := map blk ls.
Let data : list ascii := render_file gap0 bs.
Let xy (a : A) : Z * Z := entry_xy L (b_entry (blk a)).
Let tb (t : nat) : nat := thread_block gap0 bs P t.

Lemma plain_count (k : nat) :
  k <= length ls -> length (entries false false false L (take k bs)) = k.
Proof.
  intros Hk. rewrite entries_plain, length_map, length_take.
  unfold bs. rewrite length_map. lia.
Qed.

Lemma pass2_threads_w (c0 : COO W) (n : nat) :
  n <= P ->
  exists c',
    fold_left
      (pass2_thread data false false false true L wr P (whole data)
         (map (fun t => length (entries false false false L (take (tb (S t)) bs)))
              (seq 0 P)))
      (seq 0 n) (c0, 0%Z, 0%Z)
    = (c', max_over (map (fun a => fst (xy a)) (take (tb n) ls)) 0,
           max_over (map (fun a => snd (xy a)) (take (tb n) ls)) 0)
    /\ stored_w c0 c' 0 (map xy (take (tb n) ls)) (map wv (take (tb n) ls)).
Proof.
  assert (Hlen : length bs = length ls) by (unfold bs; apply length_map).
  induction n as [|n IH]; intros Hn.
  - exists c0. assert (E0 : tb 0 = 0) by reflexivity. rewrite E0.
    cbn. split; [reflexivity | apply stored_w_refl].
  - destruct (IH ltac:(lia)) as (c1 & Hfold & Hst1).
    rewrite seq_S, fold_left_app, Hfold. cbn [fold_left Nat.add].
    unfold pass2_thread, data.
    rewrite (thread_range_blocks gap0 bs Hok P HP n ltac:(lia)).
    fold (tb n). fold (tb (S n)).
    pose proof (thread_block_le gap0 bs P HP n) as Hle. fold (tb n) in Hle.
    pose proof (thread_block_le gap0 bs P HP (S n)) as HleS. fold (tb (S n)) in HleS.
    pose proof (thread_block_mono gap0 bs P HP n) as Hmono.
    fold (tb n) in Hmono. fold (tb (S n)) in Hmono.
    assert (Hpos : (if 0 <? n
                    then nth (n - 1)
                           (map (fun t => length (entries false false false L
                                                    (take (tb (S t)) bs)))
                                (seq 0 P)) 0
                    else 0) = tb n).
    { destruct n as [|n']; [reflexivity|].
      cbn [Nat.ltb Nat.leb]. rewrite nth_map_seq by lia.
      replace (S n' - 1) with n' by lia. apply plain_count. lia. }
    rewrite Hpos. clear Hpos.
    set (k := tb n) in *. set (m := tb (S n) - k).
    assert (Hkm : k + m <= length bs) by (unfold m; lia).
    replace (tb (S n)) with (k + m) by (unfold m; lia).
    pose proof (in_front_range gap0 bs Hok k m Hkm) as Hfr.
    assert (Hseg : take m (drop k bs) = map blk (take m (drop k ls)))
      by (unfold bs; rewrite skipn_map, firstn_map; reflexivity).
    rewrite Hseg in Hfr.
    unfold pass2, size. cbn [rd d end_].
    destruct (pass2_loop_wblocks L wr blk wv Wok Hwr _ _ _ (take m (drop k ls))
                (block_start gap0 bs k) c1 k 0%Z 0%Z _ Hfr
                ltac:(apply Forall_take, Forall_drop, HW) (Nat.le_refl _))
      as (c2 & -> & Hst2).
    exists c2. cbn [this max_row max_col].
    rewrite <- (take_take_drop ls k m), !map_app, !max_over_app.
    split.
    + rewrite !max_over_max.
      rewrite !Z.max_l by apply max_over_ge. reflexivity.
    + apply (stored_w_trans c0 c1 c2); [rewrite !length_map; reflexivity|exact Hst1|].
      rewrite length_map, length_take, Nat.min_l by lia. exact Hst2.
Qed.

(** [read_el_] with weights on a text whose lines all hold a weight,
    whatever the number of threads. *)
Lemma read_el_wblocks :
  fits O (Z.of_nat (length ls)) ->
  let c := read_el_ data false false false true L O wr P junk fresh (whole data) in
  x_ c = map (fun a => fst (xy a)) ls
  /\ y_ c = map (fun a => snd (xy a)) ls
  /\ w_ c = map wv ls
  /\ m_ c = Z.of_nat (length ls)
  /\ nrows_ c = wrap L (max_over (map (fun a => fst (xy a)) ls) 0 + 1)
  /\ ncols_ c = wrap L (max_over (map (fun a => snd (xy a)) ls) 0 + 1)
  /\ n_ c = Z.max (nrows_ c) (ncols_ c).
Proof.
  assert (Hlen : length bs = length ls) by (unfold bs; apply length_map).
  intros Hfit c. subst c. unfold read_el_, read_el_order. cbv zeta.
  replace (map (fun tid => pass1 data false false false true L wr
                             (thread_range data P (whole data) tid)) (seq 0 P))
    with (map (fun tid => pass1 data false false false false L wr
                            (thread_range data P (whole data) tid)) (seq 0 P))
    by (apply map_ext; intros t; unfold pass1; symmetry; apply pass1_loop_wgt).
  unfold data.
  rewrite (nl_offsets_blocks gap0 bs Hok false false false L wr P HP).
  rewrite nth_map_seq by lia.
  replace (S (P - 1)) with P by lia.
  rewrite (thread_block_last gap0 bs P HP), firstn_all.
  rewrite entries_plain, length_map, Hlen.
  unfold fits in Hfit. rewrite Hfit.
  destruct (pass2_threads_w
              (allocate_ true junk (set_m fresh (Z.of_nat (length ls)))) P (Nat.le_refl _))
    as (c' & Hfold & Hst).
  unfold tb, data in Hfold. rewrite Hfold. clear Hfold.
  unfold tb in Hst.
  rewrite (thread_block_last gap0 bs P HP), Hlen, firstn_all in *.
  destruct Hst as (Hx & Hy & Hw & Hm).
  cbn [allocate_ set_m fresh x_ y_ w_ m_] in Hx, Hy, Hw, Hm.
  rewrite Nat2Z.id in Hx, Hy, Hw. rewrite map_map in Hx, Hy.
  rewrite blit_whole in Hx by (rewrite !length_map, length_seq; reflexivity).
  rewrite blit_whole in Hy by (rewrite !length_map, length_seq; reflexivity).
  rewrite blit_whole in Hw by (rewrite !length_map, length_seq; reflexivity).
  cbn [x_ y_ w_ m_ nrows_ ncols_ n_ set_n set_ncols set_nrows].
  split_ands; try assumption; try reflexivity.
  match goal with |- (if (?a >? ?b)%Z then _ else _) = _ => destruct (Z.gtb_spec a b); lia end.
Qed.
End WeightedFile.

(** The reader of an unsigned integral weight, behind the second label of
    a line that holds a weight. *)
Lemma unsigned_weight_reads (T : IntType) (data : list ascii) (l : wentry)
    (rest : list ascii) (p e : nat) :
  wentry_ok l = true -> block_ok (wblock l) = true ->
  drop p data = e_trail (b_entry (wblock l)) ++ NL :: rest ->
  p + length (e_trail (b_entry (wblock l))) < e ->
  exists q, wgt_set (unsigned_weight T) data (mkReader p e)
            = (digits_value T (we_w l), mkReader q e)
            /\ p <= q <= p + length (e_trail (b_entry (wblock l))).
Proof.
  intros Hok _ Hd He. cbn [wblock b_entry e_trail] in *.
  unfold wentry_ok in Hok.
  apply andb_prop in Hok as [Hok Htr]. apply andb_prop in Hok as [Hok Hwd].
  apply andb_prop in Hok as [Hok Hwn]. apply andb_prop in Hok as [Hok Hgf].
  apply andb_prop in Hok as [_ Hgn].
  apply negb_true_iff, Nat.eqb_neq in Hgn. apply negb_true_iff, Nat.eqb_neq in Hwn.
  apply negb_true_iff in Htr.
  rewrite !length_app in He. rewrite <- !app_assoc in Hd.
  exists (p + length (we_gap l) + length (we_w l)).
  split; [|rewrite !length_app; lia].
  cbn [unsigned_weight wgt_set].
  assert (Hhd : is_digit (nth 0 (we_w l ++ we_trail l ++ NL :: rest) zero) = true).
  { destruct (we_w l) as [|a w]; [cbn in Hwn; lia|].
    cbn [forallb] in Hwd. apply andb_prop in Hwd as [Ha _]. exact Ha. }
  rewrite (move_to_next_int_over data (we_gap l) _ p e Hd
             ltac:(intros E; rewrite E in Hgn; cbn in Hgn; lia) Hgf ltac:(lia) Hhd).
  apply drop_step in Hd.
  apply (read_int_over data T (we_w l) _ _ e Hd).
  - intros E. rewrite E in Hwn. cbn in Hwn. lia.
  - exact Hwd.
  - lia.
  - right. destruct (we_trail l) as [|a tr]; [reflexivity | exact Htr].
Qed.

Lemma wentries_file_ok (gap0 : list skipline) (ls : list wentry) :
  forallb skip_ok gap0 = true -> forallb wentry_ok ls = true ->
  file_ok gap0 (map wblock ls) = true /\ Forall (fun l => wentry_ok l = true) ls.
Proof.
  intros Hg Hl. unfold file_ok. rewrite Hg. cbn [andb].
  induction ls as [|l ls IH]; [split; [reflexivity | constructor]|].
  cbn [forallb map] in *. apply andb_prop in Hl as [Hl Hls].
  destruct (IH Hls) as [IH1 IH2]. rewrite IH1, andb_true_r.
  split; [|constructor; assumption].
  assert (Hb := Hl). unfold wentry_ok in Hb.
  do 5 (apply andb_prop in Hb as [Hb _]). exact Hb.
Qed.

(** X23: [read_el_] with weights of an unsigned integral type, without
    flags, on a text in which every entry line holds a weight (a third
    run of digits): whatever the number of threads, the labels and the
    weights of the lines are in the three arrays in the order of the
    lines, and [m] is their number.  What follows the weight on a line,
    a fraction included, is dropped. *)
Theorem read_el_stores_the_weights_of_the_lines
    (L O T : IntType) (gap0 : list skipline) (ls : list wentry) (junk : Junk Z) (P : nat) :
  forallb skip_ok gap0 = true ->
  forallb wentry_ok ls = true ->
  0 < P ->
  fits O (Z.of_nat (length ls)) ->
  let c := read_el_ (render_file gap0 (map wblock ls)) false false false true L O
             (unsigned_weight T) P junk fresh
             (whole (render_file gap0 (map wblock ls))) in
  x_ c = map (fun l => fst (wentry_xy L l)) ls
  /\ y_ c = map (fun l => snd (wentry_xy L l)) ls
  /\ w_ c = map (fun l => digits_value T (we_w l)) ls
  /\ m_ c = Z.of_nat (length ls)
  /\ nrows_ c = wrap L (max_over (map (fun l => fst (wentry_xy L l)) ls) 0 + 1)
  /\ ncols_ c = wrap L (max_over (map (fun l => snd (wentry_xy L l)) ls) 0 + 1)
  /\ n_ c = Z.max (nrows_ c) (ncols_ c).
Proof.
  intros Hg Hl HP Hfit.
  destruct (wentries_file_ok gap0 ls Hg Hl) as [Hok HW].
  exact (read_el_wblocks L O (unsigned_weight T) wblock
           (fun l => digits_value T (we_w l)) (fun l => wentry_ok l = true)
           (unsigned_weight_reads T) gap0 ls Hok HW junk P HP Hfit).
Qed.

Lemma read_el_stores_the_weights_of_the_lines_witness :
  let c := read_el_ (render_file sample_gap (map wblock sample_wentries))
             false false false true uint32_t uint64_t (unsigned_weight uint32_t) 2
             zero_junk fresh
             (whole (render_file sample_gap (map wblock sample_wentries))) in
  x_ c = map (fun l => fst (wentry_xy uint32_t l)) sample_wentries
  /\ y_ c = map (fun l => snd (wentry_xy uint32_t l)) sample_wentries
  /\ w_ c = map (fun l => digits_value uint32_t (we_w l)) sample_wentries
  /\ m_ c = Z.of_nat (length sample_wentries)
  /\ nrows_ c
     = wrap uint32_t (max_over (map (fun l => fst (wentry_xy uint32_t l)) sample_wentries) 0 + 1)
  /\ ncols_ c
     = wrap uint32_t (max_over (map (fun l => snd (wentry_xy uint32_t l)) sample_wentries) 0 + 1)
  /\ n_ c = Z.max (nrows_ c) (ncols_ c).
Proof.
  apply (read_el_stores_the_weights_of_the_lines uint32_t uint64_t uint32_t sample_gap
           sample_wentries zero_junk 2).
  - reflexivity.
  - reflexivity.
  - lia.
  - reflexivity.
Defined.


(** ** Threads that write lines one after the other *)

Section WriteLines.
Variables (wentry : WPos -> nat -> WPos) (esize : nat -> nat) (line : nat -> list ascii).
Variable ok : nat -> Prop.
Hypothesis Hline :
  forall (buf : list ascii) (p e : nat),
    ok e ->
    wentry (buf, p) e = (blit buf p (line e), p + length (line e))
    /\ esize e = length (line e).

Lemma write_lines (es : list nat) :
  forall (buf : list ascii) (p : nat),
    Forall ok es ->
    fold_left wentry es (buf, p)
    = (blit buf p (flat_map line es), p + length (flat_map line es)).
Proof.
  induction es as [|e es IH]; intros buf p Hes; cbn [fold_left flat_map].
  - cbn. f_equal. lia.
  - inversion Hes as [|? ? He Hes']; subst.
    destruct (Hline buf p e He) as [-> _].
    rewrite IH by exact Hes'. rewrite blit_app, length_app. f_equal. lia.
Qed.

Lemma size_lines (es : list nat) :
  forall s : nat,
    Forall ok es ->
    fold_left (fun s e => s + esize e) es s = s + length (flat_map line es).
Proof.
  induction es as [|e es IH]; intros s Hes; cbn [fold_left flat_map].
  - cbn. lia.
  - inversion Hes as [|? ? He Hes']; subst.
    destruct (Hline [] 0 e He) as [_ ->].
    rewrite IH by exact Hes'. rewrite length_app. lia.
Qed.

Variables (P : nat) (share : nat -> list nat).
Hypothesis Hshare : forall t, t < P -> Forall ok (share t).

Let offs : list nat :=
  0 :: prefix_sum 0 (map (fun tid => fold_left (fun s e => s + esize e) (share tid) 0)
                         (seq 0 P)).

Lemma offsets_lines (t : nat) :
  t <= P ->
  nth t offs 0 = length (flat_map line (concat (map share (seq 0 t)))).
Proof.
  intros Ht. unfold offs.
  pose proof (prefix_sum_telescope
                (fun t => length (flat_map line (concat (map share (seq 0 t)))))
                (fun tid => fold_left (fun s e => s + esize e) (share tid) 0) P) as Htel.
  cbv beta in Htel.
  replace (prefix_sum 0 (map (fun tid => fold_left (fun s e => s + esize e) (share tid) 0)
                             (seq 0 P)))
    with (map (fun t => length (flat_map line (concat (map share (seq 0 (S t))))))
              (seq 0 P)).
  2:{ symmetry. apply (fun H => Htel H P 0 ltac:(lia)). intros t' Ht'.
      rewrite seq_S, map_app, concat_app, flat_map_app, length_app.
      cbn [map concat Nat.add]. rewrite app_nil_r.
      rewrite size_lines by (apply Hshare; lia). reflexivity. }
  destruct t as [|t]; [reflexivity|]. cbn [nth]. rewrite nth_map_seq by lia. reflexivity.
Qed.

Lemma threads_write_lines (buf : list ascii) (base n : nat) :
  n <= P ->
  fold_left
    (fun buf tid => fst (fold_left wentry (share tid) (buf, base + nth tid offs 0)))
    (seq 0 n) buf
  = blit buf base (flat_map line (concat (map share (seq 0 n)))).
Proof.
  induction n as [|n IH]; intros Hn; [reflexivity|].
  rewrite seq_S, fold_left_app, IH by lia. cbn [fold_left Nat.add].
  rewrite write_lines by (apply Hshare; lia). cbn [fst].
  rewrite offsets_lines by lia.
  rewrite map_app, concat_app, flat_map_app, blit_app.
  cbn [map concat Nat.add]. rewrite app_nil_r. reflexivity.
Qed.
End WriteLines.

Lemma shares_in_range (P : nat) (share : nat -> list nat) (its : list nat) (t : nat) :
  concat (map share (seq 0 P)) = its -> t < P -> Forall (fun e => In e its) (share t).
Proof.
  intros Hs Ht. apply List.Forall_forall. intros e He. rewrite <- Hs.
  apply in_concat. exists (share t). split; [|exact He]. apply in_map, in_seq. lia.
Qed.

(** ** [COO::write] with weights *)

Lemma map_nth_seq (l : list Z) : map (fun e => nth e l 0%Z) (seq 0 (length l)) = l.
Proof.
  apply (nth_ext _ _ 0%Z 0%Z); [rewrite length_map, length_seq; reflexivity|].
  intros n Hn. rewrite length_map, length_seq in Hn.
  rewrite (nth_indep _ 0%Z (nth (length l) l 0%Z)) by (rewrite length_map, length_seq; lia).
  rewrite (map_nth (fun e => nth e l 0%Z)), seq_nth by lia. reflexivity.
Qed.

Section WriteWText.
Variable L : IntType.
Variable c : COO Z.
Hypothesis Hx : Forall (writable L) (x_ c).
Hypothesis Hy : Forall (writable L) (y_ c).
Hypothesis Hxm : length (x_ c) = Z.to_nat (m_ c).
Hypothesis Hym : length (y_ c) = Z.to_nat (m_ c).
Hypothesis Hwm : length (w_ c) = Z.to_nat (m_ c).

Lemma write_wentry_line (buf : list ascii) (p e : nat) :
  e < Z.to_nat (m_ c) ->
  write_entry true L numeral c (buf, p) e
  = (blit buf p (wedge_line (wedge_at c e)), p + length (wedge_line (wedge_at c e)))
  /\ entry_size true L numeral c e = length (wedge_line (wedge_at c e)).
Proof.
  intros He.
  assert (Hxe : writable L (nth e (x_ c) 0%Z))
    by (apply (proj1 (List.Forall_nth (writable L) (x_ c)) Hx); lia).
  assert (Hye : writable L (nth e (y_ c) 0%Z))
    by (apply (proj1 (List.Forall_nth (writable L) (y_ c)) Hy); lia).
  assert (Hwe : w_ c !! e = Some (nth e (w_ c) 0%Z)).
  { destruct (lookup_lt_is_Some_2 (w_ c) e ltac:(lia)) as [w Hw].
    rewrite (nth_lookup_Some _ _ _ _ Hw). exact Hw. }
  unfold write_entry, entry_size, wedge_line, wedge_at. cbn [fst snd].
  rewrite Hwe. cbn [from_option].
  destruct (write_ascii_numeral L buf p _ Hxe) as [-> Hlx]. rewrite put_blit.
  destruct (write_ascii_numeral L (blit (blit buf p (numeral (nth e (x_ c) 0%Z)))
                                      (p + write_size L (nth e (x_ c) 0%Z)) [SP])
              (p + write_size L (nth e (x_ c) 0%Z) + 1) _ Hye) as [-> Hly].
  rewrite put_blit, put_string_blit, put_blit.
  rewrite !blit_app, !length_app, <- Hlx, <- Hly. cbn [length].
  split; [f_equal; lia | lia].
Qed.

Lemma COO_write_wtext (P : nat) (share : nat -> list nat) (fn : list ascii) :
  (0 < m_ c)%Z ->
  concat (map share (seq 0 P)) = seq 0 (Z.to_nat (m_ c)) ->
  COO_write true L numeral P share c fn
  = Ok (mkFile fn (coo_wtext c) (length (coo_wtext c)) 0).
Proof.
  intros Hm Hsched.
  assert (Hshare : forall t, t < P -> Forall (fun e => e < Z.to_nat (m_ c)) (share t)).
  { intros t Ht. eapply Forall_weaken; [|apply (shares_in_range P share _ t Hsched Ht)].
    cbv beta. intros e He. apply in_seq in He. lia. }
  assert (Hne : 0 < length (coo_wtext c)).
  { unfold coo_wtext. rewrite Hxm. destruct (Z.to_nat (m_ c)) as [|m] eqn:E; [lia|].
    cbn [seq flat_map]. rewrite length_app. unfold wedge_line at 1.
    rewrite !length_app. cbn [length]. lia. }
  unfold COO_write, pos_offsets, my_size. cbv zeta.
  rewrite (offsets_lines _ _ _ _ write_wentry_line P share Hshare P (Nat.le_refl _)).
  rewrite Hsched, <- Hxm. fold (coo_wtext c).
  rewrite File_open_write by exact Hne. cbn [fn_ size_ fp_ data_].
  rewrite (threads_write_lines _ _ _ _ write_wentry_line P share Hshare _ 0 P (Nat.le_refl _)).
  rewrite Hsched, <- Hxm. fold (coo_wtext c).
  rewrite blit_whole; [reflexivity|].
  rewrite length_app, repeat_length. cbn [length]. lia.
Qed.
End WriteWText.

(** ** The text of [COO::write] with weights read by [read_el_] *)

Lemma render_wedge_entries (L T : IntType) (ts : list (Z * Z * Z)) :
  Forall (in_range3 L T) ts ->
  render_file [] (map wblock (map wedge_entry ts)) = flat_map wedge_line ts.
Proof.
  unfold render_file. cbn [render_gap map concat app].
  induction 1 as [|t ts (Hx & Hy & Hw) _ IH]; [reflexivity|].
  cbn [map flat_map].
  change (render_blocks (wblock (wedge_entry t) :: map wblock (map wedge_entry ts)))
    with (render_block (wblock (wedge_entry t))
          ++ render_blocks (map wblock (map wedge_entry ts))).
  rewrite IH. f_equal.
  unfold render_block, render_entry, wblock, wedge_entry, wedge_line.
  cbn [b_entry b_gap e_x e_sep e_y e_trail we_x we_sep we_y we_gap we_w we_trail we_skip
       render_gap map concat].
  rewrite !numeral_nonneg by lia. rewrite !app_nil_r, <- !app_assoc. reflexivity.
Qed.

Lemma wedge_entry_ok (L T : IntType) (t : Z * Z * Z) :
  in_range3 L T t -> wentry_ok (wedge_entry t) = true.
Proof.
  intros (Hx & Hy & Hw). unfold wentry_ok, wblock, wedge_entry, block_ok, entry_ok.
  cbn [b_entry b_gap e_x e_sep e_y e_trail we_x we_sep we_y we_gap we_w we_trail we_skip
       forallb andb app nth length Nat.eqb negb].
  rewrite !decimal_digits by lia.
  rewrite forallb_app, (digits_no_nl _ (decimal_digits _ (proj1 Hw))).
  pose proof (decimal_nonempty _ (proj1 Hx)) as Hnx.
  pose proof (decimal_nonempty _ (proj1 Hy)) as Hny.
  pose proof (decimal_nonempty _ (proj1 Hw)) as Hnw.
  destruct (decimal (fst (fst t))); [congruence|].
  destruct (decimal (snd (fst t))); [congruence|].
  destruct (decimal (snd t)); [congruence|]. reflexivity.
Qed.

Lemma wedges_in_range (L T : IntType) (c : COO Z) :
  Forall (fun v => (0 <= v < upper L)%Z) (x_ c) ->
  Forall (fun v => (0 <= v < upper L)%Z) (y_ c) ->
  Forall (fun v => (0 <= v < upper T)%Z) (w_ c) ->
  length (y_ c) = length (x_ c) -> length (w_ c) = length (x_ c) ->
  Forall (in_range3 L T) (map (wedge_at c) (seq 0 (length (x_ c)))).
Proof.
  intros Hx Hy Hw Hly Hlw. apply Forall_map, List.Forall_forall. intros e He.
  apply in_seq in He. unfold in_range3, wedge_at. cbn [fst snd].
  pose proof (proj1 (List.Forall_nth _ (x_ c)) Hx e 0%Z ltac:(lia)).
  pose proof (proj1 (List.Forall_nth _ (y_ c)) Hy e 0%Z ltac:(lia)).
  pose proof (proj1 (List.Forall_nth _ (w_ c)) Hw e 0%Z ltac:(lia)).
  cbv beta in *. lia.
Qed.

Lemma COO_wtext_round_trip :
  forall (L O T : IntType) (junk : Junk Z) (P1 : nat) (share : nat -> list nat) (P2 : nat)
         (c : COO Z) (fn : list ascii),
    Forall (fun v => (0 <= v < upper L)%Z) (x_ c) ->
    Forall (fun v => (0 <= v < upper L)%Z) (y_ c) ->
    Forall (fun v => (0 <= v < upper T)%Z) (w_ c) ->
    length (x_ c) = Z.to_nat (m_ c) -> length (y_ c) = Z.to_nat (m_ c) ->
    length (w_ c) = Z.to_nat (m_ c) ->
    (0 < m_ c)%Z -> fits O (m_ c) ->
    concat (map share (seq 0 P1)) = seq 0 (Z.to_nat (m_ c)) ->
    0 < P2 ->
    exists f : File,
      COO_write true L numeral P1 share c fn = Ok f
      /\ data_ f = coo_wtext c /\ size_ f = length (data_ f)
      /\ let c' := read_el_ (data_ f) false false false true L O (unsigned_weight T) P2
                     junk fresh (reader f) in
         x_ c' = x_ c /\ y_ c' = y_ c /\ w_ c' = w_ c /\ m_ c' = m_ c.
Proof.
  intros L O T junk P1 share P2 c fn Hx Hy Hw Hxm Hym Hwm Hm HO Hsched HP2.
  exists (mkFile fn (coo_wtext c) (length (coo_wtext c)) 0).
  split.
  { apply COO_write_wtext; try assumption;
      eapply Forall_weaken; try eassumption; apply nonneg_writable. }
  split; [reflexivity|]. split; [reflexivity|].
  unfold reader. cbn [data_ fp_ size_].
  set (ts := map (wedge_at c) (seq 0 (length (x_ c)))).
  pose proof (wedges_in_range L T c Hx Hy Hw ltac:(lia) ltac:(lia)) as Hts. fold ts in Hts.
  assert (Htext : coo_wtext c = render_file [] (map wblock (map wedge_entry ts))).
  { rewrite (render_wedge_entries L T ts Hts). unfold ts, coo_wtext.
    symmetry. apply flat_map_map. }
  assert (Hlen : length (map wedge_entry ts) = Z.to_nat (m_ c))
    by (unfold ts; rewrite !length_map, length_seq; exact Hxm).
  assert (Hls : forallb wentry_ok (map wedge_entry ts) = true).
  { apply forallb_forall. intros l Hl. apply in_map_iff in Hl as (t & <- & Ht).
    apply (wedge_entry_ok L T). apply (proj1 (List.Forall_forall _ _) Hts t Ht). }
  destruct (wentries_file_ok [] _ eq_refl Hls) as [Hok HW].
  rewrite Htext.
  change (mkReader 0 (length (render_file [] (map wblock (map wedge_entry ts)))))
    with (whole (render_file [] (map wblock (map wedge_entry ts)))).
  destruct (read_el_wblocks L O (unsigned_weight T) wblock
              (fun l => digits_value T (we_w l)) (fun l => wentry_ok l = true)
              (unsigned_weight_reads T) [] (map wedge_entry ts) Hok HW junk P2 HP2)
    as (Ex & Ey & Ew & Em & _).
  { rewrite Hlen, Z2Nat.id by lia. exact HO. }
  cbv zeta. rewrite Ex, Ey, Ew, Em, Hlen, Z2Nat.id by lia.
  rewrite !map_map. unfold ts. rewrite !map_map.
  unfold wblock, wedge_entry, wedge_at, entry_xy.
  cbn [b_entry e_x e_y we_x we_y we_w fst snd].
  assert (Hin : forall e, In e (seq 0 (length (x_ c))) ->
                  (0 <= nth e (x_ c) 0 < upper L /\ 0 <= nth e (y_ c) 0 < upper L
                   /\ 0 <= nth e (w_ c) 0 < upper T)%Z).
  { intros e He. apply (proj1 (List.Forall_forall _ _) Hts (wedge_at c e)).
    unfold ts. apply in_map. exact He. }
  split; [|split; [|split; [|reflexivity]]].
  - transitivity (map (fun e => nth e (x_ c) 0%Z) (seq 0 (length (x_ c))));
      [|apply map_nth_seq].
    apply map_ext_in. intros e He. apply digits_value_decimal, (Hin e He).
  - transitivity (map (fun e => nth e (y_ c) 0%Z) (seq 0 (length (y_ c))));
      [|apply map_nth_seq].
    replace (length (y_ c)) with (length (x_ c)) by lia.
    apply map_ext_in. intros e He. apply digits_value_decimal, (Hin e He).
  - transitivity (map (fun e => nth e (w_ c) 0%Z) (seq 0 (length (w_ c))));
      [|apply map_nth_seq].
    replace (length (w_ c)) with (length (x_ c)) by lia.
    apply map_ext_in. intros e He. apply digits_value_decimal, (Hin e He).
Qed.

(** X24: [COO::write] of a COO with weights of an integral type, labels and
    weights not negative, leaves the lines [x y w] of the edges in the
    order of the arrays, and [read_el_] with weights reads that text back
    to the same three arrays and the same [m], whatever the numbers of
    threads on either side. *)
Theorem COO_write_then_read_el_gives_back_the_weights :
  forall (L O T : IntType) (junk : Junk Z) (P1 : nat) (share : nat -> list nat) (P2 : nat)
         (c : COO Z) (fn : list ascii),
    Forall (fun v => (0 <= v < upper L)%Z) (x_ c) ->
    Forall (fun v => (0 <= v < upper L)%Z) (y_ c) ->
    Forall (fun v => (0 <= v < upper T)%Z) (w_ c) ->
    length (x_ c) = Z.to_nat (m_ c) -> length (y_ c) = Z.to_nat (m_ c) ->
    length (w_ c) = Z.to_nat (m_ c) ->
    (0 < m_ c)%Z -> fits O (m_ c) ->
    concat (map share (seq 0 P1)) = seq 0 (Z.to_nat (m_ c)) ->
    0 < P2 ->
    exists f : File,
      COO_write true L numeral P1 share c fn = Ok f
      /\ data_ f = coo_wtext c /\ size_ f = length (data_ f)
      /\ let c' := read_el_ (data_ f) false false false true L O (unsigned_weight T) P2
                     junk fresh (reader f) in
         x_ c' = x_ c /\ y_ c' = y_ c /\ w_ c' = w_ c /\ m_ c' = m_ c.
Proof. exact COO_wtext_round_trip. Qed.

Lemma COO_write_then_read_el_gives_back_the_weights_witness :
  exists f : File,
    COO_write true uint32_t numeral 2 two_shares three_wedges (bytes_of "g.el") = Ok f
    /\ data_ f = coo_wtext three_wedges /\ size_ f = length (data_ f)
    /\ let c' := read_el_ (data_ f) false false false true uint32_t uint32_t
                   (unsigned_weight uint32_t) 3 zero_junk fresh (reader f) in
       x_ c' = x_ three_wedges /\ y_ c' = y_ three_wedges /\ w_ c' = w_ three_wedges
       /\ m_ c' = m_ three_wedges.
Proof.
  apply (COO_write_then_read_el_gives_back_the_weights uint32_t uint32_t uint32_t
           zero_junk 2 two_shares 3 three_wedges (bytes_of "g.el")).
  - repeat constructor; vm_compute; congruence.
  - repeat constructor; vm_compute; congruence.
  - repeat constructor; vm_compute; congruence.
  - reflexivity.
  - reflexivity.
  - reflexivity.
  - reflexivity.
  - reflexivity.
  - reflexivity.
  - lia.
Defined.

(** ** [split_cvs_write] *)

Section CSVLines.
Variables (L O : IntType).
Context {W : Type}.
Variable c : COO W.
Variable edgeIDs : bool.
Hypothesis Hx : Forall (writable L) (x_ c).
Hypothesis Hy : Forall (writable L) (y_ c).
Hypothesis Hxm : length (x_ c) = Z.to_nat (m_ c).
Hypothesis Hym : length (y_ c) = Z.to_nat (m_ c).
Hypothesis Hm : (0 <= m_ c < upper O)%Z.

Lemma csv_entry_line (buf : list ascii) (p e : nat) :
  e < Z.to_nat (m_ c) ->
  csv_write_entry L O c edgeIDs (buf, p) e
  = (blit buf p (csv_line c edgeIDs e), p + length (csv_line c edgeIDs e))
  /\ csv_entry_size L O c edgeIDs e = length (csv_line c edgeIDs e).
Proof.
  intros He.
  assert (Hxe : writable L (nth e (x_ c) 0%Z))
    by (apply (proj1 (List.Forall_nth (writable L) (x_ c)) Hx); lia).
  assert (Hye : writable L (nth e (y_ c) 0%Z))
    by (apply (proj1 (List.Forall_nth (writable L) (y_ c)) Hy); lia).
  assert (Hee : writable O (Z.of_nat e)) by (apply nonneg_writable; lia).
  set (xy := ["v"%char] ++ numeral (nth e (x_ c) 0%Z) ++ [","%char]
             ++ ["v"%char] ++ numeral (nth e (y_ c) 0%Z) ++ line_end).
  assert (Hxy : forall buf p,
             put_string
               (write_ascii L
                  (put (put (write_ascii L (put (buf, p) "v"%char) (nth e (x_ c) 0%Z))
                          ","%char) "v"%char)
                  (nth e (y_ c) 0%Z)) line_end
             = (blit buf p xy, p + length xy)).
  { intros b q. rewrite put_blit.
    destruct (write_ascii_numeral L (blit b q ["v"%char]) (q + 1) _ Hxe) as [-> Hlx].
    rewrite !put_blit.
    match goal with |- context [write_ascii L (?b', ?q') (nth e (y_ c) 0%Z)] =>
      destruct (write_ascii_numeral L b' q' _ Hye) as [-> Hly] end.
    rewrite put_string_blit. unfold xy.
    rewrite !blit_app, !length_app, <- Hlx, <- Hly. cbn [length].
    f_equal; try lia; repeat (f_equal; try lia). }
  assert (Hlxy : ell false + write_size L (nth e (x_ c) 0%Z)
                 + write_size L (nth e (y_ c) 0%Z) = length xy).
  { destruct (write_ascii_numeral L [] 0 _ Hxe) as [_ Hlx].
    destruct (write_ascii_numeral L [] 0 _ Hye) as [_ Hly].
    unfold xy, ell. rewrite !length_app, <- Hlx, <- Hly. cbn [length]. lia. }
  unfold csv_write_entry, csv_entry_size, csv_line. fold xy.
  destruct edgeIDs.
  - rewrite put_blit.
    destruct (write_ascii_numeral O (blit buf p ["e"%char]) (p + 1) _ Hee) as [-> Hle].
    rewrite put_blit, Hxy.
    split.
    + rewrite !blit_app, !length_app, <- Hle. cbn [length].
      f_equal; try lia; repeat (f_equal; try lia).
    + rewrite !length_app, <- Hle, <- Hlxy. unfold ell. cbn [length]. lia.
  - rewrite Hxy. cbn [app]. split; [reflexivity|].
    rewrite <- Hlxy. unfold ell. lia.
Qed.
End CSVLines.

Section CSVFiles.
Variables (L O : IntType).
Context {W : Type}.
Variable c : COO W.
Variable edgeIDs : bool.
Hypothesis Hx : Forall (writable L) (x_ c).
Hypothesis Hy : Forall (writable L) (y_ c).
Hypothesis Hxm : length (x_ c) = Z.to_nat (m_ c).
Hypothesis Hym : length (y_ c) = Z.to_nat (m_ c).
Variable edge_per_file : Z.
Hypothesis Hepf : (0 < edge_per_file)%Z.
Hypothesis Hm : (0 <= m_ c /\ m_ c + edge_per_file < upper O)%Z.
Variables (P : nat) (share : nat -> nat -> nat -> list nat).
Hypothesis Hsched :
  forall start end', start <= end' ->
    concat (map (share start end') (seq 0 P)) = seq start (end' - start).
Variable fn : list ascii.

Let M : nat := Z.to_nat (m_ c).
Let E : nat := Z.to_nat edge_per_file.

Lemma csv_file_content (fcnt start end' : nat) :
  start <= end' <= M ->
  csv_file L O P share c fn edgeIDs fcnt start end'
  = Ok (mkFile (csv_name fn fcnt)
          (csv_header edgeIDs ++ flat_map (csv_line c edgeIDs) (seq start (end' - start)))
          (length (csv_header edgeIDs
                   ++ flat_map (csv_line c edgeIDs) (seq start (end' - start))))
          (length (csv_header edgeIDs))).
Proof.
  intros Hse.
  assert (Hline : forall buf p e, e < M ->
            csv_write_entry L O c edgeIDs (buf, p) e
            = (blit buf p (csv_line c edgeIDs e), p + length (csv_line c edgeIDs e))
            /\ csv_entry_size L O c edgeIDs e = length (csv_line c edgeIDs e))
    by (intros buf p e He; apply csv_entry_line; try assumption; lia).
  assert (Hshare : forall t, t < P -> Forall (fun e => e < M) (share start end' t)).
  { intros t Ht. eapply Forall_weaken;
      [|apply (shares_in_range P (share start end') _ t (Hsched start end' (proj1 Hse)) Ht)].
    cbv beta. intros e He. apply in_seq in He. lia. }
  assert (Hh : 0 < length (csv_header edgeIDs))
    by (unfold csv_header; rewrite length_app; cbn [length]; lia).
  unfold csv_file. cbv zeta.
  rewrite (offsets_lines _ _ _ _ Hline P (share start end') Hshare P (Nat.le_refl _)).
  rewrite (Hsched start end' (proj1 Hse)).
  set (lines := flat_map (csv_line c edgeIDs) (seq start (end' - start))).
  rewrite File_open_write by lia. cbn [fn_ size_ fp_ data_].
  rewrite put_string_blit.
  rewrite (threads_write_lines _ _ _ _ Hline P (share start end') Hshare _
             (0 + length (csv_header edgeIDs)) P (Nat.le_refl _)).
  rewrite (Hsched start end' (proj1 Hse)). fold lines.
  rewrite <- blit_app, blit_whole
    by (rewrite !length_app, repeat_length; cbn [length]; lia).
  rewrite length_app. reflexivity.
Qed.

Let file_of (k : nat) : File :=
  mkFile (csv_name fn k) (csv_content c edgeIDs E M k)
         (length (csv_content c edgeIDs E M k)) (length (csv_header edgeIDs)).

Lemma split_loop_rounds (n : nat) :
  forall (k fuel : nat) (files : list File),
    k + n = M / E + 1 -> n < fuel ->
    split_loop L O P share c fn edge_per_file edgeIDs fuel (Z.of_nat (k * E)) k files
    = Some (Ok (files ++ map file_of (seq k n))).
Proof.
  assert (HE : 0 < E) by (unfold E; lia).
  assert (HEz : Z.of_nat E = edge_per_file) by (unfold E; lia).
  assert (HMz : Z.of_nat M = m_ c) by (unfold M; lia).
  pose proof (Nat.Div0.mul_div_le M E) as Hlo.
  pose proof (Nat.mul_succ_div_gt M E ltac:(lia)) as Hhi.
  induction n as [|n IH]; intros k fuel files Hk Hfuel;
    (destruct fuel as [|fuel]; [lia|]); cbn [split_loop].
  - assert (Hgt : M < k * E) by (replace k with (S (M / E)) by lia; lia).
    replace (Z.of_nat (k * E) <=? m_ c)%Z with false
      by (symmetry; apply Z.leb_gt; lia).
    cbn [seq map]. rewrite app_nil_r. reflexivity.
  - assert (Hle : k * E <= M).
    { assert (k <= M / E) by lia.
      etransitivity; [apply Nat.mul_le_mono_r; eassumption|]. lia. }
    replace (Z.of_nat (k * E) <=? m_ c)%Z with true
      by (symmetry; apply Z.leb_le; lia).
    rewrite wrap_small by lia.
    rewrite Nat2Z.id.
    replace (Z.to_nat (Z.min (m_ c) (Z.of_nat (k * E) + edge_per_file)))
      with (Nat.min M (k * E + E)) by lia.
    rewrite csv_file_content by lia.
    replace (Z.of_nat (k * E) + edge_per_file)%Z with (Z.of_nat (S k * E)) by lia.
    rewrite (IH (S k) fuel) by lia.
    cbn [seq map]. rewrite <- app_assoc. reflexivity.
Qed.

Lemma split_cvs_write_files (fuel : nat) :
  M / E + 1 < fuel ->
  split_cvs_write L O P share c fn edge_per_file edgeIDs fuel
  = Some (Ok (map file_of (seq 0 (M / E + 1)))).
Proof.
  intros Hf. unfold split_cvs_write.
  apply (split_loop_rounds (M / E + 1) 0 fuel []); lia.
Qed.
End CSVFiles.

(** With [edge_per_file = 0] the loop never ends. *)
Lemma split_loop_forever (L O : IntType) {W : Type} (P : nat)
    (share : nat -> nat -> nat -> list nat) (c : COO W) (fn : list ascii)
    (edgeIDs : bool) (fuel : nat) :
  (0 <= m_ c)%Z ->
  forall (fcnt : nat) (files : list File),
    split_loop L O P share c fn 0 edgeIDs fuel 0%Z fcnt files = None.
Proof.
  intros Hm. induction fuel as [|fuel IH]; intros fcnt files; [reflexivity|].
  cbn [split_loop].
  replace (0 <=? m_ c)%Z with true by (symmetry; apply Z.leb_le; exact Hm).
  change (0 + 0)%Z with 0%Z. rewrite wrap_0.
  replace (Z.to_nat (Z.min (m_ c) 0)) with 0 by lia. cbn [Z.to_nat].
  unfold csv_file at 1. cbv zeta.
  rewrite File_open_write
    by (unfold csv_header; rewrite length_app; cbn [length]; lia).
  rewrite put_string_blit. apply IH.
Qed.

Lemma halves_schedule (start end' : nat) :
  start <= end' -> concat (map (halves start end') (seq 0 2)) = seq start (end' - start).
Proof.
  intros _. cbn [seq map concat halves]. rewrite app_nil_r, <- seq_app. f_equal.
  pose proof (Nat.Div0.mul_div_le (end' - start) 2). lia.
Qed.

(** X25: [split_cvs_write] with [edge_per_file > 0] writes [m / edge_per_file + 1]
    files, named [fn.0.csv], [fn.1.csv], ...: file [k] holds the header
    line and then the lines of the edges [k * edge_per_file] up to (not
    including) [min (m, (k+1) * edge_per_file)], in the order of the
    arrays, whatever the number of threads.  When [edge_per_file]
    divides [m] (an empty COO included) the last file holds the header
    only. *)
Theorem split_cvs_write_gives_the_csv_files :
  forall (L O : IntType) (W : Type) (c : COO W) (edgeIDs : bool) (edge_per_file : Z)
         (P : nat) (share : nat -> nat -> nat -> list nat) (fn : list ascii) (fuel : nat),
    Forall (writable L) (x_ c) -> Forall (writable L) (y_ c) ->
    length (x_ c) = Z.to_nat (m_ c) -> length (y_ c) = Z.to_nat (m_ c) ->
    (0 < edge_per_file)%Z ->
    (0 <= m_ c /\ m_ c + edge_per_file < upper O)%Z ->
    (forall start end', start <= end' ->
       concat (map (share start end') (seq 0 P)) = seq start (end' - start)) ->
    Z.to_nat (m_ c) / Z.to_nat edge_per_file + 1 < fuel ->
    split_cvs_write L O P share c fn edge_per_file edgeIDs fuel
    = Some (Ok (map (fun k =>
                       mkFile (csv_name fn k)
                         (csv_content c edgeIDs (Z.to_nat edge_per_file) (Z.to_nat (m_ c)) k)
                         (length (csv_content c edgeIDs (Z.to_nat edge_per_file)
                                    (Z.to_nat (m_ c)) k))
                         (length (csv_header edgeIDs)))
                    (seq 0 (Z.to_nat (m_ c) / Z.to_nat edge_per_file + 1))))
    /\ (Z.to_nat (m_ c) mod Z.to_nat edge_per_file = 0 ->
        csv_content c edgeIDs (Z.to_nat edge_per_file) (Z.to_nat (m_ c))
          (Z.to_nat (m_ c) / Z.to_nat edge_per_file)
        = csv_header edgeIDs).
Proof.
  intros L O W c edgeIDs epf P share fn fuel Hx Hy Hxm Hym Hepf Hm Hsched Hfuel.
  split; [apply split_cvs_write_files; assumption|].
  intros Hmod. unfold csv_content.
  pose proof (Nat.Div0.div_mod (Z.to_nat (m_ c)) (Z.to_nat epf)) as Hdm.
  rewrite Hmod, Nat.add_0_r, Nat.mul_comm in Hdm. rewrite <- Hdm.
  replace (Nat.min (Z.to_nat (m_ c)) (Z.to_nat (m_ c) + Z.to_nat epf) - Z.to_nat (m_ c))
    with 0 by lia.
  cbn [seq flat_map]. apply app_nil_r.
Qed.

Lemma split_cvs_write_gives_the_csv_files_witness :
  split_cvs_write uint32_t uint32_t 2 halves three_edges (bytes_of "out") 3 true 5
  = Some (Ok (map (fun k =>
                     mkFile (csv_name (bytes_of "out") k)
                       (csv_content three_edges true (Z.to_nat 3)
                          (Z.to_nat (m_ three_edges)) k)
                       (length (csv_content three_edges true (Z.to_nat 3)
                                  (Z.to_nat (m_ three_edges)) k))
                       (length (csv_header true)))
                  (seq 0 (Z.to_nat (m_ three_edges) / Z.to_nat 3 + 1))))
  /\ (Z.to_nat (m_ three_edges) mod Z.to_nat 3 = 0 ->
      csv_content three_edges true (Z.to_nat 3) (Z.to_nat (m_ three_edges))
        (Z.to_nat (m_ three_edges) / Z.to_nat 3)
      = csv_header true).
Proof.
  apply (split_cvs_write_gives_the_csv_files uint32_t uint32_t Z three_edges true 3 2
           halves (bytes_of "out") 5).
  - repeat constructor; vm_compute; congruence.
  - repeat constructor; vm_compute; congruence.
  - reflexivity.
  - reflexivity.
  - lia.
  - vm_compute. split; [discriminate | reflexivity].
  - exact halves_schedule.
  - vm_compute. lia.
Defined.

(** X26: [split_cvs_write] with [edge_per_file = 0] does not return:
    [start] stays 0, so the loop condition [start <= m_] holds in every
    round, and every round writes one more file (which holds the header
    only).  No number of rounds ends the loop. *)
Theorem split_cvs_write_of_zero_edges_per_file_does_not_end :
  forall (L O : IntType) (W : Type) (c : COO W) (edgeIDs : bool) (P : nat)
         (share : nat -> nat -> nat -> list nat) (fn : list ascii),
    (0 <= m_ c)%Z ->
    forall fuel : nat,
      split_cvs_write L O P share c fn 0 edgeIDs fuel = None.
Proof.
  intros L O W c edgeIDs P share fn Hm fuel. unfold split_cvs_write.
  apply split_loop_forever, Hm.
Qed.

Lemma split_cvs_write_of_zero_edges_per_file_does_not_end_witness :
  split_cvs_write uint32_t uint32_t 2 halves three_edges (bytes_of "out") 0 true 1000 = None.
Proof.
  apply (split_cvs_write_of_zero_edges_per_file_does_not_end uint32_t uint32_t Z
           three_edges true 2 halves (bytes_of "out")).
  vm_compute. discriminate.
Defined.

(** ** [count_spaces_to_eol] on a line of numbers *)

Lemma field_ok_inv (f : numfield) :
  field_ok f = true ->
  f_num f <> [] /\ is_digit (nth 0 (f_num f) zero) = true
  /\ forallb is_digit_dot (f_num f) = true /\ forallb is_space (f_sp f) = true.
Proof.
  unfold field_ok. intros H. apply andb_prop in H as [H Hs]. apply andb_prop in H as [Hd Hn].
  repeat split; try assumption. intros E. rewrite E in Hd. discriminate Hd.
Qed.

Lemma fields_head_digit (fs : list numfield) (rest : list ascii) :
  fs <> [] -> forallb field_ok fs = true ->
  is_digit (nth 0 (render_fields fs ++ rest) zero) = true.
Proof.
  intros Hne Hok. destruct fs as [|f fs]; [congruence|].
  cbn [forallb] in Hok. apply andb_prop in Hok as [Hf _].
  destruct (field_ok_inv f Hf) as (Hn & Hd & _).
  unfold render_fields. cbn [map concat].
  destruct (f_num f) as [|a num]; [congruence|]. exact Hd.
Qed.

Lemma count_spaces_fields (data : list ascii) (e : nat) (rest : list ascii) :
  forall (fs : list numfield) (fuel ct p : nat),
    fs <> [] -> forallb field_ok fs = true -> separated fs = true ->
    drop p data = render_fields fs ++ NL :: rest ->
    p + length (render_fields fs) < e ->
    length fs <= fuel ->
    count_spaces_loop data fuel ct (mkReader p e)
    = (ct + length fs - 1, mkReader (p + length (render_fields fs)) e).
Proof.
  induction fs as [|f fs IH]; intros fuel ct p Hne Hok Hsep Hd He Hfuel; [congruence|].
  destruct fuel as [|fuel]; [cbn in Hfuel; lia|].
  cbn [forallb] in Hok. apply andb_prop in Hok as [Hf Hok].
  destruct (field_ok_inv f Hf) as (Hn & Hdig & Hnum & Hsp).
  change (render_fields (f :: fs)) with ((f_num f ++ f_sp f) ++ render_fields fs) in *.
  rewrite !length_app in He. rewrite <- !app_assoc in Hd.
  assert (Hat : at_ data p = nth 0 (f_num f) zero).
  { rewrite (at_hd data p _ Hd). destruct (f_num f); [congruence | reflexivity]. }
  assert (Hnext : is_digit_dot (nth 0 (f_sp f ++ render_fields fs ++ NL :: rest) zero) = false).
  { destruct (f_sp f) as [|a sp] eqn:Esp.
    - destruct fs as [|f' fs']; [reflexivity|].
      cbn [separated] in Hsep. rewrite Esp in Hsep. discriminate Hsep.
    - cbn [forallb] in Hsp. apply andb_prop in Hsp as [Ha _].
      unfold is_space in Ha. apply Ascii.eqb_eq in Ha. subst a. reflexivity. }
  cbn [count_spaces_loop]. unfold good. cbn [d end_].
  rewrite (proj2 (Nat.ltb_lt p e)) by lia.
  rewrite Hat.
  assert (Hnl : is_nl (nth 0 (f_num f) zero) = false)
    by (apply negb_true_iff, digit_not_nl, Hdig).
  rewrite Hnl. cbn [negb andb].
  (* nothing to skip in front of the number *)
  assert (Hstay : skip_while data before_int (mkReader p e) = mkReader p e).
  { unfold skip_while, set_d. cbn [d end_].
    destruct (e - p) as [|g] eqn:Eg; [lia|]. cbn [advance_while].
    rewrite Hat. unfold before_int. rewrite Hdig, !andb_false_r. reflexivity. }
  rewrite Hstay. cbn [d]. rewrite Hat, Hdig. cbn [negb].
  (* the number *)
  assert (Hover : skip_while data is_digit_dot (mkReader p e)
                  = mkReader (p + length (f_num f)) e).
  { unfold skip_while, set_d. cbn [d end_].
    rewrite (advance_while_over data is_digit_dot (f_num f) p e _ Hd Hnum ltac:(lia));
      [reflexivity|]. right. exact Hnext. }
  rewrite Hover. cbn [d].
  pose proof (drop_step data p _ _ Hd) as Hd1.
  rewrite (at_hd data _ _ Hd1).
  destruct (f_sp f) as [|a sp] eqn:Esp.
  - (* the last number, the newline right behind it *)
    destruct fs as [|f' fs']; [|cbn [separated] in Hsep; rewrite Esp in Hsep; discriminate].
    cbn [render_fields map concat app length nth] in *.
    replace (is_nl NL) with true by reflexivity.
    rewrite !app_nil_r. f_equal. lia.
  - assert (Ha : a = SP).
    { cbn [forallb] in Hsp. apply andb_prop in Hsp as [Ha _].
      unfold is_space in Ha. apply Ascii.eqb_eq in Ha. exact Ha. }
    subst a. cbn [app nth].
    replace (is_nl SP) with false by reflexivity.
    replace (is_comment SP) with false by reflexivity.
    (* the spaces *)
    assert (Hlen : p + length (f_num f) + length (SP :: sp) + length (render_fields fs) + 1
                   <= length data).
    { assert (Hl : length (drop (p + length (f_num f)) data)
                   = length (SP :: sp) + (length (render_fields fs) + S (length rest)))
        by (rewrite Hd1, !length_app; cbn [length]; lia).
      rewrite length_drop in Hl. lia. }
    assert (Hsps : advance_while data is_space (length data - (p + length (f_num f)))
                     (p + length (f_num f))
                   = p + length (f_num f) + length (SP :: sp)).
    { apply (advance_while_over data is_space (SP :: sp) _ (length data)
               (render_fields fs ++ NL :: rest) Hd1 Hsp ltac:(lia)).
      right. destruct fs as [|f' fs']; [reflexivity|].
      cbn [forallb] in Hok. apply andb_prop in Hok as [Hf' _].
      destruct (field_ok_inv f' Hf') as (Hn' & Hd' & _).
      unfold render_fields. cbn [map concat].
      destruct (f_num f') as [|b num']; [congruence|]. cbn [app nth] in *.
      unfold is_space. destruct (Ascii.eqb_spec b SP) as [->|]; [discriminate Hd'|reflexivity]. }
    unfold set_d. cbn [d end_]. rewrite Hsps.
    pose proof (drop_step data _ _ _ Hd1) as Hd2.
    rewrite (at_hd data _ _ Hd2).
    destruct fs as [|f' fs'].
    + cbn [render_fields map concat app length nth] in *.
      replace (is_nl NL) with true by reflexivity.
      rewrite !app_nil_r, !length_app. cbn [length]. f_equal; [lia|]. f_equal. lia.
    + pose proof (fields_head_digit (f' :: fs') (NL :: rest) ltac:(discriminate) Hok) as Hhd.
      assert (Hnl' : is_nl (nth 0 (render_fields (f' :: fs') ++ NL :: rest) zero) = false)
        by (apply negb_true_iff, digit_not_nl, Hhd).
      rewrite Hnl', (digit_not_comment _ Hhd).
      rewrite (IH fuel (S ct) (p + length (f_num f) + length (SP :: sp))
                 ltac:(discriminate) Hok).
      * change (render_fields (f' :: fs'))
          with ((f_num f' ++ f_sp f') ++ render_fields fs').
        rewrite !length_app. cbn [length]. f_equal; try lia. f_equal. lia.
      * cbn [separated] in Hsep. apply andb_prop in Hsep as [_ Hsep]. exact Hsep.
      * exact Hd2.
      * cbn [length] in *. lia.
      * cbn [length] in *. lia.
Qed.

Lemma render_fields_length (fs : list numfield) :
  forallb field_ok fs = true -> length fs <= length (render_fields fs).
Proof.
  induction fs as [|f fs IH]; intros Hok; [cbn; lia|].
  cbn [forallb] in Hok. apply andb_prop in Hok as [Hf Hok].
  destruct (field_ok_inv f Hf) as (Hn & _).
  change (render_fields (f :: fs)) with ((f_num f ++ f_sp f) ++ render_fields fs).
  rewrite !length_app. specialize (IH Hok). cbn [length].
  destruct (f_num f); [congruence|]. cbn [length]. lia.
Qed.

(** X27: [count_spaces_to_eol] on a line of numbers (digits and dots, a
    digit first) separated by spaces, ended by a newline within the
    range: it returns the number of numbers less one, spaces before the
    newline not counted, and leaves the cursor on the newline. *)
Theorem count_spaces_to_eol_counts_the_numbers_less_one :
  forall (data : list ascii) (fs : list numfield) (rest : list ascii) (p e : nat),
    fs <> [] -> forallb field_ok fs = true -> separated fs = true ->
    drop p data = render_fields fs ++ NL :: rest ->
    p + length (render_fields fs) < e ->
    count_spaces_to_eol data (mkReader p e)
    = (length fs - 1, mkReader (p + length (render_fields fs)) e).
Proof.
  intros data fs rest p e Hne Hok Hsep Hd He. unfold count_spaces_to_eol.
  pose proof (render_fields_length fs Hok) as Hl.
  apply (count_spaces_fields data e rest fs _ 0 p Hne Hok Hsep Hd He).
  unfold size. cbn [d end_]. lia.
Qed.

Lemma count_spaces_to_eol_counts_the_numbers_less_one_witness :
  count_spaces_to_eol (text_of_lines ["10 2.5  7 "; "3 4"]%string) (mkReader 0 15)
  = (length [mkNumField (bytes_of "10") (bytes_of " ");
             mkNumField (bytes_of "2.5") (bytes_of "  ");
             mkNumField (bytes_of "7") (bytes_of " ")] - 1,
     mkReader (0 + length (render_fields
                             [mkNumField (bytes_of "10") (bytes_of " ");
                              mkNumField (bytes_of "2.5") (bytes_of "  ");
                              mkNumField (bytes_of "7") (bytes_of " ")])) 15).
Proof.
  apply (count_spaces_to_eol_counts_the_numbers_less_one
           (text_of_lines ["10 2.5  7 "; "3 4"]%string)
           [mkNumField (bytes_of "10") (bytes_of " ");
            mkNumField (bytes_of "2.5") (bytes_of "  ");
            mkNumField (bytes_of "7") (bytes_of " ")]
           (bytes_of "3 4" ++ [NL]) 0 15).
  - discriminate.
  - reflexivity.
  - reflexivity.
  - reflexivity.
  - vm_compute. lia.
Defined.


(** ** The turns of the threads in the second phase of [read_el_] *)

Lemma blit_insert_apart {A : Type} (src : list A) :
  forall (buf : list A) (pos i : nat) (x : A),
    i < pos \/ pos + length src <= i ->
    blit (<[i := x]> buf) pos src = <[i := x]> (blit buf pos src).
Proof.
  induction src as [|b src IH]; intros buf pos i x H; cbn [blit].
  - reflexivity.
  - cbn [length] in H. rewrite list_insert_insert_ne by lia. apply IH. lia.
Qed.

(** Two copies into ranges that do not meet can be made in either order. *)
Lemma blit_blit_comm {A : Type} (s1 : list A) :
  forall (s2 buf : list A) (a b : nat),
    a + length s1 <= b \/ b + length s2 <= a ->
    blit (blit buf a s1) b s2 = blit (blit buf b s2) a s1.
Proof.
  induction s1 as [|x s1 IH]; intros s2 buf a b H; cbn [blit].
  - reflexivity.
  - cbn [length] in H. rewrite IH by lia. f_equal. apply blit_insert_apart. lia.
Qed.

Lemma fold_blit_perm {A : Type} (pos : nat -> nat) (seg : nat -> list A) :
  (forall s t, s < t -> pos s + length (seg s) <= pos t) ->
  forall l l' : list nat, Permutation l l' -> NoDup l ->
  forall buf : list A,
    fold_left (fun buf t => blit buf (pos t) (seg t)) l buf
    = fold_left (fun buf t => blit buf (pos t) (seg t)) l' buf.
Proof.
  intros Hdisj l l' Hperm.
  induction Hperm as [|x l l' Hperm IH|x y l|l l' l'' H1 IH1 H2 IH2]; intros Hnd buf.
  - reflexivity.
  - cbn [fold_left]. apply IH. apply NoDup_cons_1_2 in Hnd. exact Hnd.
  - cbn [fold_left]. f_equal.
    assert (Hxy : x <> y).
    { apply NoDup_cons_1_1 in Hnd. intros ->. apply Hnd, list_elem_of_here. }
    apply blit_blit_comm.
    destruct (Nat.lt_ge_cases y x) as [Hlt|Hge].
    + left. apply Hdisj, Hlt.
    + right. apply Hdisj. lia.
  - rewrite IH1 by exact Hnd. apply IH2.
    rewrite <- H1. exact Hnd.
Qed.

Lemma fold_max_perm (f : nat -> Z) (l l' : list nat) :
  Permutation l l' ->
  forall m : Z,
    fold_left (fun m t => Z.max m (f t)) l m = fold_left (fun m t => Z.max m (f t)) l' m.
Proof.
  intros Hperm.
  induction Hperm as [|x l l' Hperm IH|x y l|l l' l'' H1 IH1 H2 IH2]; intros m.
  - reflexivity.
  - cbn [fold_left]. apply IH.
  - cbn [fold_left]. f_equal. lia.
  - rewrite IH1. apply IH2.
Qed.

Section Turns.
Variables (gap0 : list skipline) (bs : list block).
Hypothesis Hok : file_ok gap0 bs = true.
Variables (sym ut sl : bool) (L O : IntType).
Context {W : Type}.
Variables (wr : WeightReader W) (junk : Junk W).
Variable P : nat.
Hypothesis HP : 0 < P.

(** The second phase of thread [t], from any state of the arrays: the
    entries of its blocks are stored from its offset on. *)
Lemma pass2_thread_blocks (c : COO W) (mr mc : Z) (t : nat) :
  t < P ->
  exists c',
    pass2_thread (render_file gap0 bs) sym ut sl false L wr P
      (whole (render_file gap0 bs))
      (map (fun t => length (entries sym ut sl L (take (thread_block gap0 bs P (S t)) bs)))
           (seq 0 P))
      (c, mr, mc) t
    = (c',
       Z.max mr (max_over (map fst (first_emitted sym ut sl L
                   (take (thread_block gap0 bs P (S t) - thread_block gap0 bs P t)
                      (drop (thread_block gap0 bs P t) bs)))) 0),
       Z.max mc (max_over (map snd (first_emitted sym ut sl L
                   (take (thread_block gap0 bs P (S t) - thread_block gap0 bs P t)
                      (drop (thread_block gap0 bs P t) bs)))) 0))
    /\ stored c c' (length (entries sym ut sl L (take (thread_block gap0 bs P t) bs)))
         (entries sym ut sl L
            (take (thread_block gap0 bs P (S t) - thread_block gap0 bs P t)
               (drop (thread_block gap0 bs P t) bs))).
Proof.
  intros Ht. unfold pass2_thread.
  rewrite (thread_range_blocks gap0 bs Hok P HP t Ht).
  assert (Hpos : (if 0 <? t
                  then nth (t - 1)
                         (map (fun t => length (entries sym ut sl L
                                                  (take (thread_block gap0 bs P (S t)) bs)))
                              (seq 0 P)) 0
                  else 0)
                 = length (entries sym ut sl L (take (thread_block gap0 bs P t) bs))).
  { destruct t as [|t']; [reflexivity|].
    cbn [Nat.ltb Nat.leb]. rewrite nth_map_seq by lia.
    replace (S t' - 1) with t' by lia. reflexivity. }
  rewrite Hpos. clear Hpos.
  set (k := thread_block gap0 bs P t) in *.
  set (m := thread_block gap0 bs P (S t) - k).
  assert (Hsplit : thread_block gap0 bs P (S t) = k + m)
    by apply (thread_blocks_split gap0 bs P HP t).
  assert (Hkm : k + m <= length bs).
  { rewrite <- Hsplit. apply (thread_block_le gap0 bs P HP). }
  assert (Hend : block_start gap0 bs (thread_block gap0 bs P (S t))
                 = block_start gap0 bs (k + m)) by (f_equal; exact Hsplit).
  rewrite Hend.
  unfold pass2, size. cbn [rd d end_].
  destruct (pass2_loop_blocks _ L sym ut sl wr _ _ _ _ (Nat.le_refl _) _ c
              (length (entries sym ut sl L (take k bs))) 0%Z 0%Z _
              (in_front_range gap0 bs Hok k m Hkm) (Nat.le_refl _))
    as (c2 & -> & Hst2).
  exists c2. cbn [this max_row max_col]. split; [reflexivity | exact Hst2].
Qed.

(** The second phase with the threads taking their turns in any order. *)
Lemma pass2_order (order : list nat) :
  Forall (fun t => t < P) order ->
  forall (c : COO W) (mr mc : Z),
  exists c',
    fold_left
      (pass2_thread (render_file gap0 bs) sym ut sl false L wr P
         (whole (render_file gap0 bs))
         (map (fun t => length (entries sym ut sl L (take (thread_block gap0 bs P (S t)) bs)))
              (seq 0 P)))
      order (c, mr, mc)
    = (c',
       fold_left (fun m t => Z.max m (max_over (map fst (first_emitted sym ut sl L
                    (take (thread_block gap0 bs P (S t) - thread_block gap0 bs P t)
                       (drop (thread_block gap0 bs P t) bs)))) 0)) order mr,
       fold_left (fun m t => Z.max m (max_over (map snd (first_emitted sym ut sl L
                    (take (thread_block gap0 bs P (S t) - thread_block gap0 bs P t)
                       (drop (thread_block gap0 bs P t) bs)))) 0)) order mc)
    /\ x_ c' = fold_left
                 (fun buf t =>
                    blit buf (length (entries sym ut sl L (take (thread_block gap0 bs P t) bs)))
                      (map fst (entries sym ut sl L
                         (take (thread_block gap0 bs P (S t) - thread_block gap0 bs P t)
                            (drop (thread_block gap0 bs P t) bs)))))
                 order (x_ c)
    /\ y_ c' = fold_left
                 (fun buf t =>
                    blit buf (length (entries sym ut sl L (take (thread_block gap0 bs P t) bs)))
                      (map snd (entries sym ut sl L
                         (take (thread_block gap0 bs P (S t) - thread_block gap0 bs P t)
                            (drop (thread_block gap0 bs P t) bs)))))
                 order (y_ c)
    /\ w_ c' = w_ c /\ m_ c' = m_ c.
Proof.
  induction order as [|t order IH]; intros Hall c mr mc.
  - exists c. cbn. auto.
  - apply Forall_cons_1 in Hall. destruct Hall as [Ht Hall].
    destruct (pass2_thread_blocks c mr mc t Ht) as (c1 & Hthr & Hx1 & Hy1 & Hw1 & Hm1).
    cbn [fold_left]. rewrite Hthr.
    match goal with |- context [fold_left _ order (c1, ?a, ?b)] =>
      destruct (IH Hall c1 a b) as (c2 & -> & Hx2 & Hy2 & Hw2 & Hm2) end.
    exists c2. split; [reflexivity|].
    rewrite Hx2, Hy2, Hw2, Hm2, Hx1, Hy1, Hw1, Hm1. auto.
Qed.

(** The ranges of the arrays that two threads fill do not meet. *)
Lemma thread_offsets_apart (s t : nat) :
  s < t ->
  length (entries sym ut sl L (take (thread_block gap0 bs P s) bs))
  + length (entries sym ut sl L
              (take (thread_block gap0 bs P (S s) - thread_block gap0 bs P s)
                 (drop (thread_block gap0 bs P s) bs)))
  <= length (entries sym ut sl L (take (thread_block gap0 bs P t) bs)).
Proof.
  intros Hst.
  assert (Hstep : forall u,
            length (entries sym ut sl L (take (thread_block gap0 bs P u) bs))
            + length (entries sym ut sl L
                        (take (thread_block gap0 bs P (S u) - thread_block gap0 bs P u)
                           (drop (thread_block gap0 bs P u) bs)))
            = length (entries sym ut sl L (take (thread_block gap0 bs P (S u)) bs))).
  { intros u. rewrite <- length_app, <- entries_take_add.
    rewrite <- (thread_blocks_split gap0 bs P HP u). reflexivity. }
  rewrite Hstep.
  induction Hst as [|t Hst IH].
  - lia.
  - rewrite <- (Hstep t). lia.
Qed.

(** For a text without weights the order of the turns makes no
    difference to what [read_el_] leaves. *)
Lemma read_el_order_perm (order : list nat) :
  Permutation order (seq 0 P) ->
  let data := render_file gap0 bs in
  let c := read_el_order data sym ut sl false L O wr order P junk fresh (whole data) in
  let c' := read_el_ data sym ut sl false L O wr P junk fresh (whole data) in
  x_ c = x_ c' /\ y_ c = y_ c' /\ w_ c = w_ c' /\ m_ c = m_ c'
  /\ nrows_ c = nrows_ c' /\ ncols_ c = ncols_ c' /\ n_ c = n_ c'.
Proof.
  intros Hperm data c c'. subst c c' data. unfold read_el_, read_el_order. cbv zeta.
  rewrite (nl_offsets_blocks gap0 bs Hok sym ut sl L wr P HP).
  set (c0 := allocate_ false junk _).
  assert (Hall : Forall (fun t => t < P) (seq 0 P)).
  { apply List.Forall_forall. intros t Ht. apply in_seq in Ht. lia. }
  assert (Hall' : Forall (fun t => t < P) order).
  { apply List.Forall_forall. intros t Ht.
    apply (Permutation_in _ Hperm), in_seq in Ht. lia. }
  destruct (pass2_order order Hall' c0 0%Z 0%Z) as (c1 & -> & Hx1 & Hy1 & Hw1 & Hm1).
  destruct (pass2_order (seq 0 P) Hall c0 0%Z 0%Z) as (c2 & -> & Hx2 & Hy2 & Hw2 & Hm2).
  assert (Hnd : NoDup order).
  { rewrite Hperm. apply NoDup_seq. }
  assert (Hdx : forall s t, s < t ->
            length (entries sym ut sl L (take (thread_block gap0 bs P s) bs))
            + length (map fst (entries sym ut sl L
                        (take (thread_block gap0 bs P (S s) - thread_block gap0 bs P s)
                           (drop (thread_block gap0 bs P s) bs))))
            <= length (entries sym ut sl L (take (thread_block gap0 bs P t) bs)))
    by (intros s t Hst; rewrite length_map; apply thread_offsets_apart, Hst).
  assert (Hdy : forall s t, s < t ->
            length (entries sym ut sl L (take (thread_block gap0 bs P s) bs))
            + length (map snd (entries sym ut sl L
                        (take (thread_block gap0 bs P (S s) - thread_block gap0 bs P s)
                           (drop (thread_block gap0 bs P s) bs))))
            <= length (entries sym ut sl L (take (thread_block gap0 bs P t) bs)))
    by (intros s t Hst; rewrite length_map; apply thread_offsets_apart, Hst).
  rewrite (fold_blit_perm _ _ Hdx order (seq 0 P) Hperm Hnd) in Hx1.
  rewrite (fold_blit_perm _ _ Hdy order (seq 0 P) Hperm Hnd) in Hy1.
  rewrite !(fold_max_perm _ order (seq 0 P) Hperm).
  cbn [x_ y_ w_ m_ nrows_ ncols_ n_ set_n set_ncols set_nrows].
  rewrite Hx1, Hy1, Hw1, Hm1, Hx2, Hy2, Hw2, Hm2. split_ands; reflexivity.
Qed.
End Turns.

(** X29: On a text made of comment lines, lines without a digit and record
    lines [x sep y rest], every line ended by a newline, read without
    weights, the arrays depend neither on the number of threads nor on
    the order in which the threads take their turns in the second phase:
    for every [P >= 1], every order of the [P] threads and all flags they
    hold the entries of the records in the order of the lines, which is
    what one thread alone stores; the counts and the dimensions agree as
    well. *)
Theorem unweighted_arrays_do_not_depend_on_the_threads :
  forall (sym ut sl : bool) (L O : IntType) (W : Type) (wr : WeightReader W)
         (junk : Junk W) (gap0 : list skipline) (bs : list block) (P : nat)
         (order : list nat),
    file_ok gap0 bs = true -> 0 < P -> Permutation order (seq 0 P) ->
    fits O (Z.of_nat (length (entries sym ut sl L bs))) ->
    let data := render_file gap0 bs in
    let c := read_el_order data sym ut sl false L O wr order P junk fresh (whole data) in
    let c1 := read_el_ data sym ut sl false L O wr 1 junk fresh (whole data) in
    x_ c = map fst (entries sym ut sl L bs)
    /\ y_ c = map snd (entries sym ut sl L bs)
    /\ w_ c = []
    /\ m_ c = Z.of_nat (length (entries sym ut sl L bs))
    /\ x_ c = x_ c1 /\ y_ c = y_ c1 /\ w_ c = w_ c1 /\ m_ c = m_ c1
    /\ nrows_ c = nrows_ c1 /\ ncols_ c = ncols_ c1 /\ n_ c = n_ c1.
Proof.
  intros sym ut sl L O W wr junk gap0 bs P order Hok HP Hperm Hfit data c c1.
  destruct (read_el_order_perm gap0 bs Hok sym ut sl L O wr junk P HP order Hperm)
    as (Ex & Ey & Ew & Em & Er & Ec & En).
  destruct (read_el_blocks gap0 bs Hok sym ut sl L O wr junk P HP Hfit)
    as (Hx & Hy & Hw & Hm & Hr & Hc & Hn).
  destruct (read_el_blocks gap0 bs Hok sym ut sl L O wr junk 1 Nat.lt_0_1 Hfit)
    as (Hx1 & Hy1 & Hw1 & Hm1 & Hr1 & Hc1 & Hn1).
  fold data in Ex, Ey, Ew, Em, Er, Ec, En, Hx, Hy, Hw, Hm, Hr, Hc, Hn,
               Hx1, Hy1, Hw1, Hm1, Hr1, Hc1, Hn1.
  fold c in Ex, Ey, Ew, Em, Er, Ec, En. fold c1 in Hx1, Hy1, Hw1, Hm1, Hr1, Hc1, Hn1.
  split_ands; congruence.
Qed.

(** Three records between a comment line, an empty line and a trailing
    comment, read under [sym] and [sl] by three threads of which the last
    has its turn first, and by one thread. *)
Lemma unweighted_arrays_do_not_depend_on_the_threads_witness :
  let data := render_file sample_gap sample_blocks in
  let c := read_el_order data true false true false uint32_t uint32_t
             (unsigned_weight uint32_t) [2; 0; 1] 3 zero_junk fresh (whole data) in
  let c1 := read_el_ data true false true false uint32_t uint32_t
              (unsigned_weight uint32_t) 1 zero_junk fresh (whole data) in
  x_ c = map fst (entries true false true uint32_t sample_blocks)
  /\ y_ c = map snd (entries true false true uint32_t sample_blocks)
  /\ w_ c = []
  /\ m_ c = Z.of_nat (length (entries true false true uint32_t sample_blocks))
  /\ x_ c = x_ c1 /\ y_ c = y_ c1 /\ w_ c = w_ c1 /\ m_ c = m_ c1
  /\ nrows_ c = nrows_ c1 /\ ncols_ c = ncols_ c1 /\ n_ c = n_ c1.
Proof.
  apply (unweighted_arrays_do_not_depend_on_the_threads true false true uint32_t uint32_t Z
           (unsigned_weight uint32_t) zero_junk sample_gap sample_blocks 3 [2; 0; 1]).
  - reflexivity.
  - lia.
  - cbn [seq]. eapply perm_trans; [apply perm_swap | apply perm_skip, perm_swap].
  - reflexivity.
Defined.
